(* ===== verification/_CoqProject ===== *)
-Q . S2P
Prelude.v
Io.v
Types.v
Vlq.v
Frame.v
Handshake.v
Messages.v
Peer.v
PeerTable.v
InvTable.v
Tracker.v
Latency.v
Float.v
Router.v
RouterSpec.v
LatencyBounds.v
Stats.v
Wire.v
Connection.v
Config.v
Node.v
NodeInv.v
NodeSpec.v
Relay.v
NodeTypes.v
NodeSim.v
NodeRelay.v
NodeProgress.v
NodeDrain.v
Startup.v
