(* ===== verification/Prelude.v ===== *)
(** * ergo-proxy-node: a verification development

    The program is a proxy for the Ergo peer-to-peer network: it keeps outbound
    connections to full nodes, accepts inbound peers, and forwards protocol
    messages between the two sides. Its parts, bottom up, and the files here
    that model them (paths are relative to the repository's [src/]):

    - [types.rs]: [Types] (peer identifiers, versions, networks, directions);
    - [transport/vlq.rs]: [Vlq] (variable-length quantities, ZigZag, strings);
    - [transport/frame.rs]: [Frame] (magic, code, length, checksum, body);
    - [transport/handshake.rs]: [Handshake] (build, parse, measure, validate);
    - [transport/connection.rs]: [Connection] (handshake as initiator or
      responder over a buffered reader, then frames);
    - [protocol/messages.rs]: [Messages] (typed messages from and to frames);
    - [protocol/peer.rs]: [Peer] (events, and the lifecycle machine of a peer);
    - [routing/inv_table.rs], [routing/tracker.rs], [routing/latency.rs]:
      [InvTable], [Tracker], [Latency] (who announced what, pending requests,
      sync pairings, round-trip times), each a module with the type [t] of its
      state and a function per method;
    - [routing/router.rs]: [Router] (forwarding decisions over the four tables),
      its properties in [RouterSpec], what it does to the latency averages in
      [LatencyBounds], to the frames that go through it in [Wire];
    - [config.rs]: [Config] (checks on the configuration, version strings);
    - [main.rs]: [Startup] (from the command line to the listeners and tasks),
      [Stats] (the task that feeds rrdtool) and [Node] (the other tasks and
      their shared state).

    The proofs on [Node] are in seven files: [NodeInv] (its invariant), [NodeSpec]
    (properties of every interleaving), [NodeTypes] (the types of its state),
    [NodeSim] (the simulation of [Node] by the abstract relay of [Relay]),
    [NodeRelay] (what it guarantees end to end), [NodeProgress] (what it can be
    waiting for) and [NodeDrain] (that it finishes what it can do).

    Four files serve the others: this prelude (machine integers, tactics, the
    hint database [ergo], lists and maps), [Io] (errors, readers, cursors,
    buffered readers, writers), [PeerTable] (the interface between the
    router and its tables, and the unspecified iteration order of hash maps)
    and [Float] (bounds on rounded binary64 operations).

    ** How the code is modelled

    Definitions are executable and named after the functions they translate. A
    [u8], [u64] and so on is a [Z] with the reduction written out where the code
    casts or wraps; bytes and strings are lists of such integers (a string is
    its UTF-8 bytes). An [io::Result] is [io_result], whose errors name the
    messages the code formats. Code that reads is a function from a reader to a
    result and the reader after it ([Reader], with [let?] for the [?] operator);
    it is written once over the class [Read] and used at [Cursor] (slices) and
    [BufReader] (the socket, as the results of the reads it will serve). Methods
    on [&mut self] return the new state. A [HashMap] is a [gmap]; its iteration
    order is an argument of each call ([HashIter]), so theorems hold for every
    order. The clock, random bytes, BLAKE2b-256, the file system and the TOML
    decoder are arguments too; what is assumed of the digest (32 bytes) is the
    class [Blake2b256Laws]. [f64] is binary64 by the Standard Library's
    specification. The release build is modelled; debug assertions appear as
    booleans ([check_invariant]) or as a flag ([Peer]).

    [main.rs] is a labelled step relation: each definition of [Node] is what one
    task does between two points where it may wait, [exec] runs one labelled
    step, and [node_run] is any interleaving of them from the start. The label
    carries what the environment chooses. Sockets are part of the environment: a
    stream is given by the reads it will serve, of which [n_arrived] have arrived
    ([DoArrive]), and by the bytes it takes before it breaks, of which [ch_taken]
    of the frame being written are taken ([DoTaken]). [read_message] waits while
    the frame has not arrived ([waiting]), [writer_write] while it is not taken
    ([write_ends]); so a peer may be connected and silent, or stop reading.

    [Relay] says what the node is for, without tasks, sockets, channels or
    locks: each connected peer has the session still to be handled, the router
    handles one event of one session at a time, and its actions are appended to
    what the open peers were given. [refines] of [NodeSim] relates the two: the
    rest of a session is what is queued about the peer and what the bytes ahead
    of its reader encode; what a peer was given is what its writer wrote, holds
    and has queued.

    ** Fuel and bounds

    The loops over a VLQ have a fuel of ten turns: [write_vlq_total] shows that
    the bounded loop satisfies the equation of the unbounded one on every [u64],
    and [read_vlq_total] that the reader ends by a value or an error of the code
    on every input. Every other recursion is structural: on a count read from
    the wire, on a list, or on the reads a socket serves; [messages_in] of
    [Relay], which lists the messages in a string of bytes, has the number of
    bytes as fuel, and more fuel gives the same list ([messages_in_fuel]).
    Theorems on runs of the node are about fewer than 2^64 - 1 steps, before the
    peer counter wraps; those on the averages are about clocks below
    [CLOCK_END] and fewer than 2^53 peers.

    ** What the theorems show

    - [Vlq], [Frame], [Handshake], [Messages]: encoders and decoders are
      inverses, decoders accept exactly the encodings, streaming and slice
      decoders agree, size caps and errors are as documented.
    - [Connection]: no byte is lost between handshake and frames, nothing is
      sent to an inbound peer before it is validated, two proxies that
      handshake agree; a handshake split over two reads is refused.
    - [Peer]: the events of a peer form one session, in both builds, when every call
      is made in the state it documents; otherwise the debug build panics.
    - [InvTable], [Tracker], [Latency]: each is the map it documents; statistics
      and the fastest peer are right in any order, and in every state the router
      reaches ([LatencyBounds]) they are finite and within range.
    - [Wire]: what the router sends on because of a frame it received fits in a
      frame and is read back as it was.
    - [RouterSpec]: the tables name registered peers only, in every reachable
      state, proved against the interface [PeerTable]; fan-out, requests,
      responses and sync go where they should (what the code does against its
      contract, such as forwarding a light peer's block requests, is exhibited); a request is relayed end to end
      under any other traffic; and the one way in which an action can target a
      peer that is gone (a stale sync pairing) is exhibited and excluded.
    - [Config]: the configurations and version strings accepted.
    - [NodeSpec]: under every interleaving the router's precondition holds, each
      peer identifier has one ordered session, channels stay within capacity;
      the inbound limit can be exceeded, and a peer that stops reading stalls the
      event loop once an action for it meets a full channel.
    - [NodeTypes]: what the Rust types promise of the state holds in every run.
    - [NodeRelay]: the node refines the relay; the router is told exactly the
      well-formed frames a peer sends, up to the first malformed one, which ends
      the session, and a peer is sent exactly what it was given.
    - [NodeProgress]: only sockets can keep the node from going on: a socket that
      takes nothing, held to by the holder of the senders' lock, or, at rest,
      sockets at which nothing has arrived.
    - [NodeDrain]: without new connections, timers or anything at the sockets the
      node stops within a number of steps computed from its state, and at rest
      everything that has arrived is handled.
    - [Startup]: when the program starts, what it serves and which of the
      handshakes it sends are acceptable.
    - [Stats]: when the statistics task updates its database, and with what.

    ** Not modelled

    Logging, the [Display] of a peer identifier, which only logging uses, and
    socket errors other than the end of the stream and a failed write. A
    handshake is one step of its task, and the partial effects of a write that is
    aborted are not kept. The command line, the file system, the TOML decoder, the binding of an address
    and rrdtool are parameters. The keepalive and statistics timers and the
    sleeps of the outbound manager are steps that may happen at any time. The
    tests are not modelled; the handshake captured from a JVM node is evaluated
    in [Handshake]. *)

From Stdlib Require Export ZArith Lia.
From stdpp Require Export base list gmap strings.

#[global] Set Default Goal Selector "!".
#[global] Open Scope Z_scope.
#[export] Set Warnings "-clear-no-such-hyp".

(** ** Machine-width integers

    A [w]-bit unsigned integer is a [Z] in [0, 2^w); a cast is the reduction
    written out. *)

(** The truncating cast [x as uW]. *)
Definition as_unsigned (w x : Z) : Z := x mod 2 ^ w.

(** The wrapping cast [x as iW] (two's complement). *)
Definition as_signed (w x : Z) : Z :=
  let y := x mod 2 ^ w in if decide (y < 2 ^ (w - 1)) then y else y - 2 ^ w.

Definition in_unsigned (w x : Z) : Prop := 0 <= x < 2 ^ w.
Definition in_signed (w x : Z) : Prop := - 2 ^ (w - 1) <= x < 2 ^ (w - 1).

Abbreviation u8 := (in_unsigned 8).
Abbreviation u16 := (in_unsigned 16).
Abbreviation u32 := (in_unsigned 32).
Abbreviation u64 := (in_unsigned 64).
Abbreviation i32 := (in_signed 32).
Abbreviation i64 := (in_signed 64).

(** A byte string is a list of [u8]. *)
Abbreviation bytes_ok := (Forall u8).

#[global] Instance in_unsigned_dec w x : Decision (in_unsigned w x).
Proof. unfold in_unsigned. apply _. Defined.
#[global] Instance in_signed_dec w x : Decision (in_signed w x).
Proof. unfold in_signed. apply _. Defined.

(** ** Automation *)

Create HintDb ergo.

(** Turns the width predicates into linear inequalities over literals. *)
Ltac width :=
  unfold in_unsigned, in_signed, as_unsigned in *;
  change (2 ^ 8) with 256 in *; change (2 ^ 16) with 65536 in *;
  change (2 ^ 32) with 4294967296 in *;
  change (2 ^ 64) with 18446744073709551616 in *;
  change (2 ^ (32 - 1)) with 2147483648 in *;
  change (2 ^ (64 - 1)) with 9223372036854775808 in *.

Ltac solve_width := width; lia.

(** Closes a decidable closed goal by evaluating it. *)
Ltac by_decide := apply (bool_decide_unpack _); vm_compute; exact I.

(** ** Decisions *)

Lemma if_decide_ext {A} (P Q : Prop) `{!Decision P, !Decision Q} (x y : A) :
  (P <-> Q) -> (if decide P then x else y) = (if decide Q then x else y).
Proof. intros HPQ. repeat case_decide; tauto. Qed.

(** ** Lists *)

Lemma take_app_exact {A} n (l k : list A) : length l = n -> take n (l ++ k) = l.
Proof. intros <-. apply take_app_length. Qed.

Lemma drop_app_exact {A} n (l k : list A) : length l = n -> drop n (l ++ k) = k.
Proof. intros <-. apply drop_app_length. Qed.

Lemma list_filter_fmap {A B} (f : A -> B) (P : B -> Prop) `{!forall x, Decision (P x)} (l : list A) :
  filter P (f <$> l) = f <$> filter (fun x => P (f x)) l.
Proof.
  induction l as [|x l IH]; [done|]. rewrite fmap_cons, !filter_cons.
  case_decide; cbn; by rewrite IH.
Qed.

Lemma list_filter_ext_in {A} (P Q : A -> Prop) `{!forall x, Decision (P x), !forall x, Decision (Q x)}
    (l : list A) :
  (forall x, x ∈ l -> P x <-> Q x) -> filter P l = filter Q l.
Proof.
  induction l as [|x l IH]; intros HPQ; [done|]. rewrite !filter_cons.
  rewrite IH by (intros y Hy; apply HPQ; by right).
  specialize (HPQ x ltac:(left)). repeat case_decide; tauto.
Qed.

#[export] Hint Resolve Forall_nil_2 Forall_cons_2 Forall_app_2 : ergo.

(** ** Finite maps *)

(** [HashMap::retain]: keep the entries whose value satisfies the predicate. *)
Definition retain {K V} `{Countable K} (P : V -> bool) (m : gmap K V) : gmap K V :=
  filter (fun kv => P kv.2 = true) m.

Lemma lookup_retain_Some {K V} `{Countable K} (P : V -> bool) (m : gmap K V) k v :
  retain P m !! k = Some v <-> m !! k = Some v /\ P v = true.
Proof. unfold retain. by rewrite map_lookup_filter_Some. Qed.

