(* ===== verification/Io.v ===== *)
(** * The part of [std::io] and [tokio::io] the transport uses *)
From S2P Require Import Prelude.

(** ** Errors *)

(** [std::io::ErrorKind], restricted to the kinds the sources name. *)
Inductive ErrorKind :=
  | KUnexpectedEof | KInvalidData | KTimedOut | KConnectionReset | KBrokenPipe.

(** The two messages [handshake::validate_peer] formats. *)
Inductive reject :=
  | VersionBelowMinimum (major minor patch : Z)
  | SessionMagicMismatch (peer_magic expected : list Z).

(** An [io::Error] is a kind and a message; the constructors stand for the
    messages the sources format, with the values they format. *)
Inductive io_error :=
  | UnexpectedEof
  | VlqOverflow
  | VlqLengthTooLarge (val : Z)
  | InvalidUtf8
  | FrameTooShort (have : Z)
  | BadMagic (got : list Z)
  | BodyTooLarge (len : Z)
  | FrameTruncated (have need : Z)
  | ChecksumMismatch
  | HandshakeTimeout
  | EmptyHandshake
  | PeerRejected (reason : reject)
  | WriteFailed.

Definition error_kind (e : io_error) : ErrorKind :=
  match e with
  | UnexpectedEof => KUnexpectedEof
  | HandshakeTimeout => KTimedOut
  | EmptyHandshake => KConnectionReset
  | WriteFailed => KBrokenPipe
  | _ => KInvalidData
  end.

(** [io::Result]. *)
Inductive io_result (A : Type) :=
  | Ok (a : A)
  | Err (e : io_error).
Arguments Ok {A} a.
Arguments Err {A} e.

(** ** Readers *)

(** A computation that reads from a reader of type [R]: the result, and the
    reader afterwards. *)
Definition Reader (R A : Type) := R -> io_result A * R.

(** The trait [std::io::Read] (and [tokio::io::AsyncReadExt]), as far as the
    sources use it: fill a buffer of [n] bytes or fail. *)
Class Read (R : Type) := read_exact : nat -> Reader R (list Z).

Definition rret {R A} (a : A) : Reader R A := fun r => (Ok a, r).
Definition rfail {R A} (e : io_error) : Reader R A := fun r => (Err e, r).

(** Sequencing with the [?] operator: the first error is returned. *)
Definition rbind {R A B} (p : Reader R A) (k : A -> Reader R B) : Reader R B :=
  fun r => match p r with
           | (Ok a, r') => k a r'
           | (Err e, r') => (Err e, r')
           end.

(** A call whose error is inspected instead of propagated. *)
Definition rtry {R A} (p : Reader R A) : Reader R (io_result A) :=
  fun r => let (x, r') := p r in (Ok x, r').

Declare Scope reader_scope.
Delimit Scope reader_scope with reader.
Notation "'let?' x ':=' p 'in' q" := (rbind p (fun x => q))
  (at level 10, x name, p at level 100, q at level 200) : reader_scope.
Open Scope reader_scope.

(** [let mut b = [0u8; 1]; reader.read_exact(&mut b)?; b[0]]. *)
Definition read_u8 {R} `{Read R} : Reader R Z :=
  let? b := read_exact 1 in rret (b !!! 0%nat).

(** What a reader promises: it holds a byte sequence, hands it out in order,
    and fails with [UnexpectedEof] when fewer bytes are left than asked for.
    How many bytes a failing call consumes is left open. *)
Class ReadLaws (R : Type) `{Read R} := {
  view : R -> list Z;
  read_exact_ok : forall n r, (n <= length (view r))%nat ->
    exists r', read_exact n r = (Ok (take n (view r)), r') /\ view r' = drop n (view r);
  read_exact_short : forall n r, (length (view r) < n)%nat ->
    exists r', read_exact n r = (Err UnexpectedEof, r')
}.

(** ** What a reader program does with its bytes *)

Section readers.
Context {R : Type} `{ReadLaws R}.

(** [reads p bs a]: whenever the reader is positioned at [bs], whatever
    follows, [p] returns [a] and leaves the reader just after [bs]. *)
Definition reads {A} (p : Reader R A) (bs : list Z) (a : A) : Prop :=
  forall r rest, view r = bs ++ rest ->
    exists r', p r = (Ok a, r') /\ view r' = rest.

(** [framed p]: a successful run is determined by the bytes it consumed, so
    it is repeated whatever follows those bytes. *)
Definition framed {A} (p : Reader R A) : Prop :=
  forall r a r', p r = (Ok a, r') ->
    exists bs, view r = bs ++ view r' /\ reads p bs a.

Lemma reads_ret {A} (a : A) : reads (rret a) [] a.
Proof. intros r rest Hv. by exists r. Qed.

Lemma reads_bind {A B} (p : Reader R A) (k : A -> Reader R B) bs1 bs2 a b :
  reads p bs1 a -> reads (k a) bs2 b -> reads (rbind p k) (bs1 ++ bs2) b.
Proof.
  intros Hp Hk r rest Hv. rewrite <- app_assoc in Hv.
  destruct (Hp _ _ Hv) as (r1 & E1 & V1).
  destruct (Hk _ _ V1) as (r2 & E2 & V2).
  exists r2. unfold rbind. by rewrite E1.
Qed.

Lemma reads_bind_nil {A B} (p : Reader R A) (k : A -> Reader R B) bs a b :
  reads p bs a -> reads (k a) [] b -> reads (rbind p k) bs b.
Proof. intros Hp Hk. rewrite <- (app_nil_r bs). by eapply reads_bind. Qed.

Lemma reads_exact n bs : length bs = n -> reads (read_exact n) bs bs.
Proof.
  intros Hn r rest Hv.
  destruct (read_exact_ok n r) as (r' & E & V).
  { rewrite Hv, length_app. lia. }
  rewrite Hv, take_app_exact in E by done. rewrite Hv, drop_app_exact in V by done. eauto.
Qed.

Lemma reads_u8 b : reads read_u8 [b] b.
Proof. eapply reads_bind_nil; [by apply reads_exact|]. apply reads_ret. Qed.

(** A reader cannot be positioned at two readings of different results. *)
Lemma reads_det {A} (p : Reader R A) bs1 bs2 a1 a2 r rest1 rest2 :
  reads p bs1 a1 -> reads p bs2 a2 ->
  view r = bs1 ++ rest1 -> view r = bs2 ++ rest2 -> a1 = a2 /\ rest1 = rest2.
Proof.
  intros H1 H2 V1 V2.
  destruct (H1 _ _ V1) as (r1 & E1 & W1), (H2 _ _ V2) as (r2 & E2 & W2).
  rewrite E1 in E2. simplify_eq. done.
Qed.

Lemma framed_ret {A} (a : A) : framed (rret a).
Proof. intros r x r' E. injection E as <- <-. exists []. split; [done|apply reads_ret]. Qed.

Lemma framed_fail {A} e : framed (rfail (A := A) e).
Proof. by intros r x r' E. Qed.

Lemma framed_bind {A B} (p : Reader R A) (k : A -> Reader R B) :
  framed p -> (forall a, framed (k a)) -> framed (rbind p k).
Proof.
  intros Hp Hk r b r'. unfold rbind. destruct (p r) as [[a|e] r1] eqn:E1; [|done].
  intros E2. destruct (Hp _ _ _ E1) as (bs1 & V1 & R1).
  destruct (Hk _ _ _ _ E2) as (bs2 & V2 & R2).
  exists (bs1 ++ bs2). rewrite V1, V2, app_assoc. split; [done|]. by eapply reads_bind.
Qed.

Lemma framed_exact n : framed (read_exact n).
Proof.
  intros r a r' E. destruct (decide (n <= length (view r))%nat) as [Hn|Hn].
  - destruct (read_exact_ok n r Hn) as (r1 & E1 & V1). rewrite E in E1. simplify_eq.
    exists (take n (view r)). rewrite V1, take_drop. split; [done|].
    apply reads_exact. rewrite length_take. lia.
  - destruct (read_exact_short n r) as [r1 E1]; [lia|]. congruence.
Qed.

Lemma framed_u8 : framed read_u8.
Proof. apply framed_bind; [apply framed_exact|]. intros a. apply framed_ret. Qed.

(** The run of [read_exact] in full. *)
Lemma read_exact_cases n r :
  (exists r', read_exact n r = (Ok (take n (view r)), r') /\
     view r' = drop n (view r) /\ (n <= length (view r))%nat) \/
  (exists r', read_exact n r = (Err UnexpectedEof, r') /\ (length (view r) < n)%nat).
Proof.
  destruct (decide (n <= length (view r))%nat) as [Hn|Hn]; [left|right].
  - destruct (read_exact_ok n r Hn) as (r' & E & V). eauto.
  - destruct (read_exact_short n r) as [r' E]; [lia|]. eauto with lia.
Qed.

End readers.

#[export] Hint Resolve framed_ret framed_fail framed_bind framed_exact framed_u8 : ergo.

(** ** Relations kept by every reader program *)

(** [stable P p]: every run of [p] relates the reader before and after by [P]. *)
Definition stable {R A} (P : R -> R -> Prop) (p : Reader R A) : Prop :=
  forall r x r', p r = (x, r') -> P r r'.

Section stable.
Context {R : Type} (P : R -> R -> Prop) `{!PreOrder P}.

Lemma stable_ret {A} (a : A) : stable P (rret a).
Proof. intros r x r' [= <- <-]. reflexivity. Qed.

Lemma stable_fail {A} e : stable P (rfail (A := A) e).
Proof. intros r x r' [= <- <-]. reflexivity. Qed.

Lemma stable_bind {A B} (p : Reader R A) (k : A -> Reader R B) :
  stable P p -> (forall a, stable P (k a)) -> stable P (rbind p k).
Proof.
  intros Hp Hk r x r'. unfold rbind. destruct (p r) as [[a|e] r1] eqn:E.
  - intros E2. transitivity r1; [by eapply Hp|by eapply Hk].
  - intros [= <- <-]. by eapply Hp.
Qed.

Lemma stable_u8 `{Read R} : stable P (read_exact 1) -> stable P read_u8.
Proof. intros Hp. apply stable_bind; [done|]. intros a. apply stable_ret. Qed.

End stable.

(** ** The errors of a reader program *)

(** [fails E p]: every error of [p] satisfies [E]. *)
Definition fails {R A} (E : io_error -> Prop) (p : Reader R A) : Prop :=
  forall r e r', p r = (Err e, r') -> E e.

Section fails.
Context {R : Type} `{ReadLaws R} (E : io_error -> Prop).

Lemma fails_ret {A} (a : A) : fails E (rret (R := R) a).
Proof. by intros r e r'. Qed.

Lemma fails_fail {A} e : E e -> fails E (rfail (R := R) (A := A) e).
Proof. intros He r e' r' [= <- <-]. done. Qed.

Lemma fails_bind {A B} (p : Reader R A) (k : A -> Reader R B) :
  fails E p -> (forall a, fails E (k a)) -> fails E (rbind p k).
Proof.
  intros Hp Hk r e r'. unfold rbind. destruct (p r) as [[a|e1] r1] eqn:E1.
  - apply Hk.
  - intros [= <- <-]. by eapply Hp.
Qed.

Lemma fails_exact n : E UnexpectedEof -> fails E (read_exact (R := R) n).
Proof.
  intros He r e r' E1. destruct (read_exact_cases n r) as [(r1 & E2 & _)|(r1 & E2 & _)]; congruence.
Qed.

Lemma fails_u8 : E UnexpectedEof -> fails E (read_u8 (R := R)).
Proof. intros He. apply fails_bind; [by apply fails_exact|]. intros a. apply fails_ret. Qed.

End fails.

(** ** Simulation between reader programs *)

(** [sim Q p q]: whenever [p] succeeds, [q] succeeds on the same reader, stops
    at the same place, and the results are related by [Q]. *)
Definition sim {R A B} (Q : A -> B -> Prop) (p : Reader R A) (q : Reader R B) : Prop :=
  forall r a r', p r = (Ok a, r') -> exists b, q r = (Ok b, r') /\ Q a b.

Section sim.
Context {R : Type}.

Lemma sim_refl {A} (p : Reader R A) : sim eq p p.
Proof. intros r a r' E. eauto. Qed.

Lemma sim_ret {A B} (Q : A -> B -> Prop) a b : Q a b -> sim Q (rret (R := R) a) (rret b).
Proof. intros HQ r a' r' [= <- <-]. by exists b. Qed.

Lemma sim_bind {A B A' B'} (Q : A -> B -> Prop) (Q' : A' -> B' -> Prop)
    (p : Reader R A) (q : Reader R B) (k : A -> Reader R A') (j : B -> Reader R B') :
  sim Q p q -> (forall a b, Q a b -> sim Q' (k a) (j b)) -> sim Q' (rbind p k) (rbind q j).
Proof.
  intros Hp Hk r a' r'. unfold rbind. destruct (p r) as [[a|e] r1] eqn:E; [|done].
  intros Ek. destruct (Hp _ _ _ E) as (b & -> & HQ). by apply (Hk a b HQ).
Qed.

Lemma sim_bind_eq {A A' B'} (Q' : A' -> B' -> Prop) (p : Reader R A) k j :
  (forall a, sim Q' (k a) (j a)) -> sim Q' (rbind p k) (rbind p j).
Proof. intros Hk. eapply sim_bind; [apply sim_refl|]. by intros a ? <-. Qed.

(** A caught success behaves as the uncaught one. *)
Lemma sim_try {A B' A'} (Q' : A' -> B' -> Prop) (p : Reader R A) k j :
  (forall a, sim Q' (k a) (j (Ok a))) -> sim Q' (rbind p k) (rbind (rtry p) j).
Proof.
  intros Hk r a' r'. unfold rbind, rtry. destruct (p r) as [[a|e] r1]; [|done].
  intros Ek. by apply (Hk a).
Qed.

End sim.

(** ** [std::io::Cursor<&[u8]>] *)

Record Cursor := mkCursor { cur_data : list Z; cur_pos : nat }.

Definition cursor_new (data : list Z) : Cursor := mkCursor data 0.

Definition remaining (c : Cursor) : list Z := drop (cur_pos c) (cur_data c).

(** A failing [read_exact] leaves a [Cursor] at its end. *)
#[global] Instance cursor_read : Read Cursor := fun n c =>
  if decide (n <= length (remaining c))%nat
  then (Ok (take n (remaining c)), mkCursor (cur_data c) (cur_pos c + n))
  else (Err UnexpectedEof, mkCursor (cur_data c) (length (cur_data c))).

#[global] Program Instance cursor_laws : ReadLaws Cursor := {| view := remaining |}.
Next Obligation.
  intros n c Hn. eexists. split.
  - unfold read_exact, cursor_read. by rewrite decide_True.
  - unfold remaining. simpl. by rewrite drop_drop.
Qed.
Next Obligation.
  intros n c Hn. eexists. unfold read_exact, cursor_read. by rewrite decide_False by lia.
Qed.

(** The cursor keeps its data and its position stays inside it. *)
Definition cursor_le (c c' : Cursor) : Prop :=
  cur_data c' = cur_data c /\
  ((cur_pos c <= length (cur_data c))%nat -> (cur_pos c' <= length (cur_data c))%nat).

#[global] Instance cursor_le_preorder : PreOrder cursor_le.
Proof.
  split; [by intros c|]. intros c1 c2 c3 [E1 H1] [E2 H2]. split; [congruence|].
  intros Hc. rewrite E1 in H2. auto.
Qed.

Lemma cursor_stable_exact n : stable cursor_le (read_exact n).
Proof.
  intros c x c'. unfold read_exact, cursor_read, remaining. case_decide as Hd; intros [= <- <-].
  - split; [done|]. simpl. rewrite length_drop in Hd. lia.
  - by split.
Qed.

(** ** [tokio::io::BufReader<OwnedReadHalf>]

    The bytes buffered and not yet consumed, and the results of the reads the
    socket will serve; a read of no byte is the end of the stream. *)

Record BufReader := mkBufReader { br_buf : list Z; br_chunks : list (list Z) }.

(** The bytes the socket still delivers. *)
Fixpoint delivered (chunks : list (list Z)) : list Z :=
  match chunks with
  | [] | [] :: _ => []
  | c :: cs => c ++ delivered cs
  end.

(** [read_exact]: refill until [n] bytes are there or the stream has ended. *)
Fixpoint refill_exact (n : nat) (buf : list Z) (chunks : list (list Z))
    : io_result (list Z) * BufReader :=
  if decide (n <= length buf)%nat then (Ok (take n buf), mkBufReader (drop n buf) chunks)
  else match chunks with
       | [] | [] :: _ => (Err UnexpectedEof, mkBufReader [] chunks)
       | c :: cs => refill_exact n (buf ++ c) cs
       end.

#[global] Instance bufreader_read : Read BufReader := fun n r =>
  refill_exact n (br_buf r) (br_chunks r).

(** [fill_buf]: the buffered bytes, after one socket read when there are none. *)
Definition fill_buf (r : BufReader) : list Z * BufReader :=
  match br_buf r, br_chunks r with
  | [], [] | [], [] :: _ => ([], r)
  | [], c :: cs => (c, mkBufReader c cs)
  | b, _ => (b, r)
  end.

(** [consume]. *)
Definition consume (n : nat) (r : BufReader) : BufReader :=
  mkBufReader (drop n (br_buf r)) (br_chunks r).

Definition stream (r : BufReader) : list Z := br_buf r ++ delivered (br_chunks r).

Lemma refill_exact_ok n chunks : forall buf,
  (n <= length (buf ++ delivered chunks))%nat ->
  exists r', refill_exact n buf chunks = (Ok (take n (buf ++ delivered chunks)), r') /\
    stream r' = drop n (buf ++ delivered chunks).
Proof.
  induction chunks as [|c cs IH]; intros buf Hn; rewrite length_app in Hn; simpl in *;
    (case_decide as Hd;
     [eexists; rewrite take_app_le, drop_app_le by done; split; done|]).
  { lia. }
  destruct c as [|b c]; [simpl in Hn; lia|].
  rewrite app_assoc. apply IH. rewrite !length_app in *. lia.
Qed.

Lemma refill_exact_short n chunks : forall buf,
  (length (buf ++ delivered chunks) < n)%nat ->
  exists r', refill_exact n buf chunks = (Err UnexpectedEof, r').
Proof.
  induction chunks as [|c cs IH]; intros buf Hn; rewrite length_app in Hn; simpl in *;
    rewrite decide_False by lia; [eauto|].
  destruct c as [|b c]; [eauto|]. apply IH. rewrite !length_app in *. lia.
Qed.

(** Filling the buffer neither loses nor reorders a byte. *)
Lemma stream_fill_buf r : stream (fill_buf r).2 = stream r.
Proof. by destruct r as [[|b buf] [|[|c cc] cs]]. Qed.

Lemma fill_buf_buf r : br_buf (fill_buf r).2 = (fill_buf r).1.
Proof. by destruct r as [[|b buf] [|[|c cc] cs]]. Qed.

Lemma stream_consume n r :
  (n <= length (br_buf r))%nat -> stream (consume n r) = drop n (stream r).
Proof. intros Hn. unfold stream. simpl. by rewrite drop_app_le. Qed.

#[global] Program Instance bufreader_laws : ReadLaws BufReader := {| view := stream |}.
Next Obligation. intros n [buf cs] Hn. by apply refill_exact_ok. Qed.
Next Obligation. intros n [buf cs] Hn. by apply refill_exact_short. Qed.

(** ** [tokio::net::tcp::OwnedWriteHalf]

    The bytes sent so far, and how many more the connection accepts before it
    breaks; a [write_all] that breaks has sent a prefix. *)

Record Writer := mkWriter { wr_sent : list Z; wr_room : nat }.

Definition write_all (bs : list Z) (w : Writer) : io_result unit * Writer :=
  if decide (length bs <= wr_room w)%nat
  then (Ok tt, mkWriter (wr_sent w ++ bs) (wr_room w - length bs))
  else (Err WriteFailed, mkWriter (wr_sent w ++ take (wr_room w) bs) 0).

(** A TCP write half holds nothing back: [flush] succeeds. *)
Definition flush (w : Writer) : io_result unit * Writer := (Ok tt, w).

Lemma write_all_ok bs w : (length bs <= wr_room w)%nat ->
  write_all bs w = (Ok tt, mkWriter (wr_sent w ++ bs) (wr_room w - length bs)).
Proof. intros Hl. unfold write_all. by rewrite decide_True. Qed.
