(* ===== verification/Types.v ===== *)
(** * [src/types.rs]: the types shared by every layer *)
From S2P Require Import Prelude.

(** [PeerId(pub u64)]. *)
Record PeerId := mkPeerId { peer_id_0 : Z }.

#[global] Instance PeerId_eq_dec : EqDecision PeerId.
Proof. solve_decision. Defined.
#[global] Instance PeerId_countable : Countable PeerId :=
  inj_countable' peer_id_0 mkPeerId (fun p => match p with mkPeerId n => eq_refl end).

(** [type ModifierId = [u8; 32]]: a list of bytes, of length 32 by
    [modifier_id_ok]. *)
Abbreviation ModifierId := (list Z) (only parsing).

Definition modifier_id_ok (id : ModifierId) : Prop := length id = 32%nat /\ bytes_ok id.

(** [Version]: major.minor.patch. *)
Record Version := mkVersion { major : Z; minor : Z; patch : Z }.

#[global] Instance Version_eq_dec : EqDecision Version.
Proof. solve_decision. Defined.

Definition version_ok (v : Version) : Prop := u8 (major v) /\ u8 (minor v) /\ u8 (patch v).

#[global] Instance version_ok_dec v : Decision (version_ok v).
Proof. unfold version_ok. apply _. Defined.

Definition EIP37_MIN : Version := mkVersion 4 0 100.

(** The derived [Ord]: lexicographic in declaration order. *)
Definition version_ltb (a b : Version) : bool :=
  if major a =? major b then
    if minor a =? minor b then patch a <? patch b
    else minor a <? minor b
  else major a <? major b.

Inductive Direction := Outbound | Inbound.
Inductive Network := Mainnet | Testnet.
Inductive ProxyMode := Full | Light.

#[global] Instance Direction_eq_dec : EqDecision Direction.
Proof. solve_decision. Defined.
#[global] Instance Network_eq_dec : EqDecision Network.
Proof. solve_decision. Defined.
#[global] Instance ProxyMode_eq_dec : EqDecision ProxyMode.
Proof. solve_decision. Defined.

(** [Network::magic]. *)
Definition magic (n : Network) : list Z :=
  match n with
  | Mainnet => [1; 0; 2; 4]
  | Testnet => [2; 3; 2; 3]
  end.

Lemma magic_length n : length (magic n) = 4%nat.
Proof. by destruct n. Qed.

Lemma magic_ok n : bytes_ok (magic n).
Proof. destruct n; repeat constructor; solve_width. Qed.

Lemma magic_inj n1 n2 : magic n1 = magic n2 -> n1 = n2.
Proof. by destruct n1, n2. Qed.

(** The order of [u8] triples is the order of their base-256 values. *)
Lemma version_ltb_spec a b : version_ok a -> version_ok b ->
  version_ltb a b = true <->
  major a * 65536 + minor a * 256 + patch a < major b * 65536 + minor b * 256 + patch b.
Proof.
  intros (?&?&?) (?&?&?). unfold version_ltb.
  repeat case_match; rewrite ?Z.eqb_eq, ?Z.eqb_neq, ?Z.ltb_lt in *; solve_width.
Qed.

Lemma version_min_iff v : version_ok v ->
  version_ltb v EIP37_MIN = false <->
  4 * 65536 + 100 <= major v * 65536 + minor v * 256 + patch v.
Proof.
  intros Hv. assert (Hm : version_ok EIP37_MIN) by by_decide.
  pose proof (version_ltb_spec v EIP37_MIN Hv Hm) as Hs. cbn in Hs.
  destruct (version_ltb v EIP37_MIN); split; intros Hx; try done; try lia.
Qed.

#[export] Hint Resolve magic_length magic_ok : ergo.
