(* ===== verification/Vlq.v ===== *)
(** * [src/transport/vlq.rs]: variable-length quantities, ZigZag, short strings *)
From S2P Require Import Prelude Io.

(** ** Operations *)

(** The body of [write_vlq]'s [loop]. A [u64] is exhausted after ten groups of
    seven bits, so the fuel is ten. *)
Fixpoint write_vlq_loop (fuel : nat) (buf : list Z) (value : Z) : list Z :=
  match fuel with
  | O => buf
  | S fuel =>
      let byte := as_unsigned 8 (Z.land value 0x7f) in
      let value := Z.shiftr value 7 in
      if value =? 0 then buf ++ [byte]
      else write_vlq_loop fuel (buf ++ [Z.lor byte 0x80]) value
  end.

Definition write_vlq (buf : list Z) (value : Z) : list Z := write_vlq_loop 10 buf value.

(** The body of [read_vlq]'s [loop]; [shift] passes 63 in the tenth turn, so
    the fuel is ten and its end is not reached. *)
Fixpoint read_vlq_loop {R} `{Read R} (fuel : nat) (result shift : Z) : Reader R Z :=
  match fuel with
  | O => rfail VlqOverflow
  | S fuel =>
      let? byte := read_u8 in
      let result := Z.lor result (as_unsigned 64 (Z.shiftl (Z.land byte 0x7f) shift)) in
      if Z.land byte 0x80 =? 0 then rret result
      else
        let shift := shift + 7 in
        if 63 <? shift then rfail VlqOverflow
        else read_vlq_loop fuel result shift
  end.

Definition read_vlq {R} `{Read R} : Reader R Z := read_vlq_loop 10 0 0.

Definition MAX_VLQ_LENGTH : Z := 256 * 1024.

Definition read_vlq_length {R} `{Read R} : Reader R Z :=
  let? val := read_vlq in
  if MAX_VLQ_LENGTH <? val then rfail (VlqLengthTooLarge val) else rret val.

(** [i32]/[i64] shifts: [<<] drops the bits shifted out, [>>] is arithmetic. *)
Definition zigzag_encode (value : Z) : Z :=
  as_unsigned 32 (Z.lxor (as_signed 32 (Z.shiftl value 1)) (Z.shiftr value 31)).

Definition zigzag_decode (value : Z) : Z :=
  Z.lxor (as_signed 32 (Z.shiftr value 1)) (- as_signed 32 (Z.land value 1)).

Definition zigzag_encode_i64 (value : Z) : Z :=
  as_unsigned 64 (Z.lxor (as_signed 64 (Z.shiftl value 1)) (Z.shiftr value 63)).

Definition zigzag_decode_i64 (value : Z) : Z :=
  Z.lxor (as_signed 64 (Z.shiftr value 1)) (- as_signed 64 (Z.land value 1)).

(** ** UTF-8: [String::from_utf8] accepts the well-formed byte sequences of
    the Unicode standard (table 3-7). *)

Definition between (lo hi b : Z) : bool := (lo <=? b) && (b <=? hi).

Fixpoint utf8_valid (bs : list Z) : bool :=
  match bs with
  | [] => true
  | b0 :: bs0 =>
      if b0 <? 0x80 then utf8_valid bs0
      else match bs0 with
      | [] => false
      | b1 :: bs1 =>
          if between 0xc2 0xdf b0 then between 0x80 0xbf b1 && utf8_valid bs1
          else match bs1 with
          | [] => false
          | b2 :: bs2 =>
              if between 0xe0 0xef b0 then
                (if b0 =? 0xe0 then between 0xa0 0xbf b1
                 else if b0 =? 0xed then between 0x80 0x9f b1
                 else between 0x80 0xbf b1)
                && between 0x80 0xbf b2 && utf8_valid bs2
              else match bs2 with
              | [] => false
              | b3 :: bs3 =>
                  between 0xf0 0xf4 b0 &&
                  (if b0 =? 0xf0 then between 0x90 0xbf b1
                   else if b0 =? 0xf4 then between 0x80 0x8f b1
                   else between 0x80 0xbf b1)
                  && between 0x80 0xbf b2 && between 0x80 0xbf b3 && utf8_valid bs3
              end
          end
      end
  end.

(** The release build; a debug build panics on more than 255 bytes. *)
Definition write_short_string (buf s : list Z) : list Z :=
  buf ++ [as_unsigned 8 (Z.of_nat (length s))] ++ s.

Definition read_short_string {R} `{Read R} : Reader R (list Z) :=
  let? len_byte := read_u8 in
  let? bytes := read_exact (Z.to_nat len_byte) in
  if utf8_valid bytes then rret bytes else rfail InvalidUtf8.

(** ** Reference: the value of a VLQ byte sequence *)

Definition vlq_cont (b : Z) : bool := negb (Z.land b 0x80 =? 0).

(** All bytes but the last carry the continuation bit. *)
Fixpoint vlq_wf (bs : list Z) : bool :=
  match bs with
  | [] => false
  | [b] => negb (vlq_cont b)
  | b :: bs => vlq_cont b && vlq_wf bs
  end.

(** Little-endian groups of seven bits. *)
Fixpoint vlq_value (bs : list Z) : Z :=
  match bs with
  | [] => 0
  | b :: bs => b mod 128 + 128 * vlq_value bs
  end.

(** ** Bit lemmas *)

Lemma land_7f b : Z.land b 0x7f = b mod 128.
Proof. apply (Z.land_ones b 7). lia. Qed.

Lemma land_7f_80 b : Z.land (b mod 128) 0x80 = 0.
Proof.
  rewrite <- land_7f, <- Z.land_assoc. change (Z.land 0x7f 0x80) with 0. apply Z.land_0_r.
Qed.

Lemma lor_disjoint a b n : 0 <= n -> 0 <= a < 2 ^ n -> Z.lor a (b * 2 ^ n) = a + b * 2 ^ n.
Proof.
  intros Hn Ha. symmetry.
  assert (Hl : Z.land a (b * 2 ^ n) = 0).
  { apply Z.bits_inj'. intros i Hi. rewrite Z.land_spec, Z.bits_0.
    destruct (decide (i < n)).
    - by rewrite Z.mul_pow2_bits_low, andb_false_r by lia.
    - rewrite <- (Z.mod_small a (2 ^ n)) by done. by rewrite Z.mod_pow2_bits_high by lia. }
  rewrite <- Z.lxor_lor by done. by apply Z.add_nocarry_lxor.
Qed.

Lemma vlq_cont_small b : vlq_cont (b mod 128) = false.
Proof. unfold vlq_cont. by rewrite land_7f_80. Qed.

Lemma lor_80 b : Z.lor (b mod 128) 0x80 = b mod 128 + 128.
Proof. apply (lor_disjoint (b mod 128) 1 7); [lia|]. apply Z.mod_pos_bound. lia. Qed.

Lemma vlq_cont_lor b : vlq_cont (Z.lor (b mod 128) 0x80) = true.
Proof. unfold vlq_cont. rewrite Z.land_lor_distr_l, land_7f_80. done. Qed.

Lemma lor_80_mod b : Z.lor (b mod 128) 0x80 mod 128 = b mod 128.
Proof.
  rewrite lor_80, <- Zplus_mod_idemp_r, Z_mod_same_full, Z.add_0_r. apply Z.mod_mod. lia.
Qed.

Lemma write_byte v : as_unsigned 8 (Z.land v 0x7f) = v mod 128.
Proof.
  rewrite land_7f. pose proof (Z.mod_pos_bound v 128).
  unfold as_unsigned. rewrite Z.mod_small; lia.
Qed.

(** ** Writing *)

Lemma write_vlq_loop_app n : forall buf v,
  write_vlq_loop n buf v = buf ++ write_vlq_loop n [] v.
Proof.
  induction n as [|n IH]; intros buf v; cbn [write_vlq_loop]; [by rewrite app_nil_r|].
  case_match; [done|]. rewrite IH, (IH ([] ++ _)). by rewrite <- app_assoc.
Qed.

Lemma write_vlq_app buf v : write_vlq buf v = buf ++ write_vlq [] v.
Proof. apply write_vlq_loop_app. Qed.

Lemma vlq_wf_cons b bs : bs <> [] -> vlq_wf (b :: bs) = vlq_cont b && vlq_wf bs.
Proof. by destruct bs. Qed.

Lemma write_vlq_loop_S n v :
  write_vlq_loop (S n) [] v =
    if v / 128 =? 0 then [v mod 128]
    else Z.lor (v mod 128) 0x80 :: write_vlq_loop n [] (v / 128).
Proof.
  cbn [write_vlq_loop]. rewrite write_byte, Z.shiftr_div_pow2 by lia.
  change (2 ^ 7) with 128.
  case_match; [done|]. by rewrite write_vlq_loop_app.
Qed.

Lemma vlq_div_bound n v : 0 <= v < 2 ^ (7 * Z.of_nat (S n)) ->
  0 <= v / 128 < 2 ^ (7 * Z.of_nat n).
Proof.
  intros Hv. split; [apply Z.div_pos; lia|]. apply Z.div_lt_upper_bound; [lia|].
  change 128 with (2 ^ 7). rewrite <- Z.pow_add_r by lia.
  replace (7 + 7 * Z.of_nat n) with (7 * Z.of_nat (S n)) by lia. lia.
Qed.

(** What the bytes written are, whatever the fuel. *)
Lemma write_vlq_loop_spec n : forall v, 0 <= v < 2 ^ (7 * Z.of_nat (S n)) ->
  let bs := write_vlq_loop (S n) [] v in
  vlq_wf bs = true /\ vlq_value bs = v /\ (1 <= length bs <= S n)%nat /\ bytes_ok bs.
Proof.
  induction n as [|n IH]; intros v Hv; rewrite write_vlq_loop_S;
    pose proof (Z.mod_pos_bound v 128 ltac:(lia));
    pose proof (Z.div_mod v 128 ltac:(lia));
    (destruct (Z.eqb_spec (v / 128) 0) as [E|E];
     [cbn; rewrite vlq_cont_small, Z.mod_mod by lia;
      repeat split; try lia; repeat constructor; solve_width|]).
  { change (2 ^ (7 * Z.of_nat 1)) with 128 in Hv. rewrite Z.div_small in E; lia. }
  destruct (IH (v / 128)) as (Hw & Hval & Hlen & Hb).
  { by apply vlq_div_bound. }
  set (bs := write_vlq_loop (S n) [] (v / 128)) in *. cbn [vlq_value length].
  rewrite vlq_wf_cons, vlq_cont_lor, lor_80_mod, Hval by (intros E0; rewrite E0 in Hlen; simpl in Hlen; lia).
  repeat split; try done; try lia. constructor; [|done]. rewrite lor_80. solve_width.
Qed.

Lemma write_vlq_loop_fuel n : forall m v, 0 <= v < 2 ^ (7 * Z.of_nat (S n)) ->
  (S n <= m)%nat -> write_vlq_loop m [] v = write_vlq_loop (S n) [] v.
Proof.
  induction n as [|n IH]; intros [|m] v Hv Hm; try lia; rewrite (write_vlq_loop_S m v), (write_vlq_loop_S _ v);
    (destruct (Z.eqb_spec (v / 128) 0) as [E|E]; [done|]).
  - change (2 ^ (7 * Z.of_nat 1)) with 128 in Hv. rewrite Z.div_small in E; lia.
  - f_equal. apply IH; [|lia]. by apply vlq_div_bound.
Qed.

Lemma write_vlq_spec v : u64 v ->
  let bs := write_vlq [] v in
  vlq_wf bs = true /\ vlq_value bs = v /\ (1 <= length bs <= 10)%nat /\ bytes_ok bs.
Proof.
  intros Hv. apply (write_vlq_loop_spec 9). solve_width.
Qed.

Lemma write_vlq_short n v : 0 <= v < 2 ^ (7 * Z.of_nat (S n)) -> (S n <= 10)%nat ->
  (length (write_vlq [] v) <= S n)%nat.
Proof.
  intros Hv Hn. unfold write_vlq. rewrite (write_vlq_loop_fuel n) by done.
  by apply (write_vlq_loop_spec n v Hv).
Qed.

Lemma vlq_value_bound bs : 0 <= vlq_value bs < 2 ^ (7 * Z.of_nat (length bs)).
Proof.
  induction bs as [|b bs IH]; [done|]. cbn [vlq_value length].
  replace (7 * Z.of_nat (S (length bs))) with (7 + 7 * Z.of_nat (length bs)) by lia.
  rewrite Z.pow_add_r by lia. change (2 ^ 7) with 128.
  pose proof (Z.mod_pos_bound b 128 ltac:(lia)). nia.
Qed.

(** ** Reading *)

(** Every byte sequence starts with a complete quantity of at most [n] bytes,
    or with [n] continuation bytes, or ends before either. *)
Lemma vlq_scan n : forall l,
  (exists bs rest, l = bs ++ rest /\ vlq_wf bs = true /\ (length bs <= n)%nat) \/
  ((n <= length l)%nat /\ forallb vlq_cont (take n l) = true) \/
  ((length l < n)%nat /\ forallb vlq_cont l = true).
Proof.
  induction n as [|n IH]; intros l; [right; left; split; [lia|done]|].
  destruct l as [|b l]; [right; right; split; [simpl; lia|done]|].
  destruct (vlq_cont b) eqn:Hb.
  - destruct (IH l) as [(bs & rest & -> & Hw & Hl)|[[Hl Ha]|[Hl Ha]]].
    + left. exists (b :: bs), rest. rewrite vlq_wf_cons by (by intros ->).
      rewrite Hb, Hw. repeat split. simpl. lia.
    + right; left. cbn. rewrite Hb. split; [lia|done].
    + right; right. cbn. rewrite Hb. split; [lia|done].
  - left. exists [b], l. cbn. rewrite Hb. repeat split. lia.
Qed.

Section reading.
Context {R : Type} `{ReadLaws R}.

(** One turn of the loop, on the byte the reader holds. *)
Lemma read_vlq_loop_cons fuel result shift r b rest : view r = b :: rest ->
  exists r', view r' = rest /\
  read_vlq_loop (S fuel) result shift r =
    let result := Z.lor result (as_unsigned 64 (Z.shiftl (Z.land b 0x7f) shift)) in
    if negb (vlq_cont b) then (Ok result, r')
    else if 63 <? shift + 7 then (Err VlqOverflow, r')
    else read_vlq_loop fuel result (shift + 7) r'.
Proof.
  intros Hv. destruct (reads_u8 b r rest Hv) as (r' & E & V). exists r'. split; [done|].
  cbn [read_vlq_loop]. unfold rbind. rewrite E. unfold vlq_cont. rewrite negb_involutive.
  repeat case_match; done.
Qed.

Lemma read_vlq_loop_nil fuel result shift r : view r = [] ->
  exists r', read_vlq_loop (S fuel) result shift r = (Err UnexpectedEof, r').
Proof.
  intros Hv. destruct (read_exact_short 1 r) as [r' E]; [rewrite Hv; simpl; lia|].
  exists r'. cbn [read_vlq_loop]. unfold rbind, read_u8, rbind. by rewrite E.
Qed.

(** The group read in a turn lands above the bits read before. *)
Lemma read_vlq_result result shift b : 0 <= shift <= 63 -> 0 <= result < 2 ^ shift ->
  Z.lor result (as_unsigned 64 (Z.shiftl (Z.land b 0x7f) shift)) =
    (result + (b mod 128) * 2 ^ shift) mod 2 ^ 64 /\
  (shift + 7 <= 63 ->
   0 <= Z.lor result (as_unsigned 64 (Z.shiftl (Z.land b 0x7f) shift)) < 2 ^ (shift + 7)).
Proof.
  intros Hs Hr. rewrite land_7f, Z.shiftl_mul_pow2 by lia. unfold as_unsigned.
  pose proof (Z.mod_pos_bound b 128 ltac:(lia)) as Hb. set (d := b mod 128) in *.
  assert (E64 : 2 ^ 64 = 2 ^ (64 - shift) * 2 ^ shift).
  { rewrite <- Z.pow_add_r by lia. f_equal. lia. }
  pose proof (Z.pow_pos_nonneg 2 shift ltac:(lia) ltac:(lia)) as Hp.
  pose proof (Z.pow_pos_nonneg 2 (64 - shift) ltac:(lia) ltac:(lia)) as Hq.
  rewrite E64, Z.mul_mod_distr_r by lia.
  set (e := d mod 2 ^ (64 - shift)).
  assert (He : 0 <= e < 2 ^ (64 - shift)) by (apply Z.mod_pos_bound; lia).
  rewrite lor_disjoint by lia. split.
  - rewrite <- Z.add_mod_idemp_r, Z.mul_mod_distr_r by nia.
    rewrite Z.mod_small; [done|]. fold e. nia.
  - intros Hs7. rewrite Z.pow_add_r by lia. change (2 ^ 7) with 128.
    assert (e <= d) by (apply Z.mod_le; lia). nia.
Qed.

Lemma read_vlq_loop_wf bs : forall fuel result shift,
  vlq_wf bs = true -> (length bs <= fuel)%nat ->
  0 <= shift -> shift + 7 * Z.of_nat fuel = 70 -> 0 <= result < 2 ^ shift ->
  reads (read_vlq_loop fuel result shift) bs
    ((result + vlq_value bs * 2 ^ shift) mod 2 ^ 64).
Proof.
  induction bs as [|b bs IH]; intros fuel result shift Hw Hl Hs Hf Hr; [done|].
  destruct fuel as [|fuel]; [simpl in Hl; lia|].
  intros r rest Hv. destruct (read_vlq_loop_cons fuel result shift r _ _ Hv) as (r1 & V1 & E1).
  rewrite E1. destruct (read_vlq_result result shift b) as [Eres Bres]; [lia|done|].
  cbn [vlq_value]. destruct bs as [|b' bs'].
  - cbn in Hw. rewrite Hw. exists r1. split; [|done].
    rewrite Eres. by rewrite Z.mul_0_r, Z.add_0_r.
  - rewrite vlq_wf_cons in Hw by done. apply andb_prop in Hw as [Hc Hw].
    rewrite Hc. cbn [negb]. simpl in Hl.
    destruct (Z.ltb_spec 63 (shift + 7)) as [Hbig|Hsm]; [lia|].
    destruct (IH fuel _ (shift + 7) Hw ltac:(simpl; lia) ltac:(lia) ltac:(lia) (Bres ltac:(lia))
                r1 rest V1) as (r2 & E2 & V2).
    exists r2. split; [|done]. rewrite E2. do 2 f_equal. rewrite Eres.
    rewrite Z.add_mod_idemp_l by lia. f_equal.
    rewrite Z.pow_add_r by lia. change (2 ^ 7) with 128. lia.
Qed.

(** A well-formed sequence of at most ten bytes is read as its value, modulo
    the width of the result. *)
Lemma reads_vlq_wf bs : vlq_wf bs = true -> (length bs <= 10)%nat ->
  reads read_vlq bs (vlq_value bs mod 2 ^ 64).
Proof.
  intros Hw Hl.
  replace (vlq_value bs mod 2 ^ 64) with ((0 + vlq_value bs * 2 ^ 0) mod 2 ^ 64)
    by (f_equal; lia).
  apply read_vlq_loop_wf; try done; lia.
Qed.

Lemma read_vlq_loop_overflow fuel : forall result shift r,
  (0 < fuel)%nat -> shift + 7 * Z.of_nat fuel = 70 ->
  (fuel <= length (view r))%nat -> forallb vlq_cont (take fuel (view r)) = true ->
  exists r', read_vlq_loop fuel result shift r = (Err VlqOverflow, r').
Proof.
  induction fuel as [|fuel IH]; intros result shift r Hf Hs Hl Ha; [lia|].
  destruct (view r) as [|b rest] eqn:Hv; [simpl in Hl; lia|].
  cbn in Ha. apply andb_prop in Ha as [Hb Ha]. simpl in Hl.
  destruct (read_vlq_loop_cons fuel result shift r _ _ Hv) as (r1 & V1 & ->).
  cbv zeta. rewrite Hb. cbn [negb].
  destruct (Z.ltb_spec 63 (shift + 7)); [eauto|].
  apply IH; [lia|lia|rewrite V1; lia|by rewrite V1].
Qed.

Lemma read_vlq_loop_eof fuel : forall result shift r,
  shift + 7 * Z.of_nat fuel = 70 ->
  (length (view r) < fuel)%nat -> forallb vlq_cont (view r) = true ->
  exists r', read_vlq_loop fuel result shift r = (Err UnexpectedEof, r').
Proof.
  induction fuel as [|fuel IH]; intros result shift r Hs Hl Ha; [lia|].
  destruct (view r) as [|b rest] eqn:Hv; [by apply read_vlq_loop_nil|].
  cbn in Ha. apply andb_prop in Ha as [Hb Ha]. simpl in Hl.
  destruct (read_vlq_loop_cons fuel result shift r _ _ Hv) as (r1 & V1 & ->).
  cbv zeta. rewrite Hb. cbn [negb].
  destruct (Z.ltb_spec 63 (shift + 7)); [lia|].
  apply IH; [lia|rewrite V1; lia|by rewrite V1].
Qed.

(** A value read is a [u64], and no shorter sequence than [write_vlq]'s was
    read for it. *)
Lemma read_vlq_inv (r r' : R) v : read_vlq r = (Ok v, r') ->
  u64 v /\ exists bs, view r = bs ++ view r' /\ (length (write_vlq [] v) <= length bs)%nat.
Proof.
  intros E. destruct (vlq_scan 10 (view r)) as [(bs & rest & Hv & Hw & Hl)|[[Hl Ha]|[Hl Ha]]].
  - destruct (reads_vlq_wf bs Hw Hl r rest Hv) as (r1 & E1 & V1). rewrite E in E1.
    injection E1 as -> ->. split; [apply Z.mod_pos_bound; lia|].
    exists bs. rewrite V1. split; [done|].
    destruct bs as [|b bs]; [done|]. cbn [length] in *. apply write_vlq_short; [|lia].
    pose proof (vlq_value_bound (b :: bs)) as Hb. cbn [length] in Hb.
    pose proof (Z.mod_le (vlq_value (b :: bs)) (2 ^ 64) ltac:(lia) ltac:(lia)).
    pose proof (Z.mod_pos_bound (vlq_value (b :: bs)) (2 ^ 64) ltac:(lia)). lia.
  - destruct (read_vlq_loop_overflow 10 0 0 r) as [r1 E1]; try (done || lia).
    unfold read_vlq in E. congruence.
  - destruct (read_vlq_loop_eof 10 0 0 r) as [r1 E1]; try (done || lia).
    unfold read_vlq in E. congruence.
Qed.

Lemma read_vlq_length_inv (r r' : R) v : read_vlq_length r = (Ok v, r') ->
  0 <= v <= MAX_VLQ_LENGTH /\
  exists bs, view r = bs ++ view r' /\ (length (write_vlq [] v) <= length bs)%nat.
Proof.
  unfold read_vlq_length, rbind. destruct (read_vlq r) as [[x|e] r1] eqn:E; [|done].
  destruct (read_vlq_inv _ _ _ E) as [Hu Hb].
  destruct (Z.ltb_spec MAX_VLQ_LENGTH x); [done|]. intros [= <- <-]. split; [solve_width|done].
Qed.

Lemma reads_vlq v : u64 v -> reads read_vlq (write_vlq [] v) v.
Proof.
  intros Hv. destruct (write_vlq_spec v Hv) as (Hw & Hval & Hl & _).
  rewrite <- (Z.mod_small v (2 ^ 64)) at 2 by done. rewrite <- Hval at 2.
  apply reads_vlq_wf; [done|lia].
Qed.

Lemma reads_vlq_length n : (Z.of_nat n <= MAX_VLQ_LENGTH) ->
  reads read_vlq_length (write_vlq [] (Z.of_nat n)) (Z.of_nat n).
Proof.
  intros Hn. eapply reads_bind_nil.
  - apply reads_vlq. unfold MAX_VLQ_LENGTH in Hn. solve_width.
  - destruct (Z.ltb_spec MAX_VLQ_LENGTH (Z.of_nat n)); [lia|]. apply reads_ret.
Qed.

Lemma reads_short_string s : (length s <= 255)%nat -> utf8_valid s = true ->
  reads read_short_string (write_short_string [] s) s.
Proof.
  intros Hl Hu. unfold write_short_string. cbn [app].
  change (?b :: s) with ([b] ++ s). eapply reads_bind; [apply reads_u8|].
  eapply reads_bind_nil.
  - apply reads_exact. unfold as_unsigned. rewrite Z.mod_small by solve_width. lia.
  - rewrite Hu. apply reads_ret.
Qed.

Lemma framed_vlq_loop fuel : forall result shift, framed (read_vlq_loop fuel result shift).
Proof.
  induction fuel as [|fuel IH]; intros result shift; cbn [read_vlq_loop]; [auto with ergo|].
  apply framed_bind; [auto with ergo|]. intros b. repeat case_match; auto with ergo.
Qed.

Lemma framed_vlq : framed read_vlq.
Proof. apply framed_vlq_loop. Qed.

Lemma framed_vlq_length : framed read_vlq_length.
Proof. apply framed_bind; [apply framed_vlq|]. intros v. case_match; auto with ergo. Qed.

Lemma framed_short_string : framed read_short_string.
Proof.
  apply framed_bind; [auto with ergo|]. intros n.
  apply framed_bind; [auto with ergo|]. intros bs. case_match; auto with ergo.
Qed.

End reading.

Section stability.
Context {R : Type} `{Read R} (P : R -> R -> Prop) `{!PreOrder P}.
Hypothesis stable_exact : forall n, stable P (read_exact n).

Lemma stable_vlq_loop fuel : forall result shift, stable P (read_vlq_loop fuel result shift).
Proof using All.
  induction fuel as [|fuel IH]; intros result shift; cbn [read_vlq_loop]; [by apply stable_fail|].
  apply stable_bind; [done|by apply stable_u8|].
  intros b. repeat case_match; (by apply stable_ret) || (by apply stable_fail) || apply IH.
Qed.

Lemma stable_vlq : stable P read_vlq.
Proof using All. apply stable_vlq_loop. Qed.

Lemma stable_vlq_length : stable P read_vlq_length.
Proof using All.
  apply stable_bind; [done|apply stable_vlq|].
  intros v. case_match; [by apply stable_fail|by apply stable_ret].
Qed.

Lemma stable_short_string : stable P read_short_string.
Proof using All.
  apply stable_bind; [done|by apply stable_u8|]. intros n.
  apply stable_bind; [done|done|]. intros bs.
  case_match; [by apply stable_ret|by apply stable_fail].
Qed.

End stability.

#[export] Hint Resolve framed_vlq framed_vlq_length framed_short_string : ergo.

(** The errors of the integer readers. *)
Inductive vlq_error : io_error -> Prop :=
  | vlq_error_eof : vlq_error UnexpectedEof
  | vlq_error_overflow : vlq_error VlqOverflow
  | vlq_error_length v : MAX_VLQ_LENGTH < v -> vlq_error (VlqLengthTooLarge v).

Lemma fails_vlq_loop {R} `{ReadLaws R} fuel : forall result shift,
  fails vlq_error (read_vlq_loop (R := R) fuel result shift).
Proof.
  induction fuel as [|fuel IH]; intros result shift; cbn [read_vlq_loop].
  { apply fails_fail. constructor. }
  apply fails_bind; [apply fails_u8; constructor|]. intros b.
  repeat case_match; [apply fails_ret|apply fails_fail; constructor|apply IH].
Qed.

Lemma fails_vlq_length {R} `{ReadLaws R} : fails vlq_error (read_vlq_length (R := R)).
Proof.
  apply fails_bind; [apply fails_vlq_loop|]. intros v.
  destruct (Z.ltb_spec MAX_VLQ_LENGTH v); [apply fails_fail; by constructor|apply fails_ret].
Qed.

(** ** ZigZag *)

Lemma lxor_m1 x : Z.lxor x (-1) = - x - 1.
Proof. rewrite Z.lxor_m1_r. unfold Z.lnot. lia. Qed.

Lemma as_signed_spec w x : 0 < w ->
  as_signed w x mod 2 ^ w = x mod 2 ^ w /\ in_signed w (as_signed w x).
Proof.
  intros Hw. unfold as_signed, in_signed.
  assert (E : 2 ^ w = 2 * 2 ^ (w - 1)).
  { rewrite <- Z.pow_succ_r by lia. f_equal. lia. }
  pose proof (Z.pow_pos_nonneg 2 (w - 1) ltac:(lia) ltac:(lia)).
  pose proof (Z.mod_pos_bound x (2 ^ w) ltac:(lia)).
  case_decide; (split; [|lia]).
  - apply Z.mod_mod. lia.
  - rewrite <- (Z.mod_add _ 1), Z.mul_1_l by lia. rewrite Z.sub_add. apply Z.mod_mod. lia.
Qed.

Lemma as_signed_id w x : 0 < w -> in_signed w x -> as_signed w x = x.
Proof.
  intros Hw Hx. unfold as_signed, in_signed in *.
  assert (E : 2 ^ w = 2 * 2 ^ (w - 1)).
  { rewrite <- Z.pow_succ_r by lia. f_equal. lia. }
  destruct (decide (0 <= x)).
  - rewrite Z.mod_small by lia. rewrite decide_True by lia. done.
  - rewrite <- (Z.mod_add _ 1), Z.mul_1_l, Z.mod_small by lia.
    rewrite decide_False by lia. lia.
Qed.

Lemma mod_opp_pred a b n : 0 < n -> a mod n = b mod n -> (- a - 1) mod n = (- b - 1) mod n.
Proof.
  intros Hn E. pose proof (Z.div_mod a n ltac:(lia)). pose proof (Z.div_mod b n ltac:(lia)).
  replace (- a - 1) with (- b - 1 + (b / n - a / n) * n) by nia. by apply Z.mod_add; lia.
Qed.

(** ZigZag at any width: even numbers for the non-negative values, odd
    numbers for the negative ones. *)
Lemma zigzag_encode_width w v : 1 < w -> in_signed w v ->
  as_unsigned w (Z.lxor (as_signed w (Z.shiftl v 1)) (Z.shiftr v (w - 1))) =
    if decide (0 <= v) then 2 * v else - 2 * v - 1.
Proof.
  intros Hw Hv. unfold in_signed in Hv. unfold as_unsigned.
  destruct (as_signed_spec w (Z.shiftl v 1)) as [E _]; [lia|].
  rewrite Z.shiftl_mul_pow2 in * by lia. rewrite Z.shiftr_div_pow2 by lia.
  change (2 ^ 1) with 2 in *.
  assert (E2 : 2 ^ w = 2 * 2 ^ (w - 1)).
  { rewrite <- Z.pow_succ_r by lia. f_equal. lia. }
  case_decide.
  - rewrite Z.div_small, Z.lxor_0_r, E by lia. rewrite Z.mod_small; lia.
  - replace (v / 2 ^ (w - 1)) with (-1).
    + rewrite lxor_m1, (mod_opp_pred _ (v * 2) (2 ^ w)), Z.mod_small by (done || lia). lia.
    + apply (Z.div_unique_pos _ _ _ (v + 2 ^ (w - 1))); lia.
Qed.

Lemma zigzag_decode_width w n : 1 < w -> in_unsigned w n ->
  Z.lxor (as_signed w (Z.shiftr n 1)) (- as_signed w (Z.land n 1)) =
    if Z.even n then n / 2 else - (n / 2) - 1.
Proof.
  intros Hw Hn. unfold in_unsigned in Hn.
  assert (E2 : 2 ^ w = 2 * 2 ^ (w - 1)).
  { rewrite <- Z.pow_succ_r by lia. f_equal. lia. }
  assert (2 <= 2 ^ (w - 1)).
  { change 2 with (2 ^ 1) at 1. apply Z.pow_le_mono_r; lia. }
  assert (0 <= n / 2 < 2 ^ (w - 1)).
  { split; [apply Z.div_pos; lia|apply Z.div_lt_upper_bound; lia]. }
  rewrite Z.shiftr_div_pow2 by lia. change (2 ^ 1) with 2.
  change 1 with (Z.ones 1). rewrite Z.land_ones by lia. change (2 ^ 1) with 2.
  rewrite Zmod_even. destruct (Z.even n); rewrite !as_signed_id by (unfold in_signed; lia).
  - apply Z.lxor_0_r.
  - apply lxor_m1.
Qed.

Lemma zigzag_width_inverse w : 1 < w ->
  let enc v := if decide (0 <= v) then 2 * v else - 2 * v - 1 in
  let dec n := if Z.even n then n / 2 else - (n / 2) - 1 in
  (forall v, in_signed w v -> in_unsigned w (enc v) /\ dec (enc v) = v) /\
  (forall n, in_unsigned w n -> in_signed w (dec n) /\ enc (dec n) = n).
Proof.
  intros Hw enc dec. unfold in_signed, in_unsigned, enc, dec.
  assert (E2 : 2 ^ w = 2 * 2 ^ (w - 1)).
  { rewrite <- Z.pow_succ_r by lia. f_equal. lia. }
  split.
  - intros v Hv. case_decide.
    + rewrite Z.even_mul. cbn. split; [lia|]. rewrite Z.mul_comm. by rewrite Z.div_mul.
    + replace (- 2 * v - 1) with (2 * (- v - 1) + 1) by lia.
      rewrite Z.even_add_mul_2 || rewrite Z.even_add, Z.even_mul. cbn. split; [lia|].
      rewrite <- (Z.div_unique_pos (2 * (- v - 1) + 1) 2 (- v - 1) 1); lia.
  - intros n Hn. pose proof (Z.div_mod n 2 ltac:(lia)) as Hd. rewrite Zmod_even in Hd.
    case_match; case_decide; split; lia.
Qed.

(** ** Properties *)

(** [read_vlq] is the inverse of [write_vlq] on every [u64]: from any
    reader positioned at the bytes written, it returns the value and stops
    exactly at the byte that follows. *)
Theorem vlq_roundtrip {R} `{ReadLaws R} (r : R) v rest :
  u64 v -> view r = write_vlq [] v ++ rest ->
  exists r', read_vlq r = (Ok v, r') /\ view r' = rest.
Proof. intros Hv. by apply reads_vlq. Qed.

Lemma vlq_roundtrip_witness :
  exists r', read_vlq (cursor_new [0xac; 0x02; 7]) = (Ok 300, r') /\ view r' = [7].
Proof. apply (vlq_roundtrip (cursor_new [0xac; 0x02; 7]) 300 [7]); [split; lia|reflexivity]. Defined.

(** [write_vlq] terminates on every [u64] within ten turns: it satisfies
    the equation of its [loop] with no bound on the turns, appends between one
    and ten bytes to the buffer, and those bytes have the VLQ value encoded. *)
Theorem write_vlq_total buf v : u64 v ->
  write_vlq buf v =
    (let byte := as_unsigned 8 (Z.land v 0x7f) in
     let value := Z.shiftr v 7 in
     if value =? 0 then buf ++ [byte] else write_vlq (buf ++ [Z.lor byte 0x80]) value) /\
  exists bs, write_vlq buf v = buf ++ bs /\ (1 <= length bs <= 10)%nat /\
    bytes_ok bs /\ vlq_wf bs = true /\ vlq_value bs = v.
Proof.
  intros Hv. split.
  - rewrite (write_vlq_app buf). unfold write_vlq at 1.
    rewrite write_vlq_loop_S, write_byte, Z.shiftr_div_pow2 by lia.
    change (2 ^ 7) with 128. cbv zeta. case_match; [done|].
    rewrite (write_vlq_app (_ ++ _)), <- app_assoc. do 2 f_equal.
    symmetry. apply (write_vlq_loop_fuel 8); [|lia]. apply (vlq_div_bound 9). solve_width.
  - exists (write_vlq [] v). rewrite <- write_vlq_app. destruct (write_vlq_spec v Hv) as (?&?&?&?).
    auto.
Qed.

Lemma write_vlq_total_witness :
  u64 (2 ^ 64 - 1) /\
  exists bs, write_vlq [9] (2 ^ 64 - 1) = [9] ++ bs /\ (1 <= length bs <= 10)%nat /\
    bytes_ok bs /\ vlq_wf bs = true /\ vlq_value bs = 2 ^ 64 - 1.
Proof.
  assert (Hv : u64 (2 ^ 64 - 1)) by (split; lia). split; [exact Hv|].
  apply (write_vlq_total [9] (2 ^ 64 - 1) Hv).
Defined.

(** The loop ends when the shift passes 63, whatever the fuel. *)
Lemma read_vlq_loop_fuel {R} `{Read R} n : forall fuel1 fuel2 result shift (r : R),
  (n <= fuel1)%nat -> (n <= fuel2)%nat -> shift <= 63 -> 63 < shift + 7 * Z.of_nat n ->
  read_vlq_loop fuel1 result shift r = read_vlq_loop fuel2 result shift r.
Proof.
  induction n as [|n IH]; intros fuel1 fuel2 result shift r H1 H2 Hs Hn; [lia|].
  destruct fuel1 as [|fuel1], fuel2 as [|fuel2]; try lia. cbn [read_vlq_loop]. unfold rbind.
  destruct (read_u8 r) as [[byte|e] r']; [|done]. destruct (_ =? 0); [done|].
  destruct (Z.ltb_spec 63 (shift + 7)); [done|]. apply IH; lia.
Qed.

(** C34: [read_vlq] ends after at most ten turns, whatever the bytes: its loop
    gives the same with any fuel from ten on. Its outcome is decided by the bytes
    ahead: a complete quantity of at most ten bytes whose value has at most 63
    bits gives that value and is consumed exactly; ten continuation bytes give
    [VlqOverflow]; running out of bytes before either gives [UnexpectedEof].
    (For values of more bits see [read_vlq_drops_high_bits].) *)
Theorem read_vlq_total {R} `{ReadLaws R} (r : R) :
  (forall fuel, (10 <= fuel)%nat -> read_vlq_loop fuel 0 0 r = read_vlq r) /\
  ((exists bs rest, view r = bs ++ rest /\ vlq_wf bs = true /\ (length bs <= 10)%nat /\
      (vlq_value bs < 2 ^ 63 -> exists r', read_vlq r = (Ok (vlq_value bs), r') /\ view r' = rest)) \/
   ((10 <= length (view r))%nat /\ forallb vlq_cont (take 10 (view r)) = true /\
      exists r', read_vlq r = (Err VlqOverflow, r')) \/
   ((length (view r) < 10)%nat /\ forallb vlq_cont (view r) = true /\
      exists r', read_vlq r = (Err UnexpectedEof, r'))).
Proof.
  split; [intros fuel Hf; apply (read_vlq_loop_fuel 10); lia|].
  destruct (vlq_scan 10 (view r)) as [(bs & rest & Hv & Hw & Hl)|[[Hl Ha]|[Hl Ha]]].
  - left. destruct (reads_vlq_wf bs Hw Hl r rest Hv) as (r' & E & V). exists bs, rest. split_and!; try done.
    intros Hlt. exists r'. split; [|done]. pose proof (vlq_value_bound bs). rewrite E, Z.mod_small by lia. done.
  - right; left. split; [done|]. split; [done|].
    apply read_vlq_loop_overflow; (done || lia).
  - right; right. split; [done|]. split; [done|]. apply read_vlq_loop_eof; (done || lia).
Qed.

(** The bits of the tenth byte beyond the sixty-fourth are dropped, not
    rejected: a quantity whose value is 2^64 is read as 0. *)
Theorem read_vlq_drops_high_bits :
  vlq_value [128; 128; 128; 128; 128; 128; 128; 128; 128; 2] = 2 ^ 64 /\
  (read_vlq (cursor_new [128; 128; 128; 128; 128; 128; 128; 128; 128; 2])).1 = Ok 0.
Proof. split; vm_compute; reflexivity. Qed.

(** ZigZag is a bijection between the signed and the unsigned integers of
    each width, with the stated inverse, in both directions. *)
Theorem zigzag_bijection :
  (forall v, i32 v -> u32 (zigzag_encode v) /\ zigzag_decode (zigzag_encode v) = v) /\
  (forall n, u32 n -> i32 (zigzag_decode n) /\ zigzag_encode (zigzag_decode n) = n) /\
  (forall v, i64 v -> u64 (zigzag_encode_i64 v) /\ zigzag_decode_i64 (zigzag_encode_i64 v) = v) /\
  (forall n, u64 n -> i64 (zigzag_decode_i64 n) /\ zigzag_encode_i64 (zigzag_decode_i64 n) = n).
Proof.
  destruct (zigzag_width_inverse 32 ltac:(lia)) as [H1 H2].
  destruct (zigzag_width_inverse 64 ltac:(lia)) as [H3 H4].
  pose proof (zigzag_encode_width 32) as E32. pose proof (zigzag_decode_width 32) as D32.
  pose proof (zigzag_encode_width 64) as E64. pose proof (zigzag_decode_width 64) as D64.
  unfold zigzag_encode, zigzag_decode, zigzag_encode_i64, zigzag_decode_i64.
  change (32 - 1) with 31 in *; change (64 - 1) with 63 in *.
  split_and!; intros x Hx.
  - destruct (H1 x Hx) as [Hu He]. rewrite E32 by (done || lia). by rewrite D32 by (done || lia).
  - destruct (H2 x Hx) as [Hi Hd]. rewrite D32 by (done || lia). by rewrite E32 by (done || lia).
  - destruct (H3 x Hx) as [Hu He]. rewrite E64 by (done || lia). by rewrite D64 by (done || lia).
  - destruct (H4 x Hx) as [Hi Hd]. rewrite D64 by (done || lia). by rewrite E64 by (done || lia).
Qed.
