(* ===== verification/Frame.v ===== *)
(** * [src/transport/frame.rs]: message frames *)
From S2P Require Import Prelude Io.

(** ** The hash *)

(** [Blake2b<U32>::digest] of the crate [blake2]: a parameter. *)
Class Blake2b256 := digest : list Z -> list Z.

(** Its documented output: 32 bytes. *)
Class Blake2b256Laws `{Blake2b256} : Prop := {
  digest_length : forall body, length (digest body) = 32%nat;
  digest_ok : forall body, bytes_ok (digest body)
}.

(** ** Data *)

Definition HEADER_SIZE : nat := 13.
Definition MAX_BODY_SIZE : Z := 256 * 1024.

Record Frame := mkFrame { code : Z; body : list Z }.

#[global] Instance Frame_eq_dec : EqDecision Frame.
Proof. solve_decision. Defined.

(** What the types [u8] and [Vec<u8>] enforce, and the size cap. *)
Definition frame_ok (f : Frame) : Prop :=
  u8 (code f) /\ bytes_ok (body f) /\ Z.of_nat (length (body f)) <= MAX_BODY_SIZE.

#[global] Instance frame_ok_dec f : Decision (frame_ok f).
Proof. unfold frame_ok. apply _. Defined.

(** [u32::to_be_bytes] and [u32::from_be_bytes]. *)
Definition to_be_bytes (n : Z) : list Z :=
  [as_unsigned 8 (Z.shiftr n 24); as_unsigned 8 (Z.shiftr n 16);
   as_unsigned 8 (Z.shiftr n 8); as_unsigned 8 n].

Definition from_be_bytes (b0 b1 b2 b3 : Z) : Z :=
  b0 * 16777216 + b1 * 65536 + b2 * 256 + b3.

(** [&data[from..to]]. *)
Definition slice (from to : nat) (data : list Z) : list Z := take (to - from) (drop from data).

(** ** Operations *)

Section frame.
Context `{Blake2b256}.

Definition encode (magic : list Z) (frame : Frame) : list Z :=
  let msg := magic in
  let msg := msg ++ [code frame] in
  let msg := msg ++ to_be_bytes (as_unsigned 32 (Z.of_nat (length (body frame)))) in
  let hash := digest (body frame) in
  let msg := msg ++ take 4 hash in
  msg ++ body frame.

Definition decode (magic : list Z) (data : list Z) : io_result Frame :=
  if decide (length data < HEADER_SIZE)%nat then Err (FrameTooShort (Z.of_nat (length data)))
  else if decide (slice 0 4 data <> magic) then Err (BadMagic (slice 0 4 data))
  else
    let code := data !!! 4%nat in
    let body_len :=
      from_be_bytes (data !!! 5%nat) (data !!! 6%nat) (data !!! 7%nat) (data !!! 8%nat) in
    if MAX_BODY_SIZE <? body_len then Err (BodyTooLarge body_len)
    else
      let expected_total := (HEADER_SIZE + Z.to_nat body_len)%nat in
      if decide (length data < expected_total)%nat
      then Err (FrameTruncated (Z.of_nat (length data)) (Z.of_nat expected_total))
      else
        let checksum := slice 9 13 data in
        let body := slice HEADER_SIZE expected_total data in
        let hash := digest body in
        if decide (take 4 hash <> checksum) then Err ChecksumMismatch
        else Ok (mkFrame code body).

Definition read_frame {R} `{Read R} (magic : list Z) : Reader R Frame :=
  let? header := read_exact HEADER_SIZE in
  if decide (slice 0 4 header <> magic) then rfail (BadMagic (slice 0 4 header))
  else
    let code := header !!! 4%nat in
    let body_len :=
      from_be_bytes (header !!! 5%nat) (header !!! 6%nat) (header !!! 7%nat) (header !!! 8%nat) in
    if MAX_BODY_SIZE <? body_len then rfail (BodyTooLarge body_len)
    else
      let checksum := slice 9 13 header in
      let? body := (if 0 <? body_len then read_exact (Z.to_nat body_len) else rret []) in
      let hash := digest body in
      if decide (take 4 hash <> checksum) then rfail ChecksumMismatch
      else rret (mkFrame code body).

Definition write_frame (magic : list Z) (frame : Frame) (w : Writer) : io_result unit * Writer :=
  let bytes := encode magic frame in
  match write_all bytes w with
  | (Ok _, w) => flush w
  | (Err e, w) => (Err e, w)
  end.

(** Reading [n] frames, one after the other, as the reader loop does. *)
Fixpoint read_frames {R} `{Read R} (magic : list Z) (n : nat) : Reader R (list Frame) :=
  match n with
  | O => rret []
  | S n =>
      let? f := read_frame magic in
      let? fs := read_frames magic n in
      rret (f :: fs)
  end.

(** Writing frames, one after the other, as the writer task does. *)
Fixpoint write_frames (magic : list Z) (fs : list Frame) (w : Writer) : io_result unit * Writer :=
  match fs with
  | [] => (Ok tt, w)
  | f :: fs =>
      match write_frame magic f w with
      | (Ok _, w) => write_frames magic fs w
      | (Err e, w) => (Err e, w)
      end
  end.

End frame.

(** ** Big-endian lengths *)

Lemma to_be_bytes_length n : length (to_be_bytes n) = 4%nat.
Proof. done. Qed.

Lemma to_be_bytes_ok n : bytes_ok (to_be_bytes n).
Proof. repeat constructor; unfold as_unsigned, in_unsigned; apply Z.mod_pos_bound; lia. Qed.

Lemma from_to_be_bytes n : u32 n ->
  match to_be_bytes n with
  | [b0; b1; b2; b3] => from_be_bytes b0 b1 b2 b3 = n
  | _ => False
  end.
Proof.
  intros Hn. unfold to_be_bytes, from_be_bytes, as_unsigned.
  rewrite !Z.shiftr_div_pow2 by lia. change (2 ^ 24) with (65536 * 256).
  change (2 ^ 16) with (256 * 256). change (2 ^ 8) with 256.
  rewrite <- !Z.div_div by lia. width.
  Z.div_mod_to_equations. lia.
Qed.

Lemma to_from_be_bytes b0 b1 b2 b3 : u8 b0 -> u8 b1 -> u8 b2 -> u8 b3 ->
  to_be_bytes (from_be_bytes b0 b1 b2 b3) = [b0; b1; b2; b3] /\
  u32 (from_be_bytes b0 b1 b2 b3).
Proof.
  intros H0 H1 H2 H3. width. unfold to_be_bytes, from_be_bytes, as_unsigned.
  rewrite !Z.shiftr_div_pow2 by lia.
  change (2 ^ 24) with 16777216; change (2 ^ 16) with 65536; change (2 ^ 8) with 256.
  split; [|lia]. repeat (f_equal; [Z.div_mod_to_equations; lia|]). f_equal.
  Z.div_mod_to_equations; lia.
Qed.

(** ** The header *)

(** The header fields of a list of 13 bytes. *)
Record header_fields (header magic : list Z) (c len : Z) (sum : list Z) : Prop := {
  hf_length : length header = HEADER_SIZE;
  hf_magic : slice 0 4 header = magic;
  hf_code : header !!! 4%nat = c;
  hf_len : from_be_bytes (header !!! 5%nat) (header !!! 6%nat)
                         (header !!! 7%nat) (header !!! 8%nat) = len;
  hf_sum : slice 9 13 header = sum
}.

Lemma header_build magic c len sum :
  length magic = 4%nat -> length sum = 4%nat -> u32 len ->
  header_fields (magic ++ [c] ++ to_be_bytes len ++ sum) magic c len sum.
Proof.
  intros Hm Hs Hl. pose proof (from_to_be_bytes len Hl) as Hb.
  destruct magic as [|m0 [|m1 [|m2 [|m3 [|]]]]]; try done.
  destruct sum as [|s0 [|s1 [|s2 [|s3 [|]]]]]; try done.
Qed.

Lemma header_inv header : length header = HEADER_SIZE -> bytes_ok header ->
  exists magic c len sum,
    header = magic ++ [c] ++ to_be_bytes len ++ sum /\
    header_fields header magic c len sum /\ u8 c /\ u32 len.
Proof.
  intros Hl Hb.
  destruct header as [|m0 [|m1 [|m2 [|m3 [|c [|l0 [|l1 [|l2 [|l3 [|s0 [|s1 [|s2 [|s3 [|]]]]]]]]]]]]]];
    try done.
  repeat match goal with H : Forall _ (_ :: _) |- _ => apply Forall_cons in H as [? H] end.
  destruct (to_from_be_bytes l0 l1 l2 l3) as [Hbe Hu]; try done.
  exists [m0; m1; m2; m3], c, (from_be_bytes l0 l1 l2 l3), [s0; s1; s2; s3].
  rewrite Hbe. split_and!; [done|by split|done|done].
Qed.

(** The fields of a header are those of any longer data. *)
Lemma header_fields_app data magic c len sum rest :
  header_fields data magic c len sum ->
  slice 0 4 (data ++ rest) = magic /\ (data ++ rest) !!! 4%nat = c /\
  from_be_bytes ((data ++ rest) !!! 5%nat) ((data ++ rest) !!! 6%nat)
                ((data ++ rest) !!! 7%nat) ((data ++ rest) !!! 8%nat) = len /\
  slice 9 13 (data ++ rest) = sum.
Proof.
  intros [Hl Hm Hc Hn Hs].
  destruct data as [|? [|? [|? [|? [|? [|? [|? [|? [|? [|? [|? [|? [|? [|]]]]]]]]]]]]]]; done.
Qed.

Section frame_lemmas.
Context `{Blake2b256Laws}.

Lemma checksum_length b : length (take 4 (digest b)) = 4%nat.
Proof. rewrite length_take, digest_length. done. Qed.

Lemma encode_eq magic f :
  encode magic f =
    (magic ++ [code f] ++ to_be_bytes (as_unsigned 32 (Z.of_nat (length (body f))))
      ++ take 4 (digest (body f))) ++ body f.
Proof. unfold encode. by rewrite <- !app_assoc. Qed.

Lemma encode_length magic f : length magic = 4%nat ->
  length (encode magic f) = (HEADER_SIZE + length (body f))%nat.
Proof.
  intros Hm. rewrite encode_eq, !length_app, Hm, checksum_length, to_be_bytes_length. done.
Qed.

Lemma encode_header magic f : length magic = 4%nat ->
  Z.of_nat (length (body f)) <= MAX_BODY_SIZE ->
  exists header, encode magic f = header ++ body f /\
    header_fields header magic (code f) (Z.of_nat (length (body f))) (take 4 (digest (body f))).
Proof.
  intros Hm Hl. unfold MAX_BODY_SIZE in Hl. eexists. split; [apply encode_eq|].
  unfold as_unsigned. rewrite Z.mod_small by solve_width.
  apply header_build; [done|apply checksum_length|solve_width].
Qed.

(** A header followed by the body it announces is the encoding of a frame. *)
Lemma encode_intro magic c len sum b :
  len = Z.of_nat (length b) -> Z.of_nat (length b) <= MAX_BODY_SIZE ->
  take 4 (digest b) = sum ->
  (magic ++ [c] ++ to_be_bytes len ++ sum) ++ b = encode magic (mkFrame c b).
Proof.
  intros -> Hl <-. rewrite encode_eq. cbn [code body]. unfold as_unsigned. unfold MAX_BODY_SIZE in Hl.
  by rewrite Z.mod_small by solve_width.
Qed.

(** *** [decode] *)

Lemma decode_encode magic f rest : length magic = 4%nat -> frame_ok f ->
  decode magic (encode magic f ++ rest) = Ok f.
Proof.
  intros Hm (Hc & Hb & Hl). destruct (encode_header magic f Hm Hl) as (h & -> & Hh).
  rewrite <- app_assoc. pose proof (hf_length _ _ _ _ _ Hh) as H13.
  destruct (header_fields_app _ _ _ _ _ (body f ++ rest) Hh) as (Em & Ec & En & Es).
  assert (Hlen : length (h ++ body f ++ rest) = (HEADER_SIZE + length (body f) + length rest)%nat)
    by (rewrite !length_app; lia).
  unfold decode. rewrite Hlen, decide_False by lia. rewrite Em, decide_False by naive_solver.
  rewrite En, Ec. destruct (Z.ltb_spec MAX_BODY_SIZE (Z.of_nat (length (body f)))); [lia|].
  rewrite Nat2Z.id. rewrite decide_False by lia. rewrite Es.
  assert (Eb : slice HEADER_SIZE (HEADER_SIZE + length (body f)) (h ++ body f ++ rest) = body f).
  { unfold slice. rewrite drop_app_exact by done. rewrite Nat.add_comm, Nat.add_sub.
    apply take_app_length. }
  rewrite Eb, decide_False by naive_solver. by destruct f.
Qed.

Lemma decode_inv magic data f : bytes_ok data -> decode magic data = Ok f ->
  length magic = 4%nat /\ frame_ok f /\ exists rest, data = encode magic f ++ rest.
Proof.
  intros Hb. unfold decode. case_decide as H1; [done|].
  assert (Hsplit : data = take HEADER_SIZE data ++ drop HEADER_SIZE data) by (by rewrite take_drop).
  assert (H13 : length (take HEADER_SIZE data) = HEADER_SIZE) by (rewrite length_take; lia).
  rewrite Hsplit in Hb. apply Forall_app in Hb as [Hb1 Hb2].
  destruct (header_inv _ H13 Hb1) as (m & c & len & sum & Eh & Hh & Hc & Hlen).
  destruct (header_fields_app _ _ _ _ _ (drop HEADER_SIZE data) Hh) as (Em & Ec & En & Es).
  rewrite <- Hsplit in Em, Ec, En, Es. rewrite Em, Ec, En, Es.
  case_decide as H2; [done|]. subst magic.
  destruct (Z.ltb_spec MAX_BODY_SIZE len) as [|H3]; [done|].
  case_decide as H4; [done|].
  assert (Ebody : slice HEADER_SIZE (HEADER_SIZE + Z.to_nat len) data
                  = take (Z.to_nat len) (drop HEADER_SIZE data)).
  { unfold slice. f_equal. lia. }
  rewrite Ebody. case_decide as H5; [done|]. intros [= <-].
  assert (Hbl : length (take (Z.to_nat len) (drop HEADER_SIZE data)) = Z.to_nat len)
    by (rewrite length_take, length_drop; lia).
  split; [rewrite <- Em; unfold slice; rewrite length_take, length_drop; unfold HEADER_SIZE in *; lia|].
  split.
  - split; [done|]. split; [by apply Forall_take|]. cbn [body]. rewrite Hbl. solve_width.
  - exists (drop (Z.to_nat len) (drop HEADER_SIZE data)).
    rewrite <- (encode_intro _ _ len sum) by (try done; rewrite Hbl; solve_width).
    by rewrite <- Eh, <- app_assoc, take_drop.
Qed.

(** *** [read_frame] *)

Section reader.
Context {R : Type} `{ReadLaws R}.

Lemma reads_frame magic f : length magic = 4%nat -> frame_ok f ->
  reads (R := R) (read_frame magic) (encode magic f) f.
Proof.
  intros Hm (Hc & Hb & Hl). destruct (encode_header magic f Hm Hl) as (h & -> & Hh).
  destruct Hh as [H13 Em Ec En Es].
  eapply reads_bind; [by apply reads_exact|].
  rewrite Em, decide_False by naive_solver. rewrite Ec, En, Es. cbv zeta.
  destruct (Z.ltb_spec MAX_BODY_SIZE (Z.of_nat (length (body f)))); [lia|].
  eapply reads_bind_nil with (a := body f).
  - destruct (Z.ltb_spec 0 (Z.of_nat (length (body f)))).
    + apply reads_exact. lia.
    + destruct (body f); [apply reads_ret|]. simpl in *. lia.
  - rewrite decide_False by naive_solver. destruct f. apply reads_ret.
Qed.

Lemma read_frame_inv magic (r r' : R) f : bytes_ok (view r) ->
  read_frame magic r = (Ok f, r') ->
  length magic = 4%nat /\ frame_ok f /\ view r = encode magic f ++ view r'.
Proof.
  intros Hb. unfold read_frame, rbind at 1.
  destruct (read_exact_cases HEADER_SIZE r) as [(r1 & -> & V1 & H13)|(r1 & -> & _)]; [|done].
  assert (Hl13 : length (take HEADER_SIZE (view r)) = HEADER_SIZE) by (rewrite length_take; lia).
  destruct (header_inv (take HEADER_SIZE (view r))) as (m & c & len & sum & Eh & Hh & Hc & Hlen);
    [done|by apply Forall_take|].
  destruct Hh as [_ Em Ec En Es]. rewrite Em, Ec, En, Es. cbv zeta.
  case_decide as Hmg; [done|]. subst magic.
  destruct (Z.ltb_spec MAX_BODY_SIZE len) as [|Hmax]; [done|]. unfold rbind.
  set (p := if 0 <? len then read_exact (Z.to_nat len) else rret []).
  assert (Hp : forall b r2, p r1 = (Ok b, r2) ->
    view r1 = b ++ view r2 /\ Z.of_nat (length b) = len).
  { intros b r2. unfold p. destruct (Z.ltb_spec 0 len).
    - destruct (read_exact_cases (Z.to_nat len) r1) as [(r3 & -> & V3 & Hn)|(r3 & -> & _)]; [|done].
      intros [= <- <-]. rewrite V3, take_drop, length_take. split; [done|lia].
    - intros [= <- <-]. split; [done|]. simpl. solve_width. }
  destruct (p r1) as [[b|e] r2]; [|done]. destruct (Hp b r2 eq_refl) as [V2 Hbl].
  case_decide as Hsum; [done|]. intros [= <- <-].
  assert (Hv : view r = take HEADER_SIZE (view r) ++ b ++ view r2).
  { by rewrite <- V2, V1, take_drop. }
  split; [|split].
  - rewrite <- Em. unfold slice. rewrite length_take, length_drop. unfold HEADER_SIZE in *. lia.
  - rewrite Hv in Hb. rewrite !Forall_app in Hb. split; [done|]. split; [apply Hb|cbn [body]; lia].
  - rewrite Hv at 1. rewrite Eh, app_assoc. f_equal. by apply encode_intro; [|lia|].
Qed.

Lemma reads_frames magic fs : length magic = 4%nat -> Forall frame_ok fs ->
  reads (R := R) (read_frames magic (length fs)) (concat (encode magic <$> fs)) fs.
Proof.
  intros Hm. induction 1 as [|f fs Hf Hfs IH]; [apply reads_ret|]. cbn.
  eapply reads_bind; [by apply reads_frame|].
  eapply reads_bind_nil; [apply IH|]. apply reads_ret.
Qed.

End reader.

Lemma write_frames_sent magic fs : forall w,
  (length (concat (encode magic <$> fs)) <= wr_room w)%nat ->
  exists w', write_frames magic fs w = (Ok tt, w') /\
    wr_sent w' = wr_sent w ++ concat (encode magic <$> fs).
Proof.
  induction fs as [|f fs IH]; intros w Hw.
  { exists w. split; [done|]. by rewrite app_nil_r. }
  rewrite fmap_cons in *. cbn [concat] in *. rewrite length_app in Hw.
  cbn [write_frames]. unfold write_frame. rewrite write_all_ok by lia. cbn [flush].
  destruct (IH (mkWriter (wr_sent w ++ encode magic f) (wr_room w - length (encode magic f))))
    as (w' & -> & Hs); [cbn [wr_room]; lia|].
  exists w'. split; [done|]. rewrite Hs. cbn [wr_sent]. by rewrite <- app_assoc.
Qed.

End frame_lemmas.

(** A concrete stand-in for the hash, used to exercise the theorems below. *)
Definition toy_digest : Blake2b256 := fun b => as_unsigned 8 <$> take 32 (b ++ replicate 32 0).

Lemma toy_digest_laws : @Blake2b256Laws toy_digest.
Proof.
  split; intros b; unfold digest, toy_digest.
  - rewrite length_fmap, length_take, length_app, length_replicate. lia.
  - apply Forall_fmap, Forall_true. intros x. apply Z.mod_pos_bound. lia.
Defined.

(** ** Properties *)

(** C24: [decode] accepts exactly the encodings of well-formed frames, with
    anything after them: it returns [f] if and only if the data starts with
    [encode magic f] and the body is within the size cap. *)
Theorem decode_iff_encode `{Blake2b256Laws} magic data f :
  length magic = 4%nat -> bytes_ok data ->
  decode magic data = Ok f <-> frame_ok f /\ exists rest, data = encode magic f ++ rest.
Proof.
  intros Hm Hb. split.
  - intros Hd. by destruct (decode_inv magic data f Hb Hd) as (_ & ? & ?).
  - intros [Hf [rest ->]]. by apply decode_encode.
Qed.

Lemma decode_iff_encode_witness :
  @decode toy_digest [2; 3; 2; 3] [2; 3; 2; 3; 55; 0; 0; 0; 2; 7; 8; 0; 0; 7; 8; 99]
    = Ok (mkFrame 55 [7; 8]) <->
  frame_ok (mkFrame 55 [7; 8]) /\
  exists rest, [2; 3; 2; 3; 55; 0; 0; 0; 2; 7; 8; 0; 0; 7; 8; 99]
    = @encode toy_digest [2; 3; 2; 3] (mkFrame 55 [7; 8]) ++ rest.
Proof.
  apply (@decode_iff_encode toy_digest toy_digest_laws); [reflexivity|].
  by_decide.
Defined.

(** C25: reading a frame from a stream and decoding it from a buffer agree:
    [read_frame] returns [f] exactly when [decode] does on the bytes ahead,
    and it leaves the reader just after the frame, whatever the reader. *)
Theorem read_frame_iff_decode {R} `{Blake2b256Laws} `{ReadLaws R} magic (r : R) f :
  length magic = 4%nat -> bytes_ok (view r) ->
  (exists r', read_frame magic r = (Ok f, r') /\
     view r' = drop (HEADER_SIZE + length (body f)) (view r)) <->
  decode magic (view r) = Ok f.
Proof.
  intros Hm Hb. split.
  - intros (r' & E & _). destruct (read_frame_inv magic r r' f Hb E) as (_ & Hf & ->).
    by apply decode_encode.
  - intros Hd. destruct (decode_inv magic _ f Hb Hd) as (_ & Hf & rest & Hv).
    destruct (reads_frame magic f Hm Hf r rest Hv) as (r' & E & V).
    exists r'. split; [done|]. rewrite V, Hv, drop_app_exact; [done|]. by apply encode_length.
Qed.

Lemma read_frame_iff_decode_witness :
  let r := mkBufReader [2; 3] [[2; 3; 55; 0; 0]; [0; 2; 7; 8; 0; 0; 7]; [8; 99]] in
  (exists r', @read_frame toy_digest _ _ [2; 3; 2; 3] r = (Ok (mkFrame 55 [7; 8]), r') /\
     view r' = drop (HEADER_SIZE + 2) (view r)) <->
  @decode toy_digest [2; 3; 2; 3] (view r) = Ok (mkFrame 55 [7; 8]).
Proof.
  intros r. apply (@read_frame_iff_decode _ toy_digest toy_digest_laws _ _ _ r
                     (mkFrame 55 [7; 8])); [reflexivity|].
  by_decide.
Defined.

(** C23: frames written one after the other come back in order and complete on
    the other side, however the network cuts the bytes into reads. *)
Theorem frame_stream_roundtrip `{Blake2b256Laws} magic fs room :
  length magic = 4%nat -> Forall frame_ok fs ->
  (length (concat (encode magic <$> fs)) <= room)%nat ->
  exists w', write_frames magic fs (mkWriter [] room) = (Ok tt, w') /\
    forall chunks, delivered chunks = wr_sent w' ->
      exists r', read_frames magic (length fs) (mkBufReader [] chunks) = (Ok fs, r') /\
        view r' = [].
Proof.
  intros Hm Hfs Hroom.
  destruct (write_frames_sent magic fs (mkWriter [] room) Hroom) as (w' & E & Hs).
  exists w'. split; [done|]. intros chunks Hc.
  apply (reads_frames magic fs Hm Hfs (mkBufReader [] chunks) []).
  rewrite app_nil_r. cbn. by rewrite Hc, Hs.
Qed.

Lemma frame_stream_roundtrip_witness :
  exists w', @write_frames toy_digest [2; 3; 2; 3] [mkFrame 1 []; mkFrame 55 [7; 8]]
               (mkWriter [] 100) = (Ok tt, w') /\
    forall chunks, delivered chunks = wr_sent w' ->
      exists r', @read_frames toy_digest _ _ [2; 3; 2; 3] 2 (mkBufReader [] chunks)
                   = (Ok [mkFrame 1 []; mkFrame 55 [7; 8]], r') /\ view r' = [].
Proof.
  apply (@frame_stream_roundtrip toy_digest toy_digest_laws [2; 3; 2; 3]
           [mkFrame 1 []; mkFrame 55 [7; 8]] 100); [reflexivity|by_decide|vm_compute; lia].
Defined.

(** A header that announces a body over the cap is refused before any of
    the body is read: the error carries the announced length and exactly the
    13 header bytes have been consumed. *)
Theorem read_frame_oversized {R} `{Blake2b256} `{ReadLaws R} magic (r : R) len :
  (HEADER_SIZE <= length (view r))%nat -> take 4 (view r) = magic ->
  slice 5 9 (view r) = to_be_bytes len -> u32 len -> MAX_BODY_SIZE < len ->
  exists r', read_frame magic r = (Err (BodyTooLarge len), r') /\
    view r' = drop HEADER_SIZE (view r).
Proof.
  intros H13 Hm Hlen Hu Hmax. destruct (read_exact_ok HEADER_SIZE r H13) as (r' & E & V).
  exists r'. split; [|done]. unfold read_frame, rbind at 1. rewrite E.
  assert (Em : slice 0 4 (take HEADER_SIZE (view r)) = magic).
  { unfold slice. rewrite drop_0, take_take. done. }
  rewrite Em, decide_False by naive_solver. cbv zeta.
  assert (En : forall i, (5 <= i < 9)%nat ->
    take HEADER_SIZE (view r) !!! i = to_be_bytes len !!! (i - 5)%nat).
  { intros i Hi. rewrite <- Hlen. unfold slice. rewrite !list_lookup_total_alt.
    rewrite !lookup_take_lt, lookup_drop by (unfold HEADER_SIZE; lia). do 3 f_equal. lia. }
  rewrite (En 5%nat), (En 6%nat), (En 7%nat), (En 8%nat) by lia.
  pose proof (from_to_be_bytes len Hu) as Hfb. cbn in Hfb |- *. rewrite Hfb.
  destruct (Z.ltb_spec MAX_BODY_SIZE len); [done|lia].
Qed.

Lemma read_frame_oversized_witness :
  exists r', @read_frame toy_digest _ _ [1; 0; 2; 4]
      (cursor_new [1; 0; 2; 4; 33; 0; 4; 0; 1; 0; 0; 0; 0; 5; 5])
      = (Err (BodyTooLarge 262145), r') /\
    view r' = [5; 5].
Proof.
  refine (@read_frame_oversized _ toy_digest _ _ [1; 0; 2; 4]
            (cursor_new [1; 0; 2; 4; 33; 0; 4; 0; 1; 0; 0; 0; 0; 5; 5]) 262145
            _ eq_refl eq_refl _ eq_refl); by_decide.
Defined.

(** A frame whose body was replaced by one of the same length with another
    four-byte digest prefix is refused with a checksum error. *)
Theorem decode_detects_corruption `{Blake2b256Laws} magic f b' rest :
  length magic = 4%nat -> frame_ok f -> length b' = length (body f) ->
  take 4 (digest b') <> take 4 (digest (body f)) ->
  decode magic (take HEADER_SIZE (encode magic f) ++ b' ++ rest) = Err ChecksumMismatch.
Proof.
  intros Hm (Hc & Hb & Hl) Hlen Hne.
  destruct (encode_header magic f Hm Hl) as (h & -> & Hh).
  pose proof (hf_length _ _ _ _ _ Hh) as H13. rewrite take_app_exact by done.
  destruct (header_fields_app _ _ _ _ _ (b' ++ rest) Hh) as (Em & Ec & En & Es).
  assert (Htot : length (h ++ b' ++ rest) = (HEADER_SIZE + length (body f) + length rest)%nat)
    by (rewrite !length_app; lia).
  unfold decode. rewrite Htot, decide_False by lia. rewrite Em, decide_False by naive_solver.
  rewrite En. destruct (Z.ltb_spec MAX_BODY_SIZE (Z.of_nat (length (body f)))); [lia|].
  rewrite Nat2Z.id. rewrite decide_False by lia. rewrite Es.
  assert (Eb : slice HEADER_SIZE (HEADER_SIZE + length (body f)) (h ++ b' ++ rest) = b').
  { unfold slice. rewrite drop_app_exact by done. rewrite Nat.add_comm, Nat.add_sub.
    rewrite <- Hlen. apply take_app_length. }
  rewrite Eb, decide_True by done. done.
Qed.

Lemma decode_detects_corruption_witness :
  @decode toy_digest [1; 0; 2; 4]
    (take HEADER_SIZE (@encode toy_digest [1; 0; 2; 4] (mkFrame 65 [0; 255; 0])) ++ [0; 254; 0] ++ [])
  = Err ChecksumMismatch.
Proof.
  apply (@decode_detects_corruption toy_digest toy_digest_laws);
    [reflexivity|by_decide|reflexivity|vm_compute; discriminate].
Defined.

(** [encode] does not check the size cap the receiver enforces: the
    encoding of a longer body is refused by every [decode]. *)
Theorem encode_oversized_rejected `{Blake2b256Laws} magic f rest :
  length magic = 4%nat -> MAX_BODY_SIZE < Z.of_nat (length (body f)) < 2 ^ 32 ->
  decode magic (encode magic f ++ rest) = Err (BodyTooLarge (Z.of_nat (length (body f)))).
Proof.
  intros Hm [Hl Hu]. rewrite encode_eq, <- app_assoc.
  unfold as_unsigned. rewrite Z.mod_small by lia.
  assert (Hh := header_build magic (code f) (Z.of_nat (length (body f)))
                  (take 4 (digest (body f))) Hm (checksum_length _) ltac:(solve_width)).
  pose proof (hf_length _ _ _ _ _ Hh) as H13.
  destruct (header_fields_app _ _ _ _ _ (body f ++ rest) Hh) as (Em & Ec & En & Es).
  unfold decode. rewrite decide_False by (rewrite length_app; lia).
  rewrite Em, decide_False by naive_solver. rewrite En.
  destruct (Z.ltb_spec MAX_BODY_SIZE (Z.of_nat (length (body f)))); [done|lia].
Qed.

Lemma encode_oversized_rejected_witness :
  let f := mkFrame 33 (replicate (Z.to_nat 300000) 0) in
  @decode toy_digest [1; 0; 2; 4] (@encode toy_digest [1; 0; 2; 4] f ++ []) =
    Err (BodyTooLarge (Z.of_nat (length (body f)))).
Proof.
  intros f. apply (@encode_oversized_rejected toy_digest toy_digest_laws); [reflexivity|].
  unfold f, MAX_BODY_SIZE. cbn [body]. rewrite length_replicate. lia.
Defined.
