(* ===== verification/Handshake.v ===== *)
(** * [src/transport/handshake.rs]: the handshake payload *)
From S2P Require Import Prelude Io Types Vlq.

(** ** Data *)

Definition FEATURE_MODE : Z := 16.
Definition FEATURE_SESSION : Z := 3.
Definition FEATURE_PROXY : Z := 64.

(** [std::net::SocketAddr], as far as the sources read it: address and port. *)
Inductive IpAddr := V4 (octets : list Z) | V6 (octets : list Z).
Record SocketAddr := mkSocketAddr { sa_ip : IpAddr; sa_port : Z }.

Definition socket_addr_ok (a : SocketAddr) : Prop :=
  u16 (sa_port a) /\
  match sa_ip a with
  | V4 o => length o = 4%nat
  | V6 o => length o = 16%nat
  end.

Record HandshakeConfig := mkHandshakeConfig {
  agent_name : list Z;
  peer_name : list Z;
  cfg_version : Version;
  network : Network;
  mode : ProxyMode;
  declared_address : option SocketAddr
}.

Record Feature := mkFeature { feature_id : Z; feature_body : list Z }.

Record PeerSpec := mkPeerSpec {
  agent : list Z;
  version : Version;
  name : list Z;
  address : option SocketAddr;
  features : list Feature
}.

#[global] Instance IpAddr_eq_dec : EqDecision IpAddr.
Proof. solve_decision. Defined.
#[global] Instance SocketAddr_eq_dec : EqDecision SocketAddr.
Proof. solve_decision. Defined.
#[global] Instance Feature_eq_dec : EqDecision Feature.
Proof. solve_decision. Defined.
#[global] Instance PeerSpec_eq_dec : EqDecision PeerSpec.
Proof. solve_decision. Defined.

(** ** Building *)

Definition build_mode_body (mode : ProxyMode) : list Z :=
  match mode with
  | Full => [0x00; 0x01; 0x00; 0x01]
  | Light => [0x00; 0x01; 0x01; 0x02; 0x01]
  end.

(** [u64::from_le_bytes] of the eight bytes read from /dev/urandom. *)
Fixpoint from_le_bytes (buf : list Z) : Z :=
  match buf with
  | [] => 0
  | b :: buf => b + 256 * from_le_bytes buf
  end.

Definition rand_u64 (urandom : list Z) : Z := from_le_bytes urandom.

Definition build_session_body (urandom : list Z) (network : Network) : list Z :=
  let body := magic network in
  let session_id := as_signed 64 (rand_u64 urandom) in
  let zigzag := zigzag_encode_i64 session_id in
  write_vlq body zigzag.

(** [now] is the system time in milliseconds since the epoch, [urandom] the
    eight bytes the session identifier is drawn from. *)
Definition build (now : Z) (urandom : list Z) (config : HandshakeConfig) : list Z :=
  let buf := [] in
  (* Timestamp *)
  let buf := write_vlq buf (as_unsigned 64 now) in
  (* Agent name *)
  let buf := write_short_string buf (agent_name config) in
  (* Version *)
  let buf := buf ++ [major (cfg_version config)] in
  let buf := buf ++ [minor (cfg_version config)] in
  let buf := buf ++ [patch (cfg_version config)] in
  (* Peer name *)
  let buf := write_short_string buf (peer_name config) in
  (* Declared address *)
  let buf :=
    match declared_address config with
    | None => buf ++ [0x00]
    | Some addr =>
        let buf := buf ++ [0x01] in
        let ip_bytes := match sa_ip addr with V4 ip => ip | V6 ip => ip end in
        let buf := buf ++ [as_unsigned 8 (Z.of_nat (length ip_bytes) + 4)] in
        let buf := buf ++ ip_bytes in
        write_vlq buf (sa_port addr)
    end in
  (* Features: Mode + Session + Proxy *)
  let buf := buf ++ [3] in
  let buf := buf ++ [FEATURE_MODE] in
  let mode_body := build_mode_body (mode config) in
  let buf := write_vlq buf (Z.of_nat (length mode_body)) in
  let buf := buf ++ mode_body in
  let buf := buf ++ [FEATURE_SESSION] in
  let session_body := build_session_body urandom (network config) in
  let buf := write_vlq buf (Z.of_nat (length session_body)) in
  let buf := buf ++ session_body in
  let buf := buf ++ [FEATURE_PROXY] in
  let buf := write_vlq buf 1 in
  buf ++ [0x01].

(** ** Parsing *)

Section parsing.
Context {R : Type} `{Read R}.

Definition parse_address : Reader R (option SocketAddr) :=
  let? addr_len_byte := read_u8 in
  let ip_len := Z.to_nat (Z.max 0 (addr_len_byte - 4)) in (* saturating_sub *)
  let? ip_bytes := read_exact ip_len in
  let? port := read_vlq in
  let port := as_unsigned 16 port in
  match ip_len with
  | 4%nat => rret (Some (mkSocketAddr (V4 ip_bytes) port))
  | 16%nat => rret (Some (mkSocketAddr (V6 ip_bytes) port))
  | _ => rret None
  end.

(** The [for] loop of [parse_features]; a failing read breaks out of it with
    the features collected so far. *)
Fixpoint parse_features_loop (n : nat) (features : list Feature) : Reader R (list Feature) :=
  match n with
  | O => rret features
  | S n =>
      let? fid := rtry read_u8 in
      match fid with
      | Err _ => rret features
      | Ok fid =>
          let? flen := rtry read_vlq_length in
          match flen with
          | Err _ => rret features
          | Ok flen =>
              let? fbody := rtry (read_exact (Z.to_nat flen)) in
              match fbody with
              | Err _ => rret features
              | Ok fbody => parse_features_loop n (features ++ [mkFeature fid fbody])
              end
          end
      end
  end.

Definition parse_features : Reader R (list Feature) :=
  let? feat_count := rtry read_u8 in
  match feat_count with
  | Ok feat_count => parse_features_loop (Z.to_nat feat_count) []
  | Err _ => rret []
  end.

Definition parse_peer_entry : Reader R PeerSpec :=
  let? agent := read_short_string in
  let? ver := read_exact 3 in
  let version := mkVersion (ver !!! 0%nat) (ver !!! 1%nat) (ver !!! 2%nat) in
  let? name := read_short_string in
  let? has_addr := read_u8 in
  let? address := (if negb (has_addr =? 0) then parse_address else rret None) in
  let? features := parse_features in
  rret (mkPeerSpec agent version name address features).

(** The body of [parse] on its cursor. *)
Definition parse_from : Reader R PeerSpec :=
  let? _timestamp := read_vlq in
  let? agent := read_short_string in
  let? ver := read_exact 3 in
  let version := mkVersion (ver !!! 0%nat) (ver !!! 1%nat) (ver !!! 2%nat) in
  let? name := read_short_string in
  let? has_addr := read_u8 in
  let? address := (if negb (has_addr =? 0) then parse_address else rret None) in
  let? features := parse_features in
  rret (mkPeerSpec agent version name address features).

(** The [for] loop of [measure_size]. *)
Fixpoint measure_features (n : nat) : Reader R unit :=
  match n with
  | O => rret tt
  | S n =>
      let? fid := read_u8 in
      let? flen := read_vlq_length in
      let? fbody := read_exact (Z.to_nat flen) in
      measure_features n
  end.

(** The reads of [measure_size] on its cursor. *)
Definition measure_from : Reader R unit :=
  let? _timestamp := read_vlq in
  let? _agent := read_short_string in
  let? ver := read_exact 3 in
  let? _name := read_short_string in
  let? has_addr := read_u8 in
  let? _addr :=
    (if negb (has_addr =? 0) then
       let? addr_len_byte := read_u8 in
       let ip_len := Z.to_nat (Z.max 0 (addr_len_byte - 4)) in
       let? ip_bytes := read_exact ip_len in
       let? port := read_vlq in
       rret tt
     else rret tt) in
  let? feat_count := read_u8 in
  measure_features (Z.to_nat feat_count).

End parsing.

Definition parse (data : list Z) : io_result PeerSpec := (parse_from (cursor_new data)).1.

Definition measure_size (data : list Z) : io_result Z :=
  match measure_from (cursor_new data) with
  | (Ok _, cursor) => Ok (Z.of_nat (cur_pos cursor))
  | (Err e, _) => Err e
  end.

(** ** Validation *)

(** [Result<(), String>]: [inr tt] is [Ok(())]. *)
Definition validate_peer (spec : PeerSpec) (network : Network) : reject + unit :=
  if version_ltb (version spec) EIP37_MIN
  then inl (VersionBelowMinimum (major (version spec)) (minor (version spec)) (patch (version spec)))
  else match list_find (fun f => feature_id f = FEATURE_SESSION) (features spec) with
       | Some (_, session) =>
           if decide (4 <= length (feature_body session))%nat then
             let peer_magic := take 4 (feature_body session) in
             let expected := magic network in
             if decide (peer_magic <> expected)
             then inl (SessionMagicMismatch peer_magic expected)
             else inr tt
           else inr tt
       | None => inr tt
       end.

Definition is_proxy (spec : PeerSpec) : bool :=
  existsb (fun f => feature_id f =? FEATURE_PROXY) (features spec).

(** What the types of [HandshakeConfig] enforce, and the precondition
    [s.len() <= 255] of [write_short_string] on the two names. *)
Definition config_ok (config : HandshakeConfig) : Prop :=
  utf8_valid (agent_name config) = true /\ (length (agent_name config) <= 255)%nat /\
  utf8_valid (peer_name config) = true /\ (length (peer_name config) <= 255)%nat /\
  version_ok (cfg_version config) /\
  match declared_address config with Some a => socket_addr_ok a | None => True end.

(** The handshake a JVM node sent, captured on the wire. *)
Definition JVM_HANDSHAKE : list Z :=
  [0xd4; 0xc5; 0xfb; 0x85; 0xd4; 0x33;
   0x07; 0x65; 0x72; 0x67; 0x6f; 0x72; 0x65; 0x66;
   0x06; 0x00; 0x03;
   0x0f; 0x65; 0x72; 0x67; 0x6f; 0x2d; 0x74; 0x65;
   0x73; 0x74; 0x2d; 0x66; 0x72; 0x65; 0x73; 0x68;
   0x01; 0x08; 0x5f; 0xb3; 0xf6; 0x66; 0xbf; 0x46;
   0x02; 0x10; 0x04; 0x00; 0x01; 0x00; 0x01; 0x03;
   0x0e; 0x02; 0x03; 0x02; 0x03; 0xbd; 0xf8; 0xda;
   0xf9; 0x99; 0xfc; 0xf5; 0xb3; 0x8b; 0x01].

Example jvm_handshake_parses :
  parse JVM_HANDSHAKE = Ok (mkPeerSpec
    [0x65; 0x72; 0x67; 0x6f; 0x72; 0x65; 0x66] (mkVersion 6 0 3)
    [0x65; 0x72; 0x67; 0x6f; 0x2d; 0x74; 0x65; 0x73; 0x74; 0x2d; 0x66; 0x72; 0x65; 0x73; 0x68]
    (Some (mkSocketAddr (V4 [95; 179; 246; 102]) 9023))
    [mkFeature 16 [0; 1; 0; 1];
     mkFeature 3 [2; 3; 2; 3; 0xbd; 0xf8; 0xda; 0xf9; 0x99; 0xfc; 0xf5; 0xb3; 0x8b; 0x01]]).
Proof. vm_compute. reflexivity. Qed.

Example jvm_handshake_measures : measure_size JVM_HANDSHAKE = Ok 64.
Proof. vm_compute. reflexivity. Qed.

(** ** The format, as a concatenation *)

Definition address_bytes (a : option SocketAddr) : list Z :=
  match a with
  | None => [0x00]
  | Some addr =>
      let ip_bytes := match sa_ip addr with V4 ip => ip | V6 ip => ip end in
      [0x01] ++ [as_unsigned 8 (Z.of_nat (length ip_bytes) + 4)] ++ ip_bytes
        ++ write_vlq [] (sa_port addr)
  end.

Definition feature_bytes (f : Feature) : list Z :=
  [feature_id f] ++ write_vlq [] (Z.of_nat (length (feature_body f))) ++ feature_body f.

(** The peer a receiver should see. *)
Definition config_spec (urandom : list Z) (c : HandshakeConfig) : PeerSpec :=
  mkPeerSpec (agent_name c) (cfg_version c) (peer_name c) (declared_address c)
    [mkFeature FEATURE_MODE (build_mode_body (mode c));
     mkFeature FEATURE_SESSION (build_session_body urandom (network c));
     mkFeature FEATURE_PROXY [1]].

Definition version_bytes_of (v : Version) : list Z := [major v; minor v; patch v].

Lemma write_short_string_app buf s : write_short_string buf s = buf ++ write_short_string [] s.
Proof. done. Qed.

#[local] Opaque write_vlq write_short_string.

Lemma build_eq now urandom c :
  build now urandom c =
    write_vlq [] (as_unsigned 64 now) ++ write_short_string [] (agent_name c)
    ++ version_bytes_of (cfg_version c) ++ write_short_string [] (peer_name c)
    ++ address_bytes (declared_address c)
    ++ [3] ++ concat (feature_bytes <$> features (config_spec urandom c)).
Proof.
  unfold build, address_bytes, feature_bytes, version_bytes_of, config_spec. cbv zeta.
  destruct (declared_address c) as [[ip port]|];
    repeat match goal with
    | |- context [write_vlq (?x ++ ?y) ?v] => rewrite (write_vlq_app (x ++ y) v)
    | |- context [write_short_string (?x ++ ?y) ?v] => rewrite (write_short_string_app (x ++ y) v)
    | |- context [write_short_string (write_vlq ?x ?y) ?v] =>
        rewrite (write_short_string_app (write_vlq x y) v)
    end;
    cbn [features fmap list_fmap concat feature_id feature_body sa_ip sa_port];
    rewrite <- ?app_assoc; cbn [app]; reflexivity.
Qed.

(** ** A strict parser: the features read with [?] *)

Section strict.
Context {R : Type} `{Read R}.

Fixpoint strict_features (n : nat) (acc : list Feature) : Reader R (list Feature) :=
  match n with
  | O => rret acc
  | S n =>
      let? fid := read_u8 in
      let? flen := read_vlq_length in
      let? fbody := read_exact (Z.to_nat flen) in
      strict_features n (acc ++ [mkFeature fid fbody])
  end.

Definition strict_from : Reader R PeerSpec :=
  let? _timestamp := read_vlq in
  let? agent := read_short_string in
  let? ver := read_exact 3 in
  let version := mkVersion (ver !!! 0%nat) (ver !!! 1%nat) (ver !!! 2%nat) in
  let? name := read_short_string in
  let? has_addr := read_u8 in
  let? address := (if negb (has_addr =? 0) then parse_address else rret None) in
  let? feat_count := read_u8 in
  let? features := strict_features (Z.to_nat feat_count) [] in
  rret (mkPeerSpec agent version name address features).

Lemma sim_features n : forall acc,
  sim eq (strict_features n acc) (parse_features_loop n acc).
Proof.
  induction n as [|n IH]; intros acc; [by apply sim_ret|].
  do 3 (apply sim_try; intros ?). apply IH.
Qed.

(** What the strict parser accepts, [parse] accepts with the same result. *)
Lemma sim_strict_parse : sim eq strict_from parse_from.
Proof.
  unfold strict_from, parse_from. do 6 (apply sim_bind_eq; intros ?).
  intros r spec r' E. unfold parse_features, rbind, rtry in *.
  destruct (read_u8 r) as [[c|e] r1]; [|done].
  destruct (strict_features (Z.to_nat c) [] r1) as [[fs|e] r2] eqn:E2; [|done].
  destruct (sim_features _ _ _ _ _ E2) as (fs' & -> & <-). eauto.
Qed.

Lemma sim_measure_features n : forall acc,
  sim (fun _ _ => True) (measure_features n) (strict_features n acc).
Proof.
  induction n as [|n IH]; intros acc; [by apply sim_ret|].
  do 3 (apply sim_bind_eq; intros ?). apply IH.
Qed.

Lemma sim_features_measure n : forall acc,
  sim (fun _ _ => True) (strict_features n acc) (measure_features n).
Proof.
  induction n as [|n IH]; intros acc; [by apply sim_ret|].
  do 3 (apply sim_bind_eq; intros ?). apply IH.
Qed.

(** The two readings of a declared address stop at the same place. *)
Lemma sim_address_measure :
  sim (fun _ _ => True) parse_address
    (let? addr_len_byte := read_u8 in
     let ip_len := Z.to_nat (Z.max 0 (addr_len_byte - 4)) in
     let? ip_bytes := read_exact ip_len in
     let? port := read_vlq in
     rret tt).
Proof.
  unfold parse_address. do 3 (apply sim_bind_eq; intros ?). cbv zeta.
  repeat case_match; by apply sim_ret.
Qed.

Lemma sim_measure_address :
  sim (fun _ _ => True)
    (let? addr_len_byte := read_u8 in
     let ip_len := Z.to_nat (Z.max 0 (addr_len_byte - 4)) in
     let? ip_bytes := read_exact ip_len in
     let? port := read_vlq in
     rret tt) parse_address.
Proof.
  unfold parse_address. do 3 (apply sim_bind_eq; intros ?). cbv zeta.
  repeat case_match; by apply sim_ret.
Qed.

(** [measure_size] accepts exactly what the strict parser accepts. *)
Lemma sim_measure_strict : sim (fun _ _ => True) measure_from strict_from.
Proof.
  unfold measure_from, strict_from. do 5 (apply sim_bind_eq; intros ?).
  eapply (sim_bind (fun _ _ => True)).
  - case_match; [apply sim_measure_address|by apply sim_ret].
  - intros _ addr _. apply sim_bind_eq. intros c.
    intros r u r' E. destruct (sim_measure_features _ [] _ _ _ E) as (fs & E2 & _).
    unfold rbind. rewrite E2. eexists. by split.
Qed.

Lemma sim_strict_measure : sim (fun _ _ => True) strict_from measure_from.
Proof.
  unfold measure_from, strict_from. do 5 (apply sim_bind_eq; intros ?).
  eapply (sim_bind (fun _ _ => True)).
  - case_match; [apply sim_address_measure|by apply sim_ret].
  - intros addr _ _. apply sim_bind_eq. intros c.
    intros r u r' E. unfold rbind in E.
    destruct (strict_features (Z.to_nat c) [] r) as [[fs|e] r1] eqn:E2; [|done].
    injection E as <- <-. apply (sim_features_measure _ _ _ _ _ E2).
Qed.

End strict.

(** ** The strict parser and its bytes *)

Section strict_bytes.
Context {R : Type} `{ReadLaws R}.

Lemma framed_address : framed (R := R) parse_address.
Proof.
  repeat (apply framed_bind; [auto with ergo|intros ?]). repeat case_match; auto with ergo.
Qed.

Lemma framed_features n : forall acc, framed (R := R) (strict_features n acc).
Proof. induction n as [|n IH]; intros acc; cbn; auto 10 with ergo. Qed.

Lemma framed_strict : framed (R := R) strict_from.
Proof.
  unfold strict_from. do 5 (apply framed_bind; [auto with ergo|intros ?]).
  apply framed_bind; [case_match; [apply framed_address|auto with ergo]|intros ?].
  apply framed_bind; [auto with ergo|intros ?].
  apply framed_bind; [apply framed_features|intros ?]. auto with ergo.
Qed.

Lemma reads_address a : socket_addr_ok a ->
  reads (R := R) parse_address (tail (address_bytes (Some a))) (Some a).
Proof.
  intros [Hp Ho]. destruct a as [ip port]. cbn [address_bytes sa_ip sa_port] in *.
  set (o := match ip with V4 ip => ip | V6 ip => ip end).
  assert (Hl : length o = 4%nat \/ length o = 16%nat) by (destruct ip; auto). cbn [app tail].
  change (as_unsigned 8 (Z.of_nat (length o) + 4) :: o ++ write_vlq [] port)
    with ([as_unsigned 8 (Z.of_nat (length o) + 4)] ++ o ++ write_vlq [] port).
  assert (Elen : Z.to_nat (Z.max 0 (as_unsigned 8 (Z.of_nat (length o) + 4) - 4)) = length o)
    by (unfold as_unsigned; rewrite Z.mod_small by solve_width; lia).
  eapply reads_bind; [apply reads_u8|]. cbv zeta. rewrite Elen.
  eapply reads_bind; [by apply reads_exact|].
  eapply reads_bind_nil; [apply reads_vlq; solve_width|].
  unfold as_unsigned. rewrite Z.mod_small by solve_width.
  destruct ip; unfold o in *; rewrite Ho; apply reads_ret.
Qed.

Lemma reads_features fs : forall acc,
  Forall (fun f => Z.of_nat (length (feature_body f)) <= MAX_VLQ_LENGTH) fs ->
  reads (R := R) (strict_features (length fs) acc) (concat (feature_bytes <$> fs)) (acc ++ fs).
Proof.
  induction fs as [|f fs IH]; intros acc Hf; cbn [length strict_features fmap list_fmap concat].
  { rewrite app_nil_r. apply reads_ret. }
  apply Forall_cons in Hf as [Hf Hfs]. destruct f as [fid fbody]. unfold feature_bytes at 1.
  cbn [feature_id feature_body] in *. rewrite <- !app_assoc.
  eapply reads_bind; [apply reads_u8|].
  eapply reads_bind; [by apply reads_vlq_length|].
  eapply reads_bind; [apply reads_exact; lia|].
  specialize (IH (acc ++ [mkFeature fid fbody]) Hfs). by rewrite <- app_assoc in IH.
Qed.

Lemma session_body_length urandom net :
  (5 <= length (build_session_body urandom net) <= 14)%nat.
Proof.
  unfold build_session_body. rewrite write_vlq_app, length_app, magic_length.
  destruct (write_vlq_spec (zigzag_encode_i64 (as_signed 64 (rand_u64 urandom)))) as (_ & _ & Hl & _).
  - apply Z.mod_pos_bound. lia.
  - lia.
Qed.

Lemma config_features_short urandom c :
  Forall (fun f => Z.of_nat (length (feature_body f)) <= MAX_VLQ_LENGTH)
    (features (config_spec urandom c)).
Proof.
  pose proof (session_body_length urandom (network c)). unfold MAX_VLQ_LENGTH.
  repeat constructor; cbn [feature_body]; [|lia|done]. by destruct (mode c).
Qed.

Lemma reads_strict now urandom c : config_ok c ->
  reads (R := R) strict_from (build now urandom c) (config_spec urandom c).
Proof.
  intros (Ha & Hla & Hp & Hlp & Hv & Had). rewrite build_eq. unfold strict_from.
  eapply reads_bind; [apply reads_vlq; apply Z.mod_pos_bound; lia|].
  eapply reads_bind; [by apply reads_short_string|].
  eapply reads_bind; [by apply reads_exact|]. cbv zeta.
  eapply reads_bind; [by apply reads_short_string|].
  assert (Haddr : exists b, address_bytes (declared_address c) = [b] ++ tail (address_bytes (declared_address c)) /\
    reads (R := R) (if negb (b =? 0) then parse_address else rret None)
      (tail (address_bytes (declared_address c))) (declared_address c)).
  { destruct (declared_address c) as [a|].
    - exists 1. split; [done|]. by apply reads_address.
    - exists 0. split; [done|]. apply reads_ret. }
  destruct Haddr as (b & -> & Hrd). rewrite <- app_assoc.
  eapply reads_bind; [apply reads_u8|]. eapply reads_bind; [exact Hrd|].
  eapply reads_bind; [apply reads_u8|].
  eapply reads_bind_nil;
    [apply (reads_features (features (config_spec urandom c)) []), config_features_short|].
  destruct c as [? ? [] ? ? ?]. apply reads_ret.
Qed.

End strict_bytes.

(** ** On a cursor *)

Lemma stable_measure_features n : stable cursor_le (measure_features n).
Proof.
  induction n as [|n IH]; [apply stable_ret, _|].
  apply stable_bind; [apply _|apply stable_u8; [apply _|apply cursor_stable_exact]|intros ?].
  apply stable_bind; [apply _|apply stable_vlq_length; [apply _|apply cursor_stable_exact]|intros ?].
  apply stable_bind; [apply _|apply cursor_stable_exact|intros ?]. apply IH.
Qed.

Lemma stable_measure : stable cursor_le measure_from.
Proof.
  pose proof cursor_stable_exact as Hex.
  assert (Hu8 : stable cursor_le read_u8) by (apply stable_u8; [apply _|done]).
  assert (Hvlq : stable cursor_le read_vlq) by (apply stable_vlq; [apply _|done]).
  assert (Hss : stable cursor_le read_short_string) by (apply stable_short_string; [apply _|done]).
  unfold measure_from. do 5 (apply stable_bind; [apply _|done|intros ?]).
  apply stable_bind; [apply _| |intros ?].
  - case_match; [|apply stable_ret, _].
    do 3 (apply stable_bind; [apply _|done|intros ?]). apply stable_ret, _.
  - apply stable_bind; [apply _|done|intros ?]. apply stable_measure_features.
Qed.

(** Bytes the strict parser reads are measured and parsed alike, whatever
    follows them. *)
Lemma strict_parse_measure bs spec rest :
  reads (R := Cursor) strict_from bs spec ->
  parse (bs ++ rest) = Ok spec /\ measure_size (bs ++ rest) = Ok (Z.of_nat (length bs)).
Proof.
  intros Hr. destruct (Hr (cursor_new (bs ++ rest)) rest) as (c & E & V); [done|]. split.
  - destruct (sim_strict_parse _ _ _ E) as (s & E2 & <-). unfold parse. by rewrite E2.
  - destruct (sim_strict_measure _ _ _ E) as (u & E2 & _).
    unfold measure_size. rewrite E2. destruct (stable_measure _ _ _ E2) as [Hd Hp].
    destruct c as [d pos]. cbn in *. subst d. do 2 f_equal. specialize (Hp ltac:(lia)).
    unfold remaining in V. cbn in V. apply (f_equal length) in V.
    rewrite length_drop, length_app in *. lia.
Qed.

(** What is measured has been read by the strict parser. *)
Lemma measure_strict data n : measure_size data = Ok n ->
  exists bs rest spec, data = bs ++ rest /\ n = Z.of_nat (length bs) /\
    reads (R := Cursor) strict_from bs spec.
Proof.
  intros Hm. pose proof Hm as Hm0. unfold measure_size in Hm.
  destruct (measure_from (cursor_new data)) as [[u|e] c] eqn:E; [|done].
  destruct (sim_measure_strict _ _ _ E) as (spec & E2 & _).
  destruct (framed_strict _ _ _ E2) as (bs & V & Hr).
  change (view (cursor_new data)) with data in V.
  exists bs, (view c), spec. split; [done|]. split; [|done].
  rewrite V in Hm0. destruct (strict_parse_measure bs spec (view c) Hr) as [_ Hm1]. congruence.
Qed.

Lemma config_validate urandom c net :
  validate_peer (config_spec urandom c) net = inr tt <->
  version_ltb (cfg_version c) EIP37_MIN = false /\ net = network c.
Proof.
  unfold validate_peer. cbn [version config_spec features].
  destruct (version_ltb (cfg_version c) EIP37_MIN); [by split; [|intros []]|].
  cbn [list_find feature_id]. rewrite decide_False, decide_True by done. cbn [fmap option_fmap option_map].
  cbn [feature_body prod_map id snd]. pose proof (session_body_length urandom (network c)) as Hl.
  rewrite decide_True by lia.
  replace (take 4 (build_session_body urandom (network c))) with (magic (network c)).
  2:{ unfold build_session_body. rewrite write_vlq_app, take_app_exact; [done|apply magic_length]. }
  case_decide as Hd.
  - split; [done|]. intros [_ ->]. done.
  - split; [|done]. intros _. split; [done|]. symmetry. by apply magic_inj.
Qed.

#[global] Instance config_ok_dec c : Decision (config_ok c).
Proof.
  unfold config_ok, version_ok, socket_addr_ok.
  destruct (declared_address c) as [[[] ?]|]; apply _.
Defined.

Lemma build_prefix_unmeasured now urandom c pre ext : config_ok c ->
  build now urandom c = pre ++ ext -> ext <> [] -> exists e, measure_size pre = Err e.
Proof.
  intros Hc Hb Hne. destruct (measure_size pre) as [n|e] eqn:Hm; [exfalso|by exists e].
  destruct (measure_strict pre n Hm) as (bs & rest & spec & -> & -> & Hr).
  destruct (strict_parse_measure _ _ [] (reads_strict now urandom c Hc)) as [_ H1].
  destruct (strict_parse_measure _ _ (rest ++ ext) Hr) as [_ H2].
  rewrite app_nil_r in H1. rewrite app_assoc, <- Hb, H1 in H2. injection H2 as Hlen.
  rewrite Hb, !length_app in Hlen. destruct ext; [done|]. cbn in Hlen. lia.
Qed.

(** ** Properties *)

Definition proxy_config : HandshakeConfig :=
  mkHandshakeConfig [101; 114; 103; 111] [110; 111; 100; 101] (mkVersion 6 0 3) Testnet Full
    (Some (mkSocketAddr (V4 [95; 179; 246; 102]) 9023)).

(** C31: the handshake built from a configuration parses back to exactly that
    configuration, with the three advertised features, and is measured at its
    exact size, whatever bytes follow it. *)
Theorem handshake_roundtrip now urandom c rest : config_ok c ->
  parse (build now urandom c ++ rest) = Ok (config_spec urandom c) /\
  measure_size (build now urandom c ++ rest) = Ok (Z.of_nat (length (build now urandom c))).
Proof. intros Hc. by apply strict_parse_measure, reads_strict. Qed.

Lemma handshake_roundtrip_witness :
  let hs := build 1774907744980 [1; 2; 3; 4; 5; 6; 7; 200] proxy_config in
  parse (hs ++ [2; 3]) = Ok (config_spec [1; 2; 3; 4; 5; 6; 7; 200] proxy_config) /\
  measure_size (hs ++ [2; 3]) = Ok (Z.of_nat (length hs)).
Proof. apply handshake_roundtrip. by_decide. Defined.

(** A peer accepts the handshake the proxy builds exactly when the
    advertised version is at least 4.0.100 and the peer is on the same network,
    and always recognises the sender as a proxy. *)
Theorem handshake_accepted_iff now urandom c rest net : config_ok c ->
  exists spec, parse (build now urandom c ++ rest) = Ok spec /\ is_proxy spec = true /\
    (validate_peer spec net = inr tt <->
       4 * 65536 + 100 <= major (cfg_version c) * 65536 + minor (cfg_version c) * 256
                            + patch (cfg_version c) /\ net = network c).
Proof.
  intros Hc. exists (config_spec urandom c).
  destruct (strict_parse_measure _ _ rest (reads_strict now urandom c Hc)) as [-> _].
  split; [done|]. split; [done|]. rewrite config_validate, version_min_iff by apply Hc. done.
Qed.

Lemma handshake_accepted_iff_witness :
  exists spec, parse (build 5 [0; 0; 0; 0; 0; 0; 0; 0] proxy_config ++ []) = Ok spec /\
    is_proxy spec = true /\
    (validate_peer spec Testnet = inr tt <->
       4 * 65536 + 100 <= 6 * 65536 + 0 * 256 + 3 /\ Testnet = Testnet).
Proof. apply (handshake_accepted_iff 5 [0; 0; 0; 0; 0; 0; 0; 0] proxy_config [] Testnet). by_decide. Defined.

(** [measure_size] and [parse] agree: when a payload is measured at [n]
    bytes, those [n] bytes alone determine the peer specification parsed and
    the size measured, whatever follows them. *)
Theorem measure_parse_agree data n : measure_size data = Ok n ->
  0 <= n <= Z.of_nat (length data) /\
  exists spec, forall rest,
    parse (take (Z.to_nat n) data ++ rest) = Ok spec /\
    measure_size (take (Z.to_nat n) data ++ rest) = Ok n.
Proof.
  intros Hm. destruct (measure_strict data n Hm) as (bs & rest & spec & -> & -> & Hr).
  rewrite length_app, Nat2Z.id, take_app_length. split; [lia|].
  exists spec. intros rest'. by apply strict_parse_measure.
Qed.

Lemma measure_parse_agree_witness :
  0 <= 64 <= Z.of_nat (length (JVM_HANDSHAKE ++ [2; 3; 2; 3])) /\
  exists spec, forall rest,
    parse (take (Z.to_nat 64) (JVM_HANDSHAKE ++ [2; 3; 2; 3]) ++ rest) = Ok spec /\
    measure_size (take (Z.to_nat 64) (JVM_HANDSHAKE ++ [2; 3; 2; 3]) ++ rest) = Ok 64.
Proof. apply measure_parse_agree. vm_compute. reflexivity. Defined.

(** No strict prefix of a built handshake is measurable: a handshake of
    which only the first part has arrived is refused. *)
Theorem handshake_truncated now urandom c pre ext : config_ok c ->
  build now urandom c = pre ++ ext -> ext <> [] -> exists e, measure_size pre = Err e.
Proof. apply build_prefix_unmeasured. Qed.

Lemma handshake_truncated_witness :
  exists e, measure_size (take 20 (build 5 [1; 2; 3; 4; 5; 6; 7; 8] proxy_config)) = Err e.
Proof.
  apply (handshake_truncated 5 [1; 2; 3; 4; 5; 6; 7; 8] proxy_config _
           (drop 20 (build 5 [1; 2; 3; 4; 5; 6; 7; 8] proxy_config)));
    [by_decide|symmetry; apply take_drop|vm_compute; discriminate].
Defined.

(** C32: a peer whose first Session feature has at least four bytes is accepted
    exactly when its version is at least 4.0.100 and that feature starts with the
    magic of the network, and otherwise the error says which of the two failed,
    the version first. (A peer without such a feature is
    [validate_accepts_unproved_network].) *)
Theorem validate_peer_iff spec net i f : version_ok (version spec) ->
  list_find (fun f => feature_id f = FEATURE_SESSION) (features spec) = Some (i, f) -> (4 <= length (feature_body f))%nat ->
  let recent := 4 * 65536 + 100 <= major (version spec) * 65536 + minor (version spec) * 256 + patch (version spec) in
  (validate_peer spec net = inr tt <-> recent /\ take 4 (feature_body f) = magic net) /\
  (~ recent -> validate_peer spec net = inl (VersionBelowMinimum (major (version spec)) (minor (version spec)) (patch (version spec)))) /\
  (recent -> take 4 (feature_body f) <> magic net ->
   validate_peer spec net = inl (SessionMagicMismatch (take 4 (feature_body f)) (magic net))).
Proof.
  intros Hv Hf H4 recent. unfold recent, validate_peer.
  rewrite <- (version_min_iff _ Hv), Hf, decide_True by done.
  destruct (version_ltb (version spec) EIP37_MIN); [naive_solver|]. case_decide; naive_solver.
Qed.

Lemma validate_peer_iff_witness :
  exists f, list_find (fun f => feature_id f = FEATURE_SESSION) (features (config_spec [] proxy_config)) = Some (1%nat, f) /\
    (validate_peer (config_spec [] proxy_config) Mainnet = inr tt <->
     4 * 65536 + 100 <= 6 * 65536 + 0 * 256 + 3 /\ take 4 (feature_body f) = magic Mainnet).
Proof.
  eexists. split; [vm_compute; reflexivity|].
  refine (proj1 (validate_peer_iff (config_spec [] proxy_config) Mainnet 1 _ _ _ _)); [by_decide|vm_compute; reflexivity|vm_compute; lia].
Defined.

(** A peer that sends no Session feature at all, or one shorter than the
    magic, is accepted on every network: the magic is compared only when it is
    there. *)
Theorem validate_accepts_unproved_network net v a n addr : version_ltb v EIP37_MIN = false ->
  validate_peer (mkPeerSpec a v n addr []) net = inr tt /\
  validate_peer (mkPeerSpec a v n addr [mkFeature FEATURE_SESSION [9; 9; 9]]) net = inr tt.
Proof. intros Hv. unfold validate_peer. cbn. rewrite Hv. done. Qed.

Lemma validate_accepts_unproved_network_witness :
  validate_peer (mkPeerSpec [] (mkVersion 6 0 3) [] None []) Mainnet = inr tt /\
  validate_peer (mkPeerSpec [] (mkVersion 6 0 3) [] None [mkFeature FEATURE_SESSION [9; 9; 9]]) Mainnet
    = inr tt.
Proof. apply validate_accepts_unproved_network. reflexivity. Defined.

(** The release build does not refuse a name longer than 255 bytes: the
    length byte wraps, and the handshake sent is read by the peer as one with
    an empty agent name and another version. *)
Theorem build_long_name_misread :
  let c := mkHandshakeConfig (replicate 256 97) [110] (mkVersion 6 0 3) Testnet Full None in
  exists spec, parse (build 0 [] c) = Ok spec /\ agent spec = [] /\ version spec <> cfg_version c.
Proof. eexists. split; [vm_compute; reflexivity|]. split; [reflexivity|discriminate]. Qed.
