(* ===== verification/Messages.v ===== *)
(** * [src/protocol/messages.rs]: typed messages *)
From S2P Require Import Prelude Io Types Vlq Frame.

(** ** Data *)

Definition GET_PEERS : Z := 1.
Definition PEERS : Z := 2.
Definition MODIFIER_REQUEST : Z := 22.
Definition MODIFIER_RESPONSE : Z := 33.
Definition INV : Z := 55.
Definition SYNC_INFO : Z := 65.

Inductive ProtocolMessage :=
  | GetPeers
  | Peers (body : list Z)
  | Inv (modifier_type : Z) (ids : list ModifierId)
  | ModifierRequest (modifier_type : Z) (ids : list ModifierId)
  | ModifierResponse (modifier_type : Z) (modifiers : list (ModifierId * list Z))
  | SyncInfo (body : list Z)
  | Unknown (code : Z) (body : list Z).

#[global] Instance ProtocolMessage_eq_dec : EqDecision ProtocolMessage.
Proof. solve_decision. Defined.

(** ** Bodies *)

Section bodies.
Context {R : Type} `{Read R}.

(** The [for] loop of [parse_inv_body]. *)
Fixpoint parse_ids (count : nat) (ids : list ModifierId) : Reader R (list ModifierId) :=
  match count with
  | O => rret ids
  | S count =>
      let? id := read_exact 32 in
      parse_ids count (ids ++ [id])
  end.

Definition parse_inv_from : Reader R (Z * list ModifierId) :=
  let? type_byte := read_u8 in
  let? count := read_vlq_length in
  let? ids := parse_ids (Z.to_nat count) [] in
  rret (type_byte, ids).

(** The [for] loop of [parse_modifier_response_body]. *)
Fixpoint parse_modifiers (count : nat) (modifiers : list (ModifierId * list Z))
    : Reader R (list (ModifierId * list Z)) :=
  match count with
  | O => rret modifiers
  | S count =>
      let? id := read_exact 32 in
      let? data_len := read_vlq_length in
      let? mod_data := read_exact (Z.to_nat data_len) in
      parse_modifiers count (modifiers ++ [(id, mod_data)])
  end.

Definition parse_modifier_response_from : Reader R (Z * list (ModifierId * list Z)) :=
  let? type_byte := read_u8 in
  let? count := read_vlq_length in
  let? modifiers := parse_modifiers (Z.to_nat count) [] in
  rret (type_byte, modifiers).

End bodies.

Definition parse_inv_body (data : list Z) : io_result (Z * list ModifierId) :=
  (parse_inv_from (cursor_new data)).1.

Definition parse_modifier_response_body (data : list Z)
    : io_result (Z * list (ModifierId * list Z)) :=
  (parse_modifier_response_from (cursor_new data)).1.

Definition encode_inv_body (modifier_type : Z) (ids : list ModifierId) : list Z :=
  let body := [] in
  let body := body ++ [modifier_type] in
  let body := write_vlq body (Z.of_nat (length ids)) in
  foldl (fun body id => body ++ id) body ids.

Definition encode_modifier_response_body (modifier_type : Z)
    (modifiers : list (ModifierId * list Z)) : list Z :=
  let body := [] in
  let body := body ++ [modifier_type] in
  let body := write_vlq body (Z.of_nat (length modifiers)) in
  foldl (fun body '(id, data) =>
           let body := body ++ id in
           let body := write_vlq body (Z.of_nat (length data)) in
           body ++ data) body modifiers.

(** ** Messages *)

Definition from_frame (frame : Frame) : io_result ProtocolMessage :=
  if code frame =? GET_PEERS then Ok GetPeers
  else if code frame =? PEERS then Ok (Peers (body frame))
  else if code frame =? INV then
    match parse_inv_body (body frame) with
    | Ok (modifier_type, ids) => Ok (Inv modifier_type ids)
    | Err e => Err e
    end
  else if code frame =? MODIFIER_REQUEST then
    match parse_inv_body (body frame) with
    | Ok (modifier_type, ids) => Ok (ModifierRequest modifier_type ids)
    | Err e => Err e
    end
  else if code frame =? MODIFIER_RESPONSE then
    match parse_modifier_response_body (body frame) with
    | Ok (modifier_type, modifiers) => Ok (ModifierResponse modifier_type modifiers)
    | Err e => Err e
    end
  else if code frame =? SYNC_INFO then Ok (SyncInfo (body frame))
  else Ok (Unknown (code frame) (body frame)).

Definition to_frame (msg : ProtocolMessage) : Frame :=
  match msg with
  | GetPeers => mkFrame GET_PEERS []
  | Peers body => mkFrame PEERS body
  | Inv modifier_type ids => mkFrame INV (encode_inv_body modifier_type ids)
  | ModifierRequest modifier_type ids =>
      mkFrame MODIFIER_REQUEST (encode_inv_body modifier_type ids)
  | ModifierResponse modifier_type modifiers =>
      mkFrame MODIFIER_RESPONSE (encode_modifier_response_body modifier_type modifiers)
  | SyncInfo body => mkFrame SYNC_INFO body
  | Unknown code body => mkFrame code body
  end.

(** ** Well-formed messages *)

Definition known_code (c : Z) : bool :=
  (c =? GET_PEERS) || (c =? PEERS) || (c =? MODIFIER_REQUEST) || (c =? MODIFIER_RESPONSE)
  || (c =? INV) || (c =? SYNC_INFO).

Definition ids_ok (ids : list ModifierId) : Prop :=
  Z.of_nat (length ids) <= MAX_VLQ_LENGTH /\ Forall (fun id => length id = 32%nat) ids.

Definition modifiers_ok (ms : list (ModifierId * list Z)) : Prop :=
  Z.of_nat (length ms) <= MAX_VLQ_LENGTH /\
  Forall (fun m => length m.1 = 32%nat /\ Z.of_nat (length m.2) <= MAX_VLQ_LENGTH) ms.

(** The array type of the identifiers, the counts a receiver accepts, and no
    [Unknown] message under a known code. *)
Definition message_ok (m : ProtocolMessage) : Prop :=
  match m with
  | Inv _ ids | ModifierRequest _ ids => ids_ok ids
  | ModifierResponse _ ms => modifiers_ok ms
  | Unknown c _ => known_code c = false
  | _ => True
  end.

#[global] Instance message_ok_dec m : Decision (message_ok m).
Proof. destruct m; unfold message_ok, ids_ok, modifiers_ok; apply _. Defined.

(** ** Bodies as concatenations *)

Definition modifier_bytes (m : ModifierId * list Z) : list Z :=
  m.1 ++ write_vlq [] (Z.of_nat (length m.2)) ++ m.2.

Lemma foldl_app_concat {A} (g : list Z -> A -> list Z) (f : A -> list Z) l :
  (forall acc x, g acc x = acc ++ f x) ->
  forall acc, foldl g acc l = acc ++ concat (f <$> l).
Proof.
  intros Hg. induction l as [|x l IH]; intros acc; cbn; [by rewrite app_nil_r|].
  by rewrite IH, Hg, <- app_assoc.
Qed.

Lemma encode_inv_body_eq t ids :
  encode_inv_body t ids = [t] ++ write_vlq [] (Z.of_nat (length ids)) ++ concat ids.
Proof.
  unfold encode_inv_body. cbv zeta. rewrite (foldl_app_concat _ (fun id => id)), list_fmap_id by done.
  by rewrite write_vlq_app, <- !app_assoc.
Qed.

Lemma encode_modifier_response_body_eq t ms :
  encode_modifier_response_body t ms =
    [t] ++ write_vlq [] (Z.of_nat (length ms)) ++ concat (modifier_bytes <$> ms).
Proof.
  unfold encode_modifier_response_body. cbv zeta.
  rewrite (foldl_app_concat _ modifier_bytes), write_vlq_app.
  - by rewrite <- !app_assoc.
  - intros acc [id data]. unfold modifier_bytes. cbn [fst snd].
    by rewrite write_vlq_app, <- !app_assoc.
Qed.

Section body_bytes.
Context {R : Type} `{ReadLaws R}.

Lemma reads_ids ids : forall acc, Forall (fun id => length id = 32%nat) ids ->
  reads (R := R) (parse_ids (length ids) acc) (concat ids) (acc ++ ids).
Proof.
  induction ids as [|id ids IH]; intros acc Hf; cbn.
  { rewrite app_nil_r. apply reads_ret. }
  apply Forall_cons in Hf as [Hid Hf].
  eapply reads_bind; [by apply reads_exact|].
  specialize (IH (acc ++ [id]) Hf). by rewrite <- app_assoc in IH.
Qed.

Lemma reads_inv t ids : ids_ok ids ->
  reads (R := R) parse_inv_from (encode_inv_body t ids) (t, ids).
Proof.
  intros [Hl Hf]. rewrite encode_inv_body_eq.
  eapply reads_bind; [apply reads_u8|]. eapply reads_bind; [by apply reads_vlq_length|].
  rewrite Nat2Z.id. eapply reads_bind_nil; [by apply (reads_ids ids [])|]. apply reads_ret.
Qed.

Lemma reads_modifiers ms : forall acc,
  Forall (fun m => length m.1 = 32%nat /\ Z.of_nat (length m.2) <= MAX_VLQ_LENGTH) ms ->
  reads (R := R) (parse_modifiers (length ms) acc) (concat (modifier_bytes <$> ms)) (acc ++ ms).
Proof.
  induction ms as [|[id data] ms IH]; intros acc Hf; cbn [length parse_modifiers fmap list_fmap concat].
  { rewrite app_nil_r. apply reads_ret. }
  apply Forall_cons in Hf as [[Hid Hd] Hf]. cbn [fst snd] in *.
  unfold modifier_bytes at 1. cbn [fst snd]. rewrite <- !app_assoc.
  eapply reads_bind; [by apply reads_exact|].
  eapply reads_bind; [by apply reads_vlq_length|]. rewrite Nat2Z.id.
  eapply reads_bind; [by apply reads_exact|].
  specialize (IH (acc ++ [(id, data)]) Hf). by rewrite <- app_assoc in IH.
Qed.

Lemma reads_modifier_response t ms : modifiers_ok ms ->
  reads (R := R) parse_modifier_response_from (encode_modifier_response_body t ms) (t, ms).
Proof.
  intros [Hl Hf]. rewrite encode_modifier_response_body_eq.
  eapply reads_bind; [apply reads_u8|]. eapply reads_bind; [by apply reads_vlq_length|].
  rewrite Nat2Z.id. eapply reads_bind_nil; [by apply (reads_modifiers ms [])|]. apply reads_ret.
Qed.

End body_bytes.

Lemma reads_cursor_new {A} (p : Reader Cursor A) bs a :
  reads p bs a -> (p (cursor_new bs)).1 = Ok a.
Proof.
  intros Hr. destruct (Hr (cursor_new bs) []) as (c & E & _); [|by rewrite E].
  by rewrite app_nil_r.
Qed.

Lemma from_to_frame m : message_ok m -> from_frame (to_frame m) = Ok m.
Proof.
  destruct m as [|b|t ids|t ids|t ms|b|c b]; intros Hm; try done.
  - cbn. unfold from_frame, parse_inv_body. cbn. by rewrite (reads_cursor_new _ _ _ (reads_inv t ids Hm)).
  - cbn. unfold from_frame, parse_inv_body. cbn. by rewrite (reads_cursor_new _ _ _ (reads_inv t ids Hm)).
  - cbn. unfold from_frame, parse_modifier_response_body. cbn.
    by rewrite (reads_cursor_new _ _ _ (reads_modifier_response t ms Hm)).
  - cbn in Hm. unfold known_code in Hm. unfold from_frame. cbn.
    repeat (apply orb_false_elim in Hm as [Hm ?]).
    by repeat match goal with H : (c =? _) = false |- _ => rewrite H end.
Qed.

(** ** What the parsers accept *)

Section accepted.
Context {R : Type} `{ReadLaws R}.

Lemma parse_ids_inv n : forall acc (r r' : R) out, parse_ids n acc r = (Ok out, r') ->
  exists ids, out = acc ++ ids /\ length ids = n /\
    Forall (fun id => length id = 32%nat) ids /\ view r = concat ids ++ view r'.
Proof.
  induction n as [|n IH]; intros acc r r' out; cbn.
  { intros [= <- <-]. exists []. by rewrite app_nil_r. }
  unfold rbind. destruct (read_exact_cases 32 r) as [(r1 & -> & V1 & Hl)|(r1 & -> & _)]; [|done].
  intros E. destruct (IH _ _ _ _ E) as (ids & -> & Hn & Hf & V2).
  exists (take 32 (view r) :: ids). rewrite <- app_assoc. split; [done|]. split; [cbn; lia|]. split.
  - constructor; [|done]. rewrite length_take. lia.
  - cbn [concat]. by rewrite <- app_assoc, <- V2, V1, take_drop.
Qed.

Lemma parse_modifiers_inv n : forall acc (r r' : R) out, parse_modifiers n acc r = (Ok out, r') ->
  exists ms, out = acc ++ ms /\ length ms = n /\
    Forall (fun m => length m.1 = 32%nat /\ Z.of_nat (length m.2) <= MAX_VLQ_LENGTH) ms /\
    (length (concat (modifier_bytes <$> ms)) + length (view r') <= length (view r))%nat.
Proof.
  induction n as [|n IH]; intros acc r r' out; cbn [parse_modifiers].
  { intros [= <- <-]. exists []. rewrite app_nil_r. split_and!; [done|done|constructor|cbn; lia]. }
  unfold rbind. destruct (read_exact_cases 32 r) as [(r1 & -> & V1 & Hl)|(r1 & -> & _)]; [|done].
  destruct (read_vlq_length r1) as [[v|e] r2] eqn:Ev; [|done].
  destruct (read_vlq_length_inv _ _ _ Ev) as (Hv & bs & V2 & Hbs).
  destruct (read_exact_cases (Z.to_nat v) r2) as [(r3 & -> & V3 & Hl3)|(r3 & -> & _)]; [|done].
  intros E. destruct (IH _ _ _ _ E) as (ms & -> & Hn & Hf & V4).
  assert (Hd : length (take (Z.to_nat v) (view r2)) = Z.to_nat v) by (rewrite length_take; lia).
  exists ((take 32 (view r), take (Z.to_nat v) (view r2)) :: ms).
  rewrite <- app_assoc. split; [done|]. split; [cbn; lia|]. split.
  - constructor; [|done]. cbn [fst snd]. rewrite Hd, length_take. lia.
  - cbn [fmap list_fmap concat]. unfold modifier_bytes at 1. cbn [fst snd].
    rewrite !length_app, Hd, length_take. rewrite Z2Nat.id by lia.
    apply (f_equal length) in V1, V2, V3. rewrite length_drop in V1, V3. rewrite length_app in V2.
    lia.
Qed.

End accepted.

Lemma parse_inv_body_inv data t ids : parse_inv_body data = Ok (t, ids) ->
  ids_ok ids /\ (length (encode_inv_body t ids) <= length data)%nat.
Proof.
  unfold parse_inv_body, parse_inv_from, rbind.
  destruct (read_u8 (cursor_new data)) as [[b|e] c1] eqn:E1; [|done].
  destruct (framed_u8 _ _ _ E1) as (b1 & V1 & Hr1).
  destruct (read_vlq_length c1) as [[v|e] c2] eqn:E2; [|done].
  destruct (read_vlq_length_inv _ _ _ E2) as (Hv & bs & V2 & Hbs).
  destruct (parse_ids (Z.to_nat v) [] c2) as [[out|e] c3] eqn:E3; [|done].
  destruct (parse_ids_inv _ _ _ _ _ E3) as (ids' & -> & Hn & Hf & V3). cbn [app].
  intros [= <- <-]. split; [split; [lia|done]|].
  rewrite encode_inv_body_eq, !length_app. replace (Z.of_nat (length ids')) with v by lia.
  change (view (cursor_new data)) with data in V1.
  apply (f_equal length) in V1, V2, V3. rewrite length_app in V1, V2, V3. cbn [length].
  assert (length b1 <> 0)%nat; [|lia].
  intros H0. apply nil_length_inv in H0 as ->. destruct (Hr1 (cursor_new []) []) as (c & Ec & _); [done|].
  done.
Qed.

Lemma parse_modifier_response_body_inv data t ms :
  parse_modifier_response_body data = Ok (t, ms) ->
  modifiers_ok ms /\ (length (encode_modifier_response_body t ms) <= length data)%nat.
Proof.
  unfold parse_modifier_response_body, parse_modifier_response_from, rbind.
  destruct (read_u8 (cursor_new data)) as [[b|e] c1] eqn:E1; [|done].
  destruct (framed_u8 _ _ _ E1) as (b1 & V1 & Hr1).
  destruct (read_vlq_length c1) as [[v|e] c2] eqn:E2; [|done].
  destruct (read_vlq_length_inv _ _ _ E2) as (Hv & bs & V2 & Hbs).
  destruct (parse_modifiers (Z.to_nat v) [] c2) as [[out|e] c3] eqn:E3; [|done].
  destruct (parse_modifiers_inv _ _ _ _ _ E3) as (ms' & -> & Hn & Hf & V3). cbn [app].
  intros [= <- <-]. split; [split; [lia|done]|].
  rewrite encode_modifier_response_body_eq, !length_app. replace (Z.of_nat (length ms')) with v by lia.
  change (view (cursor_new data)) with data in V1.
  apply (f_equal length) in V1, V2. rewrite length_app in V1, V2. cbn [length].
  assert (length b1 <> 0)%nat; [|lia].
  intros H0. apply nil_length_inv in H0 as ->. destruct (Hr1 (cursor_new []) []) as (c & Ec & _); [done|].
  done.
Qed.

(** ** Errors *)

Section errors.
Context {R : Type} `{ReadLaws R}.

Lemma fails_ids n : forall acc, fails vlq_error (parse_ids (R := R) n acc).
Proof.
  induction n as [|n IH]; intros acc; cbn [parse_ids]; [apply fails_ret|].
  apply fails_bind; [apply fails_exact; constructor|]. intros id. apply IH.
Qed.

Lemma fails_inv : fails vlq_error (parse_inv_from (R := R)).
Proof.
  apply fails_bind; [apply fails_u8; constructor|]. intros t.
  apply fails_bind; [apply fails_vlq_length|]. intros n.
  apply fails_bind; [apply fails_ids|]. intros ids. apply fails_ret.
Qed.

Lemma fails_modifiers n : forall acc, fails vlq_error (parse_modifiers (R := R) n acc).
Proof.
  induction n as [|n IH]; intros acc; cbn [parse_modifiers]; [apply fails_ret|].
  apply fails_bind; [apply fails_exact; constructor|]. intros id.
  apply fails_bind; [apply fails_vlq_length|]. intros len.
  apply fails_bind; [apply fails_exact; constructor|]. intros data. apply IH.
Qed.

Lemma fails_modifier_response : fails vlq_error (parse_modifier_response_from (R := R)).
Proof.
  apply fails_bind; [apply fails_u8; constructor|]. intros t.
  apply fails_bind; [apply fails_vlq_length|]. intros n.
  apply fails_bind; [apply fails_modifiers|]. intros ms. apply fails_ret.
Qed.

End errors.

Lemma fails_cursor_new {A} (p : Reader Cursor A) E data e :
  fails E p -> (p (cursor_new data)).1 = Err e -> E e.
Proof.
  intros Hf. destruct (p (cursor_new data)) as [x c] eqn:Hp. cbn. intros ->. by eapply Hf.
Qed.

(** ** Properties *)

(** A typed message survives the wire: serialised, framed, cut into reads
    by the network in any way, read back and parsed, it is the same message. *)
Theorem message_wire_roundtrip `{Blake2b256Laws} {R} `{ReadLaws R} magic m (r : R) rest :
  length magic = 4%nat -> message_ok m -> frame_ok (to_frame m) ->
  view r = encode magic (to_frame m) ++ rest ->
  exists f r', read_frame magic r = (Ok f, r') /\ view r' = rest /\ from_frame f = Ok m.
Proof.
  intros Hm Hok Hf Hv. destruct (reads_frame magic (to_frame m) Hm Hf r rest Hv) as (r' & E & V).
  exists (to_frame m), r'. split; [done|]. split; [done|]. by apply from_to_frame.
Qed.

Lemma message_wire_roundtrip_witness :
  let m := Inv 2 [replicate 32 170; replicate 32 187] in
  let bytes := @encode toy_digest [2; 3; 2; 3] (to_frame m) in
  exists f r', @read_frame toy_digest _ _ [2; 3; 2; 3] (mkBufReader [] [take 20 bytes; drop 20 bytes])
    = (Ok f, r') /\ view r' = [] /\ from_frame f = Ok m.
Proof.
  intros m bytes.
  apply (@message_wire_roundtrip toy_digest toy_digest_laws BufReader _ _ [2; 3; 2; 3] m _ []);
    [reflexivity|by_decide|by_decide|vm_compute; reflexivity].
Defined.

(** C33: whatever frame the proxy accepts, the message it would send on has the
    same code, is well formed, parses at the next hop to the same message, and
    its body is never longer than the one received; a message the proxy does
    not take apart (Peers, SyncInfo, unknown codes) is sent on byte for byte. *)
Theorem forwarding_preserves f m : from_frame f = Ok m ->
  message_ok m /\ code (to_frame m) = code f /\
  (length (body (to_frame m)) <= length (body f))%nat /\
  from_frame (to_frame m) = Ok m /\
  (code f <> GET_PEERS -> code f <> INV -> code f <> MODIFIER_REQUEST ->
   code f <> MODIFIER_RESPONSE -> to_frame m = f).
Proof.
  intros Hf. assert (Hmain : message_ok m /\ code (to_frame m) = code f /\
    (length (body (to_frame m)) <= length (body f))%nat /\
    (code f <> GET_PEERS -> code f <> INV -> code f <> MODIFIER_REQUEST ->
     code f <> MODIFIER_RESPONSE -> to_frame m = f)).
  { revert Hf. destruct f as [c b]. unfold from_frame. cbn [code body].
    destruct (Z.eqb_spec c GET_PEERS) as [->|]; [intros [= <-]; cbn; split_and!; (done || lia)|].
    destruct (Z.eqb_spec c PEERS) as [->|]; [intros [= <-]; done|].
    destruct (Z.eqb_spec c INV) as [->|].
    { destruct (parse_inv_body b) as [[t ids]|e] eqn:E; [|done]. intros [= <-].
      destruct (parse_inv_body_inv b t ids E). done. }
    destruct (Z.eqb_spec c MODIFIER_REQUEST) as [->|].
    { destruct (parse_inv_body b) as [[t ids]|e] eqn:E; [|done]. intros [= <-].
      destruct (parse_inv_body_inv b t ids E). done. }
    destruct (Z.eqb_spec c MODIFIER_RESPONSE) as [->|].
    { destruct (parse_modifier_response_body b) as [[t ms]|e] eqn:E; [|done]. intros [= <-].
      destruct (parse_modifier_response_body_inv b t ms E). done. }
    destruct (Z.eqb_spec c SYNC_INFO) as [->|]; [intros [= <-]; done|].
    intros [= <-]. split; [|done]. cbn. unfold known_code.
    repeat (apply orb_false_intro); by apply Z.eqb_neq. }
  destruct Hmain as (H1 & H2 & H3 & H4). split_and!; try done. by apply from_to_frame.
Qed.

Lemma forwarding_preserves_witness :
  let f := mkFrame 22 ([2; 129; 0] ++ replicate 32 7 ++ [9; 9]) in
  let m := ModifierRequest 2 [replicate 32 7] in
  message_ok m /\ code (to_frame m) = code f /\
  (length (body (to_frame m)) <= length (body f))%nat /\
  from_frame (to_frame m) = Ok m /\
  (code f <> GET_PEERS -> code f <> INV -> code f <> MODIFIER_REQUEST ->
   code f <> MODIFIER_RESPONSE -> to_frame m = f).
Proof. apply forwarding_preserves. vm_compute. reflexivity. Defined.

(** Only the three structured codes can fail to parse, and only because
    the body ends early, a quantity overflows, or a count or length is over
    the cap; every other frame parses. *)
Theorem from_frame_errors f e : from_frame f = Err e ->
  (code f = INV \/ code f = MODIFIER_REQUEST \/ code f = MODIFIER_RESPONSE) /\ vlq_error e.
Proof.
  unfold from_frame, parse_inv_body, parse_modifier_response_body.
  destruct (Z.eqb_spec (code f) GET_PEERS); [done|].
  destruct (Z.eqb_spec (code f) PEERS); [done|].
  destruct (Z.eqb_spec (code f) INV).
  { destruct (_.1) as [[t ids]|e'] eqn:E; [done|]. intros [= ->]. split; [by left|].
    by eapply fails_cursor_new; [apply fails_inv|]. }
  destruct (Z.eqb_spec (code f) MODIFIER_REQUEST).
  { destruct (_.1) as [[t ids]|e'] eqn:E; [done|]. intros [= ->]. split; [by right; left|].
    by eapply fails_cursor_new; [apply fails_inv|]. }
  destruct (Z.eqb_spec (code f) MODIFIER_RESPONSE).
  { destruct (_.1) as [[t ids]|e'] eqn:E; [done|]. intros [= ->]. split; [by right; right|].
    by eapply fails_cursor_new; [apply fails_modifier_response|]. }
  by destruct (code f =? SYNC_INFO).
Qed.

Lemma from_frame_errors_witness :
  (55 = INV \/ 55 = MODIFIER_REQUEST \/ 55 = MODIFIER_RESPONSE) /\ vlq_error UnexpectedEof.
Proof. apply (from_frame_errors (mkFrame 55 [2; 1; 0; 0]) UnexpectedEof). vm_compute. reflexivity. Defined.
