(* ===== verification/Peer.v ===== *)
(** * [src/protocol/peer.rs]: the lifecycle of a peer *)
From S2P Require Import Prelude Io Types Vlq Frame Handshake Messages.

(** ** Data *)

Inductive PeerState := Connecting | Handshaking | Active | Disconnected | Failed.

#[global] Instance PeerState_eq_dec : EqDecision PeerState.
Proof. solve_decision. Defined.

Inductive ProtocolEvent :=
  | PeerConnected (peer_id : PeerId) (spec : PeerSpec) (direction : Direction)
  | PeerDisconnected (peer_id : PeerId) (reason : list Z)
  | Message (peer_id : PeerId) (message : ProtocolMessage).

(** The peer an event is about. *)
Definition event_peer (e : ProtocolEvent) : PeerId :=
  match e with
  | PeerConnected p _ _ | PeerDisconnected p _ | Message p _ => p
  end.

Record PeerStateMachine := mkPSM {
  psm_peer_id : PeerId;
  psm_direction : Direction;
  psm_state : PeerState;
  psm_spec : option PeerSpec
}.

(** ** Operations *)

Definition psm_new (peer_id : PeerId) (direction : Direction) : PeerStateMachine :=
  mkPSM peer_id direction Connecting None.

Definition state (m : PeerStateMachine) : PeerState := psm_state m.
Definition peer_id (m : PeerStateMachine) : PeerId := psm_peer_id m.
Definition direction (m : PeerStateMachine) : Direction := psm_direction m.
Definition spec (m : PeerStateMachine) : option PeerSpec := psm_spec m.

(** [debug_assert_eq!]: [None] is the panic of a build with debug assertions;
    without them nothing is checked. *)
Definition debug_assert_eq (debug : bool) (a b : PeerState) : option unit :=
  if debug && negb (bool_decide (a = b)) then None else Some tt.

Definition set_handshaking (debug : bool) (m : PeerStateMachine) : option PeerStateMachine :=
  _ ← debug_assert_eq debug (psm_state m) Connecting;
  Some (mkPSM (psm_peer_id m) (psm_direction m) Handshaking (psm_spec m)).

Definition set_active (debug : bool) (spec : PeerSpec) (m : PeerStateMachine)
    : option (PeerStateMachine * ProtocolEvent) :=
  _ ← debug_assert_eq debug (psm_state m) Handshaking;
  Some (mkPSM (psm_peer_id m) (psm_direction m) Active (Some spec),
        PeerConnected (psm_peer_id m) spec (psm_direction m)).

Definition set_disconnected (debug : bool) (reason : list Z) (m : PeerStateMachine)
    : option (PeerStateMachine * ProtocolEvent) :=
  _ ← debug_assert_eq debug (psm_state m) Active;
  Some (mkPSM (psm_peer_id m) (psm_direction m) Disconnected (psm_spec m),
        PeerDisconnected (psm_peer_id m) reason).

Definition set_failed (debug : bool) (_reason : list Z) (m : PeerStateMachine)
    : option PeerStateMachine :=
  _ ← debug_assert_eq debug (psm_state m) Handshaking;
  Some (mkPSM (psm_peer_id m) (psm_direction m) Failed (psm_spec m)).

Definition message_event (debug : bool) (message : ProtocolMessage) (m : PeerStateMachine)
    : option ProtocolEvent :=
  _ ← debug_assert_eq debug (psm_state m) Active;
  Some (Message (psm_peer_id m) message).

(** ** Runs: a caller's sequence of calls *)

Inductive PeerOp :=
  | OpHandshaking
  | OpActive (spec : PeerSpec)
  | OpDisconnected (reason : list Z)
  | OpFailed (reason : list Z)
  | OpMessage (message : ProtocolMessage).

(** One call: the machine afterwards and the event produced, if any. *)
Definition peer_step (debug : bool) (op : PeerOp) (m : PeerStateMachine)
    : option (PeerStateMachine * list ProtocolEvent) :=
  match op with
  | OpHandshaking => m' ← set_handshaking debug m; Some (m', [])
  | OpActive s => '(m', e) ← set_active debug s m; Some (m', [e])
  | OpDisconnected r => '(m', e) ← set_disconnected debug r m; Some (m', [e])
  | OpFailed r => m' ← set_failed debug r m; Some (m', [])
  | OpMessage msg => e ← message_event debug msg m; Some (m, [e])
  end.

Fixpoint peer_run (debug : bool) (ops : list PeerOp) (m : PeerStateMachine)
    : option (PeerStateMachine * list ProtocolEvent) :=
  match ops with
  | [] => Some (m, [])
  | op :: ops =>
      '(m1, es1) ← peer_step debug op m;
      '(m2, es2) ← peer_run debug ops m1;
      Some (m2, es1 ++ es2)
  end.

(** ** The documented lifecycle *)

(** Connecting -> Handshaking -> Active -> Disconnected, Handshaking -> Failed. *)
Inductive lifecycle : PeerState -> PeerState -> Prop :=
  | lc_handshaking : lifecycle Connecting Handshaking
  | lc_active : lifecycle Handshaking Active
  | lc_disconnected : lifecycle Active Disconnected
  | lc_failed : lifecycle Handshaking Failed.

(** The state each call documents as its precondition, and the one it leads to. *)
Definition required (op : PeerOp) : PeerState :=
  match op with
  | OpHandshaking => Connecting | OpActive _ | OpFailed _ => Handshaking | OpDisconnected _ | OpMessage _ => Active
  end.

Definition reached (op : PeerOp) : PeerState :=
  match op with
  | OpHandshaking => Handshaking | OpActive _ | OpMessage _ => Active | OpDisconnected _ => Disconnected | OpFailed _ => Failed
  end.

(** Every call is made in the state it requires. *)
Fixpoint obeys (s : PeerState) (ops : list PeerOp) : bool :=
  match ops with
  | [] => true
  | op :: ops => bool_decide (s = required op) && obeys (reached op) ops
  end.

(** The position of a state along the lifecycle. *)
Definition rank (s : PeerState) : nat :=
  match s with
  | Connecting => 0 | Handshaking => 1 | Active => 2 | Disconnected | Failed => 3
  end.

(** The events a peer has produced when it is in a state. *)
Definition log_of (p : PeerId) (d : Direction) (m : PeerStateMachine) (log : list ProtocolEvent) : Prop :=
  psm_peer_id m = p /\ psm_direction m = d /\
  match psm_state m with
  | Connecting | Handshaking | Failed => log = []
  | Active => exists s msgs, psm_spec m = Some s /\
      log = PeerConnected p s d :: (Message p <$> msgs)
  | Disconnected => exists s msgs reason, psm_spec m = Some s /\
      log = PeerConnected p s d :: (Message p <$> msgs) ++ [PeerDisconnected p reason]
  end.

Lemma debug_assert_true a b u : debug_assert_eq true a b = Some u -> a = b.
Proof. unfold debug_assert_eq. cbn. case_bool_decide; done. Qed.

(** With debug assertions, a step follows the lifecycle or is a message of an
    active peer. *)
Lemma peer_step_debug op m m' es : peer_step true op m = Some (m', es) ->
  psm_peer_id m' = psm_peer_id m /\ psm_direction m' = psm_direction m /\
  match op with
  | OpHandshaking => psm_state m = Connecting /\ psm_state m' = Handshaking /\ es = []
  | OpActive s => psm_state m = Handshaking /\ psm_state m' = Active /\ psm_spec m' = Some s /\
      es = [PeerConnected (psm_peer_id m) s (psm_direction m)]
  | OpDisconnected r => psm_state m = Active /\ psm_state m' = Disconnected /\
      psm_spec m' = psm_spec m /\ es = [PeerDisconnected (psm_peer_id m) r]
  | OpFailed _ => psm_state m = Handshaking /\ psm_state m' = Failed /\ es = []
  | OpMessage msg => m' = m /\ psm_state m = Active /\ es = [Message (psm_peer_id m) msg]
  end.
Proof.
  destruct op; cbn; unfold set_handshaking, set_active, set_disconnected, set_failed, message_event;
    intros E; destruct (debug_assert_eq _ _ _) eqn:Ha; cbn in E; simplify_eq;
    apply debug_assert_true in Ha; by split_and!.
Qed.

Lemma peer_run_log ops : forall p d m m' log es,
  log_of p d m log -> peer_run true ops m = Some (m', es) -> log_of p d m' (log ++ es).
Proof.
  induction ops as [|op ops IH]; intros p d m m' log es Hl; cbn.
  { intros [= <- <-]. by rewrite app_nil_r. }
  destruct (peer_step true op m) as [[m1 es1]|] eqn:E1; cbn; [|done].
  destruct (peer_run true ops m1) as [[m2 es2]|] eqn:E2; cbn; [|done].
  intros [= <- <-]. rewrite app_assoc. eapply IH; [|done]. clear IH E2.
  destruct (peer_step_debug _ _ _ _ E1) as (Hp & Hd & Hop). destruct Hl as (Hp0 & Hd0 & Hl).
  split; [congruence|]. split; [congruence|].
  destruct op as [|s|r|r|msg].
  - destruct Hop as (Hs & Hs' & ->). rewrite Hs in Hl. rewrite Hs', app_nil_r. done.
  - destruct Hop as (Hs & Hs' & Hsp & ->). rewrite Hs in Hl. subst log. rewrite Hs'.
    exists s, []. split; [done|]. cbn. congruence.
  - destruct Hop as (Hs & Hs' & Hsp & ->). rewrite Hs in Hl. rewrite Hs'.
    destruct Hl as (s & msgs & Hsp' & ->). exists s, msgs, r. split; [congruence|]. cbn. congruence.
  - destruct Hop as (Hs & Hs' & ->). rewrite Hs in Hl. rewrite Hs', app_nil_r. done.
  - destruct Hop as (-> & Hs & ->). rewrite Hs in *.
    destruct Hl as (s & msgs & Hsp' & ->). exists s, (msgs ++ [msg]). split; [done|].
    cbn. rewrite fmap_app. cbn. congruence.
Qed.

(** A call in the state it requires is the same in both builds; another one
    panics with debug assertions. *)
Lemma peer_step_obeys debug op m : psm_state m = required op ->
  exists m' es, peer_step debug op m = Some (m', es) /\ peer_step true op m = Some (m', es) /\ psm_state m' = reached op.
Proof.
  intros Hs. destruct op; cbn in *; unfold set_handshaking, set_active, set_disconnected, set_failed, message_event, debug_assert_eq;
    rewrite Hs; destruct debug; cbn; do 2 eexists; by split_and!.
Qed.

Lemma peer_step_disobeys op m : psm_state m <> required op -> peer_step true op m = None.
Proof.
  intros Hs. destruct op; cbn in *; unfold set_handshaking, set_active, set_disconnected, set_failed, message_event, debug_assert_eq;
    by rewrite bool_decide_false.
Qed.

Lemma peer_run_obeys debug ops : forall m, obeys (psm_state m) ops = true ->
  exists m' es, peer_run debug ops m = Some (m', es) /\ peer_run true ops m = Some (m', es).
Proof.
  induction ops as [|op ops IH]; intros m Ho; cbn in *; [by do 2 eexists|].
  apply andb_true_iff in Ho as [Hs Ho]. apply bool_decide_eq_true in Hs.
  destruct (peer_step_obeys debug op m Hs) as (m1 & es1 & -> & -> & Hr). rewrite <- Hr in Ho.
  destruct (IH m1 Ho) as (m2 & es2 & E & E'). cbn. rewrite E, E'. by do 2 eexists.
Qed.

Lemma peer_run_disobeys ops : forall m, obeys (psm_state m) ops = false -> peer_run true ops m = None.
Proof.
  induction ops as [|op ops IH]; intros m Ho; cbn in *; [done|].
  apply andb_false_iff in Ho as [Hs|Ho]; [apply bool_decide_eq_false in Hs; by rewrite peer_step_disobeys|].
  destruct (decide (psm_state m = required op)) as [Hs|Hs]; [|by rewrite peer_step_disobeys].
  destruct (peer_step_obeys true op m Hs) as (m1 & es1 & -> & _ & Hr). rewrite <- Hr in Ho. cbn. by rewrite (IH m1 Ho).
Qed.

(** ** Properties *)

(** With debug assertions, every call either panics or keeps the machine
    within the documented lifecycle: a state change is one of its four edges
    and strictly advances, so no state is entered twice. *)
Theorem peer_lifecycle_one_way op m m' es : peer_step true op m = Some (m', es) ->
  psm_peer_id m' = psm_peer_id m /\
  (m' = m \/ (lifecycle (psm_state m) (psm_state m') /\
              (rank (psm_state m) < rank (psm_state m'))%nat)).
Proof.
  intros E. destruct (peer_step_debug _ _ _ _ E) as (Hp & _ & Hop). split; [done|].
  destruct op; destruct_and?; [right|right|right|right|left]; try done;
    repeat match goal with H : psm_state _ = _ |- _ => rewrite H end; (split; [constructor|cbn; lia]).
Qed.

Lemma peer_lifecycle_one_way_witness :
  let m := mkPSM (mkPeerId 1) Outbound Handshaking None in
  psm_peer_id m = psm_peer_id m /\
  (mkPSM (mkPeerId 1) Outbound Failed None = m \/
   (lifecycle Handshaking Failed /\ (rank Handshaking < rank Failed)%nat)).
Proof.
  apply (peer_lifecycle_one_way (OpFailed []) (mkPSM (mkPeerId 1) Outbound Handshaking None)
           (mkPSM (mkPeerId 1) Outbound Failed None) []). reflexivity.
Defined.

(** C35: for a caller that makes every call in the state documented as its
    precondition, both builds behave alike, no call panics, and the events are
    those of one session of that peer: nothing before it is active, then one
    PeerConnected with the peer's specification, then its messages, then at most
    one PeerDisconnected, and nothing after. For any other caller the build with
    debug assertions panics. (The release build does not:
    [peer_release_unchecked].) *)
Theorem peer_events_form_session p d ops :
  (obeys Connecting ops = true -> exists m es,
     (forall debug, peer_run debug ops (psm_new p d) = Some (m, es)) /\
     match state m with
     | Connecting | Handshaking | Failed => es = []
     | Active => exists s msgs, spec m = Some s /\ es = PeerConnected p s d :: (Message p <$> msgs)
     | Disconnected => exists s msgs reason, spec m = Some s /\
         es = PeerConnected p s d :: (Message p <$> msgs) ++ [PeerDisconnected p reason]
     end) /\
  (obeys Connecting ops = false -> peer_run true ops (psm_new p d) = None).
Proof.
  split; [|by apply (peer_run_disobeys ops (psm_new p d))].
  intros Ho. destruct (peer_run_obeys false ops (psm_new p d) Ho) as (m & es & Ef & Et). exists m, es.
  split; [by intros []|]. by apply (peer_run_log ops p d (psm_new p d) m [] es).
Qed.

Lemma peer_events_form_session_witness :
  let s := mkPeerSpec [] (mkVersion 6 0 3) [] None [] in
  let p := mkPeerId 7 in
  let ops := [OpHandshaking; OpActive s; OpMessage GetPeers; OpDisconnected []] in
  (exists m es, forall debug, peer_run debug ops (psm_new p Inbound) = Some (m, es)) /\
  peer_run true [OpMessage GetPeers] (psm_new p Inbound) = None.
Proof.
  intros s p ops. split.
  - destruct (proj1 (peer_events_form_session p Inbound ops) eq_refl) as (m & es & Hr & _). exists m, es. exact Hr.
  - exact (proj2 (peer_events_form_session p Inbound [OpMessage GetPeers]) eq_refl).
Defined.

(** Without debug assertions no call is refused: a machine that never
    handshook produces message events, and a disconnected one goes back to
    handshaking. *)
Theorem peer_release_unchecked p d msg reason :
  message_event false msg (psm_new p d) = Some (Message p msg) /\
  exists m1 e m2, set_disconnected false reason (psm_new p d) = Some (m1, e) /\
    state m1 = Disconnected /\ set_handshaking false m1 = Some m2 /\ state m2 = Handshaking.
Proof. split; [done|]. do 3 eexists. by split_and!. Qed.
