(* ===== verification/PeerTable.v ===== *)
(** * What the router asks of its tables

    The router keeps four tables that refer to peers (the Inv table, the
    request tracker, the sync tracker and the latency tracker) and, when a
    peer goes away, asks each of them to forget it. This file states that
    contract once; each table discharges it, and the router's invariant is
    proved against it. It also models the one thing the router and the
    latency tracker leave to the hash function: the order of iteration. *)
From S2P Require Import Prelude Types.

Class PeerTable (T : Type) := {
  purge : PeerId -> T -> T;
  mentions : T -> PeerId -> Prop;
  table_ok : T -> Prop
}.

(** Purging keeps the table well formed, removes every mention of the peer
    and adds none. *)
Class PeerTableLaws (T : Type) `{PeerTable T} : Prop := {
  table_ok_purge : forall p t, table_ok t -> table_ok (purge p t);
  mentions_purge : forall p q t, table_ok t ->
    mentions (purge p t) q -> q <> p /\ mentions t q
}.

Lemma purge_forgets `{PeerTableLaws T} p t : table_ok t -> ~ mentions (purge p t) p.
Proof. intros Hok Hm. by apply mentions_purge in Hm as [? _]. Qed.

(** ** [HashMap::iter]: each entry once, in an order that is not specified. *)

Class HashIter (K V : Type) `{Countable K} := hash_iter : gmap K V -> list (K * V).

Class HashIterLaws (K V : Type) `{HashIter K V} : Prop :=
  hash_iter_perm : forall m : gmap K V, hash_iter m ≡ₚ map_to_list m.

(** One such order, and its reverse. *)
Definition list_order {K V} `{Countable K} : HashIter K V := map_to_list.
Definition reverse_order {K V} `{Countable K} : HashIter K V := fun m => reverse (map_to_list m).

Lemma list_order_laws {K V} `{Countable K} : @HashIterLaws K V _ _ list_order.
Proof. by intros m. Defined.

Lemma reverse_order_laws {K V} `{Countable K} : @HashIterLaws K V _ _ reverse_order.
Proof. intros m. apply reverse_Permutation. Defined.

Section iter.
Context {K V : Type} `{HashIterLaws K V}.

Lemma elem_of_iter (m : gmap K V) k v : (k, v) ∈ hash_iter m <-> m !! k = Some v.
Proof. rewrite hash_iter_perm. apply elem_of_map_to_list. Qed.

Lemma NoDup_iter_keys (m : gmap K V) : NoDup (fst <$> hash_iter m).
Proof. rewrite hash_iter_perm. apply NoDup_fst_map_to_list. Qed.

(** A filtered iteration is an iteration over the filtered map. *)
Lemma iter_filter (P : K * V -> Prop) `{!forall x, Decision (P x)} (m : gmap K V) :
  filter P (hash_iter m) ≡ₚ map_to_list (filter P m).
Proof.
  apply NoDup_Permutation.
  - apply NoDup_filter, (NoDup_fmap_1 fst), NoDup_iter_keys.
  - apply NoDup_map_to_list.
  - intros [k v]. rewrite list_elem_of_filter, elem_of_iter, elem_of_map_to_list, map_lookup_filter_Some.
    tauto.
Qed.

End iter.
