(* ===== verification/InvTable.v ===== *)
(** * [src/routing/inv_table.rs]: who announced a modifier *)
From S2P Require Import Prelude Types PeerTable.

Module InvTable.

Record t := mk { entries : gmap ModifierId PeerId }.

Definition new : t := mk ∅.

Definition record (modifier_id : ModifierId) (peer : PeerId) (self : t) : t :=
  mk (<[modifier_id := peer]> (entries self)).

Definition lookup (modifier_id : ModifierId) (self : t) : option PeerId :=
  entries self !! modifier_id.

Definition purge_peer (peer : PeerId) (self : t) : t :=
  mk (retain (fun p => negb (bool_decide (p = peer))) (entries self)).

Definition is_empty (self : t) : bool := bool_decide (entries self = ∅).

(** [check_invariant_no_peer]: the condition the debug build asserts. *)
Definition check_invariant_no_peer (peer : PeerId) (self : t) : bool :=
  negb (existsb (fun p => bool_decide (p = peer)) (map_to_list (entries self)).*2).

(** [record] of each identifier of a message, in order. *)
Definition record_all (ids : list ModifierId) (peer : PeerId) (self : t) : t :=
  foldl (fun self id => record id peer self) self ids.

Lemma lookup_purge p id tb q :
  lookup id (purge_peer p tb) = Some q <-> lookup id tb = Some q /\ q <> p.
Proof.
  unfold lookup, purge_peer. cbn. rewrite lookup_retain_Some. by rewrite negb_true_iff, bool_decide_eq_false.
Qed.

Lemma lookup_record id id' p tb :
  lookup id' (record id p tb) = if decide (id = id') then Some p else lookup id' tb.
Proof. unfold lookup, record. cbn. apply lookup_insert. Qed.

Lemma lookup_record_all ids p id : forall tb,
  lookup id (record_all ids p tb) = if decide (id ∈ ids) then Some p else lookup id tb.
Proof.
  induction ids as [|i ids IH]; intros tb; [by rewrite decide_False by apply not_elem_of_nil|].
  cbn. fold (record_all ids p (record i p tb)). rewrite IH, lookup_record.
  repeat case_decide; set_solver.
Qed.

End InvTable.

#[global] Instance inv_table_peer_table : PeerTable InvTable.t := {|
  purge := InvTable.purge_peer;
  mentions tb p := exists id, InvTable.lookup id tb = Some p;
  table_ok _ := True
|}.

#[global] Instance inv_table_laws : PeerTableLaws InvTable.t.
Proof.
  split; [done|]. intros p q tb _ [id Hid]. apply InvTable.lookup_purge in Hid as [Hid Hne].
  split; [done|]. by exists id.
Qed.

(** ** Properties *)

(** The Inv table is the map it documents: after [record], [lookup] finds
    the latest announcer and every other identifier is as before; after
    [purge_peer], the entries of the peer are gone, the others are untouched,
    and the invariant the debug build asserts holds. *)
Theorem inv_table_contract tb id p :
  (forall id', InvTable.lookup id' (InvTable.record id p tb)
     = if decide (id = id') then Some p else InvTable.lookup id' tb) /\
  (forall id', InvTable.lookup id' (InvTable.purge_peer p tb)
     = match InvTable.lookup id' tb with
       | Some q => if decide (q = p) then None else Some q
       | None => None
       end) /\
  InvTable.check_invariant_no_peer p (InvTable.purge_peer p tb) = true.
Proof.
  split; [intros id'; apply InvTable.lookup_record|]. split.
  - intros id'. destruct (InvTable.lookup id' (InvTable.purge_peer p tb)) as [q|] eqn:E.
    + apply InvTable.lookup_purge in E as [-> Hne]. by rewrite decide_False.
    + destruct (InvTable.lookup id' tb) as [q|] eqn:E2; [|done].
      case_decide as Hd; [done|]. by rewrite (proj2 (InvTable.lookup_purge p id' tb q)) in E.
  - unfold InvTable.check_invariant_no_peer. apply negb_true_iff, not_true_iff_false.
    intros Hx. apply existsb_exists in Hx as (q & Hq & Hqp). apply bool_decide_eq_true in Hqp as ->.
    apply list_elem_of_In, list_elem_of_fmap in Hq as ([id' q] & -> & Hq).
    apply elem_of_map_to_list in Hq. by apply InvTable.lookup_purge in Hq as [_ ?].
Qed.
