(* ===== verification/Tracker.v ===== *)
(** * [src/routing/tracker.rs]: pending requests and sync pairings *)
From S2P Require Import Prelude Types PeerTable.

(** ** [RequestTracker] *)

Module RequestTracker.

Record t := mk { pending : gmap ModifierId PeerId }.

Definition new : t := mk ∅.

Definition record (modifier_id : ModifierId) (requester : PeerId) (self : t) : t :=
  mk (<[modifier_id := requester]> (pending self)).

Definition lookup (modifier_id : ModifierId) (self : t) : option PeerId :=
  pending self !! modifier_id.

Definition fulfill (modifier_id : ModifierId) (self : t) : option PeerId * t :=
  (pending self !! modifier_id, mk (delete modifier_id (pending self))).

Definition purge_peer (peer : PeerId) (self : t) : t :=
  mk (retain (fun p => negb (bool_decide (p = peer))) (pending self)).

Lemma request_lookup_purge p id tb q :
  lookup id (purge_peer p tb) = Some q <-> lookup id tb = Some q /\ q <> p.
Proof.
  unfold lookup, purge_peer. cbn. rewrite lookup_retain_Some. by rewrite negb_true_iff, bool_decide_eq_false.
Qed.

Lemma request_lookup_record id id' p tb :
  lookup id' (record id p tb) = if decide (id = id') then Some p else lookup id' tb.
Proof. unfold lookup, record. cbn. apply lookup_insert. Qed.

Lemma lookup_fulfill id id' tb :
  lookup id' (fulfill id tb).2 = if decide (id = id') then None else lookup id' tb.
Proof. unfold lookup, fulfill. cbn. apply lookup_delete. Qed.

End RequestTracker.

#[global] Instance request_tracker_peer_table : PeerTable RequestTracker.t := {|
  purge := RequestTracker.purge_peer;
  mentions tb p := exists id, RequestTracker.lookup id tb = Some p;
  table_ok _ := True
|}.

#[global] Instance request_tracker_laws : PeerTableLaws RequestTracker.t.
Proof.
  split; [done|]. intros p q tb _ [id Hid]. apply RequestTracker.request_lookup_purge in Hid as [Hid Hne].
  split; [done|]. by exists id.
Qed.

(** ** [SyncTracker] *)

Module SyncTracker.

Record t := mk {
  inbound_to_outbound : gmap PeerId PeerId;
  outbound_to_inbound : gmap PeerId PeerId
}.

Definition new : t := mk ∅ ∅.

(** The release build; the debug build then asserts [check_invariant]. *)
Definition pair (inbound outbound : PeerId) (self : t) : t :=
  mk (<[inbound := outbound]> (inbound_to_outbound self))
     (<[outbound := inbound]> (outbound_to_inbound self)).

Definition outbound_for (inbound : PeerId) (self : t) : option PeerId :=
  inbound_to_outbound self !! inbound.

Definition inbound_for (outbound : PeerId) (self : t) : option PeerId :=
  outbound_to_inbound self !! outbound.

Definition purge_peer (peer : PeerId) (self : t) : t :=
  let self :=
    match inbound_to_outbound self !! peer with
    | Some outbound =>
        mk (delete peer (inbound_to_outbound self)) (delete outbound (outbound_to_inbound self))
    | None => self
    end in
  match outbound_to_inbound self !! peer with
  | Some inbound =>
      mk (delete inbound (inbound_to_outbound self)) (delete peer (outbound_to_inbound self))
  | None => self
  end.

(** [check_invariant]: the condition the debug build asserts, both loops. *)
Definition check_invariant (self : t) : bool :=
  forallb (fun '(inb, outb) => bool_decide (outbound_to_inbound self !! outb = Some inb))
    (map_to_list (inbound_to_outbound self)) &&
  forallb (fun '(outb, inb) => bool_decide (inbound_to_outbound self !! inb = Some outb))
    (map_to_list (outbound_to_inbound self)).

(** The documented invariant, in full. *)
Definition consistent (self : t) : Prop :=
  forall i o, outbound_for i self = Some o <-> inbound_for o self = Some i.

(** A key or a value of either map is the peer. *)
Definition names (self : t) (p : PeerId) : Prop :=
  (exists o, outbound_for p self = Some o) \/ (exists i, outbound_for i self = Some p) \/
  (exists i, inbound_for p self = Some i) \/ (exists o, inbound_for o self = Some p).

(** The half of it the code keeps: a pairing of an inbound peer is known from
    the outbound side. *)
Definition forward_consistent (self : t) : Prop :=
  forall i o, outbound_for i self = Some o -> inbound_for o self = Some i.

Lemma forward_new : forward_consistent new.
Proof. intros i o Hi. unfold outbound_for in Hi. cbn in Hi. by rewrite lookup_empty in Hi. Qed.

(** Pairing with an outbound peer that serves nobody keeps it. *)
Lemma forward_pair i o tb :
  forward_consistent tb -> inbound_for o tb = None -> forward_consistent (pair i o tb).
Proof.
  unfold forward_consistent, outbound_for, inbound_for, pair. cbn. intros Hf Ho i' o'.
  rewrite !lookup_insert. repeat case_decide; intros Hi; simplify_eq; try done.
  - apply Hf in Hi. congruence.
  - by apply Hf.
Qed.

(** Purging only removes entries, among them those under the peer's own key. *)
Lemma purge_outbound_for p i o tb : outbound_for i (purge_peer p tb) = Some o ->
  outbound_for i tb = Some o /\ i <> p.
Proof.
  unfold purge_peer, outbound_for.
  destruct (inbound_to_outbound tb !! p) as [o1|] eqn:E1; cbn.
  - destruct (delete o1 (outbound_to_inbound tb) !! p); cbn; intros E.
    + apply lookup_delete_Some in E as [_ E]. by apply lookup_delete_Some in E as [Hne E].
    + by apply lookup_delete_Some in E as [Hne E].
  - destruct (outbound_to_inbound tb !! p); cbn; intros E;
      [apply lookup_delete_Some in E as [_ E]|]; (split; [done|congruence]).
Qed.

Lemma purge_inbound_for p i o tb : inbound_for o (purge_peer p tb) = Some i ->
  inbound_for o tb = Some i /\ o <> p.
Proof.
  unfold purge_peer, inbound_for.
  destruct (inbound_to_outbound tb !! p) as [o1|] eqn:E1; cbn.
  - destruct (delete o1 (outbound_to_inbound tb) !! p) eqn:E2; cbn; intros E.
    + apply lookup_delete_Some in E as [Hne E]. by apply lookup_delete_Some in E as [_ E].
    + split; [by apply lookup_delete_Some in E as [_ E]|congruence].
  - destruct (outbound_to_inbound tb !! p) eqn:E2; cbn; intros E; [|split; [done|congruence]].
    by apply lookup_delete_Some in E as [Hne E].
Qed.

(** A pairing is kept unless it involves the peer. *)
Lemma purge_keeps p i o tb : forward_consistent tb ->
  outbound_for i tb = Some o -> i <> p -> o <> p ->
  inbound_for p tb <> Some i ->
  outbound_for i (purge_peer p tb) = Some o /\ inbound_for o (purge_peer p tb) = Some i.
Proof.
  intros Hf Hi Hip Hop Hpi. pose proof (Hf _ _ Hi) as Ho.
  unfold purge_peer, inbound_for, outbound_for in *.
  destruct (inbound_to_outbound tb !! p) as [o1|] eqn:E1; cbn.
  - pose proof (Hf _ _ E1) as Ho1. unfold inbound_for in Ho1. assert (o1 <> o) by congruence.
    destruct (delete o1 (outbound_to_inbound tb) !! p) eqn:E2; cbn;
      rewrite ?lookup_delete_Some in *; naive_solver.
  - destruct (outbound_to_inbound tb !! p) eqn:E2; cbn; rewrite ?lookup_delete_Some; naive_solver.
Qed.

(** An inbound peer whose outbound peer is purged, or that the purged peer
    still names, loses its pairing. *)
Lemma purge_drops p i tb : inbound_for p tb = Some i -> i <> p ->
  outbound_for p tb <> Some p -> outbound_for i (purge_peer p tb) = None.
Proof.
  unfold purge_peer, inbound_for, outbound_for. intros Hp Hip Hpp.
  destruct (inbound_to_outbound tb !! p) as [o1|] eqn:E1; cbn.
  - rewrite lookup_delete_ne by congruence. rewrite Hp. cbn. apply lookup_delete_eq.
  - rewrite Hp. cbn. apply lookup_delete_eq.
Qed.

Lemma purge_no_value p i tb : forward_consistent tb ->
  outbound_for i (purge_peer p tb) <> Some p.
Proof.
  intros Hf E. pose proof (purge_outbound_for _ _ _ _ E) as [Ei Hip].
  pose proof (Hf _ _ Ei) as Ep.
  rewrite (purge_drops p i tb) in E; [done|done|done|].
  intros Epp. apply Hf in Epp. congruence.
Qed.

Lemma forward_purge p tb : forward_consistent tb -> forward_consistent (purge_peer p tb).
Proof.
  intros Hf i o E. pose proof (purge_outbound_for _ _ _ _ E) as [Ei Hip].
  assert (Hop : o <> p) by (intros ->; by apply (purge_no_value p i tb Hf)).
  apply purge_keeps; try done. intros Ep.
  rewrite (purge_drops p i tb) in E; [done|done|done|].
  intros Epp. apply Hf in Epp. congruence.
Qed.

End SyncTracker.

(** What [purge_peer] removes in every state the code reaches: the keys of both
    maps and the values of [inbound_to_outbound]. A value of
    [outbound_to_inbound] may be stale and survive ([sync_repair_leaves_stale]), so
    it is left out here; where the pairings are consistent the purge removes it
    too ([consistent_purge_names], with all of [names]). *)
#[global] Instance sync_tracker_peer_table : PeerTable SyncTracker.t := {|
  purge := SyncTracker.purge_peer;
  mentions tb p :=
    (exists o, SyncTracker.outbound_for p tb = Some o) \/
    (exists i, SyncTracker.outbound_for i tb = Some p) \/
    (exists i, SyncTracker.inbound_for p tb = Some i);
  table_ok := SyncTracker.forward_consistent
|}.

#[global] Instance sync_tracker_laws : PeerTableLaws SyncTracker.t.
Proof.
  split; [apply SyncTracker.forward_purge|]. intros p q tb Hf Hm.
  destruct Hm as [[o Ho]|[[i Hi]|[i Hi]]]; cbn.
  - apply SyncTracker.purge_outbound_for in Ho as [Ho Hne]. eauto.
  - split; [intros ->; by apply (SyncTracker.purge_no_value p i tb Hf)|].
    apply SyncTracker.purge_outbound_for in Hi as [Hi _]. eauto.
  - apply SyncTracker.purge_inbound_for in Hi as [Hi Hne]. eauto.
Qed.

Lemma pair_mentions i o tb p : mentions (SyncTracker.pair i o tb) p -> mentions tb p \/ p = i \/ p = o.
Proof.
  cbn. unfold SyncTracker.outbound_for, SyncTracker.inbound_for, SyncTracker.pair. cbn.
  intros [[x Hx]|[[x Hx]|[x Hx]]]; apply lookup_insert_Some in Hx as [[? ?]|[? Hx]]; subst; eauto 7.
Qed.

Lemma check_invariant_spec tb :
  SyncTracker.check_invariant tb = true <-> SyncTracker.consistent tb.
Proof.
  unfold SyncTracker.check_invariant, SyncTracker.consistent, SyncTracker.outbound_for,
    SyncTracker.inbound_for.
  rewrite andb_true_iff, !forallb_forall. split.
  - intros [H1 H2] i o. split; intros E.
    + specialize (H1 (i, o)). rewrite bool_decide_eq_true in H1. apply H1.
      by apply list_elem_of_In, elem_of_map_to_list.
    + specialize (H2 (o, i)). rewrite bool_decide_eq_true in H2. apply H2.
      by apply list_elem_of_In, elem_of_map_to_list.
  - intros Hc. split; intros [a b] Hab; apply list_elem_of_In, elem_of_map_to_list in Hab;
      apply bool_decide_eq_true; by apply Hc.
Qed.

Lemma sync_consistent_forward tb : SyncTracker.consistent tb -> SyncTracker.forward_consistent tb.
Proof. intros Hc i o E. by apply Hc. Qed.

(** On a consistent tracker, exactly the pairings of the peer go. *)
Lemma consistent_purge_outbound_for p tb : SyncTracker.consistent tb -> forall a b,
  SyncTracker.outbound_for a (SyncTracker.purge_peer p tb) = Some b <->
  SyncTracker.outbound_for a tb = Some b /\ a <> p /\ b <> p.
Proof.
  intros Hc a b. pose proof (sync_consistent_forward tb Hc) as Hf. split.
  - intros E. destruct (SyncTracker.purge_outbound_for _ _ _ _ E) as [E1 Ha]. split_and!; try done.
    intros ->. by apply (SyncTracker.purge_no_value p a tb Hf).
  - intros (E & Ha & Hb). apply SyncTracker.purge_keeps; try done.
    intros Ep. apply Hc in Ep. congruence.
Qed.

Lemma consistent_pair i o tb : SyncTracker.consistent tb ->
  SyncTracker.outbound_for i tb = None -> SyncTracker.inbound_for o tb = None ->
  SyncTracker.consistent (SyncTracker.pair i o tb).
Proof.
  intros Hc Hi Ho a b.
  unfold SyncTracker.consistent, SyncTracker.outbound_for, SyncTracker.inbound_for, SyncTracker.pair in *.
  cbn. rewrite !lookup_insert. specialize (Hc a b).
  repeat case_decide; simplify_eq; try done; (split; intros E; simplify_eq; try done);
    apply Hc in E; congruence.
Qed.

Lemma consistent_purge p tb : SyncTracker.consistent tb -> SyncTracker.consistent (SyncTracker.purge_peer p tb).
Proof.
  intros Hc a b. pose proof (sync_consistent_forward tb Hc) as Hf.
  rewrite consistent_purge_outbound_for by done. split.
  - intros (E & Ha & Hb). apply SyncTracker.purge_keeps; try done.
    intros Ep. apply Hc in Ep. congruence.
  - intros E. destruct (SyncTracker.purge_inbound_for _ _ _ _ E) as [E1 Hb].
    pose proof E1 as E1'. apply Hc in E1'. split_and!; try done. intros ->.
    revert E. unfold SyncTracker.purge_peer, SyncTracker.inbound_for, SyncTracker.outbound_for in *.
    rewrite E1'. cbn.
    destruct (delete b (SyncTracker.outbound_to_inbound tb) !! p); cbn; intros E;
      rewrite ?lookup_delete_Some in E; destruct_and?; congruence.
Qed.

(** Nothing is left of the peer, nor lost of the others. *)
Lemma consistent_purge_names p tb : SyncTracker.consistent tb -> ~ SyncTracker.names (SyncTracker.purge_peer p tb) p.
Proof.
  intros Hc. pose proof (consistent_purge p tb Hc) as Hc'.
  intros [[o Ho]|[[i Hi]|[[i Hi]|[o Ho]]]]; [|..|apply Hc' in Hi|apply Hc' in Ho];
    match goal with Hx : SyncTracker.outbound_for _ _ = _ |- _ => apply consistent_purge_outbound_for in Hx; tauto end.
Qed.

(** ** Properties *)

(** The request tracker is the map it documents: [record] is found by
    [lookup], [fulfill] returns the requester and removes exactly that entry,
    so a second [fulfill] finds nobody, and [purge_peer] removes exactly the
    entries of the peer. *)
Theorem request_tracker_contract tb id p :
  (forall id', RequestTracker.lookup id' (RequestTracker.record id p tb)
     = if decide (id = id') then Some p else RequestTracker.lookup id' tb) /\
  (RequestTracker.fulfill id tb).1 = RequestTracker.lookup id tb /\
  (forall id', RequestTracker.lookup id' (RequestTracker.fulfill id tb).2
     = if decide (id = id') then None else RequestTracker.lookup id' tb) /\
  (RequestTracker.fulfill id (RequestTracker.fulfill id tb).2).1 = None /\
  (forall id' q, RequestTracker.lookup id' (RequestTracker.purge_peer p tb) = Some q <->
     RequestTracker.lookup id' tb = Some q /\ q <> p).
Proof.
  split_and!.
  - intros id'. apply RequestTracker.request_lookup_record.
  - done.
  - intros id'. apply RequestTracker.lookup_fulfill.
  - apply lookup_delete_eq.
  - intros id' q. apply RequestTracker.request_lookup_purge.
Qed.

(** On a bidirectionally consistent tracker, pairing two unpaired peers and
    purging a peer keep it consistent; after the purge no pairing names the
    peer on either side and the pairings that did not name it are kept. *)
Theorem sync_tracker_consistent tb i o p : SyncTracker.consistent tb ->
  (SyncTracker.outbound_for i tb = None -> SyncTracker.inbound_for o tb = None ->
   SyncTracker.consistent (SyncTracker.pair i o tb) /\
   SyncTracker.outbound_for i (SyncTracker.pair i o tb) = Some o) /\
  SyncTracker.consistent (SyncTracker.purge_peer p tb) /\
  (forall a b, SyncTracker.outbound_for a (SyncTracker.purge_peer p tb) = Some b <->
     SyncTracker.outbound_for a tb = Some b /\ a <> p /\ b <> p).
Proof.
  intros Hc. split_and!.
  - intros Hi Ho. split; [by apply consistent_pair|apply lookup_insert_eq].
  - by apply consistent_purge.
  - by apply consistent_purge_outbound_for.
Qed.

Lemma sync_tracker_consistent_witness :
  let a := mkPeerId 2 in let b := mkPeerId 1 in
  let tb := SyncTracker.pair a b SyncTracker.new in
  SyncTracker.consistent (SyncTracker.purge_peer b tb) /\
  forall i o, SyncTracker.outbound_for i (SyncTracker.purge_peer b tb) = Some o <->
     SyncTracker.outbound_for i tb = Some o /\ i <> b /\ o <> b.
Proof.
  intros a b tb. apply (sync_tracker_consistent tb a b b).
  apply check_invariant_spec. vm_compute. reflexivity.
Defined.

(** Pairing an inbound peer a second time breaks the documented
    bidirectional invariant: the assertion of the debug build fails, and after
    the inbound peer is purged the first outbound peer still maps to it. *)
Theorem sync_repair_leaves_stale tb i o1 o2 : o1 <> o2 -> i <> o1 ->
  let tb' := SyncTracker.pair i o2 (SyncTracker.pair i o1 tb) in
  SyncTracker.check_invariant tb' = false /\
  SyncTracker.inbound_for o1 (SyncTracker.purge_peer i tb') = Some i.
Proof.
  intros Hne Hio tb'. split.
  - apply not_true_iff_false. rewrite check_invariant_spec. intros Hc.
    specialize (Hc i o1). destruct Hc as [_ Hc].
    unfold tb', SyncTracker.pair, SyncTracker.outbound_for, SyncTracker.inbound_for in Hc. cbn in Hc.
    rewrite lookup_insert_ne, lookup_insert_eq, lookup_insert_eq in Hc by done.
    specialize (Hc eq_refl). congruence.
  - unfold tb', SyncTracker.purge_peer, SyncTracker.pair, SyncTracker.inbound_for. cbn.
    rewrite lookup_insert_eq. cbn.
    assert (E : delete o2 (<[o2:=i]> (<[o1:=i]> (SyncTracker.outbound_to_inbound tb))) !! o1 = Some i)
      by (by rewrite lookup_delete_ne, lookup_insert_ne, lookup_insert_eq by done).
    destruct (delete o2 _ !! i) eqn:E2; cbn; [|done]. by rewrite lookup_delete_ne by done.
Qed.

Lemma sync_repair_leaves_stale_witness :
  let tb' := SyncTracker.pair (mkPeerId 3) (mkPeerId 2)
               (SyncTracker.pair (mkPeerId 3) (mkPeerId 1) SyncTracker.new) in
  SyncTracker.check_invariant tb' = false /\
  SyncTracker.inbound_for (mkPeerId 1) (SyncTracker.purge_peer (mkPeerId 3) tb') = Some (mkPeerId 3).
Proof. apply sync_repair_leaves_stale; discriminate. Defined.
