(* ===== verification/Latency.v ===== *)
(** * [src/routing/latency.rs]: round-trip times per peer *)
From S2P Require Import Prelude Types PeerTable.
From Stdlib Require Import SpecFloat.

(** ** [f64]: IEEE 754 binary64, by its specification in the Standard Library *)

Abbreviation f64 := spec_float.

Definition f_add : f64 -> f64 -> f64 := SFadd 53 1024.
Definition f_sub : f64 -> f64 -> f64 := SFsub 53 1024.
Definition f_mul : f64 -> f64 -> f64 := SFmul 53 1024.
Definition f_div : f64 -> f64 -> f64 := SFdiv 53 1024.
(** [n as f64]. *)
Definition f_of_Z (n : Z) : f64 := binary_normalize 53 1024 n 0 false.

Definition f_is_nan (x : f64) : bool := match x with S754_nan => true | _ => false end.

(** [f64::min], [f64::max]: a NaN operand is ignored. *)
Definition f_min (a b : f64) : f64 :=
  match SFcompare a b with
  | Some Gt => b
  | Some _ => a
  | None => if f_is_nan a then b else a
  end.
Definition f_max (a b : f64) : f64 :=
  match SFcompare a b with
  | Some Lt => b
  | Some _ => a
  | None => if f_is_nan a then b else a
  end.

Definition F64_MAX : f64 := S754_finite false 9007199254740991 971.
Definition F64_MIN : f64 := S754_finite true 9007199254740991 971.

(** 0.3, rounded to binary64. *)
Definition EMA_ALPHA : f64 := S754_finite false 5404319552844595 (-54).

(** An [Instant] is a number of nanoseconds; [elapsed] saturates at zero. *)
Definition elapsed (sent_at now : Z) : Z := Z.max 0 (now - sent_at).

(** [Duration::as_secs_f64]: whole seconds plus nanoseconds over 10^9. *)
Definition as_secs_f64 (d : Z) : f64 :=
  f_add (f_of_Z (d / 1000000000)) (f_div (f_of_Z (d mod 1000000000)) (f_of_Z 1000000000)).

(** ** Data and operations *)

Record PendingTiming := mkPendingTiming { target_peer : PeerId; sent_at : Z }.
Record PeerLatency := mkPeerLatency { ema_ms : f64; sample_count : Z }.

Record LatencyStats := mkLatencyStats {
  min_ms : f64; avg_ms : f64; max_ms : f64; peer_count : Z
}.

Module LatencyTracker.

Record t := mk {
  pending : gmap ModifierId PendingTiming;
  peers : gmap PeerId PeerLatency
}.

Definition new : t := mk ∅ ∅.

(** [now] is what [Instant::now()] returns in the call. *)
Definition record_request (now : Z) (modifier_id : ModifierId) (target : PeerId) (self : t) : t :=
  mk (<[modifier_id := mkPendingTiming target now]> (pending self)) (peers self).

Definition rtt_ms (sent_at now : Z) : f64 := f_mul (as_secs_f64 (elapsed sent_at now)) (f_of_Z 1000).

Definition record_response (now : Z) (modifier_id : ModifierId) (self : t) : option f64 * t :=
  match pending self !! modifier_id with
  | None => (None, self)
  | Some timing =>
      let pending' := delete modifier_id (pending self) in
      let rtt_ms := rtt_ms (sent_at timing) now in
      let entry := default (mkPeerLatency rtt_ms 0) (peers self !! target_peer timing) in
      let ema :=
        if sample_count entry =? 0 then rtt_ms
        else f_add (f_mul EMA_ALPHA rtt_ms) (f_mul (f_sub (f_of_Z 1) EMA_ALPHA) (ema_ms entry)) in
      let entry' := mkPeerLatency ema (as_unsigned 64 (sample_count entry + 1)) in
      (Some rtt_ms, mk pending' (<[target_peer timing := entry']> (peers self)))
  end.

Definition peer_latency (peer : PeerId) (self : t) : option f64 := ema_ms <$> peers self !! peer.

Definition purge_peer (peer : PeerId) (self : t) : t :=
  mk (retain (fun t => negb (bool_decide (target_peer t = peer))) (pending self))
     (delete peer (peers self)).

(** The body of the loop of [stats] over the accumulators min, max, sum, count. *)
Definition stats_step (acc : f64 * f64 * f64 * Z) (entry : PeerLatency) : f64 * f64 * f64 * Z :=
  let '(mn, mx, sum, count) := acc in
  if 0 <? sample_count entry
  then (f_min mn (ema_ms entry), f_max mx (ema_ms entry), f_add sum (ema_ms entry), count + 1)
  else acc.

Definition stats `{!HashIter PeerId PeerLatency} (self : t) : option LatencyStats :=
  if bool_decide (peers self = ∅) then None
  else
    let '(mn, mx, sum, count) :=
      foldl stats_step (F64_MAX, F64_MIN, S754_zero false, 0) (hash_iter (peers self)).*2 in
    if count =? 0 then None
    else Some (mkLatencyStats mn (f_div sum (f_of_Z count)) mx count).

(** [Iterator::min_by] keeps the first of equal elements; [partial_cmp]'s
    [None] counts as equal. *)
Definition min_by_latency (a b : PeerId * f64) : PeerId * f64 :=
  match default Eq (SFcompare a.2 b.2) with
  | Gt => b
  | _ => a
  end.

Definition fastest_peer (candidates : list PeerId) (self : t) : option PeerId :=
  match omap (fun p => (fun lat => (p, lat)) <$> peer_latency p self) candidates with
  | [] => None
  | x :: xs => Some (foldl min_by_latency x xs).1
  end.

Lemma purge_pending p id tb x : pending (purge_peer p tb) !! id = Some x <->
  pending tb !! id = Some x /\ target_peer x <> p.
Proof. cbn. rewrite lookup_retain_Some. by rewrite negb_true_iff, bool_decide_eq_false. Qed.

Lemma purge_peers p q tb : peers (purge_peer p tb) !! q = if decide (p = q) then None else peers tb !! q.
Proof. cbn. apply lookup_delete. Qed.

End LatencyTracker.

#[global] Instance latency_tracker_peer_table : PeerTable LatencyTracker.t := {|
  purge := LatencyTracker.purge_peer;
  mentions tb p :=
    (exists id x, LatencyTracker.pending tb !! id = Some x /\ target_peer x = p) \/
    is_Some (LatencyTracker.peers tb !! p);
  table_ok _ := True
|}.

#[global] Instance latency_tracker_laws : PeerTableLaws LatencyTracker.t.
Proof.
  split; [done|]. intros p q tb _ [(id & x & Hx & <-)|[x Hx]]; cbn [mentions latency_tracker_peer_table] in *.
  - apply LatencyTracker.purge_pending in Hx as [Hx Hne]. split; [done|]. left. eauto.
  - rewrite LatencyTracker.purge_peers in Hx. case_decide; [done|]. split; [done|]. right. eauto.
Qed.

(** ** The order of floats

    Away from NaN, the comparison is the lexicographic order of a key. *)

Definition f_key (x : f64) : Z * Z * Z :=
  match x with
  | S754_nan => (0, 0, 0)
  | S754_infinity s => (if s then -2 else 2, 0, 0)
  | S754_zero _ => (0, 0, 0)
  | S754_finite s m e => if s then (-1, - e, - Zpos m) else (1, e, Zpos m)
  end.

Definition key_compare (a b : Z * Z * Z) : comparison :=
  let '(a1, a2, a3) := a in
  let '(b1, b2, b3) := b in
  match a1 ?= b1 with
  | Eq => match a2 ?= b2 with Eq => a3 ?= b3 | c => c end
  | c => c
  end.

Definition f_num (x : f64) : Prop := f_is_nan x = false.

Lemma f_compare_key a b : f_num a -> f_num b -> SFcompare a b = Some (key_compare (f_key a) (f_key b)).
Proof.
  unfold f_num. destruct a as [[]|[]| |[] ma ea], b as [[]|[]| |[] mb eb]; cbn; intros Ha Hb; try done.
  rewrite Z.compare_opp, (Z.compare_antisym ea eb).
  change (Z.neg ma ?= Z.neg mb) with (CompOpp (Pos.compare ma mb)).
  by destruct (ea ?= eb).
Qed.

Definition key_le (a b : Z * Z * Z) : Prop := key_compare a b <> Gt.

Lemma key_le_lex a1 a2 a3 b1 b2 b3 : key_le (a1, a2, a3) (b1, b2, b3) <->
  a1 < b1 \/ a1 = b1 /\ (a2 < b2 \/ a2 = b2 /\ a3 <= b3).
Proof.
  unfold key_le. cbn. destruct (Z.compare_spec a1 b1); [|split; (done || lia)..].
  destruct (Z.compare_spec a2 b2); [|split; (done || lia)..].
  rewrite <- Z.compare_le_iff. intuition lia.
Qed.

Lemma key_compare_sym a b : key_compare b a = CompOpp (key_compare a b).
Proof.
  destruct a as [[a1 a2] a3], b as [[b1 b2] b3]. cbn.
  rewrite (Z.compare_antisym a1 b1), (Z.compare_antisym a2 b2), (Z.compare_antisym a3 b3).
  by destruct (a1 ?= b1), (a2 ?= b2).
Qed.

Lemma f_leb_key a b : f_num a -> f_num b -> SFleb a b = true <-> key_le (f_key a) (f_key b).
Proof.
  intros Ha Hb. unfold SFleb, key_le. rewrite f_compare_key by done.
  by destruct (key_compare _ _).
Qed.

Lemma f_leb_refl a : f_num a -> SFleb a a = true.
Proof. intros Ha. rewrite f_leb_key by done. destruct (f_key a) as [[]]. rewrite key_le_lex. lia. Qed.

Lemma f_leb_trans a b c : f_num a -> f_num b -> f_num c ->
  SFleb a b = true -> SFleb b c = true -> SFleb a c = true.
Proof.
  intros Ha Hb Hc. rewrite !f_leb_key by done.
  destruct (f_key a) as [[]], (f_key b) as [[]], (f_key c) as [[]]. rewrite !key_le_lex. lia.
Qed.

Lemma f_ltb_leb_trans a b c : f_num a -> f_num b -> f_num c ->
  SFltb a b = true -> SFleb b c = true -> SFltb a c = true.
Proof.
  intros Ha Hb Hc. unfold SFltb. rewrite f_leb_key, !f_compare_key by done. unfold key_le.
  pose proof (key_le_lex) as Hl. unfold key_le in Hl.
  destruct (f_key a) as [[a1 a2] a3], (f_key b) as [[b1 b2] b3], (f_key c) as [[c1 c2] c3].
  rewrite Hl. cbn. repeat (match goal with |- context [?x ?= ?y] => destruct (Z.compare_spec x y) end; try done); lia.
Qed.

Lemma f_ltb_trans a b c : f_num a -> f_num b -> f_num c ->
  SFltb a b = true -> SFltb b c = true -> SFltb a c = true.
Proof.
  intros Ha Hb Hc Hab Hbc. apply (f_ltb_leb_trans a b c); try done.
  revert Hbc. unfold SFltb, SFleb. by destruct (SFcompare b c) as [[]|].
Qed.

(** One comparison decides the order of two numbers either way. *)
Lemma f_compare_cases a b : f_num a -> f_num b ->
  match SFcompare a b with
  | Some Gt => SFltb b a = true /\ SFleb b a = true
  | Some _ => SFleb a b = true
  | None => False
  end.
Proof.
  intros Ha Hb. unfold SFleb, SFltb. rewrite !f_compare_key by done.
  rewrite (key_compare_sym (f_key a)). by destruct (key_compare _ _).
Qed.

Lemma f_min_spec a b : f_num a -> f_num b ->
  (f_min a b = a \/ f_min a b = b) /\ SFleb (f_min a b) a = true /\ SFleb (f_min a b) b = true.
Proof.
  intros Ha Hb. pose proof (f_compare_cases a b Ha Hb) as Hc. unfold f_min.
  destruct (SFcompare a b) as [[]|]; naive_solver eauto using f_leb_refl.
Qed.

Lemma f_max_spec a b : f_num a -> f_num b ->
  (f_max a b = a \/ f_max a b = b) /\ SFleb a (f_max a b) = true /\ SFleb b (f_max a b) = true.
Proof.
  intros Ha Hb. pose proof (f_compare_cases b a Hb Ha) as Hc.
  assert (SFcompare a b = CompOpp <$> SFcompare b a) as E.
  { rewrite !f_compare_key by done. cbn. f_equal. apply key_compare_sym. }
  unfold f_max. rewrite E.
  destruct (SFcompare b a) as [[]|] eqn:E2; cbn in *; [| | |done]; split_and!; try tauto; try by apply f_leb_refl.
Qed.

(** ** Aggregates and the fastest peer *)

(** What the loop of [stats] keeps of the entries it has seen. *)
Definition stats_inv (seen : list PeerLatency) (acc : f64 * f64 * f64 * Z) : Prop :=
  let '(mn, mx, _, count) := acc in
  let sampled := filter (fun l => 0 < sample_count l) seen in
  f_num mn /\ f_num mx /\ count = Z.of_nat (length sampled) /\
  (forall l, l ∈ sampled -> SFleb mn (ema_ms l) = true /\ SFleb (ema_ms l) mx = true) /\
  (mn = F64_MAX \/ exists l, l ∈ sampled /\ ema_ms l = mn) /\
  (mx = F64_MIN \/ exists l, l ∈ sampled /\ ema_ms l = mx).

Lemma stats_step_inv seen acc l : (0 < sample_count l -> f_num (ema_ms l)) ->
  Forall (fun l => 0 < sample_count l -> f_num (ema_ms l)) seen ->
  stats_inv seen acc -> stats_inv (seen ++ [l]) (LatencyTracker.stats_step acc l).
Proof.
  destruct acc as [[[mn mx] sum] count]. unfold stats_inv, LatencyTracker.stats_step. cbv zeta.
  intros Hl Hs (Hmn & Hmx & Hc & Hb & Hmin & Hmax). rewrite filter_app.
  destruct (Z.ltb_spec 0 (sample_count l)) as [Hp|Hp].
  2: { rewrite (filter_cons_False _ l) by lia. by rewrite app_nil_r. }
  rewrite (filter_cons_True _ l) by done. rewrite filter_nil.
  specialize (Hl Hp). rewrite Forall_forall in Hs.
  destruct (f_min_spec mn (ema_ms l) Hmn Hl) as (Hm1 & Hm2 & Hm3).
  destruct (f_max_spec mx (ema_ms l) Hmx Hl) as (Hx1 & Hx2 & Hx3).
  assert (Hn1 : f_num (f_min mn (ema_ms l))) by (destruct Hm1 as [-> | ->]; done).
  assert (Hn2 : f_num (f_max mx (ema_ms l))) by (destruct Hx1 as [-> | ->]; done).
  split_and!; try done.
  - rewrite length_app. cbn. lia.
  - intros l' [Hl'| ->%list_elem_of_singleton]%elem_of_app; [|done].
    assert (Hl'n : f_num (ema_ms l')) by (apply list_elem_of_filter in Hl' as [? ?]; auto).
    destruct (Hb _ Hl'). split; eauto using f_leb_trans.
  - destruct Hm1 as [-> | ->]; [|right; exists l; split; [apply elem_of_app; right; constructor|done]].
    destruct Hmin as [?|(l' & ? & ?)]; [by left|right; exists l'; split; [apply elem_of_app; by left|done]].
  - destruct Hx1 as [-> | ->]; [|right; exists l; split; [apply elem_of_app; right; constructor|done]].
    destruct Hmax as [?|(l' & ? & ?)]; [by left|right; exists l'; split; [apply elem_of_app; by left|done]].
Qed.

Lemma stats_foldl_inv ls : forall seen acc,
  Forall (fun l => 0 < sample_count l -> f_num (ema_ms l)) (seen ++ ls) ->
  stats_inv seen acc -> stats_inv (seen ++ ls) (foldl LatencyTracker.stats_step acc ls).
Proof.
  induction ls as [|l ls IH]; intros seen acc Hs Hi; [by rewrite app_nil_r|].
  cbn. rewrite (cons_middle l seen ls), app_assoc. apply IH; [by rewrite <- app_assoc|].
  apply Forall_app in Hs as [Hs Hl]. apply Forall_cons in Hl as [Hl _]. by apply stats_step_inv.
Qed.

Lemma min_by_first cs : forall a, f_num a.2 -> Forall (fun c => f_num c.2) cs ->
  exists pre post x, a :: cs = pre ++ x :: post /\ foldl LatencyTracker.min_by_latency a cs = x /\
    Forall (fun c => SFltb x.2 c.2 = true) pre /\ Forall (fun c => SFleb x.2 c.2 = true) post.
Proof.
  induction cs as [|c cs IH] using rev_ind; intros a Ha Hcs.
  { exists [], [], a. by split_and!. }
  apply Forall_app in Hcs as [Hcs Hc]. apply Forall_cons in Hc as [Hc _].
  destruct (IH a Ha Hcs) as (pre & post & x & E & Ex & Hpre & Hpost).
  assert (Hall : Forall (fun c => f_num c.2) (pre ++ x :: post)) by (rewrite <- E; by constructor).
  apply Forall_app in Hall as [Hnpre Hnx]. apply Forall_cons in Hnx as [Hnx Hnpost].
  rewrite foldl_app. cbn [foldl]. rewrite Ex. unfold LatencyTracker.min_by_latency.
  pose proof (f_compare_cases x.2 c.2 Hnx Hc) as Hcc.
  assert (E' : a :: cs ++ [c] = pre ++ x :: post ++ [c])
    by (rewrite app_comm_cons, E; by rewrite <- app_assoc).
  destruct (SFcompare x.2 c.2) as [[]|]; cbn; [| | |done].
  1-2: exists pre, (post ++ [c]), x; (split_and!; [done|done|done|]);
    apply Forall_app; by repeat constructor.
  exists (pre ++ x :: post), [], c. split_and!; [by rewrite E', <- app_assoc|done| |done].
  destruct Hcc as [Hlt Hle]. apply Forall_app. split; [|constructor; [done|]].
  - rewrite Forall_forall in *. intros y Hy. apply (f_ltb_trans _ x.2); auto.
  - rewrite Forall_forall in *. intros y Hy. apply (f_ltb_leb_trans _ x.2); auto.
Qed.

Lemma candidate_split (lat : PeerId -> option f64) cs : forall pre p l post,
  omap (fun p => (fun lat => (p, lat)) <$> lat p) cs = pre ++ (p, l) :: post ->
  exists cs1 cs2, cs = cs1 ++ p :: cs2 /\ lat p = Some l /\
    omap (fun p => (fun lat => (p, lat)) <$> lat p) cs1 = pre /\
    omap (fun p => (fun lat => (p, lat)) <$> lat p) cs2 = post.
Proof.
  induction cs as [|c cs IH]; intros pre p l post; cbn; [by destruct pre|].
  destruct (lat c) as [lc|] eqn:Ec; cbn.
  - destruct pre as [|x pre]; cbn; intros E; simplify_eq.
    + by exists [], cs.
    + destruct (IH _ _ _ _ H0) as (cs1 & cs2 & -> & Hl & <- & <-).
      exists (c :: cs1), cs2. cbn. rewrite Ec. by split_and!.
  - intros E. destruct (IH _ _ _ _ E) as (cs1 & cs2 & -> & Hl & <- & <-).
    exists (c :: cs1), cs2. cbn. rewrite Ec. by split_and!.
Qed.

Lemma elem_of_candidates (lat : PeerId -> option f64) (cs : list PeerId) q l : q ∈ cs -> lat q = Some l ->
  (q, l) ∈ omap (fun p => (fun lat => (p, lat)) <$> lat p) cs.
Proof. intros Hq Hl. apply list_elem_of_omap. exists q. by rewrite Hl. Qed.

Section stats.
Context `{!HashIter PeerId PeerLatency} `{!HashIterLaws PeerId PeerLatency}.

(** The entries with samples, in the order [stats] meets them. *)
Definition sampled_entries (tb : LatencyTracker.t) : list PeerLatency :=
  filter (fun l => 0 < sample_count l) (hash_iter (LatencyTracker.peers tb)).*2.

Lemma elem_of_sampled tb l : l ∈ sampled_entries tb <->
  exists p, LatencyTracker.peers tb !! p = Some l /\ 0 < sample_count l.
Proof.
  unfold sampled_entries. rewrite list_elem_of_filter, list_elem_of_fmap. split.
  - intros (Hl & [p l'] & -> & Hp). apply elem_of_iter in Hp. eauto.
  - intros (p & Hp & Hl). split; [done|]. exists (p, l). by rewrite elem_of_iter.
Qed.

Lemma length_sampled tb : length (sampled_entries tb)
  = size (filter (fun kl => 0 < sample_count kl.2) (LatencyTracker.peers tb)).
Proof.
  unfold sampled_entries. rewrite list_filter_fmap, length_fmap.
  rewrite (Permutation_length (iter_filter (fun kl => 0 < sample_count kl.2) _)).
  apply length_map_to_list.
Qed.

Lemma stats_inv_holds tb :
  (forall p l, LatencyTracker.peers tb !! p = Some l -> 0 < sample_count l -> f_num (ema_ms l)) ->
  stats_inv (hash_iter (LatencyTracker.peers tb)).*2
    (foldl LatencyTracker.stats_step (F64_MAX, F64_MIN, S754_zero false, 0)
       (hash_iter (LatencyTracker.peers tb)).*2).
Proof.
  intros Hn. apply (stats_foldl_inv _ []).
  - cbn. apply Forall_forall. intros l ([p l'] & -> & Hp)%list_elem_of_fmap. apply elem_of_iter in Hp.
    cbn. eauto.
  - cbn. split_and!; try done; [|by left..]. intros l Hl. by apply not_elem_of_nil in Hl.
Qed.

End stats.

Lemma f_ltb_leb_absurd a b : SFltb a b = true -> SFleb b a = true -> False.
Proof.
  unfold SFltb, SFleb. destruct (f_is_nan a) eqn:Ha; [by destruct a|].
  destruct (f_is_nan b) eqn:Hb; [by destruct b, a|].
  rewrite !f_compare_key by done. rewrite (key_compare_sym (f_key a)). by destruct (key_compare _ _).
Qed.

Lemma f_ltb_num a b : SFltb a b = true -> f_num a /\ f_num b.
Proof. unfold SFltb, f_num. by destruct a as [[]|[]| |[]], b as [[]|[]| |[]]. Qed.

(** ** Properties *)

(** A forwarded request is timed once: the first response for it returns
    the round trip from its own forwarding and enters it for the peer it was
    sent to (as that peer's average if it had none), no other peer's average
    and no other pending request changes, and a second response for it is
    untimed and changes nothing. *)
Theorem latency_request_response t0 t1 t2 id p tb :
  let tb1 := LatencyTracker.record_request t0 id p tb in
  let tb2 := (LatencyTracker.record_response t1 id tb1).2 in
  (LatencyTracker.record_response t1 id tb1).1 = Some (LatencyTracker.rtt_ms t0 t1) /\
  (LatencyTracker.peer_latency p tb = None ->
   LatencyTracker.peer_latency p tb2 = Some (LatencyTracker.rtt_ms t0 t1)) /\
  (forall q, q <> p -> LatencyTracker.peer_latency q tb2 = LatencyTracker.peer_latency q tb) /\
  (forall id', LatencyTracker.pending tb2 !! id'
     = if decide (id = id') then None else LatencyTracker.pending tb !! id') /\
  LatencyTracker.record_response t2 id tb2 = (None, tb2).
Proof.
  cbv zeta. unfold LatencyTracker.record_response, LatencyTracker.record_request, LatencyTracker.peer_latency.
  cbn. rewrite lookup_insert_eq. cbn. split_and!.
  - done.
  - rewrite lookup_insert_eq. cbn. destruct (LatencyTracker.peers tb !! p); done.
  - intros q Hq. by rewrite lookup_insert_ne.
  - intros id'. rewrite lookup_delete, lookup_insert. by repeat case_decide.
  - by rewrite lookup_delete_eq.
Qed.

(** The aggregate statistics. Whatever the order of iteration, [stats]
    counts the peers with samples; it is [None] exactly when there are none,
    and otherwise its minimum and maximum bound every sampled average and,
    the averages being finite, are each attained by a sampled peer. *)
Theorem latency_stats_spec `{!HashIter PeerId PeerLatency} `{!HashIterLaws PeerId PeerLatency} tb :
  (forall p l, LatencyTracker.peers tb !! p = Some l -> 0 < sample_count l ->
     SFltb F64_MIN (ema_ms l) = true /\ SFltb (ema_ms l) F64_MAX = true) ->
  let sampled p l := LatencyTracker.peers tb !! p = Some l /\ 0 < sample_count l in
  match LatencyTracker.stats tb with
  | None => forall p l, ~ sampled p l
  | Some s =>
      peer_count s = Z.of_nat (size (filter (fun kl => 0 < sample_count kl.2) (LatencyTracker.peers tb))) /\
      0 < peer_count s /\
      (forall p l, sampled p l ->
         SFleb (min_ms s) (ema_ms l) = true /\ SFleb (ema_ms l) (max_ms s) = true) /\
      (exists p l, sampled p l /\ ema_ms l = min_ms s) /\
      (exists p l, sampled p l /\ ema_ms l = max_ms s)
  end.
Proof.
  intros Hfin. cbv zeta.
  assert (Hn : forall p l, LatencyTracker.peers tb !! p = Some l -> 0 < sample_count l -> f_num (ema_ms l)).
  { intros p l Hp Hl. destruct (Hfin p l Hp Hl) as [_ Hlt]. by apply f_ltb_num in Hlt as [? _]. }
  pose proof (stats_inv_holds tb Hn) as Hinv. unfold LatencyTracker.stats.
  case_bool_decide as He.
  { intros p l [Hp _]. by rewrite He, lookup_empty in Hp. }
  destruct (foldl _ _ _) as [[[mn mx] sum] count]. cbn in Hinv. fold (sampled_entries tb) in Hinv.
  destruct Hinv as (Hmn & Hmx & Hc & Hb & Hmin & Hmax). rewrite length_sampled in Hc.
  destruct (Z.eqb_spec count 0) as [H0|H0].
  { intros p l Hpl. assert (Hl : l ∈ sampled_entries tb) by (apply elem_of_sampled; eauto).
    rewrite <- length_sampled in Hc. destruct (sampled_entries tb); [by apply not_elem_of_nil in Hl|].
    cbn in Hc. lia. }
  cbn. split_and!; [done|lia| | |].
  - intros p l Hpl. apply Hb, elem_of_sampled. eauto.
  - destruct Hmin as [->|(l & Hl & <-)]; [|apply elem_of_sampled in Hl as (p & Hp); eauto].
    destruct (sampled_entries tb) as [|l ls] eqn:El; [rewrite <- length_sampled, El in Hc; done|].
    assert (Hl : l ∈ sampled_entries tb) by (rewrite El; constructor). rewrite El in Hl.
    destruct (Hb l Hl) as [Hle _]. rewrite <- El in Hl. apply elem_of_sampled in Hl as (p & Hp & Hs).
    destruct (f_ltb_leb_absurd _ _ (proj2 (Hfin p l Hp Hs)) Hle).
  - destruct Hmax as [->|(l & Hl & <-)]; [|apply elem_of_sampled in Hl as (p & Hp); eauto].
    destruct (sampled_entries tb) as [|l ls] eqn:El; [rewrite <- length_sampled, El in Hc; done|].
    assert (Hl : l ∈ sampled_entries tb) by (rewrite El; constructor). rewrite El in Hl.
    destruct (Hb l Hl) as [_ Hle]. rewrite <- El in Hl. apply elem_of_sampled in Hl as (p & Hp & Hs).
    destruct (f_ltb_leb_absurd _ _ (proj1 (Hfin p l Hp Hs)) Hle).
Qed.

Definition sample_tracker : LatencyTracker.t :=
  LatencyTracker.mk ∅ {[ mkPeerId 1 := mkPeerLatency (f_of_Z 250) 1; mkPeerId 2 := mkPeerLatency (f_of_Z 40) 3 ]}.

Lemma latency_stats_spec_witness :
  LatencyTracker.stats (HashIter0 := list_order) sample_tracker
    = Some (mkLatencyStats (f_of_Z 40) (f_of_Z 145) (f_of_Z 250) 2) /\
  SFleb (f_of_Z 40) (f_of_Z 250) = true.
Proof.
  assert (E : LatencyTracker.stats (HashIter0 := list_order) sample_tracker
    = Some (mkLatencyStats (f_of_Z 40) (f_of_Z 145) (f_of_Z 250) 2)) by (vm_compute; reflexivity).
  split; [exact E|].
  pose proof (@latency_stats_spec list_order list_order_laws sample_tracker) as Hs.
  cbv zeta in Hs. rewrite E in Hs.
  destruct Hs as (_ & _ & Hb & _).
  - intros p l Hp _. unfold sample_tracker in Hp. cbn in Hp.
    apply lookup_insert_Some in Hp as [[_ <-]|[_ Hp]]; [split; vm_compute; reflexivity|].
    apply lookup_singleton_Some in Hp as [_ <-]. split; vm_compute; reflexivity.
  - exact (proj1 (Hb (mkPeerId 1) (mkPeerLatency (f_of_Z 250) 1) (conj eq_refl eq_refl))).
Defined.

(** [fastest_peer] returns the first candidate of least average among the
    candidates that have one, and [None] exactly when no candidate has one. *)
Theorem fastest_peer_spec tb candidates :
  (forall q l, q ∈ candidates -> LatencyTracker.peer_latency q tb = Some l -> f_num l) ->
  match LatencyTracker.fastest_peer candidates tb with
  | None => forall q, q ∈ candidates -> LatencyTracker.peer_latency q tb = None
  | Some p => exists before after l,
      candidates = before ++ p :: after /\ LatencyTracker.peer_latency p tb = Some l /\
      (forall q l', q ∈ before -> LatencyTracker.peer_latency q tb = Some l' -> SFltb l l' = true) /\
      (forall q l', q ∈ after -> LatencyTracker.peer_latency q tb = Some l' -> SFleb l l' = true)
  end.
Proof.
  intros Hn. unfold LatencyTracker.fastest_peer.
  destruct (omap _ _) as [|x xs] eqn:Ex.
  { intros q Hq. destruct (LatencyTracker.peer_latency q tb) as [l|] eqn:El; [|done].
    pose proof (elem_of_candidates (fun p => LatencyTracker.peer_latency p tb) _ _ _ Hq El) as Hin.
    cbn in Hin. rewrite Ex in Hin. by apply not_elem_of_nil in Hin. }
  assert (Hall : Forall (fun c => f_num c.2) (x :: xs)).
  { rewrite <- Ex. apply Forall_forall. intros c Hc. apply list_elem_of_omap in Hc as (q & Hq & Hl).
    destruct (LatencyTracker.peer_latency q tb) as [l|] eqn:El; cbn in Hl; simplify_eq. cbn. eauto. }
  apply Forall_cons in Hall as [Hx Hxs].
  destruct (min_by_first xs x Hx Hxs) as (pre & post & [p l] & E & -> & Hpre & Hpost).
  rewrite E in Ex. cbn [fst snd] in *.
  destruct (candidate_split (fun p => LatencyTracker.peer_latency p tb) _ _ _ _ _ Ex)
    as (cs1 & cs2 & -> & Hl & <- & <-).
  exists cs1, cs2, l. rewrite Forall_forall in Hpre, Hpost. split_and!; try done.
  - intros q l' Hq Hl'. apply (Hpre (q, l')).
    by apply (elem_of_candidates (fun p => LatencyTracker.peer_latency p tb)).
  - intros q l' Hq Hl'. apply (Hpost (q, l')).
    by apply (elem_of_candidates (fun p => LatencyTracker.peer_latency p tb)).
Qed.

Lemma fastest_peer_spec_witness :
  exists before after l,
    [mkPeerId 3; mkPeerId 1; mkPeerId 2] = before ++ mkPeerId 2 :: after /\
    LatencyTracker.peer_latency (mkPeerId 2) sample_tracker = Some l /\
    SFltb l (f_of_Z 250) = true.
Proof.
  pose proof (fastest_peer_spec sample_tracker [mkPeerId 3; mkPeerId 1; mkPeerId 2]) as Hs.
  change (LatencyTracker.fastest_peer _ _) with (Some (mkPeerId 2)) in Hs.
  destruct Hs as (before & after & l & E & El & Hb & _).
  - intros q l Hq Hl. repeat (apply elem_of_cons in Hq as [-> | Hq];
      [vm_compute in Hl; first [discriminate Hl | injection Hl as <-; reflexivity]|]).
    by apply not_elem_of_nil in Hq.
  - exists before, after, l. split; [exact E|]. split; [exact El|].
    apply (Hb (mkPeerId 1)); [|vm_compute; reflexivity].
    destruct before as [|b1 [|b2 before]]; [discriminate E..|]. injection E as <- <- _.
    right. left.
Defined.
