(* ===== verification/Float.v ===== *)
(** * Rounding in binary64

    Facts on the Standard Library's specification of IEEE 754 that the latency
    tracker's numbers need: operations on non-negative numbers give non-negative
    numbers, and a result is not above a bound that is itself a float when the
    exact result is not. *)
From S2P Require Import Prelude Types PeerTable Latency.
From Stdlib Require Import SpecFloat.

(** ** Values *)

(** [m * 2^e], scaled by [2^4000] so that it is an integer for the exponents in
    use here. *)
Definition scaled (m e : Z) : Z := m * 2 ^ (e + 4000).

Definition LOW : Z := -4000.

(** [x] is a non-negative number of at most [m * 2^e]. *)
Definition f_upto (m e : Z) (x : f64) : Prop :=
  match x with
  | S754_zero s => s = false
  | S754_finite s mx ex => s = false /\ -1100 <= ex /\ scaled (Zpos mx) ex <= scaled m e
  | _ => False
  end.

Lemma scaled_shift m e k : 0 <= k -> LOW <= e -> scaled (m * 2 ^ k) e = scaled m (e + k).
Proof.
  intros Hk He. unfold scaled, LOW in *. replace (e + k + 4000) with (k + (e + 4000)) by lia.
  rewrite (Z.pow_add_r 2 k) by lia. ring.
Qed.

Lemma scaled_mono_m m m' e : LOW <= e -> m <= m' -> scaled m e <= scaled m' e.
Proof. intros He Hm. unfold scaled. apply Z.mul_le_mono_nonneg_r; [apply Z.pow_nonneg; lia|done]. Qed.

Lemma scaled_pos e : LOW <= e -> 0 < 2 ^ (e + 4000).
Proof. intros He. unfold LOW in He. apply Z.pow_pos_nonneg; lia. Qed.

(** ** Digits *)

Lemma digits_pos m : 2 ^ (Zpos (digits2_pos m) - 1) <= Zpos m < 2 ^ Zpos (digits2_pos m).
Proof.
  induction m as [m IH|m IH|]; cbn [digits2_pos]; [| |done];
    rewrite Pos2Z.inj_succ, Z.sub_succ_l, Z.sub_1_r, Z.succ_pred;
    set (d := Zpos (digits2_pos m)) in *; assert (0 < d) by done;
    rewrite Z.pow_succ_r by lia; (replace d with (Z.succ (d - 1)) in |- * at 1 by lia);
    rewrite Z.pow_succ_r by lia; lia.
Qed.

Lemma digits_nonneg m : 0 <= m -> (m = 0 /\ Zdigits2 m = 0) \/
  (0 < m /\ 0 < Zdigits2 m /\ 2 ^ (Zdigits2 m - 1) <= m < 2 ^ Zdigits2 m).
Proof.
  destruct m as [|p|p]; [by left|right|lia]. split_and!; try done; apply digits_pos.
Qed.

(** ** Shifting right *)

Definition iter_shr (n : nat) (r : shr_record) : shr_record := Nat.iter n shr_1 r.

Lemma iter_pos_nat {A} (f : A -> A) p : forall x, iter_pos f p x = Nat.iter (Pos.to_nat p) f x.
Proof.
  induction p as [p IH|p IH|]; intros x; cbn [iter_pos]; [| |done].
  - rewrite !IH, <- Nat.iter_add, <- Nat.iter_succ_r. f_equal. lia.
  - rewrite !IH, <- Nat.iter_add. f_equal. lia.
Qed.

Lemma shr_1_m r : 0 <= shr_m r -> shr_m (shr_1 r) = shr_m r / 2.
Proof.
  destruct r as [m b s]. cbn. destruct m as [|[p|p|]|p]; cbn; try lia; intros _; try done.
  - by rewrite Pos2Z.inj_xI, Z.mul_comm, Z.div_add_l by lia.
  - by rewrite Pos2Z.inj_xO, Z.mul_comm, Z.div_mul by lia.
Qed.

Lemma shr_1_exact m : shr_1 (Build_shr_record (2 * m) false false) = Build_shr_record m false false.
Proof. by destruct m as [|p|p]. Qed.

Lemma iter_shr_m n : forall r, 0 <= shr_m r -> shr_m (iter_shr n r) = shr_m r / 2 ^ Z.of_nat n.
Proof.
  induction n as [|n IH]; intros r Hr; [by rewrite Z.div_1_r|].
  unfold iter_shr. rewrite Nat.iter_succ_r. fold (iter_shr n (shr_1 r)). rewrite IH.
  - rewrite shr_1_m by done. rewrite Z.div_div by (try apply Z.pow_nonzero; lia).
    by rewrite Nat2Z.inj_succ, Z.pow_succ_r by lia.
  - rewrite shr_1_m by done. by apply Z.div_pos.
Qed.

Lemma iter_shr_exact n : forall m, iter_shr n (Build_shr_record (m * 2 ^ Z.of_nat n) false false)
  = Build_shr_record m false false.
Proof.
  induction n as [|n IH]; intros m; [by rewrite Z.mul_1_r|].
  unfold iter_shr. rewrite Nat.iter_succ_r. fold (iter_shr n).
  replace (m * 2 ^ Z.of_nat (S n)) with (2 * (m * 2 ^ Z.of_nat n))
    by (rewrite Nat2Z.inj_succ, Z.pow_succ_r by lia; ring).
  rewrite shr_1_exact. apply IH.
Qed.

Lemma shr_iter r e n : 0 <= n -> shr r e n = (iter_shr (Z.to_nat n) r, e + n).
Proof.
  destruct n as [|p|p]; cbn [shr]; intros Hn; [by rewrite Z.add_0_r| |lia].
  unfold iter_shr. by rewrite iter_pos_nat.
Qed.

Lemma shr_neg r e n : n <= 0 -> shr r e n = (r, e).
Proof. destruct n; cbn [shr]; intros Hn; [done|lia|done]. Qed.

Lemma record_of_loc_m m l : shr_m (shr_record_of_loc m l) = m.
Proof. by destruct l as [|[]]. Qed.

Lemma round_le_succ m l : m <= round_nearest_even m l <= m + 1.
Proof. destruct l as [|[]]; cbn; [lia| |lia|lia]. destruct (Z.even m); lia. Qed.

(** ** Rounding *)

Abbreviation fexp64 := (fexp 53 1024).

Lemma fexp_eq e : fexp64 e = Z.max (e - 53) (-1074).
Proof. done. Qed.

(** A bound that is a float of moderate size. *)
Definition bound_ok (m e : Z) : Prop :=
  0 < m /\ fexp64 (Zdigits2 m + e) <= e /\ e <= 900 /\ Zdigits2 m <= 60.

#[global] Instance bound_ok_dec m e : Decision (bound_ok m e).
Proof. unfold bound_ok. apply _. Defined.

Lemma bound_exp m e : bound_ok m e -> -1074 <= e.
Proof. intros (_ & Hg & _). rewrite fexp_eq in Hg. lia. Qed.

(** The exponent of a value below a bound. *)
Lemma scaled_lt_exp a d ea m e : 0 < a -> 2 ^ (d - 1) <= a -> 0 < d -> LOW <= ea -> bound_ok m e ->
  scaled a ea <= scaled m e -> d + ea <= Zdigits2 m + e.
Proof.
  intros Ha Hd Hpos Hea Hb Hle. pose proof (bound_exp _ _ Hb) as He. pose proof (proj1 Hb) as Hm.
  destruct (digits_nonneg m) as [[? _]|(_ & HD & Hm1 & Hm2)]; [lia|lia|].
  assert (Hlt : 2 ^ (d - 1) * 2 ^ (ea + 4000) < 2 ^ Zdigits2 m * 2 ^ (e + 4000)).
  { apply Z.le_lt_trans with (scaled a ea); [apply Z.mul_le_mono_nonneg_r; [apply Z.pow_nonneg; lia|done]|].
    eapply Z.le_lt_trans; [exact Hle|]. apply Z.mul_lt_mono_pos_r; [apply scaled_pos; unfold LOW; lia|done]. }
  unfold LOW in *. rewrite <- !Z.pow_add_r in Hlt by lia. apply Z.pow_lt_mono_r_iff in Hlt; lia.
Qed.

(** The value after the first shift and the rounding. *)
Lemma first_round m e mx ex lx : 0 <= mx -> -3000 <= ex -> ex <= e \/ lx = loc_Exact -> bound_ok m e ->
  scaled mx ex < scaled m e \/ scaled mx ex = scaled m e /\ lx = loc_Exact ->
  let '(mrs, e') := shr_fexp 53 1024 mx ex lx in
  let rnd := round_nearest_even (shr_m mrs) (loc_of_shr_record mrs) in
  0 <= rnd /\ -1074 <= e' /\ scaled rnd e' <= scaled m e.
Proof.
  intros Hmx Hex Hexe Hb Hle. pose proof (bound_exp _ _ Hb) as He. unfold shr_fexp.
  set (F := fexp64 (Zdigits2 mx + ex)). assert (HF : -1074 <= F) by (unfold F; rewrite fexp_eq; lia).
  assert (Hle' : scaled mx ex <= scaled m e) by (destruct Hle as [?|[? _]]; lia).
  assert (HFe : ex < F -> F <= e).
  { intros Hlt. destruct (digits_nonneg mx Hmx) as [[-> Hd0]|(Hp & Hd & H1 & H2)].
    - unfold F in *. rewrite Hd0, fexp_eq in *. lia.
    - assert (Hd' : Zdigits2 mx + ex <= Zdigits2 m + e) by (eapply scaled_lt_exp; try exact Hle'; try done; unfold LOW; lia).
      destruct Hb as (_ & Hg & _). unfold F in *. rewrite fexp_eq in *. lia. }
  destruct (Z.le_gt_cases (F - ex) 0) as [Hn|Hn].
  - rewrite shr_neg by done. cbv zeta. rewrite record_of_loc_m.
    replace (loc_of_shr_record (shr_record_of_loc mx lx)) with lx by (by destruct lx as [|[]]).
    pose proof (round_le_succ mx lx). split_and!; [lia|lia|].
    destruct Hexe as [Hexe| ->]; [|cbn; lia].
    destruct Hle as [Hlt|[Heq ->]]; [|cbn; lia].
    assert (Hs : scaled m e = scaled (m * 2 ^ (e - ex)) ex) by (rewrite scaled_shift by (unfold LOW; lia); f_equal; lia).
    rewrite Hs in Hlt |- *. apply scaled_mono_m; [unfold LOW; lia|]. unfold scaled in Hlt.
    apply Z.mul_lt_mono_pos_r in Hlt; [lia|apply scaled_pos; unfold LOW; lia].
  - specialize (HFe ltac:(lia)). rewrite shr_iter by lia. cbv zeta. set (n := Z.to_nat (F - ex)). replace (ex + (F - ex)) with F by lia.
    set (N := m * 2 ^ (e - F)). assert (Hs : scaled m e = scaled (N * 2 ^ (F - ex)) ex).
    { unfold N. rewrite !scaled_shift by (unfold LOW; lia). f_equal. lia. }
    assert (HsN : scaled N F = scaled m e) by (unfold N; rewrite scaled_shift by (unfold LOW; lia); f_equal; lia).
    rewrite Hs in Hle. rewrite <- HsN. assert (H2n : 2 ^ (F - ex) = 2 ^ Z.of_nat n) by (unfold n; f_equal; lia).
    destruct Hle as [Hlt|[Heq ->]].
    + unfold scaled in Hlt. apply Z.mul_lt_mono_pos_r in Hlt; [|apply scaled_pos; unfold LOW; lia].
      rewrite iter_shr_m by (by rewrite record_of_loc_m). rewrite record_of_loc_m.
      assert (Hq : 0 <= mx / 2 ^ Z.of_nat n < N).
      { split; [apply Z.div_pos; [done|apply Z.pow_pos_nonneg; lia]|].
        apply Z.div_lt_upper_bound; [apply Z.pow_pos_nonneg; lia|]. rewrite <- H2n. lia. }
      pose proof (round_le_succ (mx / 2 ^ Z.of_nat n) (loc_of_shr_record (iter_shr n (shr_record_of_loc mx lx)))).
      split_and!; [lia|lia|]. apply scaled_mono_m; [unfold LOW; lia|lia].
    + unfold scaled in Heq. apply Z.mul_reg_r in Heq; [|pose proof (scaled_pos ex); unfold LOW in *; lia].
      rewrite Heq, H2n. cbn [shr_record_of_loc]. rewrite iter_shr_exact. cbn.
      assert (0 <= N) by (unfold N; pose proof (proj1 Hb); apply Z.mul_nonneg_nonneg; [lia|apply Z.pow_nonneg; lia]).
      split_and!; [done|lia|lia].
Qed.

(** The result of a rounding is not above a bound of the exact value. *)
Lemma round_aux_upto m e mx ex lx : 0 <= mx -> -3000 <= ex -> ex <= e \/ lx = loc_Exact -> bound_ok m e ->
  scaled mx ex < scaled m e \/ scaled mx ex = scaled m e /\ lx = loc_Exact ->
  f_upto m e (binary_round_aux 53 1024 false mx ex lx).
Proof.
  intros Hmx Hex Hexe Hb Hle. pose proof (first_round m e mx ex lx Hmx Hex Hexe Hb Hle) as Hfr. unfold binary_round_aux.
  destruct (shr_fexp 53 1024 mx ex lx) as [mrs e']. set (rnd := round_nearest_even _ _) in *.
  destruct Hfr as (Hr & He' & Hs). clearbody rnd.
  assert (Hsec : let '(mrs2, e2) := shr_fexp 53 1024 rnd e' loc_Exact in
    0 <= shr_m mrs2 /\ -1074 <= e2 /\ scaled (shr_m mrs2) e2 <= scaled rnd e').
  { unfold shr_fexp. destruct (Z.le_gt_cases (fexp64 (Zdigits2 rnd + e') - e') 0) as [Hn|Hn].
    - rewrite shr_neg by done. cbn. split_and!; lia.
    - rewrite shr_iter by lia. set (k := fexp64 (Zdigits2 rnd + e') - e') in *.
      rewrite iter_shr_m by done. cbn [shr_record_of_loc shr_m]. rewrite Z2Nat.id by lia.
      assert (H2k : 0 < 2 ^ k) by (apply Z.pow_pos_nonneg; lia).
      split_and!; [by apply Z.div_pos|lia|]. rewrite <- scaled_shift by (unfold LOW; lia).
      apply scaled_mono_m; [unfold LOW; lia|]. rewrite Z.mul_comm. by apply Z.mul_div_le. }
  destruct (shr_fexp 53 1024 rnd e' loc_Exact) as [mrs2 e2]. destruct Hsec as (Hm2 & He2 & Hs2).
  destruct (shr_m mrs2) as [|p|p] eqn:Ep; [done| |lia].
  assert (Hle2 : scaled (Zpos p) e2 <= scaled m e) by lia.
  assert (Hexp : 1 + e2 <= Zdigits2 m + e)
    by (apply (scaled_lt_exp (Zpos p) 1); [done|cbn; lia|lia|unfold LOW; lia|done|done]).
  destruct Hb as (_ & _ & ? & ?).
  destruct (Z.leb_spec e2 (1024 - 53)); [|lia]. cbn. split_and!; [done|lia|done].
Qed.

(** ** Operations *)

Lemma scaled_add_exp a ea b eb k : LOW <= ea -> LOW <= eb -> LOW <= ea + k -> LOW <= eb + k ->
  scaled a ea <= scaled b eb <-> scaled a (ea + k) <= scaled b (eb + k).
Proof.
  unfold LOW. intros H1 H2 H3 H4. assert (Hgen : forall a ea b eb k, 0 <= k -> LOW <= ea -> LOW <= eb ->
    scaled a ea <= scaled b eb <-> scaled a (ea + k) <= scaled b (eb + k)).
  { clear. unfold LOW. intros a ea b eb k Hk He Hf. unfold scaled.
    replace (ea + k + 4000) with (ea + 4000 + k) by lia. replace (eb + k + 4000) with (eb + 4000 + k) by lia.
    rewrite (Z.pow_add_r 2 (ea + 4000)), (Z.pow_add_r 2 (eb + 4000)), !Z.mul_assoc by lia. apply Z.mul_le_mono_pos_r. apply Z.pow_pos_nonneg; lia. }
  destruct (Z.le_ge_cases 0 k); [by apply Hgen; unfold LOW|].
  rewrite (Hgen a (ea + k) b (eb + k) (- k)) by (unfold LOW; lia). do 2 f_equiv; f_equal; lia.
Qed.

Lemma f_upto_weaken m e m' e' x : f_upto m e x -> scaled m e <= scaled m' e' -> f_upto m' e' x.
Proof. destruct x as [s|s| |s mx ex]; cbn; try done. intros (? & ? & ?) Hle. split_and!; [done|done|lia]. Qed.

Lemma iter_xO p d : Zpos (Pos.iter xO p d) = Zpos p * 2 ^ Zpos d /\
  Zpos (digits2_pos (Pos.iter xO p d)) = Zpos (digits2_pos p) + Zpos d.
Proof.
  induction d as [|d [IH1 IH2]] using Pos.peano_ind; [split; cbn; lia|].
  rewrite Pos.iter_succ. split.
  - rewrite Pos2Z.inj_xO, IH1, Pos2Z.inj_succ, Z.pow_succ_r by lia. ring.
  - cbn [digits2_pos]. rewrite Pos2Z.inj_succ, IH2, Pos2Z.inj_succ. lia.
Qed.

(** Aligning keeps the value, and never raises the exponent. *)
Lemma shl_align_value p ex e' : LOW <= ex -> LOW <= e' ->
  let '(mz, ez) := shl_align p ex e' in
  scaled (Zpos mz) ez = scaled (Zpos p) ex /\ ez = Z.min ex e'.
Proof.
  intros H1 H2. unfold shl_align. destruct (e' - ex) as [|d|d] eqn:E; [split; [done|lia]..|].
  destruct (iter_xO p d) as [-> _]. rewrite scaled_shift by lia. split; [f_equal; lia|lia].
Qed.

Lemma round_upto m e p ex : -2400 <= ex -> bound_ok m e -> scaled (Zpos p) ex <= scaled m e ->
  f_upto m e (binary_round 53 1024 false p ex).
Proof.
  intros Hex Hb Hle. unfold binary_round.
  pose proof (shl_align_value p ex (fexp64 (Zpos (digits2_pos p) + ex)) ltac:(unfold LOW; lia)
    ltac:(rewrite fexp_eq; unfold LOW; lia)) as Ha.
  destruct (shl_align _ _ _) as [mz ez]. destruct Ha as [Hv Hez]. rewrite fexp_eq in Hez.
  apply round_aux_upto; [done|lia|by right|done|]. rewrite Hv.
  destruct (Z.lt_eq_cases (scaled (Zpos p) ex) (scaled m e)) as [Hc _]. destruct (Hc Hle); auto.
Qed.

Lemma f_add_upto m1 e1 m2 e2 m e x y : f_upto m1 e1 x -> f_upto m2 e2 y -> bound_ok m e ->
  scaled m1 e1 + scaled m2 e2 <= scaled m e -> 0 <= scaled m1 e1 -> 0 <= scaled m2 e2 -> f_upto m e (f_add x y).
Proof.
  intros Hx Hy Hb Hle H1 H2. unfold f_add.
  destruct x as [sx|sx| |sx mx ex], y as [sy|sy| |sy my ey]; cbn in Hx, Hy; try done.
  - subst. done.
  - destruct Hy as (-> & Hey & Hy). cbn. split_and!; [done|done|lia].
  - destruct Hx as (-> & Hex & Hx). cbn. split_and!; [done|done|lia].
  - destruct Hx as (-> & Hex & Hx), Hy as (-> & Hey & Hy). cbn [SFadd cond_Zopp].
    pose proof (shl_align_value mx ex (Z.min ex ey) ltac:(unfold LOW; lia) ltac:(unfold LOW; lia)) as Ax.
    pose proof (shl_align_value my ey (Z.min ex ey) ltac:(unfold LOW; lia) ltac:(unfold LOW; lia)) as Ay.
    destruct (shl_align mx _ _) as [ax eax], (shl_align my _ _) as [ay eay]. cbn [fst].
    destruct Ax as [Vx Ex], Ay as [Vy Ey]. rewrite <- Pos2Z.inj_add. cbn [binary_normalize].
    apply round_upto; [lia|done|]. rewrite Pos2Z.inj_add. unfold scaled in *.
    rewrite Z.mul_add_distr_r. replace (Z.min ex ey) with eax at 1 by lia. replace (Z.min ex ey) with eay by lia. lia.
Qed.

Lemma f_mul_upto mc ec m e x : f_upto m e x -> -1000 <= ec -> bound_ok (Zpos mc * m) (ec + e) -> -1100 <= e ->
  f_upto (Zpos mc * m) (ec + e) (f_mul (S754_finite false mc ec) x).
Proof.
  intros Hx Hec Hb He. unfold f_mul. destruct x as [sx|sx| |sx mx ex]; cbn in Hx; try done.
  destruct Hx as (-> & Hex & Hx). cbn [SFmul xorb].
  assert (Hle : scaled (Zpos (mc * mx)) (ec + ex) <= scaled (Zpos mc * m) (ec + e)).
  { rewrite Pos2Z.inj_mul. rewrite (scaled_add_exp _ _ _ _ ec) in Hx by (unfold LOW; lia).
    unfold scaled in *. rewrite (Z.add_comm ec ex), (Z.add_comm ec e), <- !Z.mul_assoc.
    apply Z.mul_le_mono_nonneg_l; [lia|done]. }
  apply round_aux_upto; [done|lia|by right|done|].
  destruct (Z.lt_eq_cases (scaled (Zpos (mc * mx)) (ec + ex)) (scaled (Zpos mc * m) (ec + e))) as [Hc _].
  destruct (Hc Hle); auto.
Qed.

(** [n as f64] is exact below [2^53]. *)
Lemma f_of_Z_exact n : 0 < n < 2 ^ 53 -> exists m e, f_of_Z n = S754_finite false m e /\
  Zpos m * 2 ^ (e + 52) = n * 2 ^ 52 /\ Zpos (digits2_pos m) = 53 /\ -52 <= e <= 0.
Proof.
  intros Hn. destruct n as [|p|p]; try lia. unfold f_of_Z. cbn [binary_normalize]. unfold binary_round.
  pose proof (digits_pos p) as Hd. set (d := Zpos (digits2_pos p)) in *. assert (Hd0 : 0 < d) by done.
  assert (Hd53 : d <= 53).
  { assert (2 ^ (d - 1) < 2 ^ 53) as Hlt by lia. apply Z.pow_lt_mono_r_iff in Hlt; lia. }
  rewrite Z.add_0_r. rewrite fexp_eq. rewrite Z.max_l by lia.
  assert (Hal : exists m, shl_align p 0 (d - 53) = (m, d - 53) /\ Zpos m = Zpos p * 2 ^ (53 - d) /\
    Zpos (digits2_pos m) = 53).
  { unfold shl_align. rewrite Z.sub_0_r. destruct (d - 53) as [|k|k] eqn:Ek; [|lia|].
    - exists p. replace (53 - d) with 0 by lia. split_and!; [by f_equal; lia|lia|lia].
    - destruct (iter_xO p k) as [H1 H2]. exists (Pos.iter xO p k). fold d in H2.
      replace (53 - d) with (Zpos k) by lia. split_and!; [done|done|lia]. }
  destruct Hal as (m & -> & Hm & Hdm). exists m, (d - 53). split_and!; [|rewrite Hm| |lia|lia].
  - unfold binary_round_aux, shr_fexp. cbn [Zdigits2]. rewrite Hdm, fexp_eq.
    replace (Z.max (53 + (d - 53) - 53) (-1074) - (d - 53)) with 0 by lia. cbn [shr].
    cbn [shr_record_of_loc shr_m loc_of_shr_record round_nearest_even Zdigits2]. rewrite Hdm, fexp_eq.
    replace (Z.max (53 + (d - 53) - 53) (-1074) - (d - 53)) with 0 by lia. cbn [shr shr_m].
    destruct (Z.leb_spec (d - 53) (1024 - 53)); [done|lia].
  - rewrite <- Z.mul_assoc, <- Z.pow_add_r by lia. do 2 f_equal. lia.
  - done.
Qed.

Lemma f_of_Z_upto n e : 0 <= n <= 2 ^ e -> 0 <= e <= 900 -> f_upto 1 e (f_of_Z n).
Proof.
  intros Hn He. unfold f_of_Z. destruct n as [|p|p]; [done| |lia]. cbn [binary_normalize].
  apply round_upto; [lia| |].
  - unfold bound_ok. rewrite fexp_eq. cbn [Zdigits2 digits2_pos]. lia.
  - rewrite <- (Z.add_0_l e), <- (scaled_shift 1 0 e) by (unfold LOW; lia). apply scaled_mono_m; [unfold LOW; lia|lia].
Qed.

(** Division by a normalised float: the quotient's bound. *)
Lemma f_div_upto m e mc ec k x : f_upto m e x -> Zpos (digits2_pos mc) = 53 -> -100 <= ec <= 100 -> -900 <= e ->
  bound_ok 1 k -> -900 <= k -> bound_ok m e -> Zdigits2 m + e - ec - 106 <= k ->
  scaled m e <= scaled (Zpos mc) (ec + k) -> f_upto 1 k (f_div x (S754_finite false mc ec)).
Proof.
  intros Hx Hdc Hec He Hbk Hk Hbm Hkg Hle. unfold f_div. destruct x as [sx|sx| |sx mx ex]; cbn in Hx; [by subst|done|done|].
  destruct Hx as (-> & Hex & Hx). cbn [SFdiv xorb]. unfold SFdiv_core_binary. cbn [Zdigits2].
  pose proof (digits_pos mx) as Hdx. set (d1 := Zpos (digits2_pos mx)) in *. rewrite Hdc.
  assert (Hd1 : d1 + ex <= Zdigits2 m + e)
    by (eapply (scaled_lt_exp (Zpos mx)); [done|apply Hdx|done|unfold LOW; lia|done|done]).
  set (e' := Z.min (fexp64 (d1 + ex - (53 + ec))) (ex - ec)). set (s := ex - ec - e').
  assert (He' : -1300 <= e' <= k) by (unfold e'; rewrite fexp_eq; lia).
  assert (Hs : 0 <= s) by (unfold s, e'; lia).
  assert (Hm' : match s with 0 => Zpos mx | Zpos _ => Z.shiftl (Zpos mx) s | Zneg _ => 0 end = Zpos mx * 2 ^ s)
    by (destruct s; [cbn; lia|by rewrite Z.shiftl_mul_pow2|lia]).
  rewrite Hm'. pose proof (Z.div_eucl_eq (Zpos mx * 2 ^ s) (Zpos mc) ltac:(lia)) as Hdiv.
  pose proof (Z.mod_pos_bound (Zpos mx * 2 ^ s) (Zpos mc) ltac:(lia)) as Hmod. unfold Z.modulo in Hmod.
  assert (Hq0 : 0 <= Zpos mx * 2 ^ s / Zpos mc) by (apply Z.div_pos; [apply Z.mul_nonneg_nonneg; [lia|apply Z.pow_nonneg; lia]|lia]).
  unfold Z.div in Hq0. destruct (Z.div_eucl _ _) as [q r]. cbn beta iota in *.
  assert (Hval : scaled (Zpos mx * 2 ^ s) (e' + ec) <= scaled (Zpos mc) (ec + k)).
  { rewrite scaled_shift by (unfold LOW; lia). replace (e' + ec + s) with ex by (unfold s; lia). lia. }
  rewrite Hdiv in Hval. unfold scaled in Hval. rewrite Z.mul_add_distr_r in Hval.
  assert (Hp1 : 0 < 2 ^ (e' + ec + 4000)) by (apply Z.pow_pos_nonneg; lia).
  assert (Hcmp : q * 2 ^ (e' + ec + 4000) <= 2 ^ (ec + k + 4000) /\
    (q * 2 ^ (e' + ec + 4000) = 2 ^ (ec + k + 4000) -> r = 0)) by (split; nia).
  destruct Hcmp as [Hc1 Hc2].
  assert (Hsh : forall a b, scaled a e' <= scaled b k <-> scaled a (e' + ec) <= scaled b (k + ec))
    by (intros a b; apply scaled_add_exp; unfold LOW; lia).
  apply round_aux_upto; [done|lia|left; lia|done|].
  assert (Hqle : scaled q e' <= scaled 1 k).
  { apply Hsh. unfold scaled. replace (k + ec) with (ec + k) by lia. lia. }
  destruct (Z.lt_eq_cases (scaled q e') (scaled 1 k)) as [Hcs _]. destruct (Hcs Hqle) as [|Heq]; [by left|right].
  split; [done|]. assert (Hr : r = 0).
  { apply Hc2. apply Z.le_antisymm; [done|]. assert (Hge : scaled 1 (k + ec) <= scaled q (e' + ec)).
    { rewrite <- (scaled_add_exp 1 k q e' ec) by (unfold LOW; lia). lia. }
    unfold scaled in Hge. replace (ec + k) with (k + ec) by lia. lia. }
  subst r. unfold new_location. by destruct (Z.even (Zpos mc)).
Qed.
