(* ===== verification/Router.v ===== *)
(** * [src/routing/router.rs]: forwarding decisions

    The order in which a [HashMap] is iterated is a parameter of each call
    ([HashIter]); [now k] is what the clock reads in the [k]-th iteration of a
    loop. This is the release build, where the trackers assert nothing. *)
From S2P Require Import Prelude Io Types Vlq Frame Handshake Messages Peer PeerTable InvTable Tracker Latency.

Inductive Action := Send (target : PeerId) (message : ProtocolMessage).

Definition action_target (a : Action) : PeerId := let 'Send target _ := a in target.

Record PeerEntry := mkPeerEntry { entry_direction : Direction; entry_mode : ProxyMode }.

#[global] Instance PeerEntry_eq_dec : EqDecision PeerEntry.
Proof. solve_decision. Defined.

Module Router.

Record t := mk {
  peers : gmap PeerId PeerEntry;
  inv_table : InvTable.t;
  request_tracker : RequestTracker.t;
  sync_tracker : SyncTracker.t;
  latency_tracker : LatencyTracker.t
}.

Definition new : t :=
  mk ∅ InvTable.new RequestTracker.new SyncTracker.new LatencyTracker.new.

Definition register_peer (peer_id : PeerId) (direction : Direction) (mode : ProxyMode) (self : t) : t :=
  mk (<[peer_id := mkPeerEntry direction mode]> (peers self))
     (inv_table self) (request_tracker self) (sync_tracker self) (latency_tracker self).

(** [target_direction] of the Inv and Unknown branches. *)
Definition opposite (d : Direction) : Direction :=
  match d with Outbound => Inbound | Inbound => Outbound end.

(** The [for] loop of the ModifierRequest branch; it returns the actions
    pushed and the router after the loop. *)
Fixpoint route_request_ids (now : nat -> Z) (source : PeerId) (modifier_type : Z)
    (ids : list ModifierId) (self : t) : list Action * t :=
  match ids with
  | [] => ([], self)
  | id :: ids =>
      let next := route_request_ids (fun n => now (S n)) source modifier_type ids in
      match InvTable.lookup id (inv_table self) with
      | Some target =>
          if bool_decide (target <> source) then
            let self :=
              mk (peers self) (inv_table self)
                 (RequestTracker.record id source (request_tracker self))
                 (sync_tracker self)
                 (LatencyTracker.record_request (now 0%nat) id target (latency_tracker self)) in
            let '(actions, self) := next self in
            (Send target (ModifierRequest modifier_type [id]) :: actions, self)
          else next self
      | None => next self
      end
  end.

(** The [for] loop of the ModifierResponse branch. *)
Fixpoint route_response_items (now : nat -> Z) (modifier_type : Z)
    (modifiers : list (ModifierId * list Z)) (self : t) : list Action * t :=
  match modifiers with
  | [] => ([], self)
  | (id, data) :: modifiers =>
      let latency := (LatencyTracker.record_response (now 0%nat) id (latency_tracker self)).2 in
      let '(requester, requests) := RequestTracker.fulfill id (request_tracker self) in
      let self := mk (peers self) (inv_table self) requests (sync_tracker self) latency in
      let '(actions, self) := route_response_items (fun n => now (S n)) modifier_type modifiers self in
      match requester with
      | Some requester =>
          (Send requester (ModifierResponse modifier_type [(id, data)]) :: actions, self)
      | None => (actions, self)
      end
  end.

Section order.
Context `{!HashIter PeerId PeerEntry}.

(** The filtered iteration of the Inv and Unknown branches. *)
Definition forward_to_opposite (source : PeerId) (source_direction : Direction)
    (message : ProtocolMessage) (self : t) : list Action :=
  (fun kv => Send kv.1 message) <$>
    filter (fun kv => kv.1 <> source /\ entry_direction kv.2 = opposite source_direction)
      (hash_iter (peers self)).

(** The [find] of the SyncInfo branch. *)
Definition find_free_outbound (self : t) : option PeerId :=
  fst <$> List.find
    (fun kv => bool_decide (entry_direction kv.2 = Outbound) &&
               bool_decide (SyncTracker.inbound_for kv.1 (sync_tracker self) = None))
    (hash_iter (peers self)).

Definition route_message (now : nat -> Z) (source : PeerId) (message : ProtocolMessage) (self : t)
    : list Action * t :=
  match peers self !! source with
  | None => ([], self)
  | Some (mkPeerEntry source_direction source_mode) =>
      match message with
      | Inv modifier_type ids =>
          let self :=
            mk (peers self) (InvTable.record_all ids source (inv_table self))
               (request_tracker self) (sync_tracker self) (latency_tracker self) in
          (forward_to_opposite source source_direction (Inv modifier_type ids) self, self)
      | ModifierRequest modifier_type ids => route_request_ids now source modifier_type ids self
      | ModifierResponse modifier_type modifiers => route_response_items now modifier_type modifiers self
      | SyncInfo body =>
          match source_mode with
          | Light => ([], self)
          | Full =>
              match source_direction with
              | Inbound =>
                  match find_free_outbound self with
                  | Some outbound_id =>
                      ([Send outbound_id (SyncInfo body)],
                       mk (peers self) (inv_table self) (request_tracker self)
                          (SyncTracker.pair source outbound_id (sync_tracker self))
                          (latency_tracker self))
                  | None => ([], self)
                  end
              | Outbound =>
                  match SyncTracker.inbound_for source (sync_tracker self) with
                  | Some inbound => ([Send inbound (SyncInfo body)], self)
                  | None => ([], self)
                  end
              end
          end
      | GetPeers => ([Send source (Peers [])], self)
      | Peers _ => ([], self)
      | Unknown code body => (forward_to_opposite source source_direction (Unknown code body) self, self)
      end
  end.

Definition handle_event (now : nat -> Z) (event : ProtocolEvent) (self : t) : list Action * t :=
  match event with
  | PeerConnected _ _ _ => ([], self)
  | PeerDisconnected peer_id _ =>
      ([], mk (delete peer_id (peers self))
              (InvTable.purge_peer peer_id (inv_table self))
              (RequestTracker.purge_peer peer_id (request_tracker self))
              (SyncTracker.purge_peer peer_id (sync_tracker self))
              (LatencyTracker.purge_peer peer_id (latency_tracker self)))
  | Message peer_id message => route_message now peer_id message self
  end.

Definition peers_of_direction (d : Direction) (self : t) : list PeerId :=
  fst <$> filter (fun kv => entry_direction kv.2 = d) (hash_iter (peers self)).

Definition outbound_peers (self : t) : list PeerId := peers_of_direction Outbound self.
Definition inbound_peers (self : t) : list PeerId := peers_of_direction Inbound self.

End order.

Definition peer_count (self : t) : nat := size (peers self).

Definition latency_stats `{!HashIter PeerId PeerLatency} (self : t) : option LatencyStats :=
  LatencyTracker.stats (latency_tracker self).

End Router.

(** ** Registered peers, and runs of the router *)

Definition registered (r : Router.t) (p : PeerId) : Prop := is_Some (Router.peers r !! p).

(** A call on the shared router: [register_peer] from a connection task, or
    [handle_event] from the event loop, with any order and any clock. *)
Inductive router_step : Router.t -> option ProtocolEvent -> list Action -> Router.t -> Prop :=
  | step_register r p d m : router_step r None [] (Router.register_peer p d m r)
  | step_event (order : HashIter PeerId PeerEntry) (laws : HashIterLaws PeerId PeerEntry) now r e acts r' :
      Router.handle_event now e r = (acts, r') -> router_step r (Some e) acts r'.

Inductive router_reachable : Router.t -> Prop :=
  | reach_new : router_reachable Router.new
  | reach_step r e acts r' : router_reachable r -> router_step r e acts r' -> router_reachable r'.

(** A table of the router that refers to registered peers only. *)
Definition closed {T} `{PeerTable T} (r : Router.t) (tb : T) : Prop :=
  table_ok tb /\ forall p, mentions tb p -> registered r p.

(** The registry invariant. *)
Record registry_ok (r : Router.t) : Prop := {
  inv_closed : closed r (Router.inv_table r);
  requests_closed : closed r (Router.request_tracker r);
  sync_closed : closed r (Router.sync_tracker r);
  latency_closed : closed r (Router.latency_tracker r)
}.

(** *** Proved against the interface of the tables *)

Section interface.
Context {T : Type} `{PeerTableLaws T}.

Lemma closed_purge (r r' : Router.t) p (tb : T) :
  Router.peers r' = delete p (Router.peers r) -> closed r tb -> closed r' (purge p tb).
Proof.
  intros Hp [Hok Hm]. split; [by apply table_ok_purge|].
  intros q Hq. apply mentions_purge in Hq as [Hne Hq]; [|done].
  unfold registered. rewrite Hp, lookup_delete_ne by done. by apply Hm.
Qed.

(** A table that gains only mentions of registered peers stays closed. *)
Lemma closed_extend (r r' : Router.t) (tb tb' : T) :
  (forall p, registered r p -> registered r' p) -> closed r tb -> table_ok tb' ->
  (forall p, mentions tb' p -> mentions tb p \/ registered r p) -> closed r' tb'.
Proof. intros Hr [_ Hm] Hok Hm'. split; [done|]. intros p Hp. destruct (Hm' p Hp); auto. Qed.

Lemma closed_keep (r r' : Router.t) (tb : T) :
  (forall p, registered r p -> registered r' p) -> closed r tb -> closed r' tb.
Proof. intros Hr Hc. apply (closed_extend r r' tb tb Hr Hc); [apply Hc|tauto]. Qed.

End interface.

(** *** The loops *)

(** Whom a request for [id] goes to: its announcer, unless that is the source. *)
Definition announcer (source : PeerId) (tb : InvTable.t) (id : ModifierId) : option PeerId :=
  match InvTable.lookup id tb with
  | Some target => if decide (target = source) then None else Some target
  | None => None
  end.

(** The router after one request has been routed. *)
Definition routed (now : Z) (source : PeerId) (id : ModifierId) (target : PeerId) (r : Router.t) : Router.t :=
  Router.mk (Router.peers r) (Router.inv_table r)
    (RequestTracker.record id source (Router.request_tracker r)) (Router.sync_tracker r)
    (LatencyTracker.record_request now id target (Router.latency_tracker r)).

Lemma request_loop_cons now source ty id ids r :
  Router.route_request_ids now source ty (id :: ids) r =
  match announcer source (Router.inv_table r) id with
  | Some target =>
      let '(actions, r') := Router.route_request_ids (fun n => now (S n)) source ty ids
                              (routed (now 0%nat) source id target r) in
      (Send target (ModifierRequest ty [id]) :: actions, r')
  | None => Router.route_request_ids (fun n => now (S n)) source ty ids r
  end.
Proof.
  cbn. unfold announcer. destruct (InvTable.lookup id _) as [target|]; [|done].
  rewrite bool_decide_not. case_bool_decide; [by rewrite decide_True|by rewrite decide_False].
Qed.

(** The latency tracker after a request mentions its target besides. *)
Lemma latency_record_mentions now id target tb p :
  mentions (LatencyTracker.record_request now id target tb) p -> mentions tb p \/ p = target.
Proof.
  cbn. intros [(id' & x & Hx & <-)|Hx]; [|by left; right].
  apply lookup_insert_Some in Hx as [[_ <-]|[_ Hx]]; [by right|]. left. left. eauto.
Qed.

Lemma latency_response_mentions now id tb p :
  mentions (LatencyTracker.record_response now id tb).2 p -> mentions tb p.
Proof.
  unfold LatencyTracker.record_response. destruct (LatencyTracker.pending tb !! id) as [x|] eqn:Ex; [|done].
  cbn. intros [(id' & y & Hy & <-)|Hy].
  - apply lookup_delete_Some in Hy as [_ Hy]. left. eauto.
  - apply lookup_insert_is_Some in Hy as [<-|[_ Hy]]; [left|right]; eauto.
Qed.

Lemma request_loop source ty ids : forall now r acts r',
  Router.route_request_ids now source ty ids r = (acts, r') ->
  acts = omap (fun id => (fun q => Send q (ModifierRequest ty [id])) <$>
                          announcer source (Router.inv_table r) id) ids /\
  Router.peers r' = Router.peers r /\ Router.inv_table r' = Router.inv_table r /\
  Router.sync_tracker r' = Router.sync_tracker r.
Proof.
  induction ids as [|id ids IH]; intros now r acts r'; [intros [= <- <-]; done|].
  rewrite request_loop_cons. cbn [omap list_omap].
  destruct (announcer source (Router.inv_table r) id) as [target|] eqn:Ea; cbn; [|apply IH].
  destruct (Router.route_request_ids _ _ _ _ _) as [acts1 r1] eqn:E1. intros [= <- <-].
  destruct (IH _ _ _ _ E1) as (-> & Hp & Hi & Hs). by split_and!.
Qed.

(** The requests recorded, and the peers the latency tracker learns of. *)
Lemma request_loop_tables source ty ids : forall now r,
  let r' := (Router.route_request_ids now source ty ids r).2 in
  let goes id := is_Some (announcer source (Router.inv_table r) id) in
  (forall id, RequestTracker.lookup id (Router.request_tracker r')
     = if decide (id ∈ ids /\ goes id) then Some source
       else RequestTracker.lookup id (Router.request_tracker r)) /\
  (forall p, mentions (Router.latency_tracker r') p ->
     mentions (Router.latency_tracker r) p \/ exists id, announcer source (Router.inv_table r) id = Some p).
Proof.
  induction ids as [|id ids IH]; intros now r r' goes; subst r' goes.
  { split; [|by left]. intros id. by rewrite decide_False by (intros [[]%not_elem_of_nil _]). }
  rewrite request_loop_cons.
  destruct (announcer source (Router.inv_table r) id) as [target|] eqn:Ea.
  - destruct (Router.route_request_ids _ _ _ _ _) as [acts1 r1] eqn:E1. cbn [snd].
    destruct (IH (fun n => now (S n)) (routed (now 0%nat) source id target r)) as [IHr IHl].
    rewrite E1 in IHr, IHl. cbn [snd routed Router.inv_table Router.request_tracker Router.latency_tracker] in *.
    split.
    + intros id'. rewrite IHr, RequestTracker.request_lookup_record. destruct (decide (id = id')) as [<-|Hne].
      * rewrite (decide_True (P := id ∈ id :: ids /\ _)) by (rewrite Ea; split; [left|done]).
        by case_decide.
      * apply if_decide_ext. rewrite elem_of_cons. intuition congruence.
    + intros p Hp. destruct (IHl p Hp) as [Hm|Hm]; [|by right].
      apply latency_record_mentions in Hm as [Hm| ->]; [by left|right; eauto].
  - destruct (IH (fun n => now (S n)) r) as [IHr IHl]. split; [|done].
    intros id'. rewrite IHr. apply if_decide_ext. rewrite elem_of_cons.
    split; [tauto|]. intros [[->|Hid] Hg]; [|done]. rewrite Ea in Hg. by destruct Hg.
Qed.

(** The data of the first modifier of a response that carries [id]. *)
Fixpoint first_data (id : ModifierId) (ms : list (ModifierId * list Z)) : option (list Z) :=
  match ms with
  | [] => None
  | (id', data) :: ms => if decide (id' = id) then Some data else first_data id ms
  end.

Lemma first_data_elem id ms data : first_data id ms = Some data -> id ∈ ms.*1.
Proof.
  induction ms as [|[id' d] ms IH]; cbn; [done|]. case_decide; [subst; left|right; auto].
Qed.

(** The modifier identifier an action is about, for the actions on one. *)
Definition action_modifier (a : Action) : option ModifierId :=
  match a with
  | Send _ (ModifierRequest _ [id]) => Some id
  | Send _ (ModifierResponse _ [(id, _)]) => Some id
  | _ => None
  end.

(** The router after one modifier of a response has been handled. *)
Definition answered (now : Z) (id : ModifierId) (r : Router.t) : Router.t :=
  Router.mk (Router.peers r) (Router.inv_table r)
    (RequestTracker.fulfill id (Router.request_tracker r)).2 (Router.sync_tracker r)
    (LatencyTracker.record_response now id (Router.latency_tracker r)).2.

Lemma response_loop_cons now ty id data ms r :
  Router.route_response_items now ty ((id, data) :: ms) r =
  let '(acts, r') := Router.route_response_items (fun n => now (S n)) ty ms (answered (now 0%nat) id r) in
  (match RequestTracker.lookup id (Router.request_tracker r) with
   | Some q => Send q (ModifierResponse ty [(id, data)]) :: acts
   | None => acts
   end, r').
Proof.
  cbn. unfold answered, RequestTracker.lookup, RequestTracker.fulfill. cbn.
  destruct (Router.route_response_items _ _ _ _). by destruct (_ !! id).
Qed.

Lemma response_loop ty ms : forall now r acts r',
  Router.route_response_items now ty ms r = (acts, r') ->
  (forall a, a ∈ acts -> exists q id data, a = Send q (ModifierResponse ty [(id, data)]) /\
     (id, data) ∈ ms /\ RequestTracker.lookup id (Router.request_tracker r) = Some q) /\
  Router.peers r' = Router.peers r /\ Router.inv_table r' = Router.inv_table r /\
  Router.sync_tracker r' = Router.sync_tracker r /\
  (forall id, RequestTracker.lookup id (Router.request_tracker r')
     = if decide (id ∈ ms.*1) then None else RequestTracker.lookup id (Router.request_tracker r)) /\
  (forall p, mentions (Router.latency_tracker r') p -> mentions (Router.latency_tracker r) p).
Proof.
  induction ms as [|[id data] ms IH]; intros now r acts r'.
  { intros [= <- <-]. split; [by intros a []%not_elem_of_nil|]. split_and!; try done. }
  rewrite response_loop_cons.
  destruct (Router.route_response_items _ _ _ _) as [acts1 r1] eqn:E1. intros [= <- <-].
  destruct (IH _ _ _ _ E1) as (Ha & Hp & Hi & Hs & Hr & Hl). split_and!; try done.
  - intros a Hin.
    assert (Hin' : a ∈ acts1 \/ exists q, RequestTracker.lookup id (Router.request_tracker r) = Some q /\
      a = Send q (ModifierResponse ty [(id, data)])).
    { destruct (RequestTracker.lookup id _) as [q|]; [|by left].
      apply elem_of_cons in Hin as [->|Hin]; [right; eauto|by left]. }
    destruct Hin' as [Hin'|(q & Hq & ->)].
    + destruct (Ha a Hin') as (q & id' & data' & -> & Hms & Hq). cbn [answered Router.request_tracker] in Hq.
      rewrite RequestTracker.lookup_fulfill in Hq. case_decide; [done|].
      exists q, id', data'. split_and!; try done. by right.
    + exists q, id, data. split_and!; try done. left.
  - intros id'. rewrite Hr. cbn [answered Router.request_tracker]. rewrite RequestTracker.lookup_fulfill.
    rewrite fmap_cons. cbn [fst]. destruct (decide (id = id')) as [<-|Hne].
    + rewrite (decide_True (P := id ∈ id :: ms.*1)) by left. by case_decide.
    + apply if_decide_ext. rewrite elem_of_cons. intuition congruence.
  - intros p Hp'. apply latency_response_mentions with (now 0%nat) id. by apply Hl.
Qed.

(** A response delivers each identifier at most once, to its requester. *)
Lemma response_loop_once ty ms id : forall now r,
  filter (fun a => action_modifier a = Some id) (Router.route_response_items now ty ms r).1
  = match RequestTracker.lookup id (Router.request_tracker r), first_data id ms with
    | Some q, Some data => [Send q (ModifierResponse ty [(id, data)])]
    | _, _ => []
    end.
Proof.
  induction ms as [|[id' data] ms IH]; intros now r; [by destruct (RequestTracker.lookup _ _)|].
  rewrite response_loop_cons. cbn [first_data].
  specialize (IH (fun n => now (S n)) (answered (now 0%nat) id' r)).
  cbn [answered Router.request_tracker] in IH. rewrite RequestTracker.lookup_fulfill in IH.
  destruct (Router.route_response_items _ _ _ _) as [acts1 r1]. cbn [fst] in *.
  destruct (decide (id' = id)) as [->|Hne].
  - destruct (RequestTracker.lookup id _) as [q|]; [|done]. by rewrite filter_cons_True, IH.
  - rewrite <- IH. destruct (RequestTracker.lookup id' _) as [q|]; [|done].
    by rewrite filter_cons_False by (cbn; congruence).
Qed.

(** *** Fan-out and the free outbound peer, in any order *)

Section order_lemmas.
Context `{!HashIter PeerId PeerEntry} `{!HashIterLaws PeerId PeerEntry}.

Lemma elem_of_forward source d msg r a : a ∈ Router.forward_to_opposite source d msg r <->
  exists q e, a = Send q msg /\ Router.peers r !! q = Some e /\ q <> source /\
    entry_direction e = Router.opposite d.
Proof.
  unfold Router.forward_to_opposite. rewrite list_elem_of_fmap. split.
  - intros ([q e] & -> & Hin). apply list_elem_of_filter in Hin as [[? ?] Hin%elem_of_iter]. naive_solver.
  - intros (q & e & -> & He & Hq & Hd). exists (q, e). split; [done|].
    apply list_elem_of_filter. by rewrite elem_of_iter.
Qed.

(** The targets of a fan-out are the peers of the other direction, each once. *)
Lemma forward_targets source d m msg r : Router.peers r !! source = Some (mkPeerEntry d m) ->
  action_target <$> Router.forward_to_opposite source d msg r ≡ₚ Router.peers_of_direction (Router.opposite d) r.
Proof.
  intros Hs. unfold Router.forward_to_opposite, Router.peers_of_direction. rewrite <- list_fmap_compose.
  assert (Heq : filter (fun kv => kv.1 <> source /\ entry_direction kv.2 = Router.opposite d) (hash_iter (Router.peers r))
    = filter (fun kv => entry_direction kv.2 = Router.opposite d) (hash_iter (Router.peers r))).
  { apply list_filter_ext_in. intros [q e] Hi%elem_of_iter. cbn. split; [tauto|].
    intros Hd. split; [intros ->|done]. rewrite Hs in Hi. simplify_eq. by destruct d. }
  by rewrite Heq.
Qed.

Lemma NoDup_peers_of_direction d r : NoDup (Router.peers_of_direction d r).
Proof.
  unfold Router.peers_of_direction.
  rewrite (fmap_Permutation fst _ _ (iter_filter (fun kv => entry_direction kv.2 = d) (Router.peers r))).
  apply NoDup_fst_map_to_list.
Qed.

Lemma elem_of_peers_of_direction d r q : q ∈ Router.peers_of_direction d r <->
  exists e, Router.peers r !! q = Some e /\ entry_direction e = d.
Proof.
  unfold Router.peers_of_direction. rewrite list_elem_of_fmap. split.
  - intros ([q' e] & -> & Hin). apply list_elem_of_filter in Hin as [? Hin%elem_of_iter]. eauto.
  - intros (e & He & Hd). exists (q, e). split; [done|]. apply list_elem_of_filter. by rewrite elem_of_iter.
Qed.

Definition free_outbound (r : Router.t) (o : PeerId) : Prop :=
  (exists m, Router.peers r !! o = Some (mkPeerEntry Outbound m)) /\
  SyncTracker.inbound_for o (Router.sync_tracker r) = None.

Lemma find_free_outbound_spec r :
  match Router.find_free_outbound r with
  | Some o => free_outbound r o
  | None => forall o, ~ free_outbound r o
  end.
Proof.
  unfold Router.find_free_outbound, free_outbound. destruct (List.find _ _) as [[o [d m]]|] eqn:E; cbn.
  - apply find_some in E as [Hin Hb]. apply list_elem_of_In, elem_of_iter in Hin. cbn in Hb.
    apply andb_true_iff in Hb as [Hd%bool_decide_eq_true Hn%bool_decide_eq_true]. subst. eauto.
  - intros o [[m Ho] Hn]. eapply find_none in E; [|apply list_elem_of_In, elem_of_iter, Ho].
    cbn [fst snd entry_direction] in E. by rewrite Hn in E.
Qed.

End order_lemmas.

(** *** The registry invariant, operation by operation *)

(** No message changes the registry. *)
Lemma route_message_peers `{!HashIter PeerId PeerEntry} now source msg r acts r' :
  Router.route_message now source msg r = (acts, r') -> Router.peers r' = Router.peers r.
Proof.
  unfold Router.route_message. destruct (_ !! source) as [[d m]|] eqn:Hs; [|intros [= <- <-]; done].
  destruct msg; try by intros [= <- <-].
  - intros E%request_loop. tauto.
  - intros E%response_loop. tauto.
  - destruct m; [|by intros [= <- <-]].
    destruct d; [destruct (SyncTracker.inbound_for _ _)|destruct (Router.find_free_outbound r)];
      by intros [= <- <-].
Qed.

Lemma registry_register p d m r : registry_ok r -> registry_ok (Router.register_peer p d m r).
Proof.
  assert (Hr : forall q, registered r q -> registered (Router.register_peer p d m r) q)
    by (intros q Hq; apply lookup_insert_is_Some'; by right).
  intros [Hi Hq Hs Hl]. split; eapply closed_keep; eauto.
Qed.

Lemma registry_disconnect p r r' :
  Router.peers r' = delete p (Router.peers r) ->
  Router.inv_table r' = purge p (Router.inv_table r) ->
  Router.request_tracker r' = purge p (Router.request_tracker r) ->
  Router.sync_tracker r' = purge p (Router.sync_tracker r) ->
  Router.latency_tracker r' = purge p (Router.latency_tracker r) ->
  registry_ok r -> registry_ok r'.
Proof.
  intros Hp Hi Hq Hs Hl [Ci Cq Cs Cl]. split.
  - rewrite Hi. by eapply closed_purge.
  - rewrite Hq. by eapply closed_purge.
  - rewrite Hs. by eapply closed_purge.
  - rewrite Hl. by eapply closed_purge.
Qed.

Lemma announcer_registered source r id q : registry_ok r ->
  announcer source (Router.inv_table r) id = Some q -> registered r q.
Proof.
  intros Hr Ha. apply (proj2 (inv_closed _ Hr)). unfold announcer in Ha.
  destruct (InvTable.lookup id _) as [t|] eqn:E; [|done]. case_decide; simplify_eq. by exists id.
Qed.

Lemma registry_requests now source ty ids r : registry_ok r -> registered r source ->
  registry_ok (Router.route_request_ids now source ty ids r).2.
Proof.
  intros Hr Hs. destruct (Router.route_request_ids now source ty ids r) as [acts r'] eqn:E. cbn.
  destruct (request_loop_tables source ty ids now r) as [Ht Hl]. rewrite E in Ht, Hl. cbn in Ht, Hl.
  apply request_loop in E as (_ & Hp & Hi & Hsy).
  assert (Hreg : forall p, registered r p -> registered r' p) by (unfold registered; by rewrite Hp).
  split.
  - rewrite Hi. eapply closed_keep; [done|apply Hr].
  - eapply closed_extend; [done|apply Hr|done|]. intros p [id Hid]. rewrite Ht in Hid.
    case_decide; simplify_eq; [by right|]. left. by exists id.
  - rewrite Hsy. eapply closed_keep; [done|apply Hr].
  - eapply closed_extend; [done|apply Hr|done|]. intros p Hp'. destruct (Hl p Hp') as [|[id Hid]]; [by left|].
    right. by eapply announcer_registered.
Qed.

Lemma registry_responses now ty ms r : registry_ok r ->
  registry_ok (Router.route_response_items now ty ms r).2.
Proof.
  intros Hr. destruct (Router.route_response_items now ty ms r) as [acts r'] eqn:E. cbn.
  apply response_loop in E as (_ & Hp & Hi & Hsy & Ht & Hl).
  assert (Hreg : forall p, registered r p -> registered r' p) by (unfold registered; by rewrite Hp).
  split.
  - rewrite Hi. eapply closed_keep; [done|apply Hr].
  - eapply closed_extend; [done|apply Hr|done|]. intros p [id Hid]. rewrite Ht in Hid.
    case_decide; [done|]. left. by exists id.
  - rewrite Hsy. eapply closed_keep; [done|apply Hr].
  - eapply closed_extend; [done|apply Hr|done|]. intros p Hp'. left. by apply Hl.
Qed.

Lemma registry_message `{!HashIter PeerId PeerEntry} `{!HashIterLaws PeerId PeerEntry} now source msg r :
  registry_ok r -> registry_ok (Router.route_message now source msg r).2.
Proof.
  intros Hr. unfold Router.route_message. destruct (_ !! source) as [[d m]|] eqn:Hs; [|done].
  assert (Hsrc : registered r source) by (unfold registered; by rewrite Hs).
  destruct msg as [|body|ty ids|ty ids|ty ms|body|code body]; try done.
  - destruct Hr as [Ci Cq Cs Cl]. split; try by eapply (closed_keep r).
    eapply (closed_extend r); [done|done|done|]. intros p [id Hid]. cbn in Hid.
    rewrite InvTable.lookup_record_all in Hid. case_decide; simplify_eq; [by right|]. left. by exists id.
  - by apply registry_requests.
  - by apply registry_responses.
  - destruct m; [|done]. destruct d; [by destruct (SyncTracker.inbound_for _ _)|].
    pose proof (find_free_outbound_spec r) as Hf. destruct (Router.find_free_outbound r) as [o|]; [|done].
    destruct Hf as [[mo Ho] Hfree]. destruct Hr as [Ci Cq Cs Cl]. split; try by eapply (closed_keep r).
    eapply (closed_extend r); [done|done|by apply SyncTracker.forward_pair, Hfree; apply Cs|].
    intros p Hp. apply pair_mentions in Hp as [Hp|[->| ->]]; [by left|by right|right]. by exists (mkPeerEntry Outbound mo).
Qed.

Lemma registry_step r e acts r' : router_step r e acts r' -> registry_ok r -> registry_ok r'.
Proof.
  intros [r0 p d m|order laws now r0 ev acts0 r0' E] Hr; [by apply registry_register|].
  destruct ev as [p s d|p reason|p msg]; cbn in E.
  - by simplify_eq.
  - simplify_eq. by eapply registry_disconnect.
  - pose proof (registry_message now p msg r0 Hr) as Hr'. by rewrite E in Hr'.
Qed.

Lemma registry_new : registry_ok Router.new.
Proof.
  split; (split; [apply SyncTracker.forward_new || done|]); intros p Hp; cbn in Hp;
    unfold InvTable.lookup, RequestTracker.lookup, SyncTracker.outbound_for, SyncTracker.inbound_for in Hp;
    cbn in Hp; setoid_rewrite lookup_empty in Hp; naive_solver.
Qed.

Lemma registry_reachable r : router_reachable r -> registry_ok r.
Proof. induction 1; [apply registry_new|by eapply registry_step]. Qed.

(** A pairing the outbound side still has and the inbound side no longer. *)
Definition stale_pairing (r : Router.t) (i o : PeerId) : Prop :=
  SyncTracker.inbound_for o (Router.sync_tracker r) = Some i /\
  SyncTracker.outbound_for i (Router.sync_tracker r) <> Some o.

(** Every action goes to a registered peer, but for a stale pairing. *)
Lemma message_targets `{!HashIter PeerId PeerEntry} `{!HashIterLaws PeerId PeerEntry} now source msg r acts r' :
  registry_ok r -> Router.route_message now source msg r = (acts, r') ->
  Forall (fun a => registered r (action_target a) \/
                   (exists body, msg = SyncInfo body) /\ stale_pairing r (action_target a) source) acts.
Proof.
  intros Hr. unfold Router.route_message. destruct (_ !! source) as [[d m]|] eqn:Hs.
  2: { intros [= <- <-]. constructor. }
  rewrite Forall_forall. destruct msg as [|body|ty ids|ty ids|ty ms|body|code body].
  - intros [= <- <-] a ->%list_elem_of_singleton. left. by exists (mkPeerEntry d m).
  - by intros [= <- <-] a []%not_elem_of_nil.
  - intros [= <- <-] a (q & e & -> & Hq & _)%elem_of_forward. left. by exists e.
  - intros (-> & _)%request_loop a (id & Hid & Ha)%list_elem_of_omap.
    destruct (announcer _ _ _) as [q|] eqn:Eq; cbn in Ha; simplify_eq. left. by eapply announcer_registered.
  - intros (Ha & _)%response_loop a Hin. left. destruct (Ha a Hin) as (q & id & data & -> & _ & Hq).
    apply (proj2 (requests_closed _ Hr)). by exists id.
  - destruct m; [|by intros [= <- <-] a []%not_elem_of_nil]. destruct d.
    + destruct (SyncTracker.inbound_for source _) as [i|] eqn:Ei; [|by intros [= <- <-] a []%not_elem_of_nil].
      intros [= <- <-] a ->%list_elem_of_singleton. cbn.
      destruct (decide (SyncTracker.outbound_for i (Router.sync_tracker r) = Some source)) as [E|E].
      * left. apply (proj2 (sync_closed _ Hr)). left. eauto.
      * right. split; [eauto|by split].
    + pose proof (find_free_outbound_spec r) as Hf.
      destruct (Router.find_free_outbound r) as [o|]; [|by intros [= <- <-] a []%not_elem_of_nil].
      intros [= <- <-] a ->%list_elem_of_singleton. left. destruct Hf as [[mo Ho] _].
      by exists (mkPeerEntry Outbound mo).
  - intros [= <- <-] a (q & e & -> & Hq & _)%elem_of_forward. left. by exists e.
Qed.

Lemma step_targets r e acts r' : router_step r e acts r' -> registry_ok r ->
  Forall (fun a => registered r' (action_target a) \/
    exists o body, e = Some (Message o (SyncInfo body)) /\ stale_pairing r (action_target a) o) acts.
Proof.
  intros [r0 p d m|order laws now r0 ev acts0 r0' E] Hr; [constructor|].
  destruct ev as [p s d|p reason|p msg]; cbn in E; simplify_eq; [constructor..|].
  pose proof (message_targets _ _ _ _ _ _ Hr E) as Ht. unfold registered in *.
  rewrite (route_message_peers _ _ _ _ _ _ E). eapply Forall_impl; [exact Ht|]. cbn.
  intros a [Ha|[[body ->] Ha]]; [by left|]. right. by exists p, body.
Qed.

(** *** Runs in which an inbound peer syncs once *)

(** The event is not a SyncInfo of an inbound peer that is already paired. *)
Definition syncs_once (r : Router.t) (e : option ProtocolEvent) : Prop :=
  forall i body m, e = Some (Message i (SyncInfo body)) ->
    Router.peers r !! i = Some (mkPeerEntry Inbound m) ->
    SyncTracker.outbound_for i (Router.sync_tracker r) = None.

Inductive once_reachable : Router.t -> Prop :=
  | once_new : once_reachable Router.new
  | once_step r e acts r' : once_reachable r -> syncs_once r e -> router_step r e acts r' -> once_reachable r'.

Lemma once_router_reachable r : once_reachable r -> router_reachable r.
Proof. induction 1; [constructor|by eapply reach_step]. Qed.

Lemma consistent_step r e acts r' : router_step r e acts r' -> syncs_once r e ->
  SyncTracker.consistent (Router.sync_tracker r) -> SyncTracker.consistent (Router.sync_tracker r').
Proof.
  intros [r0 p d m|order laws now r0 ev acts0 r0' E] Ho Hc; [done|].
  destruct ev as [p s d|p reason|p msg]; cbn in E.
  - by simplify_eq.
  - simplify_eq. by apply consistent_purge.
  - revert E. unfold Router.route_message. destruct (_ !! p) as [[d m]|] eqn:Hp; [|by intros [= <- <-]].
    destruct msg as [|body|ty ids|ty ids|ty ms|body|code body]; try by intros [= <- <-].
    + intros (_ & _ & _ & ->)%request_loop. done.
    + intros (_ & _ & _ & -> & _)%response_loop. done.
    + destruct m; [|by intros [= <- <-]].
      destruct d; [destruct (SyncTracker.inbound_for p _); by intros [= <- <-]|].
      pose proof (find_free_outbound_spec r0) as Hf.
      destruct (Router.find_free_outbound r0) as [o|]; [|by intros [= <- <-]].
      intros [= <- <-]. cbn. apply consistent_pair; [done|by eapply Ho|apply Hf].
Qed.

Lemma consistent_once r : once_reachable r -> SyncTracker.consistent (Router.sync_tracker r).
Proof.
  induction 1; [|by eapply consistent_step]. intros i o.
  unfold SyncTracker.outbound_for, SyncTracker.inbound_for. cbn. by rewrite !lookup_empty.
Qed.

(** *** A pending request, under any other traffic *)

(** The events that end or take over the pending request of [b] for [id]. *)
Definition disturbs (id : ModifierId) (b : PeerId) (e : ProtocolEvent) : Prop :=
  match e with
  | PeerDisconnected p _ => p = b
  | Message _ (ModifierRequest _ ids) => id ∈ ids
  | Message _ (ModifierResponse _ ms) => id ∈ ms.*1
  | _ => False
  end.

Lemma pending_step id b r e acts r' : router_step r e acts r' ->
  (forall ev, e = Some ev -> ~ disturbs id b ev) ->
  RequestTracker.lookup id (Router.request_tracker r) = Some b ->
  RequestTracker.lookup id (Router.request_tracker r') = Some b.
Proof.
  intros [r0 p d m|order laws now r0 ev acts0 r0' E] Hd Hl; [done|]. specialize (Hd ev eq_refl).
  destruct ev as [p s d|p reason|p msg]; cbn in E.
  - by simplify_eq.
  - simplify_eq. cbn. apply RequestTracker.request_lookup_purge. split; [done|]. cbn in Hd. congruence.
  - revert E. unfold Router.route_message. destruct (_ !! p) as [[d m]|] eqn:Hp; [|by intros [= <- <-]].
    destruct msg as [|body|ty ids|ty ids|ty ms|body|code body]; try by intros [= <- <-].
    + intros E. pose proof (request_loop_tables p ty ids now r0) as [Ht _]. rewrite E in Ht. cbn in Ht.
      rewrite Ht, decide_False; [done|]. intros [? _]. by apply Hd.
    + intros (_ & _ & _ & _ & Ht & _)%response_loop. by rewrite Ht, decide_False.
    + destruct m; [|by intros [= <- <-]].
      destruct d; [destruct (SyncTracker.inbound_for p _)|destruct (Router.find_free_outbound r0)];
        by intros [= <- <-].
Qed.

(** A run: calls in sequence, with the actions each returned. *)
Inductive router_run : Router.t -> list (option ProtocolEvent * list Action) -> Router.t -> Prop :=
  | run_nil r : router_run r [] r
  | run_cons r e acts r1 log r2 :
      router_step r e acts r1 -> router_run r1 log r2 -> router_run r ((e, acts) :: log) r2.

Lemma pending_run id b r log r' : router_run r log r' ->
  Forall (fun x => forall ev, x.1 = Some ev -> ~ disturbs id b ev) log ->
  RequestTracker.lookup id (Router.request_tracker r) = Some b ->
  RequestTracker.lookup id (Router.request_tracker r') = Some b.
Proof.
  induction 1 as [|r e acts r1 log r2 Hs Hr IH]; [done|]. intros Hl Hb.
  apply Forall_cons in Hl as [He Hl]. apply IH; [done|]. by eapply pending_step.
Qed.

Lemma registered_run p r log r' : router_run r log r' ->
  Forall (fun x => forall reason, x.1 <> Some (PeerDisconnected p reason)) log ->
  registered r p -> registered r' p.
Proof.
  induction 1 as [|r e acts r1 log r2 Hs Hr IH]; [done|]. intros Hl Hp.
  apply Forall_cons in Hl as [He Hl]. apply IH; [done|]. clear IH Hr Hl. unfold registered in *.
  destruct Hs as [r0 q d m|order laws now r0 ev acts0 r0' E]; [apply lookup_insert_is_Some'; by right|].
  destruct ev as [q s d|q reason|q msg]; cbn in E; simplify_eq; [done| |by rewrite (route_message_peers _ _ _ _ _ _ E)].
  cbn. rewrite lookup_delete_ne; [done|]. intros ->. by apply (He reason).
Qed.
