(* ===== verification/RouterSpec.v ===== *)
(** * What the router guarantees

    The properties of [src/routing/router.rs], over the definitions and lemmas
    of [Router]. *)
From S2P Require Import Prelude Io Types Vlq Frame Handshake Messages Peer PeerTable InvTable Tracker Latency Router.

(** ** The registry *)

(** C5: in every reachable state, whatever the order of calls, of iteration and
    the clock, the Inv table, the request tracker and the latency tracker name
    registered peers only, and so does every pairing of an inbound peer, which
    the outbound side knows too. *)
Theorem router_registry_invariant r : router_reachable r ->
  (forall id p, InvTable.lookup id (Router.inv_table r) = Some p -> registered r p) /\
  (forall id p, RequestTracker.lookup id (Router.request_tracker r) = Some p -> registered r p) /\
  (forall id x, LatencyTracker.pending (Router.latency_tracker r) !! id = Some x -> registered r (target_peer x)) /\
  (forall p l, LatencyTracker.peer_latency p (Router.latency_tracker r) = Some l -> registered r p) /\
  (forall i o, SyncTracker.outbound_for i (Router.sync_tracker r) = Some o ->
     registered r i /\ registered r o /\ SyncTracker.inbound_for o (Router.sync_tracker r) = Some i).
Proof.
  intros [[_ Hi] [_ Hq] [Hf Hs] [_ Hl]]%registry_reachable. split_and!.
  - intros id p E. apply Hi. by exists id.
  - intros id p E. apply Hq. by exists id.
  - intros id x E. apply Hl. left. eauto.
  - intros p l (x & Hx & _)%fmap_Some_1. apply Hl. right. eauto.
  - intros i o E. split_and!; [apply Hs; left; eauto|apply Hs; right; left; eauto|by apply Hf].
Qed.

(** Two outbound peers, one inbound peer, all full. *)
Definition three_peers : Router.t :=
  Router.register_peer (mkPeerId 3) Inbound Full
    (Router.register_peer (mkPeerId 2) Outbound Full
      (Router.register_peer (mkPeerId 1) Outbound Full Router.new)).

(** One event, iterating in the order of the list representation. *)
Definition event_run (now : nat -> Z) (e : ProtocolEvent) (r : Router.t) : list Action * Router.t :=
  Router.handle_event (HashIter0 := list_order) now e r.

Lemma event_run_step now e r : router_step r (Some e) (event_run now e r).1 (event_run now e r).2.
Proof. apply (step_event list_order list_order_laws now). apply surjective_pairing. Qed.

Lemma reach_event now e r : router_reachable r -> router_reachable (event_run now e r).2.
Proof. intros Hr. eapply reach_step; [done|apply event_run_step]. Qed.

Lemma reach_three_peers : router_reachable three_peers.
Proof. do 3 (eapply reach_step; [|apply step_register]). constructor. Qed.

Definition tick : nat -> Z := fun n => Z.of_nat n * 1000000.

Definition announced : Router.t :=
  (event_run tick (Message (mkPeerId 1) (Inv 101 [[7]])) three_peers).2.

Lemma router_registry_invariant_witness :
  InvTable.lookup [7] (Router.inv_table announced) = Some (mkPeerId 1) /\
  registered announced (mkPeerId 1).
Proof.
  assert (E : InvTable.lookup [7] (Router.inv_table announced) = Some (mkPeerId 1)) by (vm_compute; reflexivity).
  split; [exact E|].
  apply (proj1 (router_registry_invariant announced (reach_event _ _ _ reach_three_peers)) [7]). exact E.
Defined.

(** C6: in every reachable state, each action that an event produces targets a
    peer registered after the event, except a SyncInfo that follows a stale
    pairing of an outbound peer. *)
Theorem router_actions_registered r e acts r' : router_reachable r -> router_step r e acts r' ->
  Forall (fun a => registered r' (action_target a) \/
    exists o body, e = Some (Message o (SyncInfo body)) /\ stale_pairing r (action_target a) o) acts.
Proof.
  intros Hr Hs. by apply step_targets, registry_reachable.
Qed.

Lemma router_actions_registered_witness :
  Forall (fun a => registered announced (action_target a) \/
    exists o body, Some (Message (mkPeerId 1) (Inv 101 [[7]])) = Some (Message o (SyncInfo body)) /\
      stale_pairing three_peers (action_target a) o)
    [Send (mkPeerId 3) (Inv 101 [[7]])].
Proof.
  apply (router_actions_registered three_peers (Some (Message (mkPeerId 1) (Inv 101 [[7]])))
           [Send (mkPeerId 3) (Inv 101 [[7]])] announced reach_three_peers).
  exact (event_run_step tick (Message (mkPeerId 1) (Inv 101 [[7]])) three_peers).
Defined.

(** C12: as long as no inbound peer syncs again while it is paired, the pairings
    stay bidirectionally consistent and every action of every event targets a
    registered peer: the documented postcondition of [handle_event]. *)
Theorem router_postcondition_once r e acts r' : once_reachable r -> syncs_once r e -> router_step r e acts r' ->
  SyncTracker.consistent (Router.sync_tracker r') /\ Forall (fun a => registered r' (action_target a)) acts.
Proof.
  intros Ho He Hs. pose proof (consistent_once _ Ho) as Hc. split; [by eapply consistent_step|].
  pose proof (registry_reachable _ (once_router_reachable _ Ho)) as Hr.
  eapply Forall_impl; [by eapply step_targets|]. cbn.
  intros a [Ha|(o & body & -> & Hi & Hn)]; [done|]. by apply Hc in Hi.
Qed.

Lemma once_three_peers : once_reachable three_peers.
Proof.
  do 3 (eapply (once_step _ None); [|discriminate|apply step_register]). constructor.
Qed.

Lemma router_postcondition_once_witness :
  let e := Message (mkPeerId 3) (SyncInfo [9]) in
  let run := event_run tick e three_peers in
  SyncTracker.consistent (Router.sync_tracker run.2) /\
  Forall (fun a => registered run.2 (action_target a)) run.1.
Proof.
  intros e run. apply (router_postcondition_once three_peers (Some e) run.1 run.2 once_three_peers).
  - intros i body m [= <- _] _. vm_compute. reflexivity.
  - apply event_run_step.
Defined.

(** C13: an inbound peer that sends SyncInfo twice while two outbound peers are
    free, and then disconnects, leaves a pairing behind: the next SyncInfo of
    one of the outbound peers is addressed to a peer that is not registered.
    So the documented postcondition of [handle_event] fails in a reachable
    state. *)
Theorem router_sync_twice_stale : exists r o acts r', router_reachable r /\
  router_step r (Some (Message o (SyncInfo [9]))) acts r' /\
  exists q, acts = [Send q (SyncInfo [9])] /\ ~ registered r q /\ ~ registered r' q.
Proof.
  set (i := mkPeerId 3).
  set (r1 := (event_run tick (Message i (SyncInfo [9])) three_peers).2).
  set (r2 := (event_run tick (Message i (SyncInfo [9])) r1).2).
  set (r3 := (event_run tick (PeerDisconnected i []) r2).2).
  assert (Hr3 : router_reachable r3) by (do 3 apply reach_event; apply reach_three_peers).
  exists r3, (mkPeerId 2), [Send i (SyncInfo [9])], r3. split; [done|]. split.
  - exact (event_run_step tick (Message (mkPeerId 2) (SyncInfo [9])) r3).
  - exists i. split; [done|]. split; intros [x Hx]; vm_compute in Hx; discriminate Hx.
Qed.

(** ** Announcements and unknown messages *)

(** The messages a registered peer's fan-out applies to. *)
Definition fanned_out (msg : ProtocolMessage) : Prop :=
  match msg with Inv _ _ | Unknown _ _ => True | _ => False end.

(** C18: an Inv or an unknown message of a registered peer is forwarded,
    unchanged, to every registered peer of the other direction exactly once and
    to nobody else, in any order of iteration; an Inv makes its sender the
    announcer of its identifiers and changes nothing else, an unknown message
    changes nothing. *)
Theorem router_fan_out `{!HashIter PeerId PeerEntry} `{!HashIterLaws PeerId PeerEntry} now r p d m msg :
  Router.peers r !! p = Some (mkPeerEntry d m) -> fanned_out msg ->
  let '(acts, r') := Router.handle_event now (Message p msg) r in
  NoDup (action_target <$> acts) /\
  (forall q, q ∈ action_target <$> acts <->
     exists m', Router.peers r !! q = Some (mkPeerEntry (Router.opposite d) m')) /\
  Forall (fun a => a = Send (action_target a) msg) acts /\
  (forall id, InvTable.lookup id (Router.inv_table r') =
     match msg with
     | Inv _ ids => if decide (id ∈ ids) then Some p else InvTable.lookup id (Router.inv_table r)
     | _ => InvTable.lookup id (Router.inv_table r)
     end) /\
  Router.peers r' = Router.peers r /\ Router.request_tracker r' = Router.request_tracker r /\
  Router.sync_tracker r' = Router.sync_tracker r /\ Router.latency_tracker r' = Router.latency_tracker r.
Proof.
  intros Hp Hm.
  assert (Hfan : forall r0 msg0, Router.peers r0 = Router.peers r ->
    let acts := Router.forward_to_opposite p d msg0 r0 in
    NoDup (action_target <$> acts) /\
    (forall q, q ∈ action_target <$> acts <->
       exists m', Router.peers r !! q = Some (mkPeerEntry (Router.opposite d) m')) /\
    Forall (fun a => a = Send (action_target a) msg0) acts).
  { intros r0 msg0 Hr0 acts. subst acts. rewrite <- Hr0 in *. split_and!.
    - rewrite (forward_targets _ _ _ _ _ Hp). apply NoDup_peers_of_direction.
    - intros q. rewrite (forward_targets _ _ _ _ _ Hp), elem_of_peers_of_direction. split.
      + intros ([d' m'] & Hq & <-). by exists m'.
      + intros [m' Hq]. by eexists.
    - apply Forall_forall. intros a (q & e & -> & _)%elem_of_forward. done. }
  cbn. unfold Router.route_message. rewrite Hp. destruct msg as [|body|ty ids|ty ids|ty ms|body|code body]; try done.
  - destruct (Hfan (Router.mk (Router.peers r) (InvTable.record_all ids p (Router.inv_table r))
      (Router.request_tracker r) (Router.sync_tracker r) (Router.latency_tracker r)) (Inv ty ids) eq_refl)
      as (H1 & H2 & H3).
    split_and!; try done. intros id. apply InvTable.lookup_record_all.
  - destruct (Hfan r (Unknown code body) eq_refl) as (H1 & H2 & H3). by split_and!.
Qed.

Lemma router_fan_out_witness :
  mkPeerId 1 ∈ action_target <$> [Send (mkPeerId 2) (Unknown 99 [1]); Send (mkPeerId 1) (Unknown 99 [1])] <->
    exists m', Router.peers three_peers !! mkPeerId 1 = Some (mkPeerEntry Outbound m').
Proof.
  pose proof (router_fan_out (HashIter0 := list_order) (HashIterLaws0 := list_order_laws)
    tick three_peers (mkPeerId 3) Inbound Full (Unknown 99 [1]) eq_refl I) as Hf.
  exact (proj1 (proj2 Hf) (mkPeerId 1)).
Defined.

(** ** Requests and responses *)

(** The requests a peer's mode lets through: all of a full peer, those for
    transactions (modifier type 2) of a light one. The contract has light mode
    drop block-related requests; what the code does with those is
    [router_light_request_forwarded]. *)
Definition may_request (e : PeerEntry) (ty : Z) : Prop := entry_mode e = Full \/ ty = 2.

(** C19: a ModifierRequest of a registered peer, of full mode or for transactions,
    is split by identifier: each identifier with an announcer other than the requester goes to that
    announcer, in the order of the message and one per action, the others are
    dropped; the requester is recorded for exactly the identifiers forwarded,
    and neither the registry, the announcements nor the pairings change. *)
Theorem router_request_routing `{!HashIter PeerId PeerEntry} now r p e ty ids :
  Router.peers r !! p = Some e -> may_request e ty ->
  let '(acts, r') := Router.handle_event now (Message p (ModifierRequest ty ids)) r in
  acts = omap (fun id => (fun q => Send q (ModifierRequest ty [id])) <$>
                          announcer p (Router.inv_table r) id) ids /\
  (forall id, RequestTracker.lookup id (Router.request_tracker r')
     = if decide (id ∈ ids /\ is_Some (announcer p (Router.inv_table r) id)) then Some p
       else RequestTracker.lookup id (Router.request_tracker r)) /\
  Router.peers r' = Router.peers r /\ Router.inv_table r' = Router.inv_table r /\
  Router.sync_tracker r' = Router.sync_tracker r.
Proof.
  intros Hp _. cbn. unfold Router.route_message. rewrite Hp. destruct e as [d m].
  pose proof (request_loop_tables p ty ids now r) as [Ht _].
  destruct (Router.route_request_ids now p ty ids r) as [acts r'] eqn:E.
  apply request_loop in E as (-> & H1 & H2 & H3). by split_and!.
Qed.

Lemma router_request_routing_witness :
  [Send (mkPeerId 1) (ModifierRequest 101 [[7]])] =
  omap (fun id => (fun q => Send q (ModifierRequest 101 [id])) <$>
                    announcer (mkPeerId 3) (Router.inv_table announced) id) [[8]; [7]].
Proof.
  pose proof (router_request_routing (HashIter0 := list_order) tick announced (mkPeerId 3)
    (mkPeerEntry Inbound Full) 101 [[8]; [7]] eq_refl (or_introl eq_refl)) as Hf.
  exact (proj1 Hf).
Defined.

(** A light peer's request for a block header (modifier type 101) is forwarded
    like any other, although the contract says that light mode drops it. *)
Theorem router_light_request_forwarded : exists r r' p,
  router_reachable r /\ Router.peers r !! p = Some (mkPeerEntry Inbound Light) /\
  router_step r (Some (Message p (ModifierRequest 101 [[7]]))) [Send (mkPeerId 1) (ModifierRequest 101 [[7]])] r'.
Proof.
  set (r := Router.register_peer (mkPeerId 4) Inbound Light announced).
  exists r, (event_run tick (Message (mkPeerId 4) (ModifierRequest 101 [[7]])) r).2, (mkPeerId 4). split_and!.
  - eapply reach_step; [|apply step_register]. apply reach_event, reach_three_peers.
  - reflexivity.
  - exact (event_run_step tick (Message (mkPeerId 4) (ModifierRequest 101 [[7]])) r).
Qed.

(** C20: a ModifierResponse of a registered peer reaches exactly the recorded
    requesters: for each identifier there is one action if somebody has it
    pending and the response carries it, with the data of its first occurrence
    and addressed to the recorded requester, and none otherwise; afterwards no
    identifier of the response is pending and every other one is as before. *)
Theorem router_response_exactly_once `{!HashIter PeerId PeerEntry} now r p e ty ms :
  Router.peers r !! p = Some e ->
  let '(acts, r') := Router.handle_event now (Message p (ModifierResponse ty ms)) r in
  (forall id, filter (fun a => action_modifier a = Some id) acts =
     match RequestTracker.lookup id (Router.request_tracker r), first_data id ms with
     | Some q, Some data => [Send q (ModifierResponse ty [(id, data)])]
     | _, _ => []
     end) /\
  Forall (fun a => is_Some (action_modifier a)) acts /\
  (forall id, RequestTracker.lookup id (Router.request_tracker r')
     = if decide (id ∈ ms.*1) then None else RequestTracker.lookup id (Router.request_tracker r)) /\
  Router.peers r' = Router.peers r /\ Router.inv_table r' = Router.inv_table r /\
  Router.sync_tracker r' = Router.sync_tracker r.
Proof.
  intros Hp. cbn. unfold Router.route_message. rewrite Hp. destruct e as [d m].
  pose proof (fun id => response_loop_once ty ms id now r) as Ho.
  destruct (Router.route_response_items now ty ms r) as [acts r'] eqn:E.
  apply response_loop in E as (Ha & H1 & H2 & H3 & H4 & _). split_and!; try done.
  apply Forall_forall. intros a Hin. destruct (Ha a Hin) as (q & id & data & -> & _). done.
Qed.

Definition requested : Router.t :=
  (event_run tick (Message (mkPeerId 3) (ModifierRequest 101 [[7]])) announced).2.

Lemma router_response_exactly_once_witness :
  filter (fun a => action_modifier a = Some [7]) [Send (mkPeerId 3) (ModifierResponse 101 [([7], [1; 2])])]
  = [Send (mkPeerId 3) (ModifierResponse 101 [([7], [1; 2])])].
Proof.
  pose proof (router_response_exactly_once (HashIter0 := list_order) tick requested (mkPeerId 1)
    (mkPeerEntry Outbound Full) 101 [([7], [1; 2]); ([7], [3])] eq_refl) as Hf.
  exact (proj1 Hf [7]).
Defined.

(** C4: end to end: when [b], of full mode or for a transaction, requests an
    identifier that [a] announced, the request goes to [a]; whatever happens in between (other peers connecting,
    leaving, announcing, requesting, syncing), short of [b] leaving and of
    another request or response for that identifier, the response of [a] goes
    to [b] with its data, once, and the request is then settled. *)
Theorem router_relay `{!HashIter PeerId PeerEntry} `{!HashIterLaws PeerId PeerEntry}
    now now' r a b e id ids ty ty' ms data log r2 :
  Router.peers r !! b = Some e -> may_request e ty -> InvTable.lookup id (Router.inv_table r) = Some a -> a <> b -> id ∈ ids ->
  let '(acts1, r1) := Router.handle_event now (Message b (ModifierRequest ty ids)) r in
  Send a (ModifierRequest ty [id]) ∈ acts1 /\
  (registered r1 a -> router_run r1 log r2 ->
   Forall (fun x => forall ev, x.1 = Some ev -> ~ disturbs id b ev) log ->
   Forall (fun x => forall reason, x.1 <> Some (PeerDisconnected a reason)) log ->
   first_data id ms = Some data ->
   let '(acts2, r3) := Router.handle_event now' (Message a (ModifierResponse ty' ms)) r2 in
   filter (fun x => action_modifier x = Some id) acts2 = [Send b (ModifierResponse ty' [(id, data)])] /\
   RequestTracker.lookup id (Router.request_tracker r3) = None).
Proof.
  intros Hb _ Ha Hab Hid.
  assert (Han : announcer b (Router.inv_table r) id = Some a)
    by (unfold announcer; by rewrite Ha, decide_False).
  cbn. unfold Router.route_message at 1. rewrite Hb. destruct e as [d m].
  pose proof (request_loop_tables b ty ids now r) as [Ht _].
  destruct (Router.route_request_ids now b ty ids r) as [acts1 r1] eqn:E1.
  apply request_loop in E1 as (-> & _ & _ & _). split.
  { apply list_elem_of_omap. exists id. by rewrite Han. }
  intros Hra Hrun Hd Hl Hdata. cbn in Ht.
  assert (Hp1 : RequestTracker.lookup id (Router.request_tracker r1) = Some b)
    by (rewrite Ht, decide_True; [done|by rewrite Han]).
  pose proof (pending_run _ _ _ _ _ Hrun Hd Hp1) as Hp2.
  destruct (registered_run _ _ _ _ Hrun Hl Hra) as [[d2 m2] Ha2].
  unfold Router.route_message. rewrite Ha2.
  pose proof (response_loop_once ty' ms id now' r2) as Ho.
  destruct (Router.route_response_items now' ty' ms r2) as [acts2 r3] eqn:E2.
  apply response_loop in E2 as (_ & _ & _ & _ & Ht3 & _). cbn in Ho. rewrite Hp2, Hdata in Ho.
  split; [done|]. rewrite Ht3, decide_True; [done|]. by eapply first_data_elem.
Qed.

Definition other_traffic : ProtocolEvent := Message (mkPeerId 2) (Inv 101 [[7]]).
Definition meanwhile : list Action * Router.t := event_run tick other_traffic requested.

Lemma router_relay_witness :
  let '(acts2, r3) := event_run tick (Message (mkPeerId 1) (ModifierResponse 101 [([7], [1; 2])])) meanwhile.2 in
  filter (fun x => action_modifier x = Some [7]) acts2 = [Send (mkPeerId 3) (ModifierResponse 101 [([7], [1; 2])])] /\
  RequestTracker.lookup [7] (Router.request_tracker r3) = None.
Proof.
  pose proof (router_relay (HashIter0 := list_order) (HashIterLaws0 := list_order_laws) tick tick announced
    (mkPeerId 1) (mkPeerId 3) (mkPeerEntry Inbound Full) [7] [[7]] 101 101 [([7], [1; 2])] [1; 2]
    [(Some other_traffic, meanwhile.1)] meanwhile.2 eq_refl (or_introl eq_refl) eq_refl) as Hw.
  apply Hw; [discriminate|left|by eexists| | | |reflexivity].
  - econstructor; [apply event_run_step|constructor].
  - constructor; [|constructor]. intros ev [= <-] [].
  - constructor; [|constructor]. discriminate.
Defined.

(** ** What is not forwarded *)

(** Messages of peers that are not registered, Peers messages, and SyncInfo
    of a light peer produce no action and change nothing; GetPeers is answered
    to its sender only, with an empty Peers body. *)
Theorem router_not_forwarded `{!HashIter PeerId PeerEntry} now r p msg :
  (Router.peers r !! p = None -> Router.handle_event now (Message p msg) r = ([], r)) /\
  (forall e, Router.peers r !! p = Some e ->
   Router.handle_event now (Message p GetPeers) r = ([Send p (Peers [])], r) /\
   (forall body, Router.handle_event now (Message p (Peers body)) r = ([], r)) /\
   (forall body, entry_mode e = Light -> Router.handle_event now (Message p (SyncInfo body)) r = ([], r))).
Proof.
  cbn. unfold Router.route_message. split; [by intros ->|]. intros [d m] ->. split_and!; try done.
  intros body Hm. cbn in Hm. by rewrite Hm.
Qed.

Lemma router_not_forwarded_witness :
  event_run tick (Message (mkPeerId 9) (SyncInfo [1])) three_peers = ([], three_peers) /\
  event_run tick (Message (mkPeerId 3) GetPeers) three_peers = ([Send (mkPeerId 3) (Peers [])], three_peers).
Proof.
  split.
  - apply (router_not_forwarded (HashIter0 := list_order) tick three_peers (mkPeerId 9) (SyncInfo [1])). reflexivity.
  - apply (router_not_forwarded (HashIter0 := list_order) tick three_peers (mkPeerId 3) GetPeers)
      with (mkPeerEntry Inbound Full). reflexivity.
Defined.

(** ** Sync *)

(** C21: SyncInfo of a full inbound peer that is not paired goes to one outbound
    peer that serves no one, if there is one (any order of iteration); the two are
    then paired, in both directions, no other pairing changes, and from then on
    SyncInfo of that outbound peer comes back to the inbound peer; if no outbound
    peer is registered, nothing is sent and nothing changes. The
    outbound peers are full, as the outbound manager registers them. (What
    becomes of a peer that is already paired is [router_sync_twice_stale] and
    [router_sync_paired_dropped].) *)
Theorem router_sync_exchange `{!HashIter PeerId PeerEntry} `{!HashIterLaws PeerId PeerEntry} now now' r i body body' :
  Router.peers r !! i = Some (mkPeerEntry Inbound Full) -> SyncTracker.outbound_for i (Router.sync_tracker r) = None ->
  (forall o m, Router.peers r !! o = Some (mkPeerEntry Outbound m) -> m = Full) ->
  ((exists o, free_outbound r o) -> exists o r',
     Router.handle_event now (Message i (SyncInfo body)) r = ([Send o (SyncInfo body)], r') /\
     free_outbound r o /\ SyncTracker.outbound_for i (Router.sync_tracker r') = Some o /\
     SyncTracker.inbound_for o (Router.sync_tracker r') = Some i /\
     (forall i', i' <> i -> SyncTracker.outbound_for i' (Router.sync_tracker r') = SyncTracker.outbound_for i' (Router.sync_tracker r)) /\
     (forall o', o' <> o -> SyncTracker.inbound_for o' (Router.sync_tracker r') = SyncTracker.inbound_for o' (Router.sync_tracker r)) /\
     Router.handle_event now' (Message o (SyncInfo body')) r' = ([Send i (SyncInfo body')], r')) /\
  ((forall o m, Router.peers r !! o <> Some (mkPeerEntry Outbound m)) ->
     Router.handle_event now (Message i (SyncInfo body)) r = ([], r)).
Proof.
  intros Hi Hun Hfull. cbn. unfold Router.route_message at 1 3. rewrite Hi. cbv beta iota.
  pose proof (find_free_outbound_spec r) as Hf.
  destruct (Router.find_free_outbound r) as [o|]; [|split; [intros [o Ho]; by apply Hf in Ho|done]].
  split; [|intros Hn; destruct Hf as [[m Ho] _]; by apply Hn in Ho]. intros _.
  assert (Ho : Router.peers r !! o = Some (mkPeerEntry Outbound Full))
    by (destruct Hf as [[m Ho] _]; by rewrite <- (Hfull o m Ho)).
  eexists o, _. split; [done|]. split; [done|]. cbn. unfold SyncTracker.outbound_for, SyncTracker.inbound_for. cbn.
  split_and!; [apply lookup_insert_eq|apply lookup_insert_eq|intros i' Hne; by apply lookup_insert_ne|intros o' Hne; by apply lookup_insert_ne|].
  unfold Router.route_message. cbn. rewrite Ho. unfold SyncTracker.inbound_for. cbn.
  by rewrite lookup_insert_eq.
Qed.

Lemma all_full o m : Router.peers three_peers !! o = Some (mkPeerEntry Outbound m) -> m = Full.
Proof. unfold three_peers. cbn. rewrite !lookup_insert_Some, lookup_empty. naive_solver. Qed.

Lemma router_sync_exchange_witness :
  exists o r', event_run tick (Message (mkPeerId 3) (SyncInfo [9])) three_peers = ([Send o (SyncInfo [9])], r') /\
    free_outbound three_peers o /\ SyncTracker.outbound_for (mkPeerId 3) (Router.sync_tracker r') = Some o.
Proof.
  pose proof (router_sync_exchange (HashIter0 := list_order) (HashIterLaws0 := list_order_laws)
    tick tick three_peers (mkPeerId 3) [9] [8] eq_refl eq_refl all_full) as [Hs _].
  destruct Hs as (o & r' & H1 & H2 & H3 & _).
  - exists (mkPeerId 1). split; [exists Full; reflexivity|vm_compute; reflexivity].
  - exists o, r'. split; [exact H1|]. split; [exact H2|exact H3].
Defined.

(** A full inbound peer that is paired and syncs again while no outbound peer is
    free is not served along its pairing: the message is dropped. *)
Theorem router_sync_paired_dropped : exists r i o,
  router_reachable r /\ Router.peers r !! i = Some (mkPeerEntry Inbound Full) /\
  SyncTracker.outbound_for i (Router.sync_tracker r) = Some o /\ registered r o /\
  router_step r (Some (Message i (SyncInfo [9]))) [] r.
Proof.
  set (r0 := Router.register_peer (mkPeerId 3) Inbound Full (Router.register_peer (mkPeerId 1) Outbound Full Router.new)).
  set (r := (event_run tick (Message (mkPeerId 3) (SyncInfo [9])) r0).2).
  exists r, (mkPeerId 3), (mkPeerId 1). split_and!.
  - apply reach_event. do 2 (eapply reach_step; [|apply step_register]). constructor.
  - vm_compute. reflexivity.
  - vm_compute. reflexivity.
  - eexists. vm_compute. reflexivity.
  - exact (event_run_step tick (Message (mkPeerId 3) (SyncInfo [9])) r).
Qed.

(** ** Disconnection *)

(** C22: after a peer's disconnection, in a state reached without an inbound peer
    syncing again while paired, the peer is not registered and nothing in any table
    names it: no announcement, pending request, timing, average, nor a pairing on
    either side of either map. Of the others nothing is lost: registrations,
    averages, announcements, the timings of requests to them, the pairings between
    two of them, and their pending requests that were not sent to the peer that
    has gone. *)
Theorem router_disconnect_forgets `{!HashIter PeerId PeerEntry} now r p reason :
  once_reachable r ->
  let '(acts, r') := Router.handle_event now (PeerDisconnected p reason) r in
  acts = [] /\ ~ registered r' p /\ ~ mentions (Router.inv_table r') p /\
  ~ mentions (Router.request_tracker r') p /\ ~ SyncTracker.names (Router.sync_tracker r') p /\
  ~ mentions (Router.latency_tracker r') p /\
  (forall q, q <> p ->
     Router.peers r' !! q = Router.peers r !! q /\
     LatencyTracker.peer_latency q (Router.latency_tracker r') = LatencyTracker.peer_latency q (Router.latency_tracker r) /\
     (forall id, InvTable.lookup id (Router.inv_table r') = Some q <->
                 InvTable.lookup id (Router.inv_table r) = Some q) /\
     (forall id x, target_peer x = q -> LatencyTracker.pending (Router.latency_tracker r') !! id = Some x <->
                   LatencyTracker.pending (Router.latency_tracker r) !! id = Some x) /\
     (forall q', q' <> p -> SyncTracker.outbound_for q (Router.sync_tracker r') = Some q' <->
                            SyncTracker.outbound_for q (Router.sync_tracker r) = Some q') /\
     (forall q', q' <> p -> SyncTracker.inbound_for q (Router.sync_tracker r') = Some q' <->
                            SyncTracker.inbound_for q (Router.sync_tracker r) = Some q') /\
     (forall id, (forall x, LatencyTracker.pending (Router.latency_tracker r) !! id = Some x -> target_peer x <> p) ->
                 RequestTracker.lookup id (Router.request_tracker r') = Some q <->
                 RequestTracker.lookup id (Router.request_tracker r) = Some q)).
Proof.
  intros Ho. pose proof (consistent_once _ Ho) as Hc. pose proof (consistent_purge p _ Hc) as Hc'.
  destruct (registry_reachable _ (once_router_reachable _ Ho)) as [[Oi _] [Oq _] _ [Ol _]].
  cbn [Router.handle_event]. split_and!.
  - done.
  - intros [x Hx]. cbn in Hx. by rewrite lookup_delete_eq in Hx.
  - exact (purge_forgets p (Router.inv_table r) Oi).
  - exact (purge_forgets p (Router.request_tracker r) Oq).
  - exact (consistent_purge_names p _ Hc).
  - exact (purge_forgets p (Router.latency_tracker r) Ol).
  - intros q Hq. unfold LatencyTracker.peer_latency.
    cbn [Router.peers Router.latency_tracker Router.inv_table Router.request_tracker Router.sync_tracker].
    rewrite LatencyTracker.purge_peers, decide_False by done. rewrite lookup_delete_ne by done.
    split_and!; try done; [intros id; rewrite InvTable.lookup_purge; tauto|intros id x <-; rewrite LatencyTracker.purge_pending; tauto|..].
    + intros q' Hq'. rewrite consistent_purge_outbound_for by done. tauto.
    + intros q' Hq'. rewrite <- (Hc' q' q), <- (Hc q' q), consistent_purge_outbound_for by done. tauto.
    + intros id _. rewrite RequestTracker.request_lookup_purge. tauto.
Qed.

Lemma router_disconnect_forgets_witness :
  let paired := (event_run tick (Message (mkPeerId 3) (SyncInfo [9])) three_peers).2 in
  let r' := (event_run tick (PeerDisconnected (mkPeerId 3) []) paired).2 in
  SyncTracker.names (Router.sync_tracker paired) (mkPeerId 3) /\
  ~ registered r' (mkPeerId 3) /\ ~ SyncTracker.names (Router.sync_tracker r') (mkPeerId 3).
Proof.
  intros paired r'. split; [left; eexists; vm_compute; reflexivity|].
  assert (Ho : once_reachable paired).
  { refine (once_step three_peers (Some (Message (mkPeerId 3) (SyncInfo [9]))) _ _ once_three_peers _ (event_run_step tick _ _)).
    intros i body m [= <- _] _. vm_compute. reflexivity. }
  pose proof (router_disconnect_forgets (HashIter0 := list_order) tick paired (mkPeerId 3) [] Ho) as (_ & H1 & _ & _ & H2 & _).
  split; [exact H1|exact H2].
Defined.

(** A request that was forwarded to the peer that leaves stays pending: the
    design document would purge the pending requests to a peer with it. *)
Theorem router_requests_to_gone_kept : exists r r',
  router_reachable r /\ router_step r (Some (PeerDisconnected (mkPeerId 1) [])) [] r' /\
  (exists x, LatencyTracker.pending (Router.latency_tracker r) !! [7] = Some x /\ target_peer x = mkPeerId 1) /\
  RequestTracker.lookup [7] (Router.request_tracker r') = Some (mkPeerId 3).
Proof.
  exists requested, (event_run tick (PeerDisconnected (mkPeerId 1) []) requested).2. split_and!.
  - do 2 apply reach_event. apply reach_three_peers.
  - exact (event_run_step tick (PeerDisconnected (mkPeerId 1) []) requested).
  - eexists. split; vm_compute; reflexivity.
  - vm_compute. reflexivity.
Qed.
