(* ===== verification/LatencyBounds.v ===== *)
(** * The numbers of the latency tracker

    In every state the router reaches while the clock stays in the range of
    [std::time::Duration], the averages are finite non-negative numbers, so the
    statistics and the choice of the fastest peer are right with no assumption
    on the floats. *)
From S2P Require Import Prelude Io Types Vlq Frame Handshake Messages Peer PeerTable InvTable Tracker Latency Float Router RouterSpec.
From Stdlib Require Import SpecFloat.

(** A clock reads less than [2^64] seconds, in nanoseconds. *)
Definition CLOCK_END : Z := 2 ^ 64 * 1000000000.

Definition clock_ok (now : nat -> Z) : Prop := forall k, 0 <= now k < CLOCK_END.

(** ** One round trip *)

#[local] Opaque Z.pow.

Lemma f_mul_comm x y : f_mul x y = f_mul y x.
Proof.
  unfold f_mul. destruct x as [sx|sx| |sx mx ex], y as [sy|sy| |sy my ey]; cbn [SFmul]; try done; try by rewrite xorb_comm.
  by rewrite xorb_comm, Pos.mul_comm, Z.add_comm.
Qed.

Lemma scaled_nonneg m e : 0 <= m -> 0 <= scaled m e.
Proof. intros Hm. unfold scaled. apply Z.mul_nonneg_nonneg; [done|]. apply Z.pow_nonneg. lia. Qed.

#[local] Transparent Z.pow.

Definition BILLION : positive := 8388608000000000.
Definition THOUSAND : positive := 8796093022208000.
Definition ALPHA' : positive := 6305039478318694.

Lemma constants : f_of_Z 1000000000 = S754_finite false BILLION (-23) /\ f_of_Z 1000 = S754_finite false THOUSAND (-43) /\
  f_sub (f_of_Z 1) EMA_ALPHA = S754_finite false ALPHA' (-53).
Proof. split_and!; vm_compute; reflexivity. Qed.

(** A round trip of less than [2^64] seconds is at most [2^75] milliseconds. *)
Lemma rtt_upto s n : 0 <= s < CLOCK_END -> 0 <= n < CLOCK_END -> f_upto 1 75 (LatencyTracker.rtt_ms s n).
Proof.
  intros Hs Hn. unfold CLOCK_END in *. unfold LatencyTracker.rtt_ms, as_secs_f64.
  assert (Hd : 0 <= elapsed s n < 2 ^ 64 * 1000000000) by (unfold elapsed; lia).
  generalize dependent (elapsed s n). intros d Hd. destruct constants as (-> & -> & _).
  assert (Hsecs : f_upto 1 64 (f_of_Z (d / 1000000000))).
  { apply f_of_Z_upto; [|lia]. split; [apply Z.div_pos; lia|]. apply Z.lt_le_incl, Z.div_lt_upper_bound; lia. }
  assert (Hnanos : f_upto 1 30 (f_of_Z (d mod 1000000000))).
  { apply f_of_Z_upto; [|lia]. pose proof (Z.mod_pos_bound d 1000000000 ltac:(lia)). lia. }
  assert (Hfrac : f_upto 1 1 (f_div (f_of_Z (d mod 1000000000)) (S754_finite false BILLION (-23)))).
  { apply (f_div_upto 1 30 BILLION (-23) 1); [exact Hnanos|reflexivity|lia|lia|by_decide|lia|by_decide|cbn; lia|by_decide]. }
  assert (Hsum : f_upto 1 65 (f_add (f_of_Z (d / 1000000000)) (f_div (f_of_Z (d mod 1000000000)) (S754_finite false BILLION (-23)))))
    by (apply (f_add_upto 1 64 1 1); [exact Hsecs|exact Hfrac|by_decide..]).
  rewrite f_mul_comm. eapply f_upto_weaken.
  - apply (f_mul_upto THOUSAND (-43) 1 65); [exact Hsum|lia|by_decide|lia].
  - by_decide.
Qed.

(** The moving average of numbers up to [2^75] is one. *)
Lemma ema_upto r a : f_upto 1 75 r -> f_upto 1 75 a ->
  f_upto 1 75 (f_add (f_mul EMA_ALPHA r) (f_mul (f_sub (f_of_Z 1) EMA_ALPHA) a)).
Proof.
  intros Hr Ha. destruct constants as (_ & _ & ->). unfold EMA_ALPHA.
  assert (H1 : f_upto 5404319552844595 21 (f_mul (S754_finite false 5404319552844595 (-54)) r))
    by (apply (f_mul_upto 5404319552844595 (-54) 1 75); [exact Hr|lia|by_decide|lia]).
  assert (H2 : f_upto (Zpos ALPHA') 22 (f_mul (S754_finite false ALPHA' (-53)) a))
    by (apply (f_mul_upto ALPHA' (-53) 1 75); [exact Ha|lia|by_decide|lia]).
  apply (f_add_upto _ _ _ _ 1 75 _ _ H1 H2); by_decide.
Qed.

(** ** The tracker *)

Record latency_ok (tb : LatencyTracker.t) : Prop := {
  lo_pending : forall id x, LatencyTracker.pending tb !! id = Some x -> 0 <= sent_at x < CLOCK_END;
  lo_peers : forall p l, LatencyTracker.peers tb !! p = Some l -> f_upto 1 75 (ema_ms l)
}.

Lemma latency_ok_request now id p tb : 0 <= now < CLOCK_END -> latency_ok tb ->
  latency_ok (LatencyTracker.record_request now id p tb).
Proof.
  intros Hn [Hp Hl]. split; [|done]. cbn. intros id' x [[_ <-]|[_ Hx]]%lookup_insert_Some; [done|eauto].
Qed.

Lemma latency_ok_response now id tb : 0 <= now < CLOCK_END -> latency_ok tb ->
  latency_ok (LatencyTracker.record_response now id tb).2.
Proof.
  intros Hn [Hp Hl]. unfold LatencyTracker.record_response.
  destruct (LatencyTracker.pending tb !! id) as [x|] eqn:Ex; [|by split]. pose proof (rtt_upto _ now (Hp _ _ Ex) Hn) as Hr.
  split; cbn [snd LatencyTracker.pending LatencyTracker.peers].
  - intros id' y [_ Hy]%lookup_delete_Some. eauto.
  - intros q l [[_ <-]|[_ Hq]]%lookup_insert_Some; [|eauto]. cbn [ema_ms].
    destruct (LatencyTracker.peers tb !! target_peer x) as [l|] eqn:El; cbn [from_option Datatypes.id sample_count ema_ms];
      [|exact Hr]. destruct (sample_count l =? 0); [exact Hr|]. apply ema_upto; [done|eauto].
Qed.

Lemma latency_ok_purge p tb : latency_ok tb -> latency_ok (LatencyTracker.purge_peer p tb).
Proof.
  intros [Hp Hl]. split.
  - intros id x [Hx _]%LatencyTracker.purge_pending. eauto.
  - intros q l. rewrite LatencyTracker.purge_peers. case_decide; [done|eauto].
Qed.

(** ** The router, with a clock in range *)

Inductive timed_reachable : Router.t -> Prop :=
  | timed_new : timed_reachable Router.new
  | timed_register r p d m : timed_reachable r -> timed_reachable (Router.register_peer p d m r)
  | timed_event (order : HashIter PeerId PeerEntry) (laws : HashIterLaws PeerId PeerEntry) now r e acts r' :
      timed_reachable r -> clock_ok now -> Router.handle_event now e r = (acts, r') -> timed_reachable r'.

Lemma timed_router_reachable r : timed_reachable r -> router_reachable r.
Proof.
  induction 1 as [|r p d m _ IH|order laws now r e acts r' _ IH _ E]; [constructor|..].
  - eapply reach_step; [exact IH|apply step_register].
  - eapply reach_step; [exact IH|by eapply step_event].
Qed.

Lemma clock_next now : clock_ok now -> clock_ok (fun n => now (S n)).
Proof. intros Hc k. apply Hc. Qed.

Lemma latency_ok_requests source ty ids : forall now r, clock_ok now -> latency_ok (Router.latency_tracker r) ->
  latency_ok (Router.latency_tracker (Router.route_request_ids now source ty ids r).2).
Proof.
  induction ids as [|id ids IH]; intros now r Hc Hr; [done|]. rewrite request_loop_cons.
  destruct (announcer _ _ _) as [q|]; [|by apply IH; [apply clock_next|]].
  specialize (IH (fun n => now (S n)) (routed (now 0%nat) source id q r) (clock_next _ Hc)).
  destruct (Router.route_request_ids _ _ _ _ _). cbn in *. apply IH. by apply latency_ok_request.
Qed.

Lemma latency_ok_responses ty ms : forall now r, clock_ok now -> latency_ok (Router.latency_tracker r) ->
  latency_ok (Router.latency_tracker (Router.route_response_items now ty ms r).2).
Proof.
  induction ms as [|[id data] ms IH]; intros now r Hc Hr; [done|]. rewrite response_loop_cons.
  specialize (IH (fun n => now (S n)) (answered (now 0%nat) id r) (clock_next _ Hc)).
  destruct (Router.route_response_items _ _ _ _). cbn [snd]. apply IH. by apply latency_ok_response.
Qed.

Lemma latency_ok_event `{!HashIter PeerId PeerEntry} now e r acts r' : clock_ok now ->
  Router.handle_event now e r = (acts, r') -> latency_ok (Router.latency_tracker r) -> latency_ok (Router.latency_tracker r').
Proof.
  intros Hc E Hr. destruct e as [p s d|p reason|p m]; cbn in E; [by simplify_eq|simplify_eq; by apply latency_ok_purge|].
  revert E. unfold Router.route_message. destruct (_ !! p) as [[d md]|]; [|by intros [= <- <-]].
  destruct m as [|b|t ids|t ids|t ms|b|c b]; try by intros [= <- <-].
  - intros E. pose proof (latency_ok_requests p t ids now r Hc Hr) as Hx. by rewrite E in Hx.
  - intros E. pose proof (latency_ok_responses t ms now r Hc Hr) as Hx. by rewrite E in Hx.
  - destruct md; [|by intros [= <- <-]].
    destruct d; [destruct (SyncTracker.inbound_for _ _)|destruct (Router.find_free_outbound r)]; by intros [= <- <-].
Qed.

Lemma timed_latency_ok r : timed_reachable r -> latency_ok (Router.latency_tracker r).
Proof.
  induction 1 as [|r p d m _ IH|order laws now r e acts r' _ IH Hc E]; [|done|by eapply latency_ok_event].
  split; cbn; intros x y Hx; by rewrite lookup_empty in Hx.
Qed.

(** ** Statistics *)

Lemma upto_range x : f_upto 1 75 x -> SFltb F64_MIN x = true /\ SFltb x F64_MAX = true /\ f_num x.
Proof.
  destruct x as [s|s| |s m e]; cbn [f_upto]; try done. intros (-> & He & Hx).
  assert (Hexp : 1 + e <= Zdigits2 1 + 75)
    by (apply (scaled_lt_exp (Zpos m) 1); [done|change (2 ^ (1 - 1)) with 1; lia|lia|unfold LOW; lia|by_decide|done]).
  cbn in Hexp. split_and!; try done. unfold SFltb, F64_MAX. cbn [SFcompare].
  destruct (Z.compare_spec e 971); [lia|done|lia].
Qed.

Lemma count_bound k : 0 < k < 2 ^ 53 -> bound_ok k 75 /\ Zdigits2 k <= 53.
Proof.
  intros Hk. destruct (digits_nonneg k) as [[? _]|(_ & Hd & H1 & _)]; [lia|lia|].
  assert (Hlt : 2 ^ (Zdigits2 k - 1) < 2 ^ 53) by lia. apply Z.pow_lt_mono_r_iff in Hlt; [|lia|lia].
  split; [|lia]. unfold bound_ok. rewrite fexp_eq. lia.
Qed.

(** The sum of [count] averages is at most [count * 2^75]. *)
Lemma stats_sum ls : forall mn mx sum count,
  Forall (fun l => f_upto 1 75 (ema_ms l)) ls -> 0 <= count -> count + Z.of_nat (length ls) < 2 ^ 53 ->
  f_upto count 75 sum ->
  let '(_, _, sum', count') := foldl LatencyTracker.stats_step (mn, mx, sum, count) ls in
  f_upto count' 75 sum' /\ 0 <= count' < 2 ^ 53.
Proof.
  induction ls as [|l ls IH]; intros mn mx sum count Hls Hc Hlen Hsum; cbn [foldl]; [cbn in Hlen; split; [exact Hsum|lia]|].
  apply Forall_cons in Hls as [Hl Hls]. rewrite length_cons, Nat2Z.inj_succ in Hlen.
  unfold LatencyTracker.stats_step at 2. destruct (0 <? sample_count l); [|apply IH; [exact Hls|lia|lia|exact Hsum]].
  apply IH; [exact Hls|lia|lia|]. apply (f_add_upto count 75 1 75); [exact Hsum|exact Hl|apply count_bound; lia| |apply scaled_nonneg; lia|apply scaled_nonneg; lia].
  unfold scaled. lia.
Qed.

(** The mean of numbers up to [2^75] is one. *)
Lemma mean_upto sum count : 0 < count < 2 ^ 53 -> f_upto count 75 sum -> f_upto 1 75 (f_div sum (f_of_Z count)).
Proof.
  intros Hc Hs. destruct (f_of_Z_exact count Hc) as (m & e & -> & Hv & Hd & He).
  destruct (count_bound count Hc) as [Hb Hdc].
  apply (f_div_upto count 75 m e 75); [exact Hs|exact Hd|lia|lia|by_decide|lia|exact Hb|lia|].
  unfold scaled. replace (e + 75 + 4000) with (e + 52 + (75 + 4000 - 52)) by lia.
  rewrite (Z.pow_add_r 2 (e + 52)), Z.mul_assoc, Hv by lia. rewrite <- Z.mul_assoc, <- (Z.pow_add_r 2 52) by lia.
  apply Z.eq_le_incl. reflexivity.
Qed.

Section stats.
Context `{!HashIter PeerId PeerLatency} `{!HashIterLaws PeerId PeerLatency}.

Lemma stats_mean tb s : latency_ok tb -> Z.of_nat (size (LatencyTracker.peers tb)) < 2 ^ 53 ->
  LatencyTracker.stats tb = Some s -> f_upto 1 75 (avg_ms s).
Proof.
  intros Hok Hsize. unfold LatencyTracker.stats. case_bool_decide; [done|].
  pose proof (stats_sum (hash_iter (LatencyTracker.peers tb)).*2 F64_MAX F64_MIN (S754_zero false) 0) as Hsum.
  destruct (foldl _ _ _) as [[[mn mx] sum] count]. destruct (Z.eqb_spec count 0) as [|Hne]; [done|]. intros [= <-]. cbn [avg_ms].
  destruct Hsum as [Hs Hc].
  - apply Forall_forall. intros l ([p l'] & -> & Hp)%list_elem_of_fmap. apply elem_of_iter in Hp. exact (lo_peers _ Hok _ _ Hp).
  - lia.
  - rewrite length_fmap, (Permutation_length (hash_iter_perm _)), length_map_to_list. lia.
  - reflexivity.
  - apply mean_upto; [lia|exact Hs].
Qed.

End stats.

(** The statistics of a reachable state. *)
Lemma stats_sound `{!HashIter PeerId PeerLatency} `{!HashIterLaws PeerId PeerLatency} r :
  timed_reachable r -> Z.of_nat (size (LatencyTracker.peers (Router.latency_tracker r))) < 2 ^ 53 ->
  let sampled p l := LatencyTracker.peers (Router.latency_tracker r) !! p = Some l /\ 0 < sample_count l in
  match Router.latency_stats r with
  | None => forall p l, ~ sampled p l
  | Some s =>
      peer_count s = Z.of_nat (size (filter (fun kl => 0 < sample_count kl.2) (LatencyTracker.peers (Router.latency_tracker r)))) /\
      (forall p l, sampled p l -> SFleb (min_ms s) (ema_ms l) = true /\ SFleb (ema_ms l) (max_ms s) = true) /\
      (exists p l, sampled p l /\ ema_ms l = min_ms s) /\ (exists p l, sampled p l /\ ema_ms l = max_ms s) /\
      f_upto 1 75 (min_ms s) /\ f_upto 1 75 (avg_ms s) /\ f_upto 1 75 (max_ms s)
  end.
Proof.
  intros Hr Hsize. cbv zeta. pose proof (timed_latency_ok r Hr) as Hok. unfold Router.latency_stats.
  pose proof (latency_stats_spec (Router.latency_tracker r)) as Hspec. cbv zeta in Hspec.
  destruct (LatencyTracker.stats (Router.latency_tracker r)) as [s|] eqn:Es.
  - destruct Hspec as (Hc & _ & Hb & Hmin & Hmax).
    { intros p l Hp _. pose proof (upto_range _ (lo_peers _ Hok _ _ Hp)). tauto. }
    pose proof (stats_mean _ _ Hok Hsize Es) as Havg. split_and!; try done.
    + destruct Hmin as (p & l & [Hp _] & <-). exact (lo_peers _ Hok _ _ Hp).
    + destruct Hmax as (p & l & [Hp _] & <-). exact (lo_peers _ Hok _ _ Hp).
  - apply Hspec. intros p l Hp _. pose proof (upto_range _ (lo_peers _ Hok _ _ Hp)). tauto.
Qed.

(** ** Properties *)

(** C39: in every state the router reaches while the clock is in range, in any
    order of iteration, the statistics exist exactly when some peer has a
    sample; they count the sampled peers; their minimum and maximum are averages
    of sampled peers and bound all of them; and minimum, mean and maximum are
    finite non-negative numbers of at most 2^75 milliseconds, as the database
    of the statistics demands. *)
Theorem latency_stats_reachable `{!HashIter PeerId PeerLatency} `{!HashIterLaws PeerId PeerLatency} r :
  timed_reachable r -> Z.of_nat (size (LatencyTracker.peers (Router.latency_tracker r))) < 2 ^ 53 ->
  let sampled p l := LatencyTracker.peers (Router.latency_tracker r) !! p = Some l /\ 0 < sample_count l in
  match Router.latency_stats r with
  | None => forall p l, ~ sampled p l
  | Some s =>
      peer_count s = Z.of_nat (size (filter (fun kl => 0 < sample_count kl.2) (LatencyTracker.peers (Router.latency_tracker r)))) /\
      (forall p l, sampled p l -> SFleb (min_ms s) (ema_ms l) = true /\ SFleb (ema_ms l) (max_ms s) = true) /\
      (exists p l, sampled p l /\ ema_ms l = min_ms s) /\ (exists p l, sampled p l /\ ema_ms l = max_ms s) /\
      f_upto 1 75 (min_ms s) /\ f_upto 1 75 (avg_ms s) /\ f_upto 1 75 (max_ms s)
  end.
Proof. apply stats_sound. Qed.

(** C40: in every state the router reaches while the clock is in range,
    [fastest_peer] returns the first candidate of least average among the
    candidates that have one, and [None] exactly when none has; no average is a
    NaN that could upset the order. *)
Theorem fastest_peer_reachable r candidates : timed_reachable r ->
  let tb := Router.latency_tracker r in
  match LatencyTracker.fastest_peer candidates tb with
  | None => forall q, q ∈ candidates -> LatencyTracker.peer_latency q tb = None
  | Some p => exists before after l,
      candidates = before ++ p :: after /\ LatencyTracker.peer_latency p tb = Some l /\ f_upto 1 75 l /\
      (forall q l', q ∈ before -> LatencyTracker.peer_latency q tb = Some l' -> SFltb l l' = true) /\
      (forall q l', q ∈ after -> LatencyTracker.peer_latency q tb = Some l' -> SFleb l l' = true)
  end.
Proof.
  intros Hr tb. pose proof (timed_latency_ok r Hr) as Hok. fold tb in Hok.
  assert (Hlat : forall q l, LatencyTracker.peer_latency q tb = Some l -> f_upto 1 75 l).
  { intros q l. unfold LatencyTracker.peer_latency. intros (x & Hx & ->)%fmap_Some_1. exact (lo_peers _ Hok _ _ Hx). }
  pose proof (fastest_peer_spec tb candidates) as Hs.
  destruct (LatencyTracker.fastest_peer candidates tb) as [p|].
  - destruct Hs as (before & after & l & H1 & H2 & H3 & H4); [|exists before, after, l; split_and!; eauto].
    intros q l _ Hl. apply upto_range. eauto.
  - apply Hs. intros q l _ Hl. apply upto_range. eauto.
Qed.

(** ** Two peers that answered *)

Lemma tick_ok : clock_ok (fun n => Z.of_nat n mod 1000 * 1000000).
Proof. intros k. pose proof (Z.mod_pos_bound (Z.of_nat k) 1000 ltac:(lia)). unfold CLOCK_END. lia. Qed.

Definition tock : nat -> Z := fun n => Z.of_nat n mod 1000 * 1000000.
Definition later : nat -> Z := fun n => 250000000.

Lemma timed_run now e r : clock_ok now -> timed_reachable r -> timed_reachable (event_run now e r).2.
Proof.
  intros Hc Hr. eapply (timed_event list_order list_order_laws now); [exact Hr|exact Hc|apply surjective_pairing].
Qed.

Definition measured : Router.t :=
  (event_run later (Message (mkPeerId 1) (ModifierResponse 101 [([7], [1; 2])]))
    (event_run tock (Message (mkPeerId 3) (ModifierRequest 101 [[7]]))
      (event_run tock (Message (mkPeerId 1) (Inv 101 [[7]])) three_peers).2).2).2.

Lemma timed_measured : timed_reachable measured.
Proof.
  do 3 (apply timed_run; [first [exact tick_ok | intros k; unfold later, CLOCK_END; lia]|]).
  do 3 apply timed_register. apply timed_new.
Qed.

Lemma latency_stats_reachable_witness :
  exists s, Router.latency_stats (HashIter0 := list_order) measured = Some s /\ min_ms s = f_of_Z 250 /\
    f_upto 1 75 (min_ms s) /\ f_upto 1 75 (avg_ms s) /\ f_upto 1 75 (max_ms s).
Proof.
  pose proof (@latency_stats_reachable list_order list_order_laws measured timed_measured) as Hs. cbv zeta in Hs.
  destruct (Router.latency_stats (HashIter0 := list_order) measured) as [s|] eqn:Es; [|vm_compute in Es; discriminate Es].
  destruct Hs as (_ & _ & _ & _ & H1 & H2 & H3); [vm_compute; reflexivity|].
  exists s. split; [reflexivity|]. split; [|exact (conj H1 (conj H2 H3))].
  vm_compute in Es. injection Es as <-. vm_compute. reflexivity.
Defined.

Lemma fastest_peer_reachable_witness :
  exists before after l, [mkPeerId 2; mkPeerId 1] = before ++ mkPeerId 1 :: after /\
    LatencyTracker.peer_latency (mkPeerId 1) (Router.latency_tracker measured) = Some l /\ f_upto 1 75 l.
Proof.
  pose proof (fastest_peer_reachable measured [mkPeerId 2; mkPeerId 1] timed_measured) as Hs. cbv zeta in Hs.
  change (LatencyTracker.fastest_peer _ _) with (Some (mkPeerId 1)) in Hs.
  destruct Hs as (before & after & l & H1 & H2 & H3 & _). exists before, after, l. exact (conj H1 (conj H2 H3)).
Defined.
