(* ===== verification/Stats.v ===== *)
(** * [src/main.rs]: the statistics task

    Every thirty seconds the task hands a line to [rrdtool update]. The program
    [rrdtool] is the host's: what a call of it reports is an argument, [None]
    when it could not be run and otherwise whether it succeeded. *)
From S2P Require Import Prelude Io Types Vlq Frame Handshake Messages Peer PeerTable InvTable Tracker Latency Float Router RouterSpec LatencyBounds.
From Stdlib Require Import SpecFloat.
From stdpp Require Import pretty.

#[local] Open Scope string_scope.
#[local] Open Scope Z_scope.

(** ** [format!("{:.1}", x)]: the exact value to one decimal, ties to even *)

Definition round_half_even (num den : Z) : Z :=
  let q := num / den in
  let r := num mod den in
  match 2 * r ?= den with
  | Lt => q
  | Gt => q + 1
  | Eq => if Z.even q then q else q + 1
  end.

(** Ten times [m * 2^e], rounded to an integer. *)
Definition tenths (m e : Z) : Z := round_half_even (m * 10 * 2 ^ Z.max e 0) (2 ^ Z.max (- e) 0).

Definition decimal (t : Z) : string := pretty (t / 10) +:+ "." +:+ pretty (t mod 10).

Definition sign (s : bool) : string := if s then "-" else EmptyString.

Definition format_1 (x : f64) : string :=
  match x with
  | S754_nan => "NaN"
  | S754_infinity s => sign s +:+ "inf"
  | S754_zero s => sign s +:+ "0.0"
  | S754_finite s m e => sign s +:+ decimal (tenths (Zpos m) e)
  end.

(** ** The task *)

Definition RRD_PATH : string := "/var/lib/ergo-proxy/latency.rrd".

Inductive RrdState := RrdStarting | RrdCreating | RrdTicking | RrdStopped.

(** The arguments of the call a state makes. *)
Definition rrd_args (st : RrdState) (update : string) : list string :=
  match st with
  | RrdStarting => ["info"; RRD_PATH]
  | RrdCreating =>
      ["create"; RRD_PATH; "--step"; "30";
       "DS:min:GAUGE:60:0:U"; "DS:avg:GAUGE:60:0:U"; "DS:max:GAUGE:60:0:U"; "DS:peers:GAUGE:60:0:U";
       "RRA:AVERAGE:0.5:1:2880"; "RRA:AVERAGE:0.5:10:8640"; "RRA:AVERAGE:0.5:120:8760";
       "RRA:MAX:0.5:1:2880"; "RRA:MAX:0.5:10:8640"; "RRA:LAST:0.5:1:2880"; "RRA:LAST:0.5:10:8640"]
  | RrdTicking => ["update"; RRD_PATH; update]
  | RrdStopped => []
  end.

(** What the task does with the outcome of its call. *)
Definition rrd_next (st : RrdState) (output : option bool) : RrdState :=
  match st with
  | RrdStarting => if default false output then RrdTicking else RrdCreating
  | RrdCreating => match output with Some true => RrdTicking | Some false | None => RrdStopped end
  | RrdTicking => RrdTicking
  | RrdStopped => RrdStopped
  end.

(** The line of an update. *)
Definition update_line `{!HashIter PeerId PeerEntry} `{!HashIter PeerId PeerLatency} (r : Router.t) : string :=
  let peer_count := length (Router.outbound_peers r) in
  match Router.latency_stats r with
  | Some stats =>
      "N:" +:+ format_1 (min_ms stats) +:+ ":" +:+ format_1 (avg_ms stats) +:+ ":" +:+ format_1 (max_ms stats)
        +:+ ":" +:+ pretty (Latency.peer_count stats)
  | None => "N:U:U:U:" +:+ pretty peer_count
  end.

(** The calls the task makes: each turn is given the state of the router it finds
    and the outcome of its call. *)
Fixpoint rrd_calls `{!HashIter PeerId PeerEntry} `{!HashIter PeerId PeerLatency} (st : RrdState)
    (turns : list (Router.t * option bool)) : list (list string) :=
  match st, turns with
  | RrdStopped, _ | _, [] => []
  | _, (router, output) :: turns => rrd_args st (update_line router) :: rrd_calls (rrd_next st output) turns
  end.

(** ** Lemmas *)

Lemma round_half_even_near num den : 0 < den -> 0 <= num ->
  0 <= round_half_even num den /\ 2 * Z.abs (num - round_half_even num den * den) <= den.
Proof.
  intros Hd Hn. unfold round_half_even. pose proof (Z.div_mod num den ltac:(lia)) as Hdm.
  pose proof (Z.mod_pos_bound num den Hd) as Hm. pose proof (Z.div_pos num den Hn Hd) as Hq.
  set (q := num / den) in *. set (r := num mod den) in *.
  destruct (Z.compare_spec (2 * r) den); [destruct (Z.even q)|..]; nia.
Qed.

(** [t] tenths are within half a tenth of [x]. *)
Definition near_tenths (x : f64) (t : Z) : Prop :=
  match x with
  | S754_zero _ => t = 0
  | S754_finite _ m e => 0 <= t /\ 2 * Z.abs (10 * scaled (Zpos m) e - t * 2 ^ 4000) <= 2 ^ 4000
  | _ => False
  end.

Lemma tenths_near s m e : -1100 <= e -> near_tenths (S754_finite s m e) (tenths (Zpos m) e).
Proof.
  intros He. unfold near_tenths, tenths, scaled.
  pose proof (round_half_even_near (Zpos m * 10 * 2 ^ Z.max e 0) (2 ^ Z.max (- e) 0)) as Hr.
  destruct Hr as [Ht Hr]; [apply Z.pow_pos_nonneg; lia|apply Z.mul_nonneg_nonneg; [lia|apply Z.pow_nonneg; lia]|].
  split; [done|]. set (t := round_half_even _ _) in *. clearbody t.
  set (F := 2 ^ (4000 - Z.max (- e) 0)). assert (HF : 0 < F) by (apply Z.pow_pos_nonneg; lia).
  assert (H1 : 2 ^ 4000 = 2 ^ Z.max (- e) 0 * F) by (unfold F; rewrite <- Z.pow_add_r by lia; f_equal; lia).
  assert (H2 : 2 ^ (e + 4000) = 2 ^ Z.max e 0 * F) by (unfold F; rewrite <- Z.pow_add_r by lia; f_equal; lia).
  rewrite H1, H2. replace (10 * (Zpos m * (2 ^ Z.max e 0 * F)) - t * (2 ^ Z.max (- e) 0 * F))
    with ((Zpos m * 10 * 2 ^ Z.max e 0 - t * 2 ^ Z.max (- e) 0) * F) by ring.
  rewrite Z.abs_mul, (Z.abs_eq F) by lia. nia.
Qed.

(** A number in range is printed as digits, a point and one digit. *)
Lemma format_upto m e x : f_upto m e x -> exists t, 0 <= t /\ format_1 x = decimal t /\ near_tenths x t.
Proof.
  destruct x as [s|s| |s mx ex]; cbn [f_upto]; try done.
  - intros ->. exists 0. split_and!; [done|vm_compute; reflexivity|done].
  - intros (-> & He & _). exists (tenths (Zpos mx) ex). pose proof (tenths_near false mx ex He) as Hn.
    split_and!; [apply Hn|done|exact Hn].
Qed.

Lemma outbound_count `{!HashIter PeerId PeerEntry} `{!HashIterLaws PeerId PeerEntry} r :
  length (Router.outbound_peers r) = size (filter (fun kv => entry_direction kv.2 = Outbound) (Router.peers r)).
Proof.
  unfold Router.outbound_peers, Router.peers_of_direction. rewrite length_fmap.
  rewrite (Permutation_length (iter_filter (fun kv => entry_direction kv.2 = Outbound) _)). apply length_map_to_list.
Qed.

(** The states after some outcomes. *)
Definition rrd_run (outputs : list (option bool)) : RrdState := foldl rrd_next RrdStarting outputs.

Lemma rrd_ticking outputs : foldl rrd_next RrdTicking outputs = RrdTicking.
Proof. by induction outputs. Qed.

Lemma rrd_stopped outputs : foldl rrd_next RrdStopped outputs = RrdStopped.
Proof. by induction outputs. Qed.

Lemma rrd_ticking_iff outputs : rrd_run outputs = RrdTicking <->
  (exists rest, outputs = Some true :: rest) \/
  (exists out rest, default false out = false /\ outputs = out :: Some true :: rest).
Proof.
  split.
  - unfold rrd_run. destruct outputs as [|out1 [|out2 rest]]; cbn [foldl rrd_next]; [done|..].
    + destruct out1 as [[]|]; [|done..]. intros _. left. by eexists.
    + destruct out1 as [[]|]; [intros _; left; by eexists|..]; cbn [default from_option id];
        (destruct out2 as [[]|]; [|cbn; by rewrite rrd_stopped..]); intros _; right; eexists _, _; (split; [|reflexivity]); reflexivity.
  - intros [(rest & ->)|(out & rest & Ho & ->)]; unfold rrd_run; cbn [foldl rrd_next]; [apply rrd_ticking|].
    rewrite Ho. apply rrd_ticking.
Qed.

(** The database exists before call number [i]: [rrdtool info] succeeded, or
    failed and [rrdtool create] succeeded. *)
Definition rrd_exists (i : nat) (outputs : list (option bool)) : Prop :=
  (exists rest, take i outputs = Some true :: rest) \/
  (exists out rest, default false out = false /\ take i outputs = out :: Some true :: rest).

Section calls.
Context `{!HashIter PeerId PeerEntry} `{!HashIterLaws PeerId PeerEntry}
  `{!HashIter PeerId PeerLatency} `{!HashIterLaws PeerId PeerLatency}.

Lemma rrd_calls_lookup turns : forall st i, rrd_calls st turns !! i =
  match foldl rrd_next st (take i turns.*2) with
  | RrdStopped => None
  | st' => (fun turn => rrd_args st' (update_line turn.1)) <$> turns !! i
  end.
Proof.
  induction turns as [|[u out] turns IH]; intros st i.
  - cbn [fmap list_fmap]. rewrite take_nil. by destruct st.
  - destruct i as [|i]; [by destruct st|]. cbn [fmap list_fmap snd take foldl].
    destruct st; cbn [rrd_calls]; try apply IH. by rewrite rrd_stopped.
Qed.

(** The call of a turn is an update exactly when the database exists, and its
    line is the one of the router in that turn. *)
Lemma rrd_update_iff turns i r out u : turns !! i = Some (r, out) ->
  rrd_calls RrdStarting turns !! i = Some ["update"; RRD_PATH; u] <-> rrd_exists i turns.*2 /\ u = update_line r.
Proof.
  intros Hi. pose proof (rrd_ticking_iff (take i turns.*2)) as Ht. fold (rrd_exists i turns.*2) in Ht. rewrite <- Ht.
  rewrite rrd_calls_lookup, Hi. unfold rrd_run.
  destruct (foldl rrd_next RrdStarting (take i turns.*2)); cbn; naive_solver.
Qed.

Definition sampled (r : Router.t) : gmap PeerId PeerLatency :=
  filter (fun kl => 0 < sample_count kl.2) (LatencyTracker.peers (Router.latency_tracker r)).

Definition outbound_entries (r : Router.t) : gmap PeerId PeerEntry :=
  filter (fun kv => entry_direction kv.2 = Outbound) (Router.peers r).

Lemma line_unknown r : timed_reachable r -> Z.of_nat (size (LatencyTracker.peers (Router.latency_tracker r))) < 2 ^ 53 ->
  sampled r = ∅ -> update_line r = "N:U:U:U:" +:+ pretty (size (outbound_entries r)).
Proof.
  intros Hr Hsize Hs. pose proof (stats_sound r Hr Hsize) as Hst. cbv zeta in Hst.
  unfold update_line. destruct (Router.latency_stats r) as [s|]; [|by rewrite outbound_count].
  destruct Hst as (_ & _ & (p & l & [Hp Hl] & _) & _). apply (f_equal (.!! p)) in Hs. unfold sampled in Hs.
  rewrite lookup_empty, map_lookup_filter_None in Hs. destruct Hs as [Hs|Hs]; [congruence|]. by destruct (Hs l Hp).
Qed.

Lemma line_known r : timed_reachable r -> Z.of_nat (size (LatencyTracker.peers (Router.latency_tracker r))) < 2 ^ 53 ->
  sampled r <> ∅ -> exists s t1 t2 t3, Router.latency_stats r = Some s /\
    near_tenths (min_ms s) t1 /\ near_tenths (avg_ms s) t2 /\ near_tenths (max_ms s) t3 /\
    update_line r = "N:" +:+ decimal t1 +:+ ":" +:+ decimal t2 +:+ ":" +:+ decimal t3 +:+ ":" +:+
      pretty (Z.of_nat (size (sampled r))).
Proof.
  intros Hr Hsize Hs. pose proof (stats_sound r Hr Hsize) as Hst. cbv zeta in Hst.
  unfold update_line. destruct (Router.latency_stats r) as [s|].
  - destruct Hst as (Hc & _ & _ & _ & H1 & H2 & H3). exists s.
    destruct (format_upto _ _ _ H1) as (t1 & _ & -> & N1), (format_upto _ _ _ H2) as (t2 & _ & -> & N2),
      (format_upto _ _ _ H3) as (t3 & _ & -> & N3). exists t1, t2, t3. rewrite Hc. by split_and!.
  - destruct Hs. apply map_empty. intros p. apply map_lookup_filter_None. right. intros l Hp Hl.
    exact (Hst p l (conj Hp Hl)).
Qed.

End calls.

(** ** Properties *)

(** C37: the statistics task writes to the database only once it exists: its
    call number [i] is an update exactly when the first call, [rrdtool info], came
    before and succeeded, or failed and the second, [rrdtool create], came before
    and succeeded; if that failed too, it makes no third call. The line of the
    update is made from the router as the task finds it then. In every state the
    router reaches while the clock is in range, and in any order of iteration, it
    has five fields: with no sample, three unknowns and the number of outbound
    peers; otherwise the least, mean and greatest average, each a decimal numeral
    within half a tenth of the number, and a count that is the number of outbound
    peers when exactly those have a sample ([rrd_peer_count_differs] is about the
    other case). *)
Theorem rrd_updates `{!HashIter PeerId PeerEntry} `{!HashIterLaws PeerId PeerEntry}
    `{!HashIter PeerId PeerLatency} `{!HashIterLaws PeerId PeerLatency} turns i r out :
  turns !! i = Some (r, out) ->
  timed_reachable r -> Z.of_nat (size (LatencyTracker.peers (Router.latency_tracker r))) < 2 ^ 53 ->
  (forall line, rrd_calls RrdStarting turns !! i = Some ["update"; RRD_PATH; line] -> rrd_exists i turns.*2) /\
  (rrd_exists i turns.*2 -> exists line, rrd_calls RrdStarting turns !! i = Some ["update"; RRD_PATH; line] /\
     (sampled r = ∅ -> line = "N:U:U:U:" +:+ pretty (size (outbound_entries r))) /\
     (sampled r <> ∅ -> exists s t1 t2 t3 count, Router.latency_stats r = Some s /\
        near_tenths (min_ms s) t1 /\ near_tenths (avg_ms s) t2 /\ near_tenths (max_ms s) t3 /\
        line = "N:" +:+ decimal t1 +:+ ":" +:+ decimal t2 +:+ ":" +:+ decimal t3 +:+ ":" +:+ pretty (count : Z) /\
        (dom (sampled r) = dom (outbound_entries r) -> count = Z.of_nat (size (outbound_entries r))))) /\
  (forall out1 out2 r1 r2 rest, turns = (r1, out1) :: (r2, out2) :: rest ->
     default false out1 = false -> default false out2 = false -> length (rrd_calls RrdStarting turns) = 2%nat).
Proof.
  intros Hi Hr Hsize. split_and!.
  - intros line [He _]%(rrd_update_iff turns i r out line Hi). exact He.
  - intros He. exists (update_line r). split; [apply (rrd_update_iff turns i r out _ Hi); by split|].
    split; [by apply line_unknown|]. intros Hs.
    destruct (line_known r Hr Hsize Hs) as (s & t1 & t2 & t3 & H1 & H2 & H3 & H4 & H5).
    exists s, t1, t2, t3, (Z.of_nat (size (sampled r))). split_and!; try done.
    intros Hd. by rewrite <- !size_dom, Hd.
  - intros out1 out2 r1 r2 rest -> H1 H2. cbn [rrd_calls rrd_next]. rewrite H1.
    destruct out2 as [[]|]; [done|..]; by destruct rest.
Qed.

Lemma rrd_updates_witness :
  let turns := [(three_peers, None); (three_peers, Some true); (measured, Some false)] in
  exists line, rrd_calls (HashIter0 := list_order) (HashIter1 := list_order) RrdStarting turns !! 2%nat
      = Some ["update"; RRD_PATH; line] /\
    exists s t1 t2 t3 count, Router.latency_stats (HashIter0 := list_order) measured = Some s /\
      near_tenths (min_ms s) t1 /\ near_tenths (avg_ms s) t2 /\ near_tenths (max_ms s) t3 /\
      line = "N:" +:+ decimal t1 +:+ ":" +:+ decimal t2 +:+ ":" +:+ decimal t3 +:+ ":" +:+ pretty (count : Z) /\
      (dom (sampled measured) = dom (outbound_entries measured) -> count = Z.of_nat (size (outbound_entries measured))).
Proof.
  intros turns.
  destruct (@rrd_updates list_order list_order_laws list_order list_order_laws turns 2 measured (Some false) eq_refl
    timed_measured) as (_ & H & _); [vm_compute; reflexivity|].
  destruct H as (line & Hl & _ & Hk); [right; exists None, []; split; reflexivity|]. exists line. split; [exact Hl|].
  apply Hk. intros Hs. apply (f_equal size) in Hs. vm_compute in Hs. discriminate Hs.
Defined.

(** C38: the fourth field is not the number the dashboard takes it for: in a
    state with two outbound peers, one of which has answered a request, the line
    says one peer, while before the answer it said two; the graph of this field
    is titled with the connected outbound peers. *)
Theorem rrd_peer_count_differs : exists r r', timed_reachable r /\ timed_reachable r' /\
  Router.peers r = Router.peers r' /\
  (forall (o : HashIter PeerId PeerEntry), HashIterLaws PeerId PeerEntry -> length (Router.outbound_peers r') = 2%nat) /\
  update_line (HashIter0 := list_order) (HashIter1 := list_order) r = "N:U:U:U:2" /\
  update_line (HashIter0 := list_order) (HashIter1 := list_order) r' = "N:250.0:250.0:250.0:1".
Proof.
  exists three_peers, measured. split_and!.
  - do 3 apply timed_register. apply timed_new.
  - exact timed_measured.
  - vm_compute. reflexivity.
  - intros o Ho. rewrite outbound_count. vm_compute. reflexivity.
  - vm_compute. reflexivity.
  - vm_compute. reflexivity.
Qed.

(** One decimal, ties to even. *)
Example format_1_examples :
  format_1 (f_of_Z 250) = "250.0" /\ format_1 (S754_finite false 1 (-2)) = "0.2" /\
  format_1 (S754_finite false 3 (-2)) = "0.8" /\ format_1 EMA_ALPHA = "0.3" /\ format_1 (S754_finite true 1 (-10)) = "-0.0".
Proof. vm_compute. split_and!; reflexivity. Qed.
