(* ===== verification/Wire.v ===== *)
(** * What the proxy puts on the wire

    The types of the values the proxy handles: a message taken from a frame a
    peer may send is well formed, has bytes where the code has [u8], and fits in
    a frame; what the router sends for it is of that kind again, so the peers
    downstream accept every frame the proxy forwards. *)
From S2P Require Import Prelude Io Types Vlq Frame Handshake Messages Peer PeerTable InvTable Tracker Latency Router.

(** ** Messages a peer accepts *)

(** A message with a frame that [read_frame] accepts and [from_frame] parses. *)
Definition wire_ok (m : ProtocolMessage) : Prop := message_ok m /\ frame_ok (to_frame m).

#[global] Instance wire_ok_dec m : Decision (wire_ok m).
Proof. unfold wire_ok. apply _. Defined.

Definition event_wire_ok (e : ProtocolEvent) : Prop :=
  match e with Message _ m => wire_ok m | _ => True end.

Definition action_message (a : Action) : ProtocolMessage := let 'Send _ m := a in m.

(** ** The bytes a reader program returns *)

Section yields.
Context {R : Type} `{ReadLaws R}.

(** [yields Q p]: from a reader that holds bytes, what [p] returns satisfies [Q]
    and what is left are bytes. *)
Definition yields {A} (Q : A -> Prop) (p : Reader R A) : Prop :=
  forall r a r', bytes_ok (view r) -> p r = (Ok a, r') -> Q a /\ bytes_ok (view r').

Lemma yields_ret {A} (Q : A -> Prop) a : Q a -> yields Q (rret a).
Proof. by intros Ha r x r' Hb [= <- <-]. Qed.

Lemma yields_bind {A B} (Q : A -> Prop) (Q' : B -> Prop) (p : Reader R A) (k : A -> Reader R B) :
  yields Q p -> (forall a, Q a -> yields Q' (k a)) -> yields Q' (rbind p k).
Proof.
  intros Hp Hk r b r' Hb. unfold rbind. destruct (p r) as [[a|e] r1] eqn:E; [|done].
  destruct (Hp _ _ _ Hb E) as [Ha Hb1]. by apply Hk.
Qed.

Lemma yields_exact n : yields bytes_ok (read_exact (R := R) n).
Proof.
  intros r a r' Hb E. destruct (read_exact_cases n r) as [(r1 & E1 & V1 & _)|(r1 & E1 & _)]; [|congruence].
  rewrite E in E1. simplify_eq. rewrite V1. split; [by apply Forall_take|by apply Forall_drop].
Qed.

Lemma yields_u8 : yields u8 (read_u8 (R := R)).
Proof.
  intros r b r' Hb. unfold read_u8, rbind.
  destruct (read_exact_cases 1 r) as [(r1 & -> & V1 & Hl)|(r1 & -> & _)]; [|done]. intros [= <- <-].
  rewrite V1. split; [|by apply Forall_drop]. destruct (view r) as [|b0 bs]; [cbn in Hl; lia|].
  by apply Forall_cons in Hb as [? _].
Qed.

Lemma yields_framed {A} (p : Reader R A) : framed p -> yields (fun _ => True) p.
Proof.
  intros Hf r a r' Hb E. destruct (Hf r a r' E) as (bs & Hv & _). rewrite Hv in Hb.
  by apply Forall_app in Hb as [_ ?].
Qed.

Lemma yields_ids n : forall acc, Forall bytes_ok acc -> yields (Forall bytes_ok) (parse_ids (R := R) n acc).
Proof.
  induction n as [|n IH]; intros acc Hacc; cbn [parse_ids]; [by apply yields_ret|].
  eapply yields_bind; [apply yields_exact|]. intros id Hid. apply IH. auto with ergo.
Qed.

Lemma yields_modifiers n : forall acc, Forall (fun m => bytes_ok m.1 /\ bytes_ok m.2) acc ->
  yields (Forall (fun m => bytes_ok m.1 /\ bytes_ok m.2)) (parse_modifiers (R := R) n acc).
Proof.
  induction n as [|n IH]; intros acc Hacc; cbn [parse_modifiers]; [by apply yields_ret|].
  eapply yields_bind; [apply yields_exact|]. intros id Hid.
  eapply yields_bind; [apply yields_framed, framed_vlq_length|]. intros len _.
  eapply yields_bind; [apply yields_exact|]. intros data Hdata. apply IH. auto with ergo.
Qed.

Lemma yields_inv : yields (fun x => u8 x.1 /\ Forall bytes_ok x.2) (parse_inv_from (R := R)).
Proof.
  eapply yields_bind; [apply yields_u8|]. intros t Ht.
  eapply yields_bind; [apply yields_framed, framed_vlq_length|]. intros n _.
  eapply yields_bind; [by apply yields_ids|]. intros ids Hids. by apply yields_ret.
Qed.

Lemma yields_modifier_response :
  yields (fun x => u8 x.1 /\ Forall (fun m => bytes_ok m.1 /\ bytes_ok m.2) x.2) (parse_modifier_response_from (R := R)).
Proof.
  eapply yields_bind; [apply yields_u8|]. intros t Ht.
  eapply yields_bind; [apply yields_framed, framed_vlq_length|]. intros n _.
  eapply yields_bind; [by apply yields_modifiers|]. intros ms Hms. by apply yields_ret.
Qed.

End yields.

Lemma yields_cursor_new {A} (Q : A -> Prop) (p : Reader Cursor A) data a :
  yields Q p -> bytes_ok data -> (p (cursor_new data)).1 = Ok a -> Q a.
Proof.
  intros Hp Hb. destruct (p (cursor_new data)) as [x c] eqn:E. cbn. intros ->. by eapply Hp in E as [? _].
Qed.

(** ** Bodies: their bytes and their lengths *)

(** The bytes of a length prefix the receiver accepts. *)
Lemma length_prefix_ok n : Z.of_nat n <= MAX_VLQ_LENGTH ->
  bytes_ok (write_vlq [] (Z.of_nat n)) /\ (1 <= length (write_vlq [] (Z.of_nat n)))%nat.
Proof.
  intros Hn. unfold MAX_VLQ_LENGTH in Hn. destruct (write_vlq_spec (Z.of_nat n)) as (_ & _ & ? & ?); [solve_width|].
  split; [done|lia].
Qed.

Lemma inv_body_bytes t ids : ids_ok ids ->
  bytes_ok (encode_inv_body t ids) <-> u8 t /\ Forall bytes_ok ids.
Proof.
  intros [Hn _]. destruct (length_prefix_ok _ Hn). rewrite encode_inv_body_eq, !Forall_app, Forall_singleton, Forall_concat.
  tauto.
Qed.

Lemma modifier_bytes_ok m : Z.of_nat (length m.2) <= MAX_VLQ_LENGTH ->
  bytes_ok (modifier_bytes m) <-> bytes_ok m.1 /\ bytes_ok m.2.
Proof. intros Hm. destruct (length_prefix_ok _ Hm). unfold modifier_bytes. rewrite !Forall_app. tauto. Qed.

Lemma response_body_bytes t ms : modifiers_ok ms ->
  bytes_ok (encode_modifier_response_body t ms) <-> u8 t /\ Forall (fun m => bytes_ok m.1 /\ bytes_ok m.2) ms.
Proof.
  intros [Hn Hms]. destruct (length_prefix_ok _ Hn) as [Hp _].
  rewrite encode_modifier_response_body_eq, !Forall_app, Forall_singleton, Forall_concat, Forall_fmap.
  assert (Heq : Forall (bytes_ok ∘ modifier_bytes) ms <-> Forall (fun m => bytes_ok m.1 /\ bytes_ok m.2) ms).
  { rewrite Forall_forall in Hms. rewrite !Forall_forall.
    split; intros Hf m Hm; specialize (Hf m Hm); by apply modifier_bytes_ok; [apply Hms|]. }
  rewrite Heq. tauto.
Qed.

(** One identifier of a list makes no longer a body. *)
Lemma inv_body_one t id ids : ids_ok ids -> id ∈ ids ->
  ids_ok [id] /\ (length (encode_inv_body t [id]) <= length (encode_inv_body t ids))%nat.
Proof.
  intros [Hn Hl] Hin. destruct (length_prefix_ok _ Hn) as [_ Hp]. split.
  - split; [unfold MAX_VLQ_LENGTH; cbn; lia|]. rewrite Forall_forall in Hl. repeat constructor. by apply Hl.
  - rewrite !encode_inv_body_eq, !length_app. revert Hp.
    generalize (length (write_vlq [] (Z.of_nat (length ids)))). intros k Hk. apply list_elem_of_split in Hin as (l1 & l2 & ->).
    change (length (write_vlq [] (Z.of_nat (length [id])))) with 1%nat.
    rewrite concat_app. cbn [concat]. rewrite !length_app. cbn [length]. lia.
Qed.

Lemma response_body_one t m ms : modifiers_ok ms -> m ∈ ms ->
  modifiers_ok [m] /\
  (length (encode_modifier_response_body t [m]) <= length (encode_modifier_response_body t ms))%nat.
Proof.
  intros [Hn Hl] Hin. destruct (length_prefix_ok _ Hn) as [_ Hp]. split.
  - split; [unfold MAX_VLQ_LENGTH; cbn; lia|]. rewrite Forall_forall in Hl. repeat constructor; by apply Hl.
  - rewrite !encode_modifier_response_body_eq, !length_app. revert Hp.
    generalize (length (write_vlq [] (Z.of_nat (length ms)))). intros k Hk. apply list_elem_of_split in Hin as (l1 & l2 & ->).
    change (length (write_vlq [] (Z.of_nat (length [m])))) with 1%nat.
    rewrite fmap_app, concat_app. cbn [fmap list_fmap concat]. rewrite !length_app. cbn [length]. lia.
Qed.

(** ** Messages of frames *)

(** What [from_frame] accepts: a well-formed message, of the same code, whose
    own frame has a body no longer than the one received. *)
Lemma from_frame_shape f m : from_frame f = Ok m ->
  message_ok m /\ code (to_frame m) = code f /\ (length (body (to_frame m)) <= length (body f))%nat.
Proof.
  destruct f as [c b]. unfold from_frame. cbn [code body].
  destruct (Z.eqb_spec c GET_PEERS) as [->|]; [intros [= <-]; cbn; split_and!; (done || lia)|].
  destruct (Z.eqb_spec c PEERS) as [->|]; [by intros [= <-]|].
  destruct (Z.eqb_spec c INV) as [->|].
  { destruct (parse_inv_body b) as [[t ids]|e] eqn:E; [|done]. intros [= <-]. by destruct (parse_inv_body_inv b t ids E). }
  destruct (Z.eqb_spec c MODIFIER_REQUEST) as [->|].
  { destruct (parse_inv_body b) as [[t ids]|e] eqn:E; [|done]. intros [= <-]. by destruct (parse_inv_body_inv b t ids E). }
  destruct (Z.eqb_spec c MODIFIER_RESPONSE) as [->|].
  { destruct (parse_modifier_response_body b) as [[t ms]|e] eqn:E; [|done]. intros [= <-].
    by destruct (parse_modifier_response_body_inv b t ms E). }
  destruct (Z.eqb_spec c SYNC_INFO) as [->|]; [by intros [= <-]|].
  intros [= <-]. split; [|done]. cbn. unfold known_code. repeat (apply orb_false_intro); by apply Z.eqb_neq.
Qed.

(** The bytes of a message's body, for the messages of a frame of bytes. *)
Lemma from_frame_bytes f m : bytes_ok (body f) -> from_frame f = Ok m -> bytes_ok (body (to_frame m)).
Proof.
  intros Hb Hf. pose proof (from_frame_shape f m Hf) as (Hm & _). revert Hf. destruct f as [c b]. cbn in Hb.
  unfold from_frame. cbn [code body].
  destruct (c =? GET_PEERS); [intros [= <-]; constructor|]. destruct (c =? PEERS); [by intros [= <-]|].
  destruct (c =? INV).
  { destruct (parse_inv_body b) as [[t ids]|e] eqn:E; [|done]. intros [= <-]. apply inv_body_bytes; [done|].
    exact (yields_cursor_new _ _ _ _ yields_inv Hb E). }
  destruct (c =? MODIFIER_REQUEST).
  { destruct (parse_inv_body b) as [[t ids]|e] eqn:E; [|done]. intros [= <-]. apply inv_body_bytes; [done|].
    exact (yields_cursor_new _ _ _ _ yields_inv Hb E). }
  destruct (c =? MODIFIER_RESPONSE).
  { destruct (parse_modifier_response_body b) as [[t ms]|e] eqn:E; [|done]. intros [= <-].
    apply response_body_bytes; [done|]. exact (yields_cursor_new _ _ _ _ yields_modifier_response Hb E). }
  destruct (c =? SYNC_INFO); by intros [= <-].
Qed.

Lemma from_frame_wire_ok f m : frame_ok f -> from_frame f = Ok m -> wire_ok m.
Proof.
  intros (Hc & Hb & Hl) E. destruct (from_frame_shape f m E) as (Hm & Hcode & Hlen). split; [done|].
  split_and!; [by rewrite Hcode|by eapply from_frame_bytes|lia].
Qed.

(** ** What the router sends *)

Lemma wire_request_one t id ids : wire_ok (ModifierRequest t ids) -> id ∈ ids -> wire_ok (ModifierRequest t [id]).
Proof.
  intros (Hm & Hc & Hb & Hl) Hin. cbn [to_frame code body] in *. destruct (inv_body_one t id ids Hm Hin) as [H1 H1l].
  apply inv_body_bytes in Hb as [Ht Hids]; [|done]. rewrite Forall_forall in Hids.
  split; [done|]. split_and!; [done|cbn [to_frame body]; apply inv_body_bytes; [done|auto with ergo]|cbn [to_frame body]; lia].
Qed.

Lemma wire_response_one t m ms : wire_ok (ModifierResponse t ms) -> m ∈ ms -> wire_ok (ModifierResponse t [m]).
Proof.
  intros (Hm & Hc & Hb & Hl) Hin. cbn [to_frame code body] in *. destruct (response_body_one t m ms Hm Hin) as [H1 H1l].
  apply response_body_bytes in Hb as [Ht Hms]; [|done]. rewrite Forall_forall in Hms.
  split; [done|]. split_and!; [done|cbn [to_frame body]; apply response_body_bytes; [done|auto with ergo]|cbn [to_frame body]; lia].
Qed.

Lemma route_message_wire_ok `{!HashIter PeerId PeerEntry} now source m r :
  wire_ok m -> Forall (fun a => wire_ok (action_message a)) (Router.route_message now source m r).1.
Proof.
  intros Hm. unfold Router.route_message. destruct (_ !! source) as [[d md]|]; [|constructor].
  destruct m as [|b|t ids|t ids|t ms|b|c b].
  - apply Forall_singleton. change (wire_ok (Peers [])). by_decide.
  - constructor.
  - apply Forall_fmap, Forall_true. by intros kv.
  - destruct (Router.route_request_ids now source t ids r) as [acts r'] eqn:E.
    apply request_loop in E as (-> & _). apply Forall_forall. intros a (id & Hid & Ha)%list_elem_of_omap.
    destruct (announcer _ _ _); cbn in Ha; simplify_eq. by eapply wire_request_one.
  - destruct (Router.route_response_items now t ms r) as [acts r'] eqn:E.
    apply response_loop in E as (Ha & _). apply Forall_forall. intros a Hin.
    destruct (Ha a Hin) as (q & id & data & -> & Hms & _). by eapply wire_response_one.
  - destruct md; [|constructor]. destruct d;
      [destruct (SyncTracker.inbound_for _ _)|destruct (Router.find_free_outbound r)]; (apply Forall_nil || apply Forall_singleton); done.
  - apply Forall_fmap, Forall_true. by intros kv.
Qed.

Lemma handle_event_wire_ok `{!HashIter PeerId PeerEntry} now e r acts r' :
  Router.handle_event now e r = (acts, r') -> event_wire_ok e -> Forall (fun a => wire_ok (action_message a)) acts.
Proof.
  destruct e as [p s d|p reason|p m]; cbn [Router.handle_event event_wire_ok]; [intros [= <- <-]; constructor..|].
  intros E Hm. pose proof (route_message_wire_ok now p m r Hm) as Ha. by rewrite E in Ha.
Qed.

(** ** The keys of the tables *)

(** Every key of the router's tables is a [ModifierId]: 32 bytes. *)
Definition keys_typed (r : Router.t) : Prop := forall id,
  is_Some (InvTable.lookup id (Router.inv_table r)) \/
  is_Some (RequestTracker.lookup id (Router.request_tracker r)) \/
  is_Some (LatencyTracker.pending (Router.latency_tracker r) !! id) -> modifier_id_ok id.

Lemma wire_ids_ok t ids : wire_ok (Inv t ids) \/ wire_ok (ModifierRequest t ids) -> Forall modifier_id_ok ids.
Proof.
  intros Hw. assert (Hids : ids_ok ids /\ bytes_ok (encode_inv_body t ids))
    by (destruct Hw as [(? & _ & ? & _)|(? & _ & ? & _)]; done).
  destruct Hids as [Hids Hb]. apply inv_body_bytes in Hb as [_ Hb]; [|done]. destruct Hids as [_ Hl].
  rewrite Forall_forall in Hb, Hl |- *. intros id Hid. split; [by apply Hl|by apply Hb].
Qed.

Lemma keys_routed now source id target r : modifier_id_ok id -> keys_typed r -> keys_typed (routed now source id target r).
Proof.
  intros Hid Hr id'. cbn. rewrite RequestTracker.request_lookup_record, lookup_insert.
  specialize (Hr id'). case_decide; subst; tauto.
Qed.

Lemma keys_answered now id r : keys_typed r -> keys_typed (answered now id r).
Proof.
  intros Hr id' Hid'. apply Hr. revert Hid'. unfold answered.
  cbn [Router.inv_table Router.request_tracker Router.latency_tracker]. rewrite RequestTracker.lookup_fulfill.
  unfold LatencyTracker.record_response. destruct (LatencyTracker.pending _ !! id); cbn; rewrite ?lookup_delete;
    repeat case_decide; intros [Hs|[Hs|Hs]]; try (by destruct Hs); auto.
Qed.

Lemma keys_requests source t ids : forall now r, Forall modifier_id_ok ids -> keys_typed r ->
  keys_typed (Router.route_request_ids now source t ids r).2.
Proof.
  induction ids as [|id ids IH]; intros now r Hids Hr; [done|]. apply Forall_cons in Hids as [Hid Hids].
  rewrite request_loop_cons. destruct (announcer _ _ _) as [q|]; [|by apply IH].
  specialize (IH (fun n => now (S n)) (routed (now 0%nat) source id q r) Hids (keys_routed _ _ _ _ _ Hid Hr)).
  by destruct (Router.route_request_ids _ _ _ _ _).
Qed.

Lemma keys_responses t ms : forall now r, keys_typed r -> keys_typed (Router.route_response_items now t ms r).2.
Proof.
  induction ms as [|[id data] ms IH]; intros now r Hr; [done|]. rewrite response_loop_cons.
  specialize (IH (fun n => now (S n)) _ (keys_answered (now 0%nat) id r Hr)).
  by destruct (Router.route_response_items _ _ _ _).
Qed.

Lemma keys_disconnect `{!HashIter PeerId PeerEntry} now p reason r : keys_typed r ->
  keys_typed (Router.handle_event now (PeerDisconnected p reason) r).2.
Proof.
  intros Hr id Hid. apply Hr. cbn [Router.handle_event snd Router.inv_table Router.request_tracker Router.latency_tracker] in Hid.
  destruct Hid as [[q Hq]|[[q Hq]|[x Hx]]].
  - apply InvTable.lookup_purge in Hq as [Hq _]. eauto.
  - apply RequestTracker.request_lookup_purge in Hq as [Hq _]. eauto.
  - apply LatencyTracker.purge_pending in Hx as [Hx _]. eauto.
Qed.

Lemma keys_handle_event `{!HashIter PeerId PeerEntry} now e r :
  event_wire_ok e -> keys_typed r -> keys_typed (Router.handle_event now e r).2.
Proof.
  destruct e as [p s d|p reason|p m]; intros He Hr; [done|by apply keys_disconnect|].
  cbn [Router.handle_event event_wire_ok] in *. unfold Router.route_message. destruct (_ !! p) as [[d md]|]; [|done].
  destruct m as [|b|t ids|t ids|t ms|b|c b]; try done.
  - intros id. cbn [snd Router.inv_table Router.request_tracker Router.latency_tracker].
    rewrite InvTable.lookup_record_all. case_decide as Hin; [|apply Hr].
    intros _. assert (Hids : Forall modifier_id_ok ids) by (apply (wire_ids_ok t); by left).
    rewrite Forall_forall in Hids. by apply Hids.
  - apply keys_requests; [|done]. apply (wire_ids_ok t). by right.
  - by apply keys_responses.
  - destruct md; [|done]. destruct d; [by destruct (SyncTracker.inbound_for _ _)|by destruct (Router.find_free_outbound r)].
Qed.

Lemma keys_new : keys_typed Router.new.
Proof.
  intros id. unfold InvTable.lookup, RequestTracker.lookup. cbn. rewrite !lookup_empty. intros [[? ?]|[[? ?]|[? ?]]]; done.
Qed.

(** ** Properties *)

(** C17: a frame a peer may send is never turned into one that peers downstream
    refuse: if [read_frame] returned a frame of at most 256 KiB of bytes and
    [from_frame] accepted it, then in every state, order of iteration and clock
    each message the router sends for it has a frame of at most 256 KiB of
    bytes, and that frame, written by the proxy, is read and parsed by the
    receiver as exactly that message. *)
Theorem forwarded_is_readable `{Blake2b256Laws} `{!HashIter PeerId PeerEntry} f m now p r acts r' net :
  frame_ok f -> from_frame f = Ok m -> Router.handle_event now (Message p m) r = (acts, r') ->
  Forall (fun a => frame_ok (to_frame (action_message a)) /\
    forall (rd : BufReader) rest, stream rd = encode (magic net) (to_frame (action_message a)) ++ rest ->
      exists f' rd', read_frame (magic net) rd = (Ok f', rd') /\ stream rd' = rest /\
    from_frame f' = Ok (action_message a)) acts.
Proof.
  intros Hf Hm Hh. apply from_frame_wire_ok in Hm; [|done].
  eapply Forall_impl; [by eapply handle_event_wire_ok|]. intros a [Ha Hfa]. split; [done|]. intros rd rest Hs.
  change (view rd = encode (magic net) (to_frame (action_message a)) ++ rest) in Hs.
  destruct (reads_frame (magic net) _ (magic_length net) Hfa rd rest Hs) as (rd' & E & V).
  exists (to_frame (action_message a)), rd'. split_and!; [done|done|by apply from_to_frame].
Qed.

Definition one_peer : Router.t := Router.register_peer (mkPeerId 2) Inbound Full Router.new.

(** An Inv with a redundant length prefix and trailing bytes; it is forwarded
    in the short form. *)
Lemma forwarded_is_readable_witness :
  let f := mkFrame INV ([2; 129; 0] ++ replicate 32 7 ++ [9; 9]) in
  let r := Router.register_peer (mkPeerId 1) Outbound Full one_peer in
  let sent := Inv 2 [replicate 32 7] in
  from_frame f = Ok sent /\
  Forall (fun a => frame_ok (to_frame (action_message a)) /\
    forall (rd : BufReader) rest, stream rd = @encode toy_digest (magic Testnet) (to_frame (action_message a)) ++ rest ->
      exists f' rd', @read_frame toy_digest _ _ (magic Testnet) rd = (Ok f', rd') /\ stream rd' = rest /\
        from_frame f' = Ok (action_message a)) [Send (mkPeerId 2) sent].
Proof.
  intros f r sent. assert (Hf : from_frame f = Ok sent) by (vm_compute; reflexivity). split; [exact Hf|].
  refine (@forwarded_is_readable toy_digest toy_digest_laws list_order f sent (fun _ => 0) (mkPeerId 1) r _
    (Router.handle_event (HashIter0 := list_order) (fun _ => 0) (Message (mkPeerId 1) sent) r).2 Testnet _ Hf _);
    [by_decide|vm_compute; reflexivity].
Defined.
