(* ===== verification/Connection.v ===== *)
(** * [src/transport/connection.rs]: handshake, then frames *)
From S2P Require Import Prelude Io Types Vlq Frame Handshake.

(** ** Data *)

(** A connected [TcpStream]: what its reads return, its write half, and whether
    the peer lets [HANDSHAKE_TIMEOUT] (30 s) pass before its handshake. *)
Record TcpStream := mkTcpStream {
  tcp_chunks : list (list Z);
  tcp_writer : Writer;
  tcp_late : bool
}.

Record Connection := mkConnection {
  reader : BufReader;
  writer : Writer;
  conn_magic : list Z;
  conn_peer_spec : PeerSpec
}.

(** ** Operations *)

Definition measure_handshake_size (data : list Z) : io_result Z := measure_size data.

Definition read_handshake : Reader BufReader PeerSpec := fun r =>
  let '(buf, r) := fill_buf r in
  match buf with
  | [] => (Err EmptyHandshake, r)
  | _ =>
      match parse buf with
      | Err e => (Err e, r)
      | Ok spec =>
          match measure_handshake_size buf with
          | Err e => (Err e, r)
          | Ok consumed => (Ok spec, consume (Z.to_nat consumed) r)
          end
      end
  end.

(** [timeout(HANDSHAKE_TIMEOUT, read_handshake(..))]. *)
Definition timed_handshake (late : bool) : Reader BufReader PeerSpec := fun r =>
  if late then (Err HandshakeTimeout, r) else read_handshake r.

(** [write_all] then [flush]. *)
Definition send_handshake (hs_bytes : list Z) (w : Writer) : io_result unit * Writer :=
  match write_all hs_bytes w with
  | (Ok _, w) => flush w
  | (Err e, w) => (Err e, w)
  end.

(** [now] and [urandom] are what [build] reads of the clock and of
    /dev/urandom. The writer that is returned shows what the peer was sent,
    whether or not the call succeeds. *)
Definition outbound (now : Z) (urandom : list Z) (stream : TcpStream) (config : HandshakeConfig)
    : io_result Connection * Writer :=
  let magic := magic (network config) in
  let reader := mkBufReader [] (tcp_chunks stream) in
  let hs_bytes := build now urandom config in
  match send_handshake hs_bytes (tcp_writer stream) with
  | (Err e, w) => (Err e, w)
  | (Ok _, w) =>
      match timed_handshake (tcp_late stream) reader with
      | (Err e, _) => (Err e, w)
      | (Ok peer_spec, reader) =>
          match validate_peer peer_spec (network config) with
          | inl e => (Err (PeerRejected e), w)
          | inr _ => (Ok (mkConnection reader w magic peer_spec), w)
          end
      end
  end.

Definition inbound (now : Z) (urandom : list Z) (stream : TcpStream) (config : HandshakeConfig)
    : io_result Connection * Writer :=
  let magic := magic (network config) in
  let reader := mkBufReader [] (tcp_chunks stream) in
  let w := tcp_writer stream in
  match timed_handshake (tcp_late stream) reader with
  | (Err e, _) => (Err e, w)
  | (Ok peer_spec, reader) =>
      match validate_peer peer_spec (network config) with
      | inl e => (Err (PeerRejected e), w)
      | inr _ =>
          match send_handshake (build now urandom config) w with
          | (Err e, w) => (Err e, w)
          | (Ok _, w) => (Ok (mkConnection reader w magic peer_spec), w)
          end
      end
  end.

Section frames.
Context `{Blake2b256}.

Definition conn_read_frame (c : Connection) : io_result Frame * Connection :=
  let '(res, r) := read_frame (conn_magic c) (reader c) in
  (res, mkConnection r (writer c) (conn_magic c) (conn_peer_spec c)).

Definition conn_write_frame (f : Frame) (c : Connection) : io_result unit * Connection :=
  let '(res, w) := write_frame (conn_magic c) f (writer c) in
  (res, mkConnection (reader c) w (conn_magic c) (conn_peer_spec c)).

End frames.

Definition peer_spec (c : Connection) : PeerSpec := conn_peer_spec c.

Definition split (c : Connection) : BufReader * Writer * list Z * PeerSpec :=
  (reader c, writer c, conn_magic c, conn_peer_spec c).

(** ** Lemmas *)

(** A successful handshake consumed a prefix of the stream that is a handshake
    on its own, and nothing of what follows it. *)
Lemma read_handshake_inv r spec r' : read_handshake r = (Ok spec, r') ->
  exists hs, stream r = hs ++ stream r' /\
    forall rest, parse (hs ++ rest) = Ok spec /\ measure_size (hs ++ rest) = Ok (Z.of_nat (length hs)).
Proof.
  unfold read_handshake, measure_handshake_size. destruct (fill_buf r) as [buf r1] eqn:Ef.
  pose proof (stream_fill_buf r) as Hs. pose proof (fill_buf_buf r) as Hb. rewrite Ef in Hs, Hb. cbn in Hs, Hb.
  destruct buf as [|b0 buf]; [done|]. set (data := b0 :: buf) in *.
  destruct (parse data) as [s|e] eqn:Ep; [|done]. destruct (measure_size data) as [n|e] eqn:Em; [|done].
  intros [= <- <-]. destruct (measure_strict data n Em) as (hs & rest & spec' & Ed & -> & Hr).
  assert (spec' = s) as ->.
  { destruct (strict_parse_measure hs spec' rest Hr) as [Hp _]. rewrite <- Ed in Hp. congruence. }
  exists hs. split; [|intros rest'; by apply strict_parse_measure].
  rewrite stream_consume; rewrite Nat2Z.id.
  - rewrite <- Hs. unfold stream. rewrite Hb, Ed, <- app_assoc. by rewrite drop_app_length.
  - rewrite Hb, Ed, length_app. lia.
Qed.

(** A handshake of the proxy that arrives in one read is accepted whole. *)
Lemma read_handshake_ok now urandom c rest chunks : config_ok c ->
  read_handshake (mkBufReader [] ((build now urandom c ++ rest) :: chunks))
  = (Ok (config_spec urandom c), mkBufReader rest chunks).
Proof.
  intros Hc. destruct (strict_parse_measure _ _ rest (reads_strict now urandom c Hc)) as [Hp Hm].
  unfold read_handshake, measure_handshake_size. cbn [fill_buf br_buf br_chunks].
  destruct (build now urandom c ++ rest) as [|b0 buf] eqn:Eb.
  { discriminate Hp. }
  rewrite Hp, Hm. unfold consume. cbn [br_buf br_chunks]. rewrite <- Eb, Nat2Z.id. by rewrite drop_app_length.
Qed.

#[local] Opaque build parse measure_size.

Lemma outbound_inv now urandom st config conn w : outbound now urandom st config = (Ok conn, w) ->
  read_handshake (mkBufReader [] (tcp_chunks st)) = (Ok (conn_peer_spec conn), reader conn) /\
  validate_peer (conn_peer_spec conn) (network config) = inr tt /\
  conn_magic conn = magic (network config) /\ writer conn = w /\
  wr_sent w = wr_sent (tcp_writer st) ++ build now urandom config.
Proof.
  unfold outbound, send_handshake, write_all. case_decide; [|done]. cbn [flush].
  unfold timed_handshake. destruct (tcp_late st); [done|].
  destruct (read_handshake _) as [[spec|e] r]; [|done].
  destruct (validate_peer spec _) as [|[]] eqn:Ev; [done|]. intros [= <- <-]. by split_and!.
Qed.

Lemma inbound_inv now urandom st config conn w : inbound now urandom st config = (Ok conn, w) ->
  read_handshake (mkBufReader [] (tcp_chunks st)) = (Ok (conn_peer_spec conn), reader conn) /\
  validate_peer (conn_peer_spec conn) (network config) = inr tt /\
  conn_magic conn = magic (network config) /\ writer conn = w /\
  wr_sent w = wr_sent (tcp_writer st) ++ build now urandom config.
Proof.
  unfold inbound, timed_handshake. destruct (tcp_late st); [done|].
  destruct (read_handshake _) as [[spec|e] r]; [|done].
  destruct (validate_peer spec _) as [|[]] eqn:Ev; [done|].
  unfold send_handshake, write_all. case_decide; [|done]. cbn [flush]. intros [= <- <-]. by split_and!.
Qed.

(** ** Properties *)

(** C26: no byte is lost between the handshake and the first frame: when either
    side completes its handshake, the bytes received are those of one handshake,
    parsed as the peer specification the connection keeps, followed by exactly
    what the connection's reader still has; the peer passed validation, the
    magic is that of the network, and the proxy's own handshake was sent whole,
    once. *)
Theorem connection_no_bytes_lost now urandom st config conn w :
  outbound now urandom st config = (Ok conn, w) \/ inbound now urandom st config = (Ok conn, w) ->
  exists hs, delivered (tcp_chunks st) = hs ++ stream (reader conn) /\
    measure_size hs = Ok (Z.of_nat (length hs)) /\ parse hs = Ok (peer_spec conn) /\
    validate_peer (peer_spec conn) (network config) = inr tt /\
    conn_magic conn = magic (network config) /\ writer conn = w /\
    wr_sent w = wr_sent (tcp_writer st) ++ build now urandom config.
Proof.
  intros H. assert (Hi := match H with or_introl H => outbound_inv _ _ _ _ _ _ H
                                     | or_intror H => inbound_inv _ _ _ _ _ _ H end).
  destruct Hi as (Hr & Hv & Hm & Hw & Hs). destruct (read_handshake_inv _ _ _ Hr) as (hs & Hst & Hhs).
  exists hs. specialize (Hhs []). rewrite app_nil_r in Hhs. destruct Hhs as [Hp Hme].
  split_and!; try done.
Qed.

Definition other_config : HandshakeConfig :=
  mkHandshakeConfig [101; 114; 103; 111] [112] (mkVersion 5 0 0) Testnet Light None.

Definition zeros8 : list Z := replicate 8 0.

Lemma connection_no_bytes_lost_witness :
  let received := build 7 zeros8 other_config ++ [2; 3; 2] in
  let st := mkTcpStream [received; [3; 1]] (mkWriter [] 200) false in
  exists hs, delivered [received; [3; 1]] = hs ++ [2; 3; 2; 3; 1] /\
    measure_size hs = Ok (Z.of_nat (length hs)) /\ parse hs = Ok (config_spec zeros8 other_config).
Proof.
  intros received st.
  destruct (connection_no_bytes_lost 9 zeros8 st proxy_config
    (mkConnection (mkBufReader [2; 3; 2] [[3; 1]])
       (mkWriter (build 9 zeros8 proxy_config) (200 - length (build 9 zeros8 proxy_config)))
       (magic Testnet) (config_spec zeros8 other_config))
    (mkWriter (build 9 zeros8 proxy_config) (200 - length (build 9 zeros8 proxy_config))))
    as (hs & H1 & H2 & H3 & _).
  - left. vm_compute. reflexivity.
  - exists hs. split; [exact H1|]. split; [exact H2|exact H3].
Defined.

(** C29: an inbound peer is sent nothing before it has been read, parsed and
    validated: if that fails, with a timeout, an empty or malformed handshake or
    a rejected peer, the proxy has written no byte and the error says why. An
    outbound connection sends the proxy's handshake whatever the peer does. *)
Theorem inbound_silent_until_valid now urandom st config :
  let ready := exists spec r, tcp_late st = false /\
    read_handshake (mkBufReader [] (tcp_chunks st)) = (Ok spec, r) /\
    validate_peer spec (network config) = inr tt in
  (~ ready -> exists e, inbound now urandom st config = (Err e, tcp_writer st) /\
     e = (if tcp_late st then HandshakeTimeout else
          match (read_handshake (mkBufReader [] (tcp_chunks st))).1 with
          | Err e => e
          | Ok spec => match validate_peer spec (network config) with
                       | inl r => PeerRejected r | inr _ => e end
          end)) /\
  ((length (build now urandom config) <= wr_room (tcp_writer st))%nat ->
   wr_sent (outbound now urandom st config).2 = wr_sent (tcp_writer st) ++ build now urandom config).
Proof.
  intros ready. split.
  - intros Hn. unfold inbound, timed_handshake. subst ready. destruct (tcp_late st); [eauto|].
    destruct (read_handshake _) as [[spec|e] r] eqn:Er; cbn; [|eauto].
    destruct (validate_peer spec _) as [rej|[]] eqn:Ev; [eauto|].
    exfalso. apply Hn. eauto.
  - intros Hroom. unfold outbound, send_handshake. rewrite write_all_ok by done. cbn [flush].
    destruct (timed_handshake _ _) as [[spec|e] r]; [|done]. by destruct (validate_peer spec _).
Qed.

Lemma inbound_silent_until_valid_witness :
  let st := mkTcpStream [build 7 zeros8 other_config] (mkWriter [] 200) false in
  let mainnet := mkHandshakeConfig [101] [110] (mkVersion 6 0 3) Mainnet Full None in
  exists e, inbound 9 zeros8 st mainnet = (Err e, mkWriter [] 200) /\
    e = PeerRejected (SessionMagicMismatch [2; 3; 2; 3] [1; 0; 2; 4]).
Proof.
  intros st mainnet.
  apply (proj1 (inbound_silent_until_valid 9 zeros8 st mainnet)).
  intros (spec & r & _ & Hr & Hv). vm_compute in Hr. injection Hr as <- _.
  vm_compute in Hv. discriminate Hv.
Defined.

(** C28: two proxies whose names fit, and that handshake with each other over a
    connection that delivers each handshake in one read, in time, and takes each
    whole, succeed each exactly when the other is of version at least 4.0.100 and
    on its network; when both do, each holds the other's identity, knows it is a
    proxy, and reads from the first byte after the handshake. (A handshake that
    is split over two reads is [split_handshake_refused].) *)
Theorem proxies_handshake now1 now2 rnd1 rnd2 c1 c2 room1 room2 rest1 rest2 more1 more2 :
  config_ok c1 -> config_ok c2 ->
  (length (build now1 rnd1 c1) <= room1)%nat -> (length (build now2 rnd2 c2) <= room2)%nat ->
  let out := outbound now1 rnd1
    (mkTcpStream ((build now2 rnd2 c2 ++ rest2) :: more2) (mkWriter [] room1) false) c1 in
  let inb := inbound now2 rnd2
    (mkTcpStream ((build now1 rnd1 c1 ++ rest1) :: more1) (mkWriter [] room2) false) c2 in
  let accepted c := 4 * 65536 + 100 <= major (cfg_version c) * 65536 + minor (cfg_version c) * 256
                                        + patch (cfg_version c) in
  (network c1 = network c2 -> accepted c1 -> accepted c2 ->
   exists conn1 conn2, out.1 = Ok conn1 /\ inb.1 = Ok conn2 /\
     peer_spec conn1 = config_spec rnd2 c2 /\ peer_spec conn2 = config_spec rnd1 c1 /\
     is_proxy (peer_spec conn1) = true /\ is_proxy (peer_spec conn2) = true /\
     stream (reader conn1) = rest2 ++ delivered more2 /\ stream (reader conn2) = rest1 ++ delivered more1 /\
     wr_sent (writer conn1) = build now1 rnd1 c1 /\ wr_sent (writer conn2) = build now2 rnd2 c2) /\
  ((exists conn1, out.1 = Ok conn1) <-> network c1 = network c2 /\ accepted c2) /\
  ((exists conn2, inb.1 = Ok conn2) <-> network c2 = network c1 /\ accepted c1).
Proof.
  intros Hc1 Hc2 Hr1 Hr2. cbv zeta.
  unfold outbound, inbound, send_handshake, timed_handshake. cbn [tcp_writer tcp_late tcp_chunks].
  rewrite !write_all_ok by done. cbn [flush]. rewrite !read_handshake_ok by done.
  pose proof (config_validate rnd2 c2 (network c1)) as Hv2. pose proof (config_validate rnd1 c1 (network c2)) as Hv1.
  rewrite version_min_iff in Hv1 by apply Hc1. rewrite version_min_iff in Hv2 by apply Hc2.
  destruct (validate_peer (config_spec rnd2 c2) (network c1)) as [e2|[]];
    destruct (validate_peer (config_spec rnd1 c1) (network c2)) as [e1|[]]; cbn;
    (split_and!; [|naive_solver|naive_solver]); intros Hn Ha1 Ha2.
  1-3: exfalso; naive_solver.
  do 2 eexists. by split_and!.
Qed.

Lemma proxies_handshake_witness :
  exists conn1 conn2,
    (outbound 5 zeros8 (mkTcpStream [build 7 zeros8 other_config ++ []] (mkWriter [] 200) false) proxy_config).1 = Ok conn1 /\
    (inbound 7 zeros8 (mkTcpStream [build 5 zeros8 proxy_config ++ [2; 3]] (mkWriter [] 200) false) other_config).1 = Ok conn2 /\
    peer_spec conn1 = config_spec zeros8 other_config /\ peer_spec conn2 = config_spec zeros8 proxy_config.
Proof.
  destruct (proxies_handshake 5 7 zeros8 zeros8 proxy_config other_config 200 200 [2; 3] [] [] [])
    as [(conn1 & conn2 & H1 & H2 & H3 & H4 & _) _]; [by_decide|by_decide|vm_compute; lia|vm_compute; lia|reflexivity|vm_compute; discriminate|vm_compute; discriminate|].
  exists conn1, conn2. split; [exact H1|]. split; [exact H2|]. split; [exact H3|exact H4].
Defined.

(** C30: a handshake that the network splits is refused: if the first read
    returns a proper part of the peer's handshake, both the inbound and the
    outbound side fail, however the rest arrives and whoever the peer is. *)
Theorem split_handshake_refused now urandom nowp rndp peer pre ext more w config :
  config_ok peer -> build nowp rndp peer = pre ++ ext -> pre <> [] -> ext <> [] ->
  let st := mkTcpStream (pre :: ext :: more) w false in
  (exists e, (inbound now urandom st config).1 = Err e) /\
  (exists e, (outbound now urandom st config).1 = Err e).
Proof.
  intros Hc Hb Hpre Hext st. destruct (build_prefix_unmeasured _ _ _ _ _ Hc Hb Hext) as [e He].
  assert (Hr : exists e r, read_handshake (mkBufReader [] (tcp_chunks st)) = (Err e, r)).
  { unfold read_handshake, measure_handshake_size. cbn [st tcp_chunks fill_buf br_buf br_chunks].
    destruct pre as [|b0 pre]; [done|]. rewrite He. destruct (parse (b0 :: pre)); eauto. }
  destruct Hr as (e' & r & Hr). unfold inbound, outbound, timed_handshake. cbn [st tcp_late].
  rewrite Hr. split; [eauto|]. destruct (send_handshake _ _) as [[]]; eauto.
Qed.

Lemma split_handshake_refused_witness :
  let hs := build 7 zeros8 other_config in
  let st := mkTcpStream [take 20 hs; drop 20 hs] (mkWriter [] 200) false in
  (exists e, (inbound 9 zeros8 st proxy_config).1 = Err e) /\
  (exists e, (outbound 9 zeros8 st proxy_config).1 = Err e).
Proof.
  intros hs st.
  apply (split_handshake_refused 9 zeros8 7 zeros8 other_config (take 20 hs) (drop 20 hs) [] (mkWriter [] 200) proxy_config);
    [by_decide|symmetry; apply take_drop|vm_compute; discriminate|vm_compute; discriminate].
Defined.

(** C27: a peer's handshake followed by its frames is received whole: once the
    handshake has arrived in the first read, on either side, and the peer is
    acceptable, the connection's reader yields exactly those frames, in order,
    however the rest of the bytes is cut into reads. *)
Theorem handshake_then_frames `{Blake2b256Laws} now urandom nowp rndp peer fs part more w config :
  config_ok peer -> Forall frame_ok fs -> network peer = network config ->
  4 * 65536 + 100 <= major (cfg_version peer) * 65536 + minor (cfg_version peer) * 256 + patch (cfg_version peer) ->
  (length (build now urandom config) <= wr_room w)%nat ->
  part ++ delivered more = concat (encode (magic (network peer)) <$> fs) ->
  let st := mkTcpStream ((build nowp rndp peer ++ part) :: more) w false in
  exists conn, (inbound now urandom st config).1 = Ok conn /\ (outbound now urandom st config).1 = Ok conn /\
    peer_spec conn = config_spec rndp peer /\
    exists r', read_frames (conn_magic conn) (length fs) (reader conn) = (Ok fs, r') /\ stream r' = [].
Proof.
  intros Hc Hfs Hnet Hver Hroom Hbytes st.
  assert (Hv : validate_peer (config_spec rndp peer) (network config) = inr tt).
  { apply config_validate. split; [|done]. apply version_min_iff; [apply Hc|done]. }
  unfold inbound, outbound, send_handshake, timed_handshake. cbn [st tcp_writer tcp_late tcp_chunks].
  rewrite write_all_ok by done. cbn [flush]. rewrite read_handshake_ok, Hv by done. cbn [fst].
  eexists. split; [done|]. split; [done|]. split; [done|]. cbn [conn_magic reader]. rewrite <- Hnet.
  change (fun r' => _ /\ stream r' = []) with (fun r' : BufReader =>
    read_frames (magic (network peer)) (length fs) (mkBufReader part more) = (Ok fs, r') /\ view r' = []).
  apply (reads_frames (magic (network peer)) fs (magic_length _) Hfs (mkBufReader part more) []).
  rewrite app_nil_r. exact Hbytes.
Qed.

Lemma handshake_then_frames_witness :
  let frames := [mkFrame 1 []; mkFrame 55 [7; 8]] in
  let bytes := concat (@encode toy_digest (magic Testnet) <$> frames) in
  let st := mkTcpStream [build 7 zeros8 other_config ++ take 5 bytes; drop 5 bytes] (mkWriter [] 200) false in
  exists conn, (inbound 9 zeros8 st proxy_config).1 = Ok conn /\ (outbound 9 zeros8 st proxy_config).1 = Ok conn /\
    peer_spec conn = config_spec zeros8 other_config /\
    exists r', @read_frames toy_digest _ _ (conn_magic conn) 2 (reader conn) = (Ok frames, r') /\ stream r' = [].
Proof.
  intros frames bytes st.
  refine (@handshake_then_frames toy_digest toy_digest_laws 9 zeros8 7 zeros8 other_config frames
    (take 5 bytes) [drop 5 bytes] (mkWriter [] 200) proxy_config _ _ eq_refl _ _ _);
    [by_decide|by_decide|vm_compute; discriminate|vm_compute; lia|vm_compute; reflexivity].
Defined.
