(* ===== verification/Config.v ===== *)
(** * [src/config.rs]: the configuration file

    Reading the file and decoding TOML are the host's and the [toml] crate's:
    they are parameters of [load]. Strings are their UTF-8 bytes. *)
From S2P Require Import Prelude Io Types Vlq Frame Handshake.

(** ** Data *)

Record ProxyConfig := mkProxyConfig { proxy_network : Network }.

Record ListenerConfig := mkListenerConfig {
  listener_address : SocketAddr; listener_mode : ProxyMode; max_inbound : Z
}.

Record ListenConfig := mkListenConfig {
  ipv6 : option ListenerConfig; ipv4 : option ListenerConfig
}.

Record OutboundConfig := mkOutboundConfig {
  min_peers : Z; max_peers : Z; seed_peers : list SocketAddr
}.

Record IdentityConfig := mkIdentityConfig {
  id_agent_name : list Z; id_peer_name : list Z; protocol_version : list Z
}.

Record Config := mkConfig {
  proxy : ProxyConfig; listen : ListenConfig; outbound_cfg : OutboundConfig; identity : IdentityConfig
}.

(** [ParseIntError] of the standard library. *)
Inductive ParseIntError := Empty | InvalidDigit | PosOverflow.

Inductive config_error :=
  | FileError
  | TomlError
  | NoListener
  | NoSeedPeer
  | MinOverMax
  | InvalidVersion (v : list Z)
  | BadInt (e : ParseIntError).

(** ** Operations *)

Section load.
(** [std::fs::read_to_string] and [toml::from_str]. *)
Context (read_to_string : list Z -> option (list Z)) (toml_from_str : list Z -> option Config).

Definition load (path : list Z) : config_error + Config :=
  match read_to_string path with
  | None => inl FileError
  | Some content =>
      match toml_from_str content with
      | None => inl TomlError
      | Some config =>
          match ipv4 (listen config), ipv6 (listen config) with
          | None, None => inl NoListener
          | _, _ =>
              if bool_decide (seed_peers (outbound_cfg config) = []) then inl NoSeedPeer
              else if max_peers (outbound_cfg config) <? min_peers (outbound_cfg config) then inl MinOverMax
              else inr config
          end
      end
  end.

End load.

(** [str::split(c)]: the parts between the occurrences of [c]. *)
Fixpoint split_on (c : Z) (s : list Z) : list (list Z) :=
  match s with
  | [] => [[]]
  | b :: s =>
      if b =? c then [] :: split_on c s
      else match split_on c s with
           | part :: parts => (b :: part) :: parts
           | [] => [[b]]
           end
  end.

Definition DOT : Z := 46.
Definition PLUS : Z := 43.
Definition MINUS : Z := 45.

(** [char::to_digit(10)]. *)
Definition to_digit (b : Z) : option Z :=
  if (48 <=? b) && (b <=? 57) then Some (b - 48) else None.

(** The loop of [u8::from_str]: checked multiplication, the digit, checked
    addition. *)
Fixpoint parse_digits (result : Z) (digits : list Z) : ParseIntError + Z :=
  match digits with
  | [] => inr result
  | b :: digits =>
      match to_digit b with
      | None => inl InvalidDigit
      | Some x => if 255 <? result * 10 + x then inl PosOverflow else parse_digits (result * 10 + x) digits
      end
  end.

(** [str::parse::<u8>]: one leading plus is allowed, a sign alone is not. *)
Definition parse_u8 (s : list Z) : ParseIntError + Z :=
  match s with
  | [] => inl Empty
  | [b] => if (b =? PLUS) || (b =? MINUS) then inl InvalidDigit else parse_digits 0 s
  | b :: rest => if b =? PLUS then parse_digits 0 rest else parse_digits 0 s
  end.

Definition version_bytes (self : Config) : config_error + (Z * Z * Z) :=
  let v := protocol_version (identity self) in
  match split_on DOT v with
  | [p0; p1; p2] =>
      match parse_u8 p0 with
      | inl e => inl (BadInt e)
      | inr a =>
          match parse_u8 p1 with
          | inl e => inl (BadInt e)
          | inr b =>
              match parse_u8 p2 with
              | inl e => inl (BadInt e)
              | inr c => inr (a, b, c)
              end
          end
      end
  | _ => inl (InvalidVersion v)
  end.

(** ** Printing a version: [impl Display for Version] *)

Definition u8_to_string (n : Z) : list Z :=
  if n <? 10 then [48 + n]
  else if n <? 100 then [48 + n / 10; 48 + n mod 10]
  else [48 + n / 100; 48 + n / 10 mod 10; 48 + n mod 10].

Definition version_to_string (v : Version) : list Z :=
  u8_to_string (major v) ++ DOT :: u8_to_string (minor v) ++ DOT :: u8_to_string (patch v).

(** ** Lemmas *)

(** The number a string of digits denotes. *)
Definition digits_value (ds : list Z) : Z := foldl (fun n b => n * 10 + (b - 48)) 0 ds.

Definition is_digit (b : Z) : Prop := 48 <= b <= 57.

Lemma to_digit_spec b : to_digit b = if decide (is_digit b) then Some (b - 48) else None.
Proof.
  unfold to_digit, is_digit. destruct (Z.leb_spec 48 b), (Z.leb_spec b 57); cbn;
    repeat case_decide; done || lia.
Qed.

Lemma digits_grow ds : forall n, 0 <= n -> Forall is_digit ds ->
  n <= foldl (fun n b => n * 10 + (b - 48)) n ds.
Proof.
  induction ds as [|b ds IH]; intros n Hn Hd; cbn; [lia|].
  apply Forall_cons in Hd as [Hb Hd]. unfold is_digit in Hb.
  specialize (IH (n * 10 + (b - 48)) ltac:(lia) Hd). lia.
Qed.

Lemma parse_digits_iff ds : forall r n, 0 <= r ->
  parse_digits r ds = inr n <->
  Forall is_digit ds /\ n = foldl (fun n b => n * 10 + (b - 48)) r ds /\ (ds = [] \/ n <= 255).
Proof.
  induction ds as [|b ds IH]; intros r n Hr; cbn.
  { split; [intros [= ->]; auto|]. intros (_ & -> & _). done. }
  rewrite to_digit_spec. unfold is_digit at 1. case_decide as Hb.
  2: { split; [done|]. intros (Hd & _). by apply Forall_cons in Hd as [? _]. }
  destruct (Z.ltb_spec 255 (r * 10 + (b - 48))) as [Hgt|Hle].
  - split; [done|]. intros (Hd & -> & [?|Hn]); [done|]. apply Forall_cons in Hd as [_ Hd].
    pose proof (digits_grow ds (r * 10 + (b - 48)) ltac:(unfold is_digit in *; lia) Hd). lia.
  - rewrite IH by (unfold is_digit in *; lia). rewrite Forall_cons. split.
    + intros (Hd & -> & Hn). split_and!; try done. right. destruct Hn as [->|]; [cbn; lia|done].
    + intros ([_ Hd] & -> & Hn). split_and!; try done. right. by destruct Hn.
Qed.

(** A decimal numeral of a byte: digits, at least one, after an optional plus. *)
Definition u8_numeral (s : list Z) (n : Z) : Prop :=
  exists ds, (s = ds \/ s = PLUS :: ds) /\ ds <> [] /\ Forall is_digit ds /\ n = digits_value ds /\ n <= 255.

Lemma plus_not_digit : ~ is_digit PLUS.
Proof. unfold is_digit, PLUS. lia. Qed.

Lemma parse_digits_0 ds n : ds <> [] ->
  parse_digits 0 ds = inr n <-> Forall is_digit ds /\ n = digits_value ds /\ n <= 255.
Proof. intros Hd. rewrite parse_digits_iff by lia. unfold digits_value. tauto. Qed.

Lemma parse_u8_iff s n : parse_u8 s = inr n <-> u8_numeral s n.
Proof.
  unfold parse_u8, u8_numeral. destruct s as [|b [|b' s]].
  - split; [done|]. intros (ds & [<-|?] & ? & _); done.
  - destruct (Z.eqb_spec b PLUS) as [->|Hp]; cbn [orb].
    { split; [done|]. intros (ds & [<-|[= <-]] & Hne & Hd & _); [|done].
      by apply Forall_cons in Hd as [?%plus_not_digit _]. }
    destruct (Z.eqb_spec b MINUS) as [->|Hm].
    { split; [done|]. intros (ds & [<-|?] & Hne & Hd & _); [|done].
      apply Forall_cons in Hd as [Hd _]. unfold is_digit, MINUS in Hd. lia. }
    rewrite parse_digits_0 by done. split; [intros Hd; exists [b]; split; [by left|by split]|].
    intros (ds & [<-|[= ? <-]] & Hne & Hd); [tauto|done].
  - destruct (Z.eqb_spec b PLUS) as [->|Hp]; rewrite parse_digits_0 by done; split.
    + intros Hd. exists (b' :: s). split; [by right|]. split; [done|tauto].
    + intros (ds & [<-|[= <-]] & Hne & Hd & Hd2); [|tauto].
      by apply Forall_cons in Hd as [?%plus_not_digit _].
    + intros Hd. exists (b :: b' :: s). split; [by left|]. split; [done|tauto].
    + intros (ds & [<-|[= ? <-]] & Hne & Hd & Hd2); [tauto|done].
Qed.

Lemma numeral_no_dot s n : u8_numeral s n -> DOT ∉ s.
Proof.
  intros (ds & Hs & _ & Hd & _) Hin. rewrite Forall_forall in Hd.
  assert (DOT ∈ ds) as Hds.
  { destruct Hs as [->| ->]; [done|]. by apply elem_of_cons in Hin as [?|?]. }
  specialize (Hd _ Hds). unfold is_digit, DOT in Hd. lia.
Qed.

Lemma split_on_nil_inv c s : split_on c s <> [].
Proof. destruct s as [|b s]; cbn; [done|]. destruct (b =? c); [done|]. by destruct (split_on c s). Qed.

(** Splitting is undone by joining. *)
Lemma split_on_inv c s : forall p ps, split_on c s = p :: ps ->
  match ps with
  | [] => s = p
  | _ => exists s', s = p ++ c :: s' /\ split_on c s' = ps
  end.
Proof.
  induction s as [|b s IH]; intros p ps; cbn; [by intros [= <- <-]|].
  destruct (Z.eqb_spec b c) as [->|Hne].
  - intros [= <- <-]. destruct (split_on c s) eqn:E; [by apply split_on_nil_inv in E|]. exists s. done.
  - destruct (split_on c s) as [|p' ps'] eqn:E; [by apply split_on_nil_inv in E|]. intros [= <- <-].
    specialize (IH _ _ eq_refl). destruct ps'; [by rewrite IH|]. destruct IH as (s' & -> & E'). by exists s'.
Qed.

Lemma split_on_part c p s : c ∉ p -> split_on c (p ++ c :: s) = p :: split_on c s.
Proof.
  induction p as [|b p IH]; intros Hc; cbn; [by rewrite Z.eqb_refl|].
  rewrite elem_of_cons in Hc. rewrite IH by tauto.
  destruct (Z.eqb_spec b c) as [->|_]; [|done]. tauto.
Qed.

Lemma split_on_last c p : c ∉ p -> split_on c p = [p].
Proof.
  induction p as [|b p IH]; intros Hc; cbn; [done|].
  rewrite elem_of_cons in Hc. rewrite IH by tauto.
  destruct (Z.eqb_spec b c) as [->|_]; [|done]. tauto.
Qed.

Lemma version_bytes_iff config a b c :
  version_bytes config = inr (a, b, c) <->
  exists p0 p1 p2, protocol_version (identity config) = p0 ++ DOT :: p1 ++ DOT :: p2 /\
    u8_numeral p0 a /\ u8_numeral p1 b /\ u8_numeral p2 c.
Proof.
  unfold version_bytes. split.
  - destruct (split_on DOT _) as [|p0 [|p1 [|p2 []]]] eqn:E; try done.
    destruct (parse_u8 p0) as [|a'] eqn:E0; [done|]. destruct (parse_u8 p1) as [|b'] eqn:E1; [done|].
    destruct (parse_u8 p2) as [|c'] eqn:E2; [done|]. intros [= <- <- <-].
    exists p0, p1, p2. rewrite <- !parse_u8_iff. split; [|done].
    apply split_on_inv in E as (s1 & -> & E). apply split_on_inv in E as (s2 & -> & E).
    apply split_on_inv in E as ->. done.
  - intros (p0 & p1 & p2 & -> & H0 & H1 & H2).
    rewrite !split_on_part, split_on_last by (by eapply numeral_no_dot).
    rewrite <- !parse_u8_iff in *. by rewrite H0, H1, H2.
Qed.

Lemma u8_to_string_numeral n : u8 n -> u8_numeral (u8_to_string n) n.
Proof.
  intros Hn. width. exists (u8_to_string n). split; [by left|]. unfold u8_to_string, digits_value, is_digit.
  destruct (Z.ltb_spec n 10); [|destruct (Z.ltb_spec n 100)]; (split; [done|]); cbn;
    (split; [repeat constructor; Z.to_euclidean_division_equations; lia|Z.to_euclidean_division_equations; lia]).
Qed.

(** The three checks of [load], in order. *)
Lemma load_checks c :
  match ipv4 (listen c), ipv6 (listen c) with
  | None, None => inl NoListener
  | _, _ =>
      if bool_decide (seed_peers (outbound_cfg c) = []) then inl NoSeedPeer
      else if max_peers (outbound_cfg c) <? min_peers (outbound_cfg c) then inl MinOverMax
      else inr c
  end =
  if decide (is_Some (ipv4 (listen c)) \/ is_Some (ipv6 (listen c))) then
    if decide (seed_peers (outbound_cfg c) = []) then inl NoSeedPeer
    else if decide (min_peers (outbound_cfg c) <= max_peers (outbound_cfg c)) then inr c
    else inl MinOverMax
  else inl NoListener.
Proof.
  assert (E : forall A (x y : A), (if max_peers (outbound_cfg c) <? min_peers (outbound_cfg c) then x else y)
    = if decide (min_peers (outbound_cfg c) <= max_peers (outbound_cfg c)) then y else x).
  { intros A x y. destruct (Z.ltb_spec (max_peers (outbound_cfg c)) (min_peers (outbound_cfg c)));
      case_decide; done || lia. }
  rewrite E. destruct (ipv4 (listen c)), (ipv6 (listen c)).
  1-3: rewrite (decide_True (P := is_Some _ \/ is_Some _)) by ((left; by eexists) || (right; by eexists));
    case_bool_decide; repeat case_decide; done || tauto.
  rewrite (decide_False (P := is_Some _ \/ is_Some _)); [done|]. by intros [[? ?]|[? ?]].
Qed.

Definition sample_config : Config :=
  mkConfig (mkProxyConfig Testnet)
    (mkListenConfig None (Some (mkListenerConfig (mkSocketAddr (V4 [0; 0; 0; 0]) 9030) Full 20)))
    (mkOutboundConfig 3 10 [mkSocketAddr (V4 [95; 179; 246; 102]) 9023])
    (mkIdentityConfig [101; 114; 103; 111] [112] [54; 46; 48; 46; 51]).

(** ** Properties *)

(** [load] returns a configuration exactly when the file can be read and
    decoded and the configuration has a listener, a seed peer and
    [min_peers <= max_peers]; each other case is the error of the first check
    that fails. *)
Theorem config_load_iff fs toml path config :
  (load fs toml path = inr config <->
   exists content, fs path = Some content /\ toml content = Some config /\
     (is_Some (ipv4 (listen config)) \/ is_Some (ipv6 (listen config))) /\
     seed_peers (outbound_cfg config) <> [] /\
     min_peers (outbound_cfg config) <= max_peers (outbound_cfg config)) /\
  (load fs toml path = inl NoSeedPeer <->
   exists content c, fs path = Some content /\ toml content = Some c /\
     (is_Some (ipv4 (listen c)) \/ is_Some (ipv6 (listen c))) /\ seed_peers (outbound_cfg c) = []).
Proof.
  unfold load. destruct (fs path) as [content|] eqn:Ef; [|naive_solver].
  destruct (toml content) as [c|] eqn:Et; [|naive_solver].
  rewrite load_checks. repeat case_decide; split; try naive_solver.
Qed.

Lemma config_load_iff_witness :
  load (fun _ => Some []) (fun _ => Some sample_config) [] = inr sample_config.
Proof.
  apply (proj1 (config_load_iff (fun _ => Some []) (fun _ => Some sample_config) [] sample_config)).
  exists []. split; [reflexivity|]. split; [reflexivity|]. split; [left; eexists; reflexivity|].
  split; [discriminate|]. cbn. lia.
Defined.

(** [version_bytes] accepts exactly the strings of three decimal numerals
    of a byte separated by dots (each with at least one digit and an optional
    plus sign), and returns their values, all below 256. *)
Theorem config_version_iff config a b c :
  (version_bytes config = inr (a, b, c) <->
   exists p0 p1 p2, protocol_version (identity config) = p0 ++ DOT :: p1 ++ DOT :: p2 /\
     u8_numeral p0 a /\ u8_numeral p1 b /\ u8_numeral p2 c) /\
  (version_bytes config = inr (a, b, c) -> version_ok (mkVersion a b c)).
Proof.
  split; [apply version_bytes_iff|]. rewrite version_bytes_iff. intros (p0 & p1 & p2 & _ & H0 & H1 & H2).
  assert (Hb : forall s n, u8_numeral s n -> u8 n).
  { intros s n (ds & _ & _ & Hd & -> & Hle). pose proof (digits_grow ds 0 ltac:(lia) Hd). unfold digits_value in *. solve_width. }
  split_and!; cbn; eauto.
Qed.

(** A printed version parses back: a configuration whose
    [protocol_version] is the text of a version yields that version. *)
Theorem version_string_roundtrip v config : version_ok v ->
  protocol_version (identity config) = version_to_string v ->
  version_bytes config = inr (major v, minor v, patch v).
Proof.
  intros (H0 & H1 & H2) Hs. apply version_bytes_iff. rewrite Hs.
  do 3 eexists. split; [done|]. auto using u8_to_string_numeral.
Qed.

Lemma config_version_iff_witness : version_ok (mkVersion 6 0 3).
Proof. apply (proj2 (config_version_iff sample_config 6 0 3)). vm_compute. reflexivity. Defined.

Lemma version_string_roundtrip_witness : version_bytes sample_config = inr (6, 0, 3).
Proof. apply (version_string_roundtrip (mkVersion 6 0 3)); [by_decide|vm_compute; reflexivity]. Defined.
