(* ===== verification/Node.v ===== *)
(** * [src/main.rs]: the tasks of the proxy and how they interleave

    The tasks share the router, the map of peer senders (each behind a lock),
    the event channel (256 places) and an atomic counter; each peer has a task
    ([run_peer]), a writer task and a channel of 64 frames between them. Each
    [Definition] below is what one task does between two points where it may
    wait; [None] says that the task cannot take that step now. A [Label] names
    the step and carries what the environment decides: the bytes a socket will
    deliver, the clock, random bytes, the iteration order of a [HashMap].

    A task waits for its socket: a read returns only when the reads of the
    socket that have arrived ([DoArrive]) are enough for it, or the socket has
    ended; a write returns only when the socket has taken the bytes of the frame
    ([DoTaken]), or has broken. A peer that stays silent, sends part of a frame,
    or takes nothing is one for which those steps do not happen. *)
From S2P Require Import Prelude Io Types Vlq Frame Handshake Messages Peer PeerTable InvTable Tracker Latency Router Connection Config.

(** ** Configuration *)

Definition make_handshake_config (identity : IdentityConfig) (version : Version) (network : Network)
    (mode : ProxyMode) : HandshakeConfig :=
  mkHandshakeConfig (id_agent_name identity) (id_peer_name identity) version network mode None.

(** The arguments [accept_loop] is spawned with for a listener. *)
Record Listener := mkListener { l_hs : HandshakeConfig; l_mode : ProxyMode; l_max_inbound : Z }.

Record NodeConfig := mkNodeConfig {
  nc_listeners : list Listener;
  nc_outbound : HandshakeConfig;
  nc_min_peers : Z;
  nc_seeds : list SocketAddr
}.

(** What [main] starts: a listener per address, IPv6 first, and the outbound
    manager in full mode. *)
Definition node_config (config : Config) (version : Version) : NodeConfig :=
  let network := proxy_network (proxy config) in
  let hs := make_handshake_config (identity config) version network in
  let listener cfg := mkListener (hs (listener_mode cfg)) (listener_mode cfg) (max_inbound cfg) in
  mkNodeConfig
    (match ipv6 (listen config) with Some cfg => [listener cfg] | None => [] end ++
     match ipv4 (listen config) with Some cfg => [listener cfg] | None => [] end)
    (hs Full) (min_peers (outbound_cfg config)) (seed_peers (outbound_cfg config)).

(** ** State *)

(** Where the task of a peer stands, with what it holds there. *)
Inductive Phase :=
  | PHandshake (stream : TcpStream)          (* in Connection::inbound / outbound *)
  | PActive (conn : Connection)              (* run_peer entered *)
  | PRegistered (conn : Connection)          (* register_peer done *)
  | PConnected (conn : Connection)           (* PeerConnected sent *)
  | PReading (reader : BufReader) (magic : list Z)  (* at the top of the reader loop *)
  | PParsed (reader : BufReader) (magic : list Z) (msg : ProtocolMessage)  (* sending a Message event *)
  | PLost                                    (* out of the loop *)
  | PRemoved                                 (* sender removed *)
  | PAborted                                 (* writer aborted *)
  | PDone.

Record Task := mkTask {
  t_direction : Direction;
  t_mode : ProxyMode;
  t_hs : HandshakeConfig;
  t_spec : option PeerSpec;           (* of the connection, once there is one *)
  t_msgs : list ProtocolMessage;      (* Message events sent so far, for the proofs *)
  t_phase : Phase
}.

(** A peer's frame channel and its writer task. *)
Record Chan := mkChan {
  ch_queue : list Frame;
  ch_inflight : option Frame;    (* received by the writer, being written *)
  ch_open : bool;                (* the writer task is alive *)
  ch_writer : Writer;
  ch_magic : list Z;
  ch_taken : nat                 (* the bytes of that frame the socket has taken *)
}.

Definition EVENT_CAPACITY : nat := 256.
Definition FRAME_CAPACITY : nat := 64.

(** The event loop of [main]. *)
Inductive LoopState :=
  | LIdle
  | LActions (actions : list Action)     (* handle_event returned *)
  | LSending (actions : list Action).    (* holds the senders' lock *)

(** The keepalive task. *)
Inductive KeepState :=
  | KIdle
  | KPeers (pids : list PeerId)
  | KSending (pids : list PeerId).       (* holds the senders' lock *)

(** The outbound manager, with its backoff in seconds. *)
Inductive ManagerState :=
  | MTop (backoff : Z)
  | MScan (seeds : list SocketAddr) (backoff : Z)
  | MConnecting (addr : SocketAddr) (seeds : list SocketAddr) (backoff : Z).

Record Node := mkNode {
  n_router : Router.t;
  n_senders : gset PeerId;               (* the keys of peer_senders *)
  n_chans : gmap PeerId Chan;
  n_events : list ProtocolEvent;
  n_counter : Z;
  n_tasks : gmap PeerId Task;
  n_loop : LoopState;
  n_keep : KeepState;
  n_manager : ManagerState;
  n_handled : list ProtocolEvent;        (* events handled so far, for the proofs *)
  n_arrived : gmap PeerId nat            (* reads that arrived at a peer's socket and were not yet made *)
}.

Definition node_new : Node :=
  mkNode Router.new ∅ ∅ [] 1 ∅ LIdle KIdle (MTop 5) [] ∅.

Definition set_router r n := mkNode r (n_senders n) (n_chans n) (n_events n) (n_counter n) (n_tasks n) (n_loop n) (n_keep n) (n_manager n) (n_handled n) (n_arrived n).
Definition set_senders s n := mkNode (n_router n) s (n_chans n) (n_events n) (n_counter n) (n_tasks n) (n_loop n) (n_keep n) (n_manager n) (n_handled n) (n_arrived n).
Definition set_chans c n := mkNode (n_router n) (n_senders n) c (n_events n) (n_counter n) (n_tasks n) (n_loop n) (n_keep n) (n_manager n) (n_handled n) (n_arrived n).
Definition set_events e n := mkNode (n_router n) (n_senders n) (n_chans n) e (n_counter n) (n_tasks n) (n_loop n) (n_keep n) (n_manager n) (n_handled n) (n_arrived n).
Definition set_counter c n := mkNode (n_router n) (n_senders n) (n_chans n) (n_events n) c (n_tasks n) (n_loop n) (n_keep n) (n_manager n) (n_handled n) (n_arrived n).
Definition set_tasks t n := mkNode (n_router n) (n_senders n) (n_chans n) (n_events n) (n_counter n) t (n_loop n) (n_keep n) (n_manager n) (n_handled n) (n_arrived n).
Definition set_loop l n := mkNode (n_router n) (n_senders n) (n_chans n) (n_events n) (n_counter n) (n_tasks n) l (n_keep n) (n_manager n) (n_handled n) (n_arrived n).
Definition set_keep k n := mkNode (n_router n) (n_senders n) (n_chans n) (n_events n) (n_counter n) (n_tasks n) (n_loop n) k (n_manager n) (n_handled n) (n_arrived n).
Definition set_manager m n := mkNode (n_router n) (n_senders n) (n_chans n) (n_events n) (n_counter n) (n_tasks n) (n_loop n) (n_keep n) m (n_handled n) (n_arrived n).
Definition set_handled h n := mkNode (n_router n) (n_senders n) (n_chans n) (n_events n) (n_counter n) (n_tasks n) (n_loop n) (n_keep n) (n_manager n) h (n_arrived n).

Definition set_arrived a n := mkNode (n_router n) (n_senders n) (n_chans n) (n_events n) (n_counter n) (n_tasks n) (n_loop n) (n_keep n) (n_manager n) (n_handled n) a.

(** The task of [p] moves to a phase. *)
Definition set_phase (p : PeerId) (t : Task) (ph : Phase) (n : Node) : Node :=
  set_tasks (<[p := mkTask (t_direction t) (t_mode t) (t_hs t) (t_spec t) (t_msgs t) ph]> (n_tasks n)) n.

(** Nobody holds the lock of [peer_senders]. *)
Definition senders_free (n : Node) : bool :=
  match n_loop n, n_keep n with
  | LSending _, _ | _, KSending _ => false
  | _, _ => true
  end.

(** [event_tx.send(e).await]: waits while the channel is full. The receiver is
    the event loop, which never ends while a sender lives. *)
Definition send_event (e : ProtocolEvent) (n : Node) : option Node :=
  if decide (length (n_events n) < EVENT_CAPACITY)%nat then Some (set_events (n_events n ++ [e]) n) else None.

(** ** Waiting for a socket *)

Definition arrived (p : PeerId) (n : Node) : nat := default 0%nat (n_arrived n !! p).

(** The next read of the socket of [p] arrives: bytes, or its end. *)
Definition arrive (p : PeerId) (n : Node) : Node := set_arrived (<[p := S (arrived p n)]> (n_arrived n)) n.

(** The task of [p] has made the reads between two points of its stream. *)
Definition took (p : PeerId) (before after : list (list Z)) (n : Node) : Node :=
  set_arrived (<[p := (arrived p n - (length before - length after))%nat]> (n_arrived n)) n.

(** The end of the socket is among its first [k] reads. *)
Definition hung_up (k : nat) (chunks : list (list Z)) : bool :=
  bool_decide (length chunks < k)%nat || existsb (fun c => bool_decide (c = [])) (take k chunks).

(** What a reader can have without waiting, after [k] reads have arrived. *)
Definition available (k : nat) (r : BufReader) : BufReader := mkBufReader (br_buf r) (take k (br_chunks r)).

(** [read_frame] needs bytes that have not arrived. *)
Definition waiting `{Blake2b256} (k : nat) (magic : list Z) (r : BufReader) : bool :=
  negb (hung_up k (br_chunks r)) &&
  match (read_frame magic (available k r)).1 with Err UnexpectedEof => true | _ => false end.

(** The socket of [p] takes bytes of the frame its writer is writing. *)
Definition take_bytes (p : PeerId) (k : nat) (n : Node) : option Node :=
  c ← n_chans n !! p;
  match ch_inflight c, ch_open c with
  | Some f, true =>
      Some (set_chans (<[p := mkChan (ch_queue c) (Some f) true (ch_writer c) (ch_magic c) (ch_taken c + k)]> (n_chans n)) n)
  | _, _ => None
  end.

(** [write_frame] has written all its bytes, or as many as the socket takes
    before it breaks. *)
Definition write_ends `{Blake2b256} (c : Chan) (f : Frame) : bool :=
  bool_decide (length (encode (ch_magic c) f) <= ch_taken c \/ wr_room (ch_writer c) <= ch_taken c)%nat.

(** ** [accept_loop] *)

(** [router.lock().await.inbound_peers().len()]: the length does not depend on
    the order of iteration. *)
Definition count_direction (d : Direction) (r : Router.t) : Z :=
  Z.of_nat (length (Router.peers_of_direction (HashIter0 := list_order) d r)).

(** [peer_counter.fetch_add(1)], and the spawned task. *)
Definition spawn_peer (d : Direction) (mode : ProxyMode) (hs : HandshakeConfig) (st : TcpStream) (n : Node) : Node :=
  let p := mkPeerId (n_counter n) in
  set_tasks (<[p := mkTask d mode hs None [] (PHandshake st)]> (n_tasks n))
    (set_counter (as_unsigned 64 (n_counter n + 1)) n).

(** One turn of the loop of a listener for an accepted stream. *)
Definition accept (l : Listener) (st : TcpStream) (n : Node) : Node :=
  if l_max_inbound l <=? count_direction Inbound (n_router n) then n
  else spawn_peer Inbound (l_mode l) (l_hs l) st n.

(** ** [outbound_manager] *)

Definition next_backoff (b : Z) : Z := Z.min (b * 2) 300.

(** The top of the loop: scan the seeds or go on to the sleep. *)
Definition manager_top (cfg : NodeConfig) (n : Node) : option Node :=
  match n_manager n with
  | MTop b =>
      Some (set_manager (if count_direction Outbound (n_router n) <? nc_min_peers cfg
                         then MScan (nc_seeds cfg) b else MTop (next_backoff b)) n)
  | _ => None
  end.

(** The next seed of the [for] loop: its end, its [break], or a connection. *)
Definition manager_scan (cfg : NodeConfig) (n : Node) : option Node :=
  match n_manager n with
  | MScan [] b => Some (set_manager (MTop (next_backoff b)) n)
  | MScan (addr :: seeds) b =>
      Some (set_manager (if nc_min_peers cfg <=? count_direction Outbound (n_router n)
                         then MTop (next_backoff b) else MConnecting addr seeds b) n)
  | _ => None
  end.

(** [TcpStream::connect] returned: [None] is a failure or a timeout. *)
Definition manager_connected (cfg : NodeConfig) (res : option TcpStream) (n : Node) : option Node :=
  match n_manager n with
  | MConnecting _ seeds b =>
      match res with
      | Some st => Some (set_manager (MScan seeds 5) (spawn_peer Outbound Full (nc_outbound cfg) st n))
      | None => Some (set_manager (MScan seeds b) n)
      end
  | _ => None
  end.

(** ** The task of a peer: handshake, then [run_peer] *)

(** [Connection::inbound] or [Connection::outbound], once the read of the peer's
    handshake has returned or its 30 seconds are over; an outbound peer that is
    itself a proxy is skipped. *)
Definition handshake (now : Z) (urandom : list Z) (p : PeerId) (n : Node) : option Node :=
  t ← n_tasks n !! p;
  match t_phase t with
  | PHandshake st =>
      if decide (arrived p n = 0)%nat then None else
      let res := match t_direction t with
                 | Inbound => (inbound now urandom st (t_hs t)).1
                 | Outbound => (outbound now urandom st (t_hs t)).1
                 end in
      match res with
      | Err _ => Some (set_phase p t PDone n)
      | Ok conn =>
          if bool_decide (t_direction t = Outbound) && is_proxy (peer_spec conn)
          then Some (set_phase p t PDone n)
          else Some (took p (tcp_chunks st) (br_chunks (reader conn))
                 (set_phase p (mkTask (t_direction t) (t_mode t) (t_hs t) (Some (peer_spec conn)) (t_msgs t) (t_phase t))
                    (PActive conn) n))
      end
  | _ => None
  end.

Definition register (p : PeerId) (n : Node) : option Node :=
  t ← n_tasks n !! p;
  match t_phase t with
  | PActive conn =>
      Some (set_phase p t (PRegistered conn)
              (set_router (Router.register_peer p (t_direction t) (t_mode t) (n_router n)) n))
  | _ => None
  end.

Definition send_connected (p : PeerId) (n : Node) : option Node :=
  t ← n_tasks n !! p;
  match t_phase t with
  | PRegistered conn =>
      n ← send_event (PeerConnected p (peer_spec conn) (t_direction t)) n;
      Some (set_phase p t (PConnected conn) n)
  | _ => None
  end.

(** [conn.split()], the frame channel, its sender in the map, the writer task. *)
Definition insert_sender (p : PeerId) (n : Node) : option Node :=
  t ← n_tasks n !! p;
  match t_phase t with
  | PConnected conn =>
      if senders_free n then
        let '(reader, writer, magic, _) := split conn in
        Some (set_phase p t (PReading reader magic)
                (set_senders ({[p]} ∪ n_senders n)
                  (set_chans (<[p := mkChan [] None true writer magic 0]> (n_chans n)) n)))
      else None
  | _ => None
  end.

Section digest.
Context `{Blake2b256}.

(** [read_frame], which waits for the socket, and [from_frame]: a message to send
    on, a frame to skip, or the end of the loop. *)
Definition read_message (p : PeerId) (n : Node) : option Node :=
  t ← n_tasks n !! p;
  match t_phase t with
  | PReading reader magic =>
      if waiting (arrived p n) magic reader then None else
      match read_frame magic reader with
      | (Ok frame, reader') =>
          match from_frame frame with
          | Ok msg => Some (took p (br_chunks reader) (br_chunks reader') (set_phase p t (PParsed reader' magic msg) n))
          | Err _ => Some (took p (br_chunks reader) (br_chunks reader') (set_phase p t (PReading reader' magic) n))
          end
      | (Err _, _) => Some (set_phase p t PLost n)
      end
  | _ => None
  end.

Definition forward_message (p : PeerId) (n : Node) : option Node :=
  t ← n_tasks n !! p;
  match t_phase t with
  | PParsed reader magic msg =>
      n ← send_event (Message p msg) n;
      Some (set_phase p (mkTask (t_direction t) (t_mode t) (t_hs t) (t_spec t) (t_msgs t ++ [msg]) (t_phase t))
              (PReading reader magic) n)
  | _ => None
  end.

Definition remove_sender (p : PeerId) (n : Node) : option Node :=
  t ← n_tasks n !! p;
  match t_phase t with
  | PLost =>
      if senders_free n then Some (set_phase p t PRemoved (set_senders (n_senders n ∖ {[p]}) n)) else None
  | _ => None
  end.

Definition abort_writer (p : PeerId) (n : Node) : option Node :=
  t ← n_tasks n !! p;
  match t_phase t with
  | PRemoved => Some (set_phase p t PAborted (set_chans (delete p (n_chans n)) n))
  | _ => None
  end.

Definition CLOSED : list Z := [99; 111; 110; 110; 101; 99; 116; 105; 111; 110; 32; 99; 108; 111; 115; 101; 100].

Definition send_disconnected (p : PeerId) (n : Node) : option Node :=
  t ← n_tasks n !! p;
  match t_phase t with
  | PAborted =>
      n ← send_event (PeerDisconnected p CLOSED) n;
      Some (set_phase p t PDone n)
  | _ => None
  end.

(** The writer task: receive a frame, then write it, which waits for the socket;
    a failed write ends the task and with it the channel. *)
Definition writer_recv (p : PeerId) (n : Node) : option Node :=
  c ← n_chans n !! p;
  match ch_queue c, ch_inflight c, ch_open c with
  | f :: q, None, true =>
      Some (set_chans (<[p := mkChan q (Some f) true (ch_writer c) (ch_magic c) 0]> (n_chans n)) n)
  | _, _, _ => None
  end.

Definition writer_write (p : PeerId) (n : Node) : option Node :=
  c ← n_chans n !! p;
  match ch_inflight c, ch_open c with
  | Some f, true =>
      if write_ends c f then
        match write_frame (ch_magic c) f (ch_writer c) with
        | (Ok _, w) => Some (set_chans (<[p := mkChan (ch_queue c) None true w (ch_magic c) 0]> (n_chans n)) n)
        | (Err _, w) => Some (set_chans (<[p := mkChan [] None false w (ch_magic c) 0]> (n_chans n)) n)
        end
      else None
  | _, _ => None
  end.

End digest.

(** ** The event loop of [main], and the keepalive task *)

Definition loop_recv (order : HashIter PeerId PeerEntry) (now : nat -> Z) (n : Node) : option Node :=
  match n_loop n, n_events n with
  | LIdle, e :: es =>
      let '(actions, r) := Router.handle_event now e (n_router n) in
      Some (set_loop (LActions actions) (set_router r (set_events es (set_handled (n_handled n ++ [e]) n))))
  | _, _ => None
  end.

Definition loop_lock (n : Node) : option Node :=
  match n_loop n with
  | LActions actions => if senders_free n then Some (set_loop (LSending actions) n) else None
  | _ => None
  end.

(** [tx.send(frame).await]: [None] while the channel is full; an absent or
    closed channel drops the frame. *)
Definition send_frame (p : PeerId) (f : Frame) (n : Node) : option Node :=
  if decide (p ∈ n_senders n) then
    match n_chans n !! p with
    | Some c =>
        if ch_open c then
          if decide (length (ch_queue c) < FRAME_CAPACITY)%nat
          then Some (set_chans (<[p := mkChan (ch_queue c ++ [f]) (ch_inflight c) true (ch_writer c) (ch_magic c) (ch_taken c)]> (n_chans n)) n)
          else None
        else Some n
    | None => Some n
    end
  else Some n.

(** The next action of the loop; after the last, the lock is released. *)
Definition loop_send (n : Node) : option Node :=
  match n_loop n with
  | LSending [] => Some (set_loop LIdle n)
  | LSending (Send target message :: actions) =>
      n ← send_frame target (to_frame message) n; Some (set_loop (LSending actions) n)
  | _ => None
  end.

Definition keep_tick (order : HashIter PeerId PeerEntry) (n : Node) : option Node :=
  match n_keep n with
  | KIdle => Some (set_keep (KPeers (Router.outbound_peers (n_router n))) n)
  | _ => None
  end.

Definition keep_lock (n : Node) : option Node :=
  match n_keep n with
  | KPeers pids => if senders_free n then Some (set_keep (KSending pids) n) else None
  | _ => None
  end.

Definition keep_send (n : Node) : option Node :=
  match n_keep n with
  | KSending [] => Some (set_keep KIdle n)
  | KSending (pid :: pids) => n ← send_frame pid (to_frame GetPeers) n; Some (set_keep (KSending pids) n)
  | _ => None
  end.

(** ** Interleaving *)

Inductive Label :=
  | DoAccept (l : nat) (st : TcpStream)
  | DoManagerTop | DoManagerScan | DoManagerConnected (res : option TcpStream)
  | DoHandshake (now : Z) (urandom : list Z) (p : PeerId)
  | DoRegister (p : PeerId) | DoSendConnected (p : PeerId) | DoInsertSender (p : PeerId)
  | DoRead (p : PeerId) | DoForward (p : PeerId)
  | DoRemoveSender (p : PeerId) | DoAbortWriter (p : PeerId) | DoSendDisconnected (p : PeerId)
  | DoWriterRecv (p : PeerId) | DoWriterWrite (p : PeerId)
  | DoRecv (order : HashIter PeerId PeerEntry) (now : nat -> Z) | DoLock | DoSend
  | DoKeepTick (order : HashIter PeerId PeerEntry) | DoKeepLock | DoKeepSend
  | DoArrive (p : PeerId) | DoTaken (p : PeerId) (k : nat).

Definition exec `{Blake2b256} (cfg : NodeConfig) (l : Label) (n : Node) : option Node :=
  match l with
  | DoAccept i st => l ← nc_listeners cfg !! i; Some (accept l st n)
  | DoManagerTop => manager_top cfg n
  | DoManagerScan => manager_scan cfg n
  | DoManagerConnected res => manager_connected cfg res n
  | DoHandshake now urandom p => handshake now urandom p n
  | DoRegister p => register p n
  | DoSendConnected p => send_connected p n
  | DoInsertSender p => insert_sender p n
  | DoRead p => read_message p n
  | DoForward p => forward_message p n
  | DoRemoveSender p => remove_sender p n
  | DoAbortWriter p => abort_writer p n
  | DoSendDisconnected p => send_disconnected p n
  | DoWriterRecv p => writer_recv p n
  | DoWriterWrite p => writer_write p n
  | DoRecv order now => loop_recv order now n
  | DoLock => loop_lock n
  | DoSend => loop_send n
  | DoKeepTick order => keep_tick order n
  | DoKeepLock => keep_lock n
  | DoKeepSend => keep_send n
  | DoArrive p => Some (arrive p n)
  | DoTaken p k => take_bytes p k n
  end.

(** Steps use the iteration orders a [HashMap] may have. *)
Definition lawful (l : Label) : Prop :=
  match l with
  | DoRecv order _ | DoKeepTick order => HashIterLaws PeerId PeerEntry
  | _ => True
  end.

Inductive node_run `{Blake2b256} (cfg : NodeConfig) : list Label -> Node -> Prop :=
  | run_start : node_run cfg [] node_new
  | run_snoc ls l n n' : node_run cfg ls n -> lawful l -> exec cfg l n = Some n' -> node_run cfg (ls ++ [l]) n'.

(** Running a list of labels. *)
Fixpoint exec_all `{Blake2b256} (cfg : NodeConfig) (ls : list Label) (n : Node) : option Node :=
  match ls with
  | [] => Some n
  | l :: ls => n ← exec cfg l n; exec_all cfg ls n
  end.

(** ** The invariant of a peer *)

(** The events about [p] that were sent, handled or not, in order. *)
Definition peer_log (n : Node) (p : PeerId) : list ProtocolEvent :=
  filter (fun e => event_peer e = p) (n_handled n ++ n_events n).

Definition is_disconnect (p : PeerId) (e : ProtocolEvent) : bool :=
  match e with PeerDisconnected q _ => bool_decide (q = p) | _ => false end.

(** What concerns [p] in the state. *)
Record View := mkView {
  v_task : option Task;
  v_log : list ProtocolEvent;
  v_gone : bool;                   (* its disconnection has been handled *)
  v_entry : option PeerEntry;      (* its registration *)
  v_sender : bool;
  v_chan : bool
}.

Definition view_of (n : Node) (p : PeerId) : View :=
  mkView (n_tasks n !! p) (peer_log n p) (existsb (is_disconnect p) (n_handled n))
    (Router.peers (n_router n) !! p) (bool_decide (p ∈ n_senders n)) (bool_decide (is_Some (n_chans n !! p))).

(** A session up to its messages. *)
Definition session (p : PeerId) (t : Task) (s : PeerSpec) : list ProtocolEvent :=
  PeerConnected p s (t_direction t) :: (Message p <$> t_msgs t).

Definition peer_ok (p : PeerId) (v : View) : Prop :=
  match v_task v with
  | None => v = mkView None [] false None false false
  | Some t =>
      let entry := Some (mkPeerEntry (t_direction t) (t_mode t)) in
      match t_phase t with
      | PHandshake _ => v = mkView (Some t) [] false None false false /\ t_msgs t = []
      | PActive c => v = mkView (Some t) [] false None false false /\ t_msgs t = [] /\ t_spec t = Some (peer_spec c)
      | PRegistered c => v = mkView (Some t) [] false entry false false /\ t_msgs t = [] /\ t_spec t = Some (peer_spec c)
      | PConnected c => exists s, t_spec t = Some s /\ t_msgs t = [] /\ v = mkView (Some t) (session p t s) false entry false false
      | PReading _ _ | PParsed _ _ _ | PLost =>
          exists s, t_spec t = Some s /\ v = mkView (Some t) (session p t s) false entry true true
      | PRemoved => exists s, t_spec t = Some s /\ v = mkView (Some t) (session p t s) false entry false true
      | PAborted => exists s, t_spec t = Some s /\ v = mkView (Some t) (session p t s) false entry false false
      | PDone =>
          v = mkView (Some t) [] false None false false \/
          exists s gone, t_spec t = Some s /\
            v = mkView (Some t) (session p t s ++ [PeerDisconnected p CLOSED]) gone
                  (if gone then None else entry) false false
      end
  end.

Record node_ok (n : Node) : Prop := {
  ok_peers : forall p, peer_ok p (view_of n p);
  ok_fresh : forall p t, n_tasks n !! p = Some t -> 1 <= peer_id_0 p < n_counter n;
  ok_counter : 1 <= n_counter n
}.

(** A step that only concerns [p]. *)
Lemma peers_local p n n' : (forall q, peer_ok q (view_of n q)) ->
  (forall q, q <> p -> view_of n' q = view_of n q) -> peer_ok p (view_of n' p) ->
  forall q, peer_ok q (view_of n' q).
Proof. intros Hn Hq Hp q. destruct (decide (q = p)) as [->|Hne]; [done|]. by rewrite Hq. Qed.

Lemma peer_log_snoc n q e : peer_log (set_events (n_events n ++ [e]) n) q
  = peer_log n q ++ (if decide (event_peer e = q) then [e] else []).
Proof.
  unfold peer_log. cbn. rewrite app_assoc, filter_app. done.
Qed.

Lemma handle_event_peers `{!HashIter PeerId PeerEntry} now e r acts r' :
  Router.handle_event now e r = (acts, r') ->
  Router.peers r' = match e with PeerDisconnected p _ => delete p (Router.peers r) | _ => Router.peers r end.
Proof.
  destruct e as [p s d|p reason|p msg]; cbn; [by intros [= _ <-]|by intros [= _ <-]|].
  apply route_message_peers.
Qed.

(** The shape of a finished session fixes where its disconnection is. *)
Lemma session_disconnect_last p t s pre r post :
  pre ++ PeerDisconnected p r :: post = session p t s ++ [PeerDisconnected p CLOSED] ->
  pre = session p t s /\ post = [].
Proof.
  destruct post as [|x post _] using rev_ind.
  - intros E. apply app_inj_tail in E as [-> _]. done.
  - rewrite app_comm_cons, app_assoc. intros E. apply app_inj_tail in E as [E _].
    assert (Hin : PeerDisconnected p r ∈ session p t s) by (rewrite <- E; apply elem_of_app; right; left).
    unfold session in Hin. apply elem_of_cons in Hin as [?|Hin]; [done|].
    by apply list_elem_of_fmap in Hin as (m & ? & _).
Qed.

Lemma existsb_disconnect p es :
  existsb (is_disconnect p) es = existsb (is_disconnect p) (filter (fun e => event_peer e = p) es).
Proof.
  induction es as [|e es IH]; [done|]. rewrite filter_cons. cbn [existsb]. case_decide as He; cbn [existsb]; rewrite IH; [done|].
  destruct e; cbn in *; try done. by rewrite bool_decide_false.
Qed.

Lemma existsb_session p t s : existsb (is_disconnect p) (session p t s) = false.
Proof.
  unfold session. cbn. induction (t_msgs t); [done|]. cbn. done.
Qed.
