(* ===== verification/NodeInv.v ===== *)
(** * The invariant of the node, step by step

    Every step keeps, for every peer, the relation between where its task
    stands, the events sent about it, its registration, its sender and its
    frame channel. *)
From S2P Require Import Prelude Io Types Vlq Frame Handshake Messages Peer PeerTable InvTable Tracker Latency Router Connection Config Node.

(** Opens a step of the task of a peer: its task and its phase. *)
Ltac open_task E t Ht Hph :=
  match type of E with
  | context [n_tasks ?n !! ?p] =>
      destruct (n_tasks n !! p) as [t|] eqn:Ht; cbn [mbind option_bind] in E; [|discriminate E];
      destruct (t_phase t) eqn:Hph; try discriminate E
  end.

(** A step that leaves every view as it is. *)
Lemma ok_same_view n n' : node_ok n ->
  (forall q, view_of n' q = view_of n q) -> n_tasks n' = n_tasks n -> n_counter n' = n_counter n -> node_ok n'.
Proof.
  intros [Hp Hf Hc] Hv Ht Hn. split; [intros q; by rewrite Hv|by rewrite Ht, Hn|by rewrite Hn].
Qed.

(** A step of the task of [p]. *)
Lemma ok_task_step p t n n' : node_ok n -> is_Some (n_tasks n !! p) ->
  n_tasks n' = <[p := t]> (n_tasks n) -> n_counter n' = n_counter n ->
  (forall q, q <> p -> view_of n' q = view_of n q) -> peer_ok p (view_of n' p) -> node_ok n'.
Proof.
  intros [Hp Hf Hc] [t0 Ht0] Ht Hn Hq Hok. split.
  - by apply (peers_local p n).
  - intros q tq. rewrite Ht, Hn. intros [[<- _]|[_ Hq']]%lookup_insert_Some; eauto.
  - by rewrite Hn.
Qed.

Ltac other_peers := let q := fresh "q" in let Hq := fresh "Hq" in
  intros q Hq; unfold view_of, peer_log; cbn; rewrite ?lookup_insert_ne by done; done.

Lemma view_task n p t : n_tasks n !! p = Some t -> v_task (view_of n p) = Some t.
Proof. done. Qed.

(** What the invariant says of the peer whose task takes the step. *)
Ltac peer_view Hok p Ht Hph Hp :=
  pose proof (ok_peers _ Hok p) as Hp; unfold peer_ok in Hp; rewrite (view_task _ _ _ Ht), Hph in Hp.

(** Splits the equation of a view into those of its fields. *)
Ltac view_eqs Ht Hv H1 H2 H3 H4 H5 :=
  unfold view_of in Hv; rewrite Ht in Hv; injection Hv as H1 H2 H3 H4 H5.

(** Applies [ok_task_step] and computes the new view of the peer. *)
Ltac task_step p :=
  eapply (ok_task_step p); [done|by eexists|done|done|other_peers|];
  unfold peer_ok, view_of; cbn; rewrite ?lookup_insert_eq; cbn.

Lemma ok_handshake now urandom p n n' : node_ok n -> handshake now urandom p n = Some n' -> node_ok n'.
Proof.
  unfold handshake. intros Hok E. open_task E t Ht Hph. peer_view Hok p Ht Hph Hp.
  destruct Hp as [Hv Hm]. view_eqs Ht Hv H1 H2 H3 H4 H5. case_decide; [done|].
  set (res := match t_direction t with Inbound => _ | Outbound => _ end) in E. clearbody res.
  destruct res as [conn|e]; [destruct (bool_decide _ && _)|]; simplify_eq; task_step p;
    unfold peer_log in *; cbn; rewrite ?H1, ?H2, ?H3, ?H4, ?H5; auto.
Qed.

Lemma ok_register p n n' : node_ok n -> register p n = Some n' -> node_ok n'.
Proof.
  unfold register. intros Hok E. open_task E t Ht Hph. peer_view Hok p Ht Hph Hp.
  destruct Hp as (Hv & Hm & Hs). view_eqs Ht Hv H1 H2 H3 H4 H5. simplify_eq. task_step p.
  unfold peer_log in *; cbn; rewrite ?H1, ?H2, ?H3, ?H4, ?H5; auto.
Qed.

(** The other peers' views after an event of [p] is sent. *)
Lemma view_send_event p q e n n1 n' : send_event e n = Some n1 -> event_peer e = p -> q <> p ->
  view_of n' q = mkView (n_tasks n' !! q) (peer_log n1 q) (existsb (is_disconnect q) (n_handled n))
    (Router.peers (n_router n) !! q) (bool_decide (q ∈ n_senders n)) (bool_decide (is_Some (n_chans n !! q))) ->
  n_tasks n' !! q = n_tasks n !! q -> view_of n' q = view_of n q.
Proof.
  unfold send_event. case_decide; [|done]. intros [= <-] Hp Hq Hv Ht. rewrite Hv, Ht.
  rewrite peer_log_snoc, decide_False by congruence. by rewrite app_nil_r.
Qed.

Lemma log_send_event e n n1 : send_event e n = Some n1 ->
  n1 = set_events (n_events n ++ [e]) n /\
  peer_log n1 (event_peer e) = peer_log n (event_peer e) ++ [e].
Proof.
  unfold send_event. case_decide; [|done]. intros [= <-]. split; [done|].
  by rewrite peer_log_snoc, decide_True.
Qed.

Ltac send_step p E Es :=
  match type of E with
  | context [send_event ?e ?n] =>
      destruct (send_event e n) as [n1|] eqn:Es; cbn [mbind option_bind] in E; [|discriminate E];
      simplify_eq; eapply (ok_task_step p);
      [done|by eexists|by apply log_send_event in Es as [-> _]|by apply log_send_event in Es as [-> _]| |]
  end.

Ltac other_peers_sent p Es :=
  let q := fresh "q" in let Hq := fresh "Hq" in
  intros q Hq; eapply (view_send_event p); [exact Es|done|done| |];
  apply log_send_event in Es as [-> _]; cbn; rewrite ?lookup_insert_ne by done; [|done];
  unfold view_of; cbn; rewrite ?lookup_insert_ne by done; done.

Lemma ok_send_connected p n n' : node_ok n -> send_connected p n = Some n' -> node_ok n'.
Proof.
  unfold send_connected. intros Hok E. open_task E t Ht Hph. peer_view Hok p Ht Hph Hp.
  destruct Hp as (Hv & Hm & Hs). view_eqs Ht Hv H1 H2 H3 H4 H5. send_step p E Es.
  - other_peers_sent p Es.
  - apply log_send_event in Es as [-> Hl]. cbn in Hl. unfold peer_ok, view_of. cbn. rewrite lookup_insert_eq. cbn.
    exists (peer_spec conn). split; [done|]. split; [done|]. rewrite H2, H3, H4, H5. f_equal.
    unfold peer_log in *. cbn in *. rewrite Hl, H1. unfold session. cbn. by rewrite Hm.
Qed.

Lemma ok_forward p n n' : node_ok n -> forward_message p n = Some n' -> node_ok n'.
Proof.
  unfold forward_message. intros Hok E. open_task E t Ht Hph. peer_view Hok p Ht Hph Hp.
  destruct Hp as (s & Hs & Hv). view_eqs Ht Hv H1 H2 H3 H4 H5. send_step p E Es.
  - other_peers_sent p Es.
  - apply log_send_event in Es as [-> Hl]. cbn in Hl. unfold peer_ok, view_of. cbn. rewrite lookup_insert_eq. cbn.
    exists s. split; [done|]. rewrite H2, H3, H4, H5. f_equal.
    unfold peer_log in *. cbn in *. rewrite Hl, H1. unfold session. cbn. by rewrite fmap_app.
Qed.

Lemma ok_send_disconnected p n n' : node_ok n -> send_disconnected p n = Some n' -> node_ok n'.
Proof.
  unfold send_disconnected. intros Hok E. open_task E t Ht Hph. peer_view Hok p Ht Hph Hp.
  destruct Hp as (s & Hs & Hv). view_eqs Ht Hv H1 H2 H3 H4 H5. send_step p E Es.
  - other_peers_sent p Es.
  - apply log_send_event in Es as [-> Hl]. cbn in Hl. unfold peer_ok, view_of. cbn. rewrite lookup_insert_eq. cbn.
    right. exists s, false. split; [done|]. rewrite H2, H3, H4, H5. f_equal.
    unfold peer_log in *. cbn in *. by rewrite Hl, H1.
Qed.

Lemma ok_insert_sender p n n' : node_ok n -> insert_sender p n = Some n' -> node_ok n'.
Proof.
  unfold insert_sender. intros Hok E. open_task E t Ht Hph. peer_view Hok p Ht Hph Hp.
  destruct Hp as (s & Hs & Hm & Hv). view_eqs Ht Hv H1 H2 H3 H4 H5.
  destruct (senders_free n); [|done]. unfold split in E. simplify_eq. eapply (ok_task_step p); [done|by eexists|done|done| |].
  - intros q Hq. unfold view_of, peer_log. cbn. rewrite !lookup_insert_ne by done. f_equal.
    apply bool_decide_ext. set_solver.
  - unfold peer_ok, view_of; cbn; rewrite !lookup_insert_eq; cbn. exists s. split; [done|].
    unfold peer_log in *; cbn. rewrite H1, H2, H3. f_equal. apply bool_decide_true. set_solver.
Qed.

Lemma ok_remove_sender p n n' : node_ok n -> remove_sender p n = Some n' -> node_ok n'.
Proof.
  unfold remove_sender. intros Hok E. open_task E t Ht Hph. peer_view Hok p Ht Hph Hp.
  destruct Hp as (s & Hs & Hv). view_eqs Ht Hv H1 H2 H3 H4 H5.
  destruct (senders_free n); [|done]. simplify_eq. eapply (ok_task_step p); [done|by eexists|done|done| |].
  - intros q Hq. unfold view_of, peer_log. cbn. rewrite !lookup_insert_ne by done. f_equal.
    apply bool_decide_ext. set_solver.
  - unfold peer_ok, view_of; cbn; rewrite !lookup_insert_eq; cbn. exists s. split; [done|].
    unfold peer_log in *; cbn. rewrite H1, H2, H3, H5. f_equal. apply bool_decide_false. set_solver.
Qed.

Lemma ok_abort_writer p n n' : node_ok n -> abort_writer p n = Some n' -> node_ok n'.
Proof.
  unfold abort_writer. intros Hok E. open_task E t Ht Hph. peer_view Hok p Ht Hph Hp.
  destruct Hp as (s & Hs & Hv). view_eqs Ht Hv H1 H2 H3 H4 H5.
  simplify_eq. eapply (ok_task_step p); [done|by eexists|done|done| |].
  - intros q Hq. unfold view_of, peer_log. cbn. by rewrite lookup_insert_ne, lookup_delete_ne by done.
  - unfold peer_ok, view_of; cbn; rewrite lookup_insert_eq, lookup_delete_eq; cbn. exists s. split; [done|].
    unfold peer_log in *; cbn. rewrite H1, H2, H3, H4. f_equal.
Qed.

Lemma ok_read `{Blake2b256} p n n' : node_ok n -> read_message p n = Some n' -> node_ok n'.
Proof.
  unfold read_message. intros Hok E. open_task E t Ht Hph. peer_view Hok p Ht Hph Hp.
  destruct Hp as (s & Hs & Hv). view_eqs Ht Hv H1 H2 H3 H4 H5. destruct (waiting _ _ _); [done|].
  destruct (read_frame _ _) as [[f|e] r]; [destruct (from_frame f)|]; simplify_eq; task_step p;
    exists s; (split; [done|]); unfold peer_log in *; cbn; by rewrite H1, H2, H3, H4, H5.
Qed.

(** ** The frame channels *)

(** Steps on frame channels neither add nor remove one. *)
Definition same_but_chans (n n' : Node) : Prop :=
  n' = set_chans (n_chans n') n /\ (forall q, is_Some (n_chans n' !! q) <-> is_Some (n_chans n !! q)).

Lemma same_but_chans_view n n' q : same_but_chans n n' -> view_of n' q = view_of n q.
Proof.
  intros [-> Hc]. unfold view_of, peer_log. cbn. f_equal. apply bool_decide_ext. apply (Hc q).
Qed.

Lemma ok_same_but_chans n n' : node_ok n -> same_but_chans n n' -> node_ok n'.
Proof.
  intros Hok Hs. apply (ok_same_view n); [done|intros q; by apply same_but_chans_view| |];
    destruct Hs as [-> _]; done.
Qed.

Lemma chans_insert p c n : is_Some (n_chans n !! p) -> same_but_chans n (set_chans (<[p := c]> (n_chans n)) n).
Proof.
  intros Hp. split; [done|]. intros q. cbn. rewrite lookup_insert_is_Some'. split; [|by right].
  intros [<-|?]; done.
Qed.

Lemma chans_refl n : same_but_chans n n.
Proof. split; [by destruct n|done]. Qed.

Lemma send_frame_chans p f n n' : send_frame p f n = Some n' -> same_but_chans n n'.
Proof.
  unfold send_frame. case_decide; [|intros [= <-]; apply chans_refl].
  destruct (n_chans n !! p) as [c|] eqn:Ec; [|intros [= <-]; apply chans_refl].
  destruct (ch_open c); [|intros [= <-]; apply chans_refl].
  case_decide; [|done]. intros [= <-]. apply chans_insert. by eexists.
Qed.

Lemma writer_recv_chans p n n' : writer_recv p n = Some n' -> same_but_chans n n'.
Proof.
  unfold writer_recv. destruct (n_chans n !! p) as [c|] eqn:Ec; cbn; [|done].
  destruct (ch_queue c), (ch_inflight c), (ch_open c); try done. intros [= <-]. apply chans_insert. by eexists.
Qed.

Lemma writer_write_chans `{Blake2b256} p n n' : writer_write p n = Some n' -> same_but_chans n n'.
Proof.
  unfold writer_write. destruct (n_chans n !! p) as [c|] eqn:Ec; cbn; [|done].
  destruct (ch_inflight c), (ch_open c); try done. destruct (write_ends _ _); [|done].
  destruct (write_frame _ _ _) as [[] w]; intros [= <-]; apply chans_insert; by eexists.
Qed.

Lemma take_bytes_chans p k n n' : take_bytes p k n = Some n' -> same_but_chans n n'.
Proof.
  unfold take_bytes. destruct (n_chans n !! p) as [c|] eqn:Ec; cbn; [|done].
  destruct (ch_inflight c), (ch_open c); try done. intros [= <-]. apply chans_insert. by eexists.
Qed.

(** ** New peers *)

Lemma ok_spawn d mode hs st n : node_ok n -> n_counter n < 2 ^ 64 - 1 -> node_ok (spawn_peer d mode hs st n).
Proof.
  intros [Hp Hf Hc] Hlt. unfold spawn_peer. set (p := mkPeerId (n_counter n)).
  assert (Hnew : n_tasks n !! p = None).
  { destruct (n_tasks n !! p) as [t|] eqn:E; [|done]. apply Hf in E. cbn in E. lia. }
  assert (Hnext : as_unsigned 64 (n_counter n + 1) = n_counter n + 1)
    by (unfold as_unsigned; apply Z.mod_small; lia).
  split; cbn [n_counter n_tasks set_tasks set_counter]; rewrite ?Hnext; [| |lia].
  - apply (peers_local p n); [done| |].
    + intros q Hq. unfold view_of, peer_log. cbn. by rewrite lookup_insert_ne by done.
    + specialize (Hp p). unfold peer_ok in Hp. unfold view_of in Hp. cbn [v_task] in Hp. rewrite Hnew in Hp.
      injection Hp as H1 H2 H3 H4 H5.
      unfold peer_ok, view_of. cbn. rewrite lookup_insert_eq. cbn.
      unfold peer_log in *. cbn. by rewrite H1, H2, H3, H4, H5.
  - intros q t. intros [[<- _]|[_ Hq]]%lookup_insert_Some; cbn; [lia|]. apply Hf in Hq. lia.
Qed.

(** ** The event loop *)

(** The three stages of a peer, by the events about it. *)
Lemma peer_ok_cases p v : peer_ok p v ->
  (v_log v = [] /\ v_gone v = false) \/
  (exists t s, v_task v = Some t /\ t_spec t = Some s /\ v_log v = session p t s /\ v_gone v = false /\
     v_entry v = Some (mkPeerEntry (t_direction t) (t_mode t))) \/
  (exists t s gone, v_task v = Some t /\ t_phase t = PDone /\ t_spec t = Some s /\
     v = mkView (Some t) (session p t s ++ [PeerDisconnected p CLOSED]) gone
           (if gone then None else Some (mkPeerEntry (t_direction t) (t_mode t))) false false).
Proof.
  unfold peer_ok. destruct v as [[t|] log gone entry snd ch]; cbn.
  - destruct (t_phase t) eqn:Hph; intros Hp;
      repeat match goal with
      | H : _ /\ _ |- _ => destruct H
      | H : exists _, _ |- _ => destruct H
      | H : _ \/ _ |- _ => destruct H
      | H : mkView _ _ _ _ _ _ = _ |- _ => injection H as ? ? ? ? ?; subst
      end; eauto 12.
  - intros [= -> -> -> -> ->]. auto.
Qed.

(** A peer whose disconnection is sent has done all else. *)
Lemma recv_disconnected p v pre reason post : peer_ok p v ->
  v_log v = pre ++ PeerDisconnected p reason :: post ->
  exists t s gone, v_task v = Some t /\ t_phase t = PDone /\ t_spec t = Some s /\
    v = mkView (Some t) (session p t s ++ [PeerDisconnected p CLOSED]) gone
          (if gone then None else Some (mkPeerEntry (t_direction t) (t_mode t))) false false /\
    pre = session p t s /\ post = [].
Proof.
  intros [[-> _]|[(t & s & _ & _ & -> & _)|(t & s & gone & H1 & H2 & H3 & Hv)]]%peer_ok_cases Hl.
  - by destruct pre.
  - exfalso. apply (f_equal (existsb (is_disconnect p))) in Hl. rewrite existsb_session, existsb_app in Hl.
    cbn in Hl. by rewrite bool_decide_true, orb_true_r in Hl.
  - exists t, s, gone. rewrite Hv in Hl. cbn in Hl. symmetry in Hl. apply session_disconnect_last in Hl. tauto.
Qed.

Lemma ok_loop_recv order now n n' : node_ok n -> loop_recv order now n = Some n' -> node_ok n'.
Proof.
  unfold loop_recv. intros Hok E. destruct (n_loop n); try done.
  destruct (n_events n) as [|e es] eqn:Ee; [done|].
  destruct (Router.handle_event now e (n_router n)) as [acts r] eqn:Er. simplify_eq.
  apply handle_event_peers in Er. destruct Hok as [Hp Hf Hc]. split; [|done|done].
  assert (Hlog : forall q, peer_log (set_loop (LActions acts) (set_router r (set_events es
      (set_handled (n_handled n ++ [e]) n)))) q = peer_log n q)
    by (intros q; unfold peer_log; cbn; by rewrite Ee, <- app_assoc).
  assert (Hsame : forall q, is_disconnect q e = false -> view_of (set_loop (LActions acts) (set_router r
      (set_events es (set_handled (n_handled n ++ [e]) n)))) q = view_of n q).
  { intros q Hq. unfold view_of. rewrite Hlog. cbn. rewrite existsb_app. cbn. rewrite Hq, !orb_false_r. f_equal.
    rewrite Er. destruct e; try done. cbn in Hq. apply bool_decide_eq_false in Hq. by rewrite lookup_delete_ne. }
  intros q. destruct (is_disconnect q e) eqn:Hq; [|by rewrite Hsame].
  destruct e as [| p reason |]; try done. cbn in Hq. apply bool_decide_eq_true in Hq as ->.
  specialize (Hp q).
  assert (Hin : v_log (view_of n q) = filter (fun e => event_peer e = q) (n_handled n) ++
    PeerDisconnected q reason :: filter (fun e => event_peer e = q) es).
  { cbn. unfold peer_log. by rewrite Ee, filter_app, filter_cons_True. }
  pose proof (existsb_disconnect q (n_handled n)) as Hg.
  destruct (recv_disconnected q _ _ _ _ Hp Hin) as (t & s & gone & Ht & Hph & Hs & Hv & Hpre & _).
  cbn in Ht. view_eqs Ht Hv H1 H2 H3 H4 H5.
  unfold peer_ok, view_of. rewrite Hlog. cbn. rewrite Ht, Hph. right. exists s, true. split; [done|].
  rewrite H1, H4, H5, Er, lookup_delete_eq, existsb_app. cbn. by rewrite bool_decide_true, orb_true_r by done.
Qed.

Lemma ok_node_new : node_ok node_new.
Proof.
  split; [|done|done]. intros p. unfold peer_ok, view_of, peer_log. cbn. rewrite !lookup_empty.
  by rewrite !bool_decide_false by (set_solver || (by intros [? ?])).
Qed.

(** Every step keeps the invariant, short of a wrap of the peer counter. *)
Lemma ok_exec `{Blake2b256} cfg l n n' : node_ok n -> n_counter n < 2 ^ 64 - 1 ->
  exec cfg l n = Some n' -> node_ok n'.
Proof.
  intros Hok Hc. destruct l; cbn [exec].
  - destruct (_ !! l) as [li|]; cbn; [|done]. intros [= <-]. unfold accept. case_match; [done|by apply ok_spawn].
  - unfold manager_top. destruct (n_manager n); try done. intros [= <-]. by apply (ok_same_view n).
  - unfold manager_scan. destruct (n_manager n) as [|[|]|]; try done; intros [= <-]; by apply (ok_same_view n).
  - unfold manager_connected. destruct (n_manager n); try done. destruct res; intros [= <-]; [|by apply (ok_same_view n)].
    apply (ok_same_view (spawn_peer Outbound Full (nc_outbound cfg) t n)); [by apply ok_spawn|done..].
  - by apply ok_handshake.
  - by apply ok_register.
  - by apply ok_send_connected.
  - by apply ok_insert_sender.
  - by apply ok_read.
  - by apply ok_forward.
  - by apply ok_remove_sender.
  - by apply ok_abort_writer.
  - by apply ok_send_disconnected.
  - intros E%writer_recv_chans. by eapply ok_same_but_chans.
  - intros E%writer_write_chans. by eapply ok_same_but_chans.
  - by apply ok_loop_recv.
  - unfold loop_lock. destruct (n_loop n); try done. destruct (senders_free n); [|done].
    intros [= <-]. by apply (ok_same_view n).
  - unfold loop_send. destruct (n_loop n) as [| |[|[q m] acts]]; try done; [intros [= <-]; by apply (ok_same_view n)|].
    destruct (send_frame q _ n) as [n1|] eqn:Es; cbn; [|done]. intros [= <-].
    apply send_frame_chans in Es. apply (ok_same_view n1); [by eapply ok_same_but_chans|done..].
  - unfold keep_tick. destruct (n_keep n); try done. intros [= <-]. by apply (ok_same_view n).
  - unfold keep_lock. destruct (n_keep n); try done. destruct (senders_free n); [|done].
    intros [= <-]. by apply (ok_same_view n).
  - unfold keep_send. destruct (n_keep n) as [| |[|q pids]]; try done; [intros [= <-]; by apply (ok_same_view n)|].
    destruct (send_frame q _ n) as [n1|] eqn:Es; cbn; [|done]. intros [= <-].
    apply send_frame_chans in Es. apply (ok_same_view n1); [by eapply ok_same_but_chans|done..].
  - intros [= <-]. by apply (ok_same_view n).
  - intros E%take_bytes_chans. by eapply ok_same_but_chans.
Qed.

(** ** What a step does to the parts of the state *)

Lemma send_frame_eq p f n n' : send_frame p f n = Some n' -> exists c, n' = set_chans c n.
Proof. intros [E _]%send_frame_chans. eauto. Qed.
Lemma writer_recv_eq p n n' : writer_recv p n = Some n' -> exists c, n' = set_chans c n.
Proof. intros [E _]%writer_recv_chans. eauto. Qed.
Lemma writer_write_eq `{Blake2b256} p n n' : writer_write p n = Some n' -> exists c, n' = set_chans c n.
Proof. intros [E _]%writer_write_chans. eauto. Qed.
Lemma take_bytes_eq p k n n' : take_bytes p k n = Some n' -> exists c, n' = set_chans c n.
Proof. intros [E _]%take_bytes_chans. eauto. Qed.
Lemma send_event_eq e n n' : send_event e n = Some n' ->
  n' = set_events (n_events n ++ [e]) n /\ (length (n_events n) < EVENT_CAPACITY)%nat.
Proof. unfold send_event. case_decide; [|done]. by intros [= <-]. Qed.

(** Opens a step of the node: one goal for each way each task has to take it. *)
Ltac open_exec :=
  cbn [exec];
  unfold manager_top, manager_scan, manager_connected, accept, handshake, register, send_connected,
    insert_sender, read_message, forward_message, remove_sender, abort_writer, send_disconnected,
    loop_recv, loop_lock, loop_send, keep_tick, keep_lock, keep_send, split, arrive, took;
  repeat match goal with
  | |- None = Some _ -> _ => discriminate
  | |- writer_recv _ _ = Some _ -> _ => intros [? ->]%writer_recv_eq
  | |- writer_write _ _ = Some _ -> _ => intros [? ->]%writer_write_eq
  | |- take_bytes _ _ _ = Some _ -> _ => intros [? ->]%take_bytes_eq
  | H : send_frame _ _ _ = Some _ |- _ => apply send_frame_eq in H as [? ->]
  | H : send_event _ _ = Some _ |- _ => apply send_event_eq in H as [-> ?]
  | |- mbind _ ?x = Some _ -> _ => destruct x eqn:?; cbn [mbind option_bind]
  | |- match ?x with _ => _ end = Some _ -> _ => destruct x eqn:?
  | |- Some match ?x with _ => _ end = Some _ -> _ => destruct x eqn:?
  | |- Some _ = Some _ -> _ => intros [= <-]
  end.

Lemma exec_counter `{Blake2b256} cfg l n n' : exec cfg l n = Some n' ->
  n_counter n' = n_counter n \/ n_counter n' = as_unsigned 64 (n_counter n + 1).
Proof. destruct l; open_exec; cbn; auto. Qed.

(** A step changes the router by one of its calls or not at all. *)
Lemma exec_router `{Blake2b256} cfg l n n' : exec cfg l n = Some n' -> lawful l ->
  n_router n' = n_router n \/ exists e acts, router_step (n_router n) e acts (n_router n').
Proof.
  destruct l; open_exec; cbn; intros Hl; auto.
  - right. do 2 eexists. apply step_register.
  - right. do 2 eexists. by eapply step_event.
Qed.

(** The steps on a channel: of its writer, and of the socket below it. *)
Definition channel_step `{Blake2b256} (p : PeerId) (n n' : Node) : Prop :=
  writer_recv p n = Some n' \/ writer_write p n = Some n' \/ exists k, take_bytes p k n = Some n'.

(** The channels never hold more than their capacity. *)
Definition bounded (n : Node) : Prop :=
  (length (n_events n) <= EVENT_CAPACITY)%nat /\
  forall p c, n_chans n !! p = Some c -> (length (ch_queue c) <= FRAME_CAPACITY)%nat.

Lemma bounded_send_frame p f n n' : send_frame p f n = Some n' -> bounded n -> bounded n'.
Proof.
  unfold send_frame. case_decide; [|by intros [= <-]].
  destruct (n_chans n !! p) as [c|] eqn:Ec; [|by intros [= <-]]. destruct (ch_open c); [|by intros [= <-]].
  case_decide; [|done]. intros [= <-] [He Hc]. split; [done|]. cbn.
  intros q c' [[<- <-]|[_ Hq]]%lookup_insert_Some; [|by eapply Hc]. cbn. rewrite length_app. cbn. lia.
Qed.

Lemma bounded_writer `{Blake2b256} p n n' : channel_step p n n' -> bounded n -> bounded n'.
Proof.
  unfold channel_step, writer_recv, writer_write, take_bytes. intros E [He Hc].
  destruct (n_chans n !! p) as [c|] eqn:Ec; cbn in E; [|by destruct E as [?|[?|[? ?]]]]. specialize (Hc p c Ec) as Hpc.
  assert (Hins : forall c', (length (ch_queue c') <= length (ch_queue c))%nat -> bounded (set_chans (<[p := c']> (n_chans n)) n)).
  { intros c' Hc'. split; [done|]. cbn. intros q x [[<- <-]|[_ Hq]]%lookup_insert_Some; [lia|by eapply Hc]. }
  destruct E as [E|[E|[k E]]].
  - destruct (ch_queue c) as [|f q] eqn:Eq, (ch_inflight c), (ch_open c); try done. simplify_eq. apply Hins. cbn. lia.
  - destruct (ch_inflight c), (ch_open c); try done. destruct (write_ends _ _); [|done].
    destruct (write_frame _ _ _) as [[] w]; simplify_eq; apply Hins; cbn; lia.
  - destruct (ch_inflight c), (ch_open c); try done. simplify_eq. by apply Hins.
Qed.

Lemma bounded_exec `{Blake2b256} cfg l n n' : exec cfg l n = Some n' -> bounded n -> bounded n'.
Proof.
  intros E Hb. destruct l; revert E; cbn [exec];
    try (intros E; eapply bounded_writer; [|exact Hb]; unfold channel_step; by eauto);
    try (unfold loop_send, keep_send;
      repeat match goal with
      | |- match ?x with _ => _ end = Some _ -> _ => destruct x
      | |- mbind _ (send_frame ?p ?f ?n) = Some _ -> _ =>
          destruct (send_frame p f n) as [n1|] eqn:Es; cbn [mbind option_bind]; [|discriminate];
          pose proof (bounded_send_frame _ _ _ _ Es Hb); intros [= <-]; done
      | |- None = _ -> _ => discriminate
      | |- Some _ = _ -> _ => intros [= <-]; exact Hb
      end; fail).
  all: open_exec; try exact Hb; destruct Hb as [He Hc]; (split; cbn; [rewrite ?length_app; cbn|exact Hc || idtac]); auto.
  all: try (unfold EVENT_CAPACITY in *; lia).
  - intros q c [[_ <-]|[_ Hq]]%lookup_insert_Some; [cbn; lia|by eapply Hc].
  - intros q c [_ Hq]%lookup_delete_Some. by eapply Hc.
  - destruct (n_events n) as [|e0 es] eqn:Ee; [done|]. simplify_eq. cbn in He. lia.
Qed.

(** The two tasks that send frames do not hold the senders' lock together. *)
Definition lock_exclusive (n : Node) : Prop :=
  match n_loop n, n_keep n with LSending _, KSending _ => False | _, _ => True end.

Lemma exclusive_exec `{Blake2b256} cfg l n n' : exec cfg l n = Some n' -> lock_exclusive n -> lock_exclusive n'.
Proof.
  unfold lock_exclusive. destruct l; open_exec; cbn; unfold senders_free in *;
    repeat match goal with H : n_loop _ = _ |- _ => rewrite H in * | H : n_keep _ = _ |- _ => rewrite H in * end;
    try done; repeat case_match; done.
Qed.

(** ** Runs *)

Section runs.
Context `{Blake2b256} (cfg : NodeConfig).

Lemma run_ok ls n : node_run cfg ls n -> Z.of_nat (length ls) < 2 ^ 64 - 1 ->
  node_ok n /\ n_counter n <= 1 + Z.of_nat (length ls).
Proof.
  induction 1 as [|ls l n n' Hr IH Hl E]; intros Hlen; [split; [apply ok_node_new|done]|].
  rewrite length_app in *. cbn in *. destruct IH as [Hok Hc]; [lia|]. split; [eapply ok_exec; [done|lia|done]|].
  pose proof (ok_counter _ Hok). destruct (exec_counter _ _ _ _ E) as [->| ->]; [lia|].
  unfold as_unsigned. rewrite Z.mod_small; lia.
Qed.

Lemma run_router ls n : node_run cfg ls n -> router_reachable (n_router n).
Proof.
  induction 1 as [|ls l n n' Hr IH Hl E]; [constructor|].
  destruct (exec_router _ _ _ _ E Hl) as [->|(e & acts & Hs)]; [done|]. by eapply reach_step.
Qed.

Lemma run_bounded ls n : node_run cfg ls n -> bounded n /\ lock_exclusive n.
Proof.
  induction 1 as [|ls l n n' Hr IH Hl E]; [split; [split; [cbn; unfold EVENT_CAPACITY; lia|done]|done]|].
  destruct IH. split; [by eapply bounded_exec|by eapply exclusive_exec].
Qed.

Lemma run_app ls1 ls2 : forall n n', node_run cfg ls1 n -> Forall lawful ls2 -> exec_all cfg ls2 n = Some n' ->
  node_run cfg (ls1 ++ ls2) n'.
Proof.
  revert ls1. induction ls2 as [|l ls2 IH]; intros ls1 n n' Hr Hl; cbn.
  { intros [= <-]. by rewrite app_nil_r. }
  apply Forall_cons in Hl as [Hl Hls]. destruct (exec cfg l n) as [n1|] eqn:E; cbn; [|done]. intros E'.
  rewrite (cons_middle l ls1 ls2), app_assoc. eapply IH; [|done|done]. by eapply run_snoc.
Qed.

End runs.
