(* ===== verification/NodeSpec.v ===== *)
(** * What the node guarantees

    The properties of the tasks of [src/main.rs] under every interleaving. The
    runs considered take fewer than 2^64 - 1 steps, so that the 64-bit peer
    counter has not wrapped around. *)
From S2P Require Import Prelude Io Types Vlq Frame Handshake Messages Peer PeerTable InvTable Tracker Latency Router Connection Config Node NodeInv.

(** ** Lemmas *)

Lemma log_handled n p : peer_log n p =
  filter (fun e => event_peer e = p) (n_handled n) ++ filter (fun e => event_peer e = p) (n_events n).
Proof. apply filter_app. Qed.

(** A disconnection that was handled is the last event about the peer. *)
Lemma gone_log_end n p : peer_ok p (view_of n p) -> existsb (is_disconnect p) (n_handled n) = true ->
  filter (fun e => event_peer e = p) (n_events n) = [].
Proof.
  intros Hp Hg. rewrite existsb_disconnect in Hg. apply existsb_exists in Hg as (e & Hin & He).
  destruct e as [| q reason |]; try done. cbn in He. apply bool_decide_eq_true in He as ->.
  apply list_elem_of_In, list_elem_of_split in Hin as (h1 & h2 & Hh).
  assert (Hl : v_log (view_of n p) = h1 ++ PeerDisconnected p reason :: (h2 ++ filter (fun e => event_peer e = p) (n_events n))).
  { cbn. rewrite log_handled, Hh, <- app_assoc. done. }
  destruct (recv_disconnected p _ _ _ _ Hp Hl) as (_ & _ & _ & _ & _ & _ & _ & _ & Hpost).
  by apply app_eq_nil in Hpost as [_ ?].
Qed.

Lemma queued_registered n e es : node_ok n -> n_events n = e :: es -> registered (n_router n) (event_peer e).
Proof.
  intros Hok Ee. set (p := event_peer e). pose proof (ok_peers _ Hok p) as Hp.
  assert (Hq : filter (fun e => event_peer e = p) (n_events n) <> []) by (rewrite Ee, filter_cons_True; done).
  destruct (peer_ok_cases _ _ Hp) as [[Hl _]|[(t & s & _ & _ & _ & _ & He)|(t & s & gone & _ & _ & _ & Hv)]].
  - cbn in Hl. rewrite log_handled in Hl. by apply app_eq_nil in Hl as [_ ?].
  - cbn in He. unfold registered. by rewrite He.
  - assert (Hgone : gone = false).
    { destruct gone; [|done]. exfalso. apply Hq. apply gone_log_end; [done|].
      apply (f_equal v_gone) in Hv. done. }
    apply (f_equal v_entry) in Hv. subst gone. cbn in Hv. unfold registered. by rewrite Hv.
Qed.

Lemma sender_registered n p : node_ok n -> p ∈ n_senders n -> registered (n_router n) p.
Proof.
  intros Hok Hs. pose proof (ok_peers _ Hok p) as Hp. unfold peer_ok in Hp.
  assert (Hb : v_sender (view_of n p) = true) by (by apply bool_decide_eq_true).
  destruct (v_task (view_of n p)) as [t|]; [|by rewrite Hp in Hb].
  destruct (t_phase t); repeat match goal with
    | H : _ /\ _ |- _ => destruct H | H : exists _, _ |- _ => destruct H | H : _ \/ _ |- _ => destruct H end;
    match goal with H : view_of n p = _ |- _ => rewrite H in Hb; try discriminate Hb;
      apply (f_equal v_entry) in H; cbn in H; unfold registered; by rewrite H end.
Qed.

(** A peer with a sender is not about to have its writer aborted. *)
Lemma sender_not_removed n p t : node_ok n -> p ∈ n_senders n -> n_tasks n !! p = Some t -> t_phase t <> PRemoved.
Proof.
  intros Hok Hs Ht Hph. pose proof (ok_peers _ Hok p) as Hp. unfold peer_ok in Hp.
  rewrite (view_task _ _ _ Ht), Hph in Hp. destruct Hp as (s & _ & Hv).
  apply (f_equal v_sender) in Hv. cbn in Hv. by apply bool_decide_eq_false in Hv.
Qed.

(** ** A peer that takes nothing *)

(** The event loop is in the middle of its actions, the next is for [p], whose
    channel is full, and the writer of [p] waits for the socket. *)
Definition stalled `{Blake2b256} (p : PeerId) (n : Node) : Prop :=
  exists msg acts c f, n_loop n = LSending (Send p msg :: acts) /\ p ∈ n_senders n /\
    n_chans n !! p = Some c /\ ch_open c = true /\ (FRAME_CAPACITY <= length (ch_queue c))%nat /\
    ch_inflight c = Some f /\ write_ends c f = false.

(** The socket of [p] takes bytes. *)
Definition takes (p : PeerId) (l : Label) : Prop :=
  match l with DoTaken q _ => q = p | _ => False end.

(** A step that keeps the loop, the senders and the channel of [p]. *)
Lemma stalled_keep `{Blake2b256} p n n' : stalled p n -> n_loop n' = n_loop n -> n_senders n' = n_senders n ->
  n_chans n' !! p = n_chans n !! p -> stalled p n'.
Proof. unfold stalled. by intros Hs -> -> ->. Qed.

Lemma stalled_send `{Blake2b256} p n f : stalled p n -> send_frame p f n = None.
Proof.
  intros (msg & acts & c & g & _ & Hs & Hc & Ho & Hq & _). unfold send_frame.
  by rewrite decide_True, Hc, Ho, decide_False by (done || lia).
Qed.

(** Its writer cannot go on. *)
Lemma stalled_writer `{Blake2b256} p n : stalled p n -> writer_recv p n = None /\ writer_write p n = None.
Proof.
  intros (msg & acts & c & g & _ & _ & Hc & Ho & _ & Hi & Hw). unfold writer_recv, writer_write. rewrite Hc. cbn.
  rewrite Hi, Ho, Hw. by destruct (ch_queue c).
Qed.

Lemma stalled_locked `{Blake2b256} p n : stalled p n -> senders_free n = false.
Proof. intros (msg & acts & c & g & Hl & _). unfold senders_free. by rewrite Hl. Qed.

(** A step on another channel leaves that of [p] as it is. *)
Lemma channel_step_other `{Blake2b256} p q n n' : channel_step q n n' -> p <> q -> n_chans n' !! p = n_chans n !! p.
Proof.
  unfold channel_step, writer_recv, writer_write, take_bytes. intros E Hq.
  destruct (n_chans n !! q) as [c|]; cbn in E; [|by destruct E as [?|[?|[? ?]]]].
  destruct E as [E|[E|[k E]]]; repeat match goal with Hx : match ?x with _ => _ end = Some _ |- _ => destruct x; try done end;
    simplify_eq; cbn; by rewrite lookup_insert_ne.
Qed.

Lemma channel_step_eq `{Blake2b256} q n n' : channel_step q n n' -> exists c, n' = set_chans c n.
Proof. intros [E|[E|[k E]]]; [by eapply writer_recv_eq|by eapply writer_write_eq|by eapply take_bytes_eq]. Qed.

Lemma stalled_exec `{Blake2b256} cfg p l n n' : node_ok n -> lock_exclusive n -> stalled p n -> ~ takes p l ->
  exec cfg l n = Some n' ->
  stalled p n' /\ n_handled n' = n_handled n /\ n_senders n' = n_senders n.
Proof.
  intros Hok Hx Hs Hw. pose proof (stalled_locked _ _ Hs) as Hfree. pose proof Hs as (msg & acts & c & g & Hloop & Hp & Hc & _).
  unfold lock_exclusive in Hx. rewrite Hloop in Hx. destruct (stalled_writer _ _ Hs) as [Hwr Hww].
  assert (Hother : forall q, channel_step q n n' -> q <> p ->
    stalled p n' /\ n_handled n' = n_handled n /\ n_senders n' = n_senders n).
  { intros q Hq Hne. pose proof (channel_step_other p q n n' Hq (not_eq_sym Hne)) as Hch.
    apply channel_step_eq in Hq as [cs ->]. split; [|done]. by apply (stalled_keep p n). }
  destruct l; cbn [takes] in Hw.
  14-15: cbn [exec]; intros E; apply (Hother p0); [unfold channel_step; by eauto|intros ->; congruence].
  all: try (cbn [exec]; unfold loop_send; rewrite Hloop; cbn; rewrite (stalled_send p n) by done; discriminate).
  all: try (cbn [exec]; intros E; apply (Hother p0); [unfold channel_step; by eauto|done]).
  all: open_exec; rewrite ?Hloop, ?Hfree in *; try discriminate; simplify_eq;
    try (split; [by apply (stalled_keep p n)|done]).
  split; [|done]. apply (stalled_keep p n); try done. cbn. apply lookup_delete_ne. intros ->.
  by eapply sender_not_removed.
Qed.

Lemma stalled_exec_all `{Blake2b256} cfg p ls' : forall ls n n', node_run cfg ls n ->
  Z.of_nat (length ls + length ls') < 2 ^ 64 - 1 -> stalled p n -> Forall lawful ls' ->
  Forall (fun l => ~ takes p l) ls' -> exec_all cfg ls' n = Some n' ->
  stalled p n' /\ n_handled n' = n_handled n /\ n_senders n' = n_senders n.
Proof.
  induction ls' as [|l ls' IH]; intros ls n n' Hr Hlen Hs Hl Hw; cbn [exec_all]; [by intros [= <-]|].
  apply Forall_cons in Hl as [Hl Hls]. apply Forall_cons in Hw as [Hw Hws]. cbn in Hlen.
  destruct (exec cfg l n) as [n1|] eqn:E; cbn; [|done]. intros E'.
  destruct (run_ok cfg ls n Hr ltac:(lia)) as [Hok _]. destruct (run_bounded cfg ls n Hr) as [_ Hx].
  destruct (stalled_exec cfg p l n n1 Hok Hx Hs Hw E) as (Hs1 & Hh & Hsn).
  destruct (IH (ls ++ [l]) n1 n') as (Hs' & Hh' & Hsn'); try done.
  - by eapply run_snoc.
  - rewrite length_app. cbn. lia.
  - split; [done|]. by rewrite Hh', Hsn'.
Qed.

(** The backoff of the outbound manager. *)
Definition backoff_of (n : Node) : Z :=
  match n_manager n with MTop b | MScan _ b | MConnecting _ _ b => b end.

Lemma backoff_exec `{Blake2b256} cfg l n n' : exec cfg l n = Some n' -> 5 <= backoff_of n <= 300 -> 5 <= backoff_of n' <= 300.
Proof.
  unfold backoff_of, next_backoff. destruct l; open_exec; cbn;
    repeat match goal with H : n_manager _ = _ |- _ => rewrite H end; cbn; repeat case_match; cbn in *; simplify_eq;
    unfold next_backoff in *; lia.
Qed.

Lemma run_backoff `{Blake2b256} cfg ls n : node_run cfg ls n -> 5 <= backoff_of n <= 300.
Proof. induction 1; [cbn; lia|by eapply backoff_exec]. Qed.

(** ** Runs to evaluate *)

(** One listener for at most one inbound peer. *)
Definition small_config : NodeConfig :=
  mkNodeConfig [mkListener proxy_config Full 1] proxy_config 1 [].

(** A peer that handshakes and then sends [k] GetPeers. *)
Definition asking_peer (k : nat) : TcpStream :=
  mkTcpStream [build 7 zeros8 other_config ++
               concat (replicate k (@encode toy_digest (magic Testnet) (to_frame GetPeers)))]
    (mkWriter [] 200) false.

Definition connect_steps (p : PeerId) : list Label :=
  [DoHandshake 9 zeros8 p; DoRegister p; DoSendConnected p; DoInsertSender p].

Definition handle_steps (sends : nat) : list Label :=
  [DoRecv list_order (fun _ => 0); DoLock] ++ replicate sends DoSend.

(** The peer connects, all it sends arrives at once, and its connection is handled. *)
Definition joining (st : TcpStream) : list Label :=
  [DoAccept 0 st; DoArrive (mkPeerId 1)] ++ connect_steps (mkPeerId 1) ++ handle_steps 1.

(** [k] of its questions are read, sent on, and answered into its own channel. *)
Definition questions (k : nat) : list Label :=
  concat (replicate k ([DoRead (mkPeerId 1); DoForward (mkPeerId 1)] ++ handle_steps 2)).

Definition asking_run (k : nat) : list Label := joining (asking_peer (S k)) ++ questions k.

Definition one_more_question : list Label :=
  [DoRead (mkPeerId 1); DoForward (mkPeerId 1)] ++ handle_steps 0.

(** One answer is being written, 64 are queued, and one more is to be sent. *)
Definition stalling_run : list Label :=
  joining (asking_peer 66) ++ questions 1 ++ [DoWriterRecv (mkPeerId 1)] ++ questions 64 ++ one_more_question.

Definition run_from_new (ls : list Label) : Node := default node_new (exec_all (H := toy_digest) small_config ls node_new).

Lemma questions_lawful k : Forall lawful (questions k).
Proof.
  apply Forall_concat, Forall_replicate. cbn. repeat (apply Forall_cons; split); try done. apply list_order_laws.
Qed.

Lemma joining_lawful st : Forall lawful (joining st).
Proof. repeat (apply Forall_cons; split); try done. apply list_order_laws. Qed.

Lemma one_more_lawful : Forall lawful one_more_question.
Proof. repeat (apply Forall_cons; split); try done. apply list_order_laws. Qed.

Lemma asking_lawful k : Forall lawful (asking_run k ++ one_more_question).
Proof.
  unfold asking_run. rewrite !Forall_app. split_and!; [apply joining_lawful|apply questions_lawful|apply one_more_lawful].
Qed.

Lemma stalling_lawful : Forall lawful stalling_run.
Proof.
  unfold stalling_run. rewrite !Forall_app. split_and!;
    [apply joining_lawful|apply questions_lawful|by repeat constructor|apply questions_lawful|apply one_more_lawful].
Qed.

Lemma run_new_exec ls n : Forall lawful ls -> exec_all (H := toy_digest) small_config ls node_new = Some n ->
  node_run (H := toy_digest) small_config ls n.
Proof. intros Hl He. apply (run_app small_config [] ls node_new); [constructor|done|done]. Qed.

(** ** Properties *)

(** C8: under every interleaving of the tasks, the events the router handles
    meet its precondition: the peer of the event at the head of the channel is
    registered, and every peer the event loop has a sender for is registered;
    the router is in a state its own calls reach, so its invariants hold. *)
Theorem node_router_precondition `{Blake2b256} cfg ls n e es : node_run cfg ls n ->
  Z.of_nat (length ls) < 2 ^ 64 - 1 -> n_events n = e :: es ->
  registered (n_router n) (event_peer e) /\
  (forall p, p ∈ n_senders n -> registered (n_router n) p) /\ router_reachable (n_router n).
Proof.
  intros Hr Hlen He. destruct (run_ok cfg ls n Hr Hlen) as [Hok _].
  split; [by eapply queued_registered|]. split; [|by eapply run_router].
  intros p. by apply sender_registered.
Qed.

(** C9: under every interleaving, the events sent about a peer identifier form
    one session, in order: nothing, or one PeerConnected and then its messages,
    or those and a final PeerDisconnected; a peer is registered exactly from
    its registration until its PeerDisconnected is handled, and then never
    again. *)
Theorem node_one_session `{Blake2b256} cfg ls n p : node_run cfg ls n -> Z.of_nat (length ls) < 2 ^ 64 - 1 ->
  let log := peer_log n p in
  let gone := existsb (is_disconnect p) (n_handled n) in
  (log = [] \/ exists s d msgs,
     log = PeerConnected p s d :: (Message p <$> msgs) \/
     log = PeerConnected p s d :: (Message p <$> msgs) ++ [PeerDisconnected p CLOSED]) /\
  (log <> [] -> (registered (n_router n) p <-> gone = false)) /\
  (gone = true -> ~ registered (n_router n) p /\ ~ (p ∈ n_senders n) /\
     filter (fun e => event_peer e = p) (n_events n) = []).
Proof.
  intros Hr Hlen log gone. destruct (run_ok cfg ls n Hr Hlen) as [Hok _]. pose proof (ok_peers _ Hok p) as Hp.
  assert (Hend : gone = true -> filter (fun e => event_peer e = p) (n_events n) = []) by (by apply gone_log_end).
  unfold registered. destruct (peer_ok_cases _ _ Hp) as [[Hl Hg]|[(t & s & _ & _ & Hl & Hg & He)|(t & s & g & _ & _ & _ & Hv)]].
  - cbn in Hl, Hg. subst log gone. rewrite Hl, Hg. split_and!; [by left|done|done].
  - cbn in Hl, Hg, He. subst log gone. rewrite Hl, Hg, He. split_and!; [right; unfold session; eauto|done|done].
  - unfold view_of in Hv. injection Hv as H1 H2 H3 H4 H5 H6. subst log gone. rewrite H2, H3, H4 in *. split_and!.
    + right. unfold session. eauto.
    + intros _. destruct g; split; done.
    + intros ->. apply bool_decide_eq_false in H5. split; [by intros [? ?]|]. auto.
Qed.

(** C15: under every interleaving, the event channel holds at most 256 events
    and each frame channel at most 64 frames, the two tasks that send frames
    never hold the senders' lock together, and the reconnection backoff stays
    between 5 and 300 seconds. *)
Theorem node_bounds `{Blake2b256} cfg ls n : node_run cfg ls n ->
  (length (n_events n) <= 256)%nat /\
  (forall p c, n_chans n !! p = Some c -> (length (ch_queue c) <= 64)%nat) /\
  lock_exclusive n /\ 5 <= backoff_of n <= 300.
Proof.
  intros Hr. destruct (run_bounded cfg ls n Hr) as [[He Hc] Hx]. exact (conj He (conj Hc (conj Hx (run_backoff cfg ls n Hr)))).
Qed.



Definition connecting : list Label := [DoAccept 0 (asking_peer 1); DoArrive (mkPeerId 1)] ++ connect_steps (mkPeerId 1).

Lemma connecting_lawful : Forall lawful connecting.
Proof. repeat (apply Forall_cons; split); done. Qed.

Lemma node_router_precondition_witness :
  registered (n_router (run_from_new connecting)) (mkPeerId 1).
Proof.
  refine (proj1 (node_router_precondition (H := toy_digest) small_config connecting (run_from_new connecting)
    (PeerConnected (mkPeerId 1) (config_spec zeros8 other_config) Inbound) [] _ _ _)).
  - apply run_new_exec; [exact connecting_lawful|vm_compute; reflexivity].
  - vm_compute. reflexivity.
  - vm_compute. reflexivity.
Defined.

Lemma node_one_session_witness :
  let n := run_from_new (asking_run 2 ++ one_more_question) in
  peer_log n (mkPeerId 1) <> [] /\
  (registered (n_router n) (mkPeerId 1) <-> existsb (is_disconnect (mkPeerId 1)) (n_handled n) = false).
Proof.
  intros n. assert (Hne : peer_log n (mkPeerId 1) <> []) by (vm_compute; discriminate). split; [exact Hne|].
  refine (proj1 (proj2 (node_one_session (H := toy_digest) small_config (asking_run 2 ++ one_more_question) n (mkPeerId 1) _ _)) Hne).
  - apply run_new_exec; [apply asking_lawful|vm_compute; reflexivity].
  - vm_compute. reflexivity.
Defined.

Lemma node_bounds_witness :
  (length (n_events (run_from_new (asking_run 2 ++ one_more_question))) <= 256)%nat /\
  5 <= backoff_of (run_from_new (asking_run 2 ++ one_more_question)) <= 300.
Proof.
  destruct (node_bounds (H := toy_digest) small_config (asking_run 2 ++ one_more_question)
    (run_from_new (asking_run 2 ++ one_more_question))) as (H1 & _ & _ & H2).
  - apply run_new_exec; [apply asking_lawful|vm_compute; reflexivity].
  - split; [exact H1|exact H2].
Defined.


(** C16: the limit on inbound peers is checked before the handshake and counts
    the peers registered after it: with a limit of one, two peers that connect
    before either has finished its handshake are both admitted. *)
Theorem node_inbound_limit_exceeded : exists ls n l,
  node_run (H := toy_digest) small_config ls n /\ nc_listeners small_config !! 0%nat = Some l /\
  l_max_inbound l < count_direction Inbound (n_router n).
Proof.
  set (ls := [DoAccept 0 (asking_peer 1); DoAccept 0 (asking_peer 1); DoArrive (mkPeerId 1); DoArrive (mkPeerId 2);
              DoHandshake 9 zeros8 (mkPeerId 1); DoHandshake 9 zeros8 (mkPeerId 2);
              DoRegister (mkPeerId 1); DoRegister (mkPeerId 2)]).
  exists ls, (run_from_new ls), (mkListener proxy_config Full 1). split_and!.
  - apply run_new_exec; [repeat (apply Forall_cons; split); done|vm_compute; reflexivity].
  - done.
  - vm_compute. reflexivity.
Qed.
