(* ===== verification/Relay.v ===== *)
(** * The relay: what the node implements

    An abstract specification of the proxy, with no sockets, tasks, locks or
    channels. A peer that joins brings the whole session it will contribute: its
    connection, the messages its bytes encode, and its disconnection. The relay
    handles the next event of some peer, one event at a time, delivers the
    actions of an event before it handles the next, and keeps for every peer the
    messages it has been given, in order. *)
From S2P Require Import Prelude Io Types Vlq Frame Handshake Messages Peer PeerTable InvTable Tracker Latency Router Wire Connection Config Node.

(** ** The messages in a sequence of bytes *)

Section bytes.
Context `{Blake2b256}.

(** Frame after frame, by the decoder of byte slices; frames whose body does
    not parse are skipped, and the first bad frame ends the sequence, as it ends
    the reader loop of the peer's task. (The design document would have bad
    frames dropped and the peer disconnected after a threshold.) *)
Fixpoint messages_in (fuel : nat) (magic bs : list Z) : list ProtocolMessage :=
  match fuel with
  | O => []
  | S fuel =>
      match decode magic bs with
      | Ok f => match from_frame f with Ok m => [m] | Err _ => [] end
                ++ messages_in fuel magic (drop (HEADER_SIZE + length (body f)) bs)
      | Err _ => []
      end
  end.

(** Each frame takes 13 bytes at least, so the number of bytes is fuel enough. *)
Definition sent_messages (magic bs : list Z) : list ProtocolMessage := messages_in (length bs) magic bs.

Lemma decode_fits magic bs f : decode magic bs = Ok f -> (HEADER_SIZE + length (body f) <= length bs)%nat.
Proof.
  unfold decode. case_decide as H13; [done|]. case_decide; [done|]. destruct (_ <? _); [done|].
  case_decide as Hl; [done|]. case_decide; [done|]. intros [= <-]. cbn [body]. unfold slice.
  rewrite length_take, length_drop. lia.
Qed.

Lemma messages_in_fuel magic : forall fuel bs, (length bs <= fuel)%nat -> messages_in fuel magic bs = sent_messages magic bs.
Proof.
  assert (Hgen : forall n k1 k2 bs, (length bs <= n)%nat -> (length bs <= k1)%nat -> (length bs <= k2)%nat ->
    messages_in k1 magic bs = messages_in k2 magic bs); [|intros; by eapply Hgen].
  assert (Hshort : forall k bs, (length bs < HEADER_SIZE)%nat -> messages_in k magic bs = []).
  { intros [|k] bs Hb; cbn [messages_in]; [done|]. destruct (decode magic bs) as [f|e] eqn:E; [|done].
    apply decode_fits in E. lia. }
  induction n as [|n IH]; intros k1 k2 bs Hn H1 H2.
  { rewrite !Hshort; unfold HEADER_SIZE; (done || lia). }
  destruct k1 as [|k1], k2 as [|k2]; try (rewrite !Hshort; unfold HEADER_SIZE; (done || lia)).
  cbn [messages_in]. destruct (decode magic bs) as [f|e] eqn:E; [|done]. apply decode_fits in E. unfold HEADER_SIZE in *.
  f_equal. apply IH; rewrite length_drop; lia.
Qed.

Lemma sent_messages_eq magic bs : sent_messages magic bs =
  match decode magic bs with
  | Ok f => match from_frame f with Ok m => [m] | Err _ => [] end
            ++ sent_messages magic (drop (HEADER_SIZE + length (body f)) bs)
  | Err _ => []
  end.
Proof.
  rewrite <- (messages_in_fuel magic (S (length bs))) by lia. cbn [messages_in].
  destruct (decode magic bs) as [f|e]; [|done]. f_equal. apply messages_in_fuel. rewrite length_drop. lia.
Qed.

(** The messages of frames: those whose body parses. *)
Definition message_of (f : Frame) : option ProtocolMessage :=
  match from_frame f with Ok m => Some m | Err _ => None end.

End bytes.

Section bytes_lemmas.
Context `{Blake2b256Laws}.

(** A reader over a socket takes the bytes apart in the same way. *)
Lemma sent_messages_read magic (r : BufReader) : length magic = 4%nat -> bytes_ok (stream r) ->
  match read_frame magic r with
  | (Ok f, r') =>
      frame_ok f /\ bytes_ok (stream r') /\
      sent_messages magic (stream r) =
        match from_frame f with Ok m => [m] | Err _ => [] end ++ sent_messages magic (stream r')
  | (Err _, _) => sent_messages magic (stream r) = []
  end.
Proof.
  intros Hm Hb. change (bytes_ok (view r)) in Hb. rewrite sent_messages_eq.
  change (stream r) with (view r). destruct (read_frame magic r) as [[f|e] r'] eqn:E.
  - destruct (read_frame_inv magic r r' f Hb E) as (_ & Hf & Hv). change (stream r') with (view r').
    split; [done|]. rewrite Hv in Hb |- *. apply Forall_app in Hb as [_ Hb]. split; [done|].
    rewrite decode_encode by done. by rewrite drop_app_exact by (by apply encode_length).
  - destruct (decode magic (view r)) as [f|e'] eqn:Ed; [|done].
    destruct (decode_inv _ _ _ Hb Ed) as (_ & Hf & rest & Hv).
    destruct (reads_frame magic f Hm Hf r rest Hv) as (r1 & E1 & _). congruence.
Qed.

(** Frames encoded one after the other are those frames' messages. *)
Lemma sent_messages_frames magic fs rest : length magic = 4%nat -> Forall frame_ok fs ->
  sent_messages magic (concat (encode magic <$> fs) ++ rest) = omap message_of fs ++ sent_messages magic rest.
Proof.
  intros Hm. induction 1 as [|f fs Hf Hfs IH]; [done|]. cbn [fmap list_fmap concat].
  rewrite <- app_assoc, sent_messages_eq, decode_encode by done.
  rewrite drop_app_exact by (by apply encode_length). rewrite IH. cbn. unfold message_of at 2.
  by destruct (from_frame f).
Qed.

Lemma sent_messages_encode magic ms rest : length magic = 4%nat -> Forall wire_ok ms ->
  sent_messages magic (concat (encode magic <$> (to_frame <$> ms)) ++ rest) = ms ++ sent_messages magic rest.
Proof.
  intros Hm Hms. rewrite sent_messages_frames; [|done|]; [f_equal|].
  - induction Hms as [|m ms [Hok Hf] Hms IH]; [done|]. cbn. unfold message_of at 1.
    rewrite from_to_frame by done. by rewrite IH.
  - apply Forall_fmap. eapply Forall_impl; [exact Hms|]. by intros m [_ Hf].
Qed.

End bytes_lemmas.

(** ** The relay *)

(** The events of one peer's session. *)
Definition script (p : PeerId) (s : PeerSpec) (d : Direction) (ms : list ProtocolMessage) : list ProtocolEvent :=
  PeerConnected p s d :: (Message p <$> ms) ++ [PeerDisconnected p CLOSED].

Record Relay := mkRelay {
  rl_router : Router.t;
  rl_pending : gmap PeerId (list ProtocolEvent);    (* what is left of each session *)
  rl_todo : list Action;                            (* of the event being handled *)
  rl_ping : list PeerId;                            (* to be sent a keepalive *)
  rl_open : gset PeerId;                            (* who can be sent messages *)
  rl_out : gmap PeerId (list ProtocolMessage)       (* what each was sent *)
}.

Definition relay_new : Relay := mkRelay Router.new ∅ [] [] ∅ ∅.

(** A message for a peer that cannot be sent messages is dropped. *)
Definition deliver (q : PeerId) (m : ProtocolMessage) (s : Relay) : Relay :=
  mkRelay (rl_router s) (rl_pending s) (rl_todo s) (rl_ping s) (rl_open s)
    (if decide (q ∈ rl_open s) then alter (fun ms => ms ++ [m]) q (rl_out s) else rl_out s).

Inductive relay_step `{Blake2b256} : Relay -> Relay -> Prop :=
  | relay_join p d mode spec net bytes r pend todo ping open out : pend !! p = None -> bytes_ok bytes ->
      relay_step (mkRelay r pend todo ping open out)
        (mkRelay (Router.register_peer p d mode r)
           (<[p := script p spec d (sent_messages (magic net) bytes)]> pend) todo ping open out)
  | relay_open p r pend todo ping open out : is_Some (pend !! p) -> out !! p = None ->
      relay_step (mkRelay r pend todo ping open out)
        (mkRelay r pend todo ping ({[p]} ∪ open) (<[p := []]> out))
  | relay_close p r pend todo ping open out : p ∈ open ->
      relay_step (mkRelay r pend todo ping open out) (mkRelay r pend todo ping (open ∖ {[p]}) out)
  | relay_handle (order : HashIter PeerId PeerEntry) (laws : HashIterLaws PeerId PeerEntry) now
      p e es r r' pend ping open out acts : pend !! p = Some (e :: es) ->
      Router.handle_event now e r = (acts, r') ->
      relay_step (mkRelay r pend [] ping open out) (mkRelay r' (<[p := es]> pend) acts ping open out)
  | relay_deliver q m r pend todo ping open out :
      relay_step (mkRelay r pend (Send q m :: todo) ping open out)
        (deliver q m (mkRelay r pend todo ping open out))
  | relay_tick (order : HashIter PeerId PeerEntry) (laws : HashIterLaws PeerId PeerEntry) r pend todo open out :
      relay_step (mkRelay r pend todo [] open out) (mkRelay r pend todo (Router.outbound_peers r) open out)
  | relay_ping q r pend todo ping open out :
      relay_step (mkRelay r pend todo (q :: ping) open out)
        (deliver q GetPeers (mkRelay r pend todo ping open out)).

(** ** The messages of the relay fit on the wire *)

Lemma sent_messages_wire_ok `{Blake2b256Laws} magic bs : length magic = 4%nat -> bytes_ok bs ->
  Forall wire_ok (sent_messages magic bs).
Proof.
  intros Hm. assert (Hgen : forall k bs, bytes_ok bs -> Forall wire_ok (messages_in k magic bs)); [|apply Hgen].
  induction k as [|k IH]; intros bs0 Hb; cbn [messages_in]; [by apply Forall_nil|].
  destruct (decode magic bs0) as [f|e] eqn:E; [|by apply Forall_nil].
  destruct (decode_inv _ _ _ Hb E) as (_ & Hf & _). apply Forall_app. split; [|by apply IH, Forall_drop].
  destruct (from_frame f) as [m|e] eqn:Em; [|by apply Forall_nil]. apply Forall_singleton. by eapply from_frame_wire_ok.
Qed.

Record relay_typed (s : Relay) : Prop := {
  rt_pending : forall p es, rl_pending s !! p = Some es -> Forall event_wire_ok es;
  rt_todo : Forall (fun a => wire_ok (action_message a)) (rl_todo s);
  rt_out : forall p ms, rl_out s !! p = Some ms -> Forall wire_ok ms
}.

Lemma deliver_typed q m s : wire_ok m -> relay_typed s -> relay_typed (deliver q m s).
Proof.
  intros Hm [Hp Ht Ho]. split; [done|done|]. cbn. case_decide; [|done]. intros p ms.
  destruct (decide (p = q)) as [->|Hq]; [|rewrite lookup_alter_ne by done; by apply Ho].
  rewrite lookup_alter_eq. intros (ms' & Hms & ->)%fmap_Some. eauto with ergo.
Qed.

Lemma relay_step_typed `{Blake2b256Laws} s s' : relay_step s s' -> relay_typed s -> relay_typed s'.
Proof.
  intros Hstep Hs. destruct Hstep; destruct Hs as [Hp Ht Ho]; cbn in Hp, Ht, Ho.
  - split; try done; cbn. intros q es [[<- <-]|[_ Hq]]%lookup_insert_Some; [|eauto]. constructor; [done|].
    apply Forall_app. split; [|by repeat constructor].
    apply Forall_fmap, (sent_messages_wire_ok _ _ (magic_length net)). done.
  - split; try done; cbn. intros q ms [[<- <-]|[_ Hq]]%lookup_insert_Some; [by apply Forall_nil|eauto].
  - done.
  - specialize (Hp _ _ H1) as He. apply Forall_cons in He as [He Hes]. split; cbn; try done.
    + intros q es' [[<- <-]|[_ Hq]]%lookup_insert_Some; eauto.
    + by eapply handle_event_wire_ok.
  - apply Forall_cons in Ht as [Hm Ht]. by apply deliver_typed.
  - done.
  - apply deliver_typed; [by_decide|done].
Qed.

Lemma relay_run_typed `{Blake2b256Laws} s s' : rtc relay_step s s' -> relay_typed s -> relay_typed s'.
Proof. induction 1 as [|s s1 s2 Hs Hr IH]; [done|]. intros Ht. by apply IH, (relay_step_typed s). Qed.

Lemma relay_new_typed : relay_typed relay_new.
Proof. split; cbn; try done; intros p x Hx; by rewrite lookup_empty in Hx. Qed.
