(* ===== verification/NodeTypes.v ===== *)
(** * The types of the node's state

    What the Rust types and the checks of the transport guarantee of the values
    the tasks hold, and that every step keeps it: bytes are bytes, the messages
    on their way to the router fit in a frame, the frames on their way to a peer
    are those of such messages, and the keys of the router's tables are
    [ModifierId]s. *)
From S2P Require Import Prelude Io Types Vlq Frame Handshake Messages Peer PeerTable InvTable Tracker Latency Router Wire Connection Config Node NodeInv NodeSpec Relay.

(** A socket just connected: it will deliver bytes, and nothing was written. *)
Definition fresh_stream (st : TcpStream) : Prop :=
  wr_sent (tcp_writer st) = [] /\ Forall bytes_ok (tcp_chunks st).

Definition label_typed (l : Label) : Prop :=
  match l with
  | DoAccept _ st | DoManagerConnected (Some st) => fresh_stream st
  | _ => True
  end.

(** A connection on which the proxy has sent its handshake. *)
Record conn_typed (hs : HandshakeConfig) (c : Connection) : Prop := {
  ct_sent : exists now urandom, wr_sent (writer c) = build now urandom hs;
  ct_magic : conn_magic c = magic (network hs);
  ct_bytes : bytes_ok (stream (reader c))
}.

Definition phase_typed (hs : HandshakeConfig) (ph : Phase) : Prop :=
  match ph with
  | PHandshake st => fresh_stream st
  | PActive c | PRegistered c | PConnected c => conn_typed hs c
  | PReading r mg => mg = magic (network hs) /\ bytes_ok (stream r)
  | PParsed r mg m => mg = magic (network hs) /\ bytes_ok (stream r) /\ wire_ok m
  | _ => True
  end.

(** The reader the task of a peer holds. *)
Definition reader_of (t : Task) : option BufReader :=
  match t_phase t with
  | PActive c | PRegistered c | PConnected c => Some (reader c)
  | PReading r _ | PParsed r _ _ => Some r
  | _ => None
  end.

Lemma reader_typed t r : phase_typed (t_hs t) (t_phase t) -> reader_of t = Some r -> bytes_ok (stream r).
Proof. unfold reader_of, phase_typed. destruct (t_phase t); intros Hp [= <-]; try apply Hp; by destruct Hp as (_ & ? & _). Qed.

(** The frame of a message the receiver accepts. *)
Definition message_frame (f : Frame) : Prop := exists m, wire_ok m /\ f = to_frame m.

Definition chan_typed (c : Chan) : Prop :=
  Forall message_frame (option_list (ch_inflight c) ++ ch_queue c).

(** The actions the event loop has still to carry out. *)
Definition todo_of (l : LoopState) : list Action :=
  match l with LIdle => [] | LActions acts | LSending acts => acts end.

Record node_typed (n : Node) : Prop := {
  ty_tasks : forall p t, n_tasks n !! p = Some t -> phase_typed (t_hs t) (t_phase t);
  ty_events : Forall event_wire_ok (n_events n);
  ty_todo : Forall (fun a => wire_ok (action_message a)) (todo_of (n_loop n));
  ty_chans : forall p c, n_chans n !! p = Some c -> chan_typed c;
  ty_keys : keys_typed (n_router n)
}.

Lemma delivered_ok chunks : Forall bytes_ok chunks -> bytes_ok (delivered chunks).
Proof.
  induction 1 as [|c cs Hc Hcs IH]; [constructor|]. destruct c; [constructor|].
  cbn [delivered]. by apply Forall_app.
Qed.

(** The connection a handshake yields. *)
Lemma handshake_typed now urandom st hs conn w : fresh_stream st ->
  outbound now urandom st hs = (Ok conn, w) \/ inbound now urandom st hs = (Ok conn, w) -> conn_typed hs conn.
Proof.
  intros [Hw Hb] H. assert (Hi := match H with or_introl H => outbound_inv _ _ _ _ _ _ H
                                            | or_intror H => inbound_inv _ _ _ _ _ _ H end).
  destruct Hi as (Hr & _ & Hm & <- & Hs). destruct (read_handshake_inv _ _ _ Hr) as (hb & Hst & _).
  split; [rewrite Hs, Hw; by exists now, urandom|done|].
  apply delivered_ok in Hb. change (stream (mkBufReader [] (tcp_chunks st))) with (delivered (tcp_chunks st)) in Hst.
  rewrite Hst in Hb. by apply Forall_app in Hb as [_ ?].
Qed.

(** A step of the task of [p] that keeps the rest typed. *)
Lemma typed_set_phase p t ph n : node_typed n -> phase_typed (t_hs t) ph -> node_typed (set_phase p t ph n).
Proof.
  intros [Ht He Ha Hc Hk] Hph. split; try done. cbn. intros q tq [[<- <-]|[_ Hq]]%lookup_insert_Some; [done|eauto].
Qed.

Lemma typed_send_event e n n' : send_event e n = Some n' -> event_wire_ok e -> node_typed n -> node_typed n'.
Proof.
  intros [-> _]%send_event_eq Hok [Ht He Ha Hc Hk]. split; try done. cbn. auto with ergo.
Qed.

Lemma typed_set_chan p c n : node_typed n -> chan_typed c -> node_typed (set_chans (<[p := c]> (n_chans n)) n).
Proof.
  intros [Ht He Ha Hc Hk] Hp. split; try done. cbn. intros q c' [[<- <-]|[_ Hq]]%lookup_insert_Some; [done|eauto].
Qed.

Lemma typed_send_frame p m n n' : send_frame p (to_frame m) n = Some n' -> wire_ok m -> node_typed n -> node_typed n'.
Proof.
  unfold send_frame. case_decide; [|by intros [= <-]].
  destruct (n_chans n !! p) as [c|] eqn:Ec; [|by intros [= <-]]. destruct (ch_open c); [|by intros [= <-]].
  case_decide; [|done]. intros [= <-] Hm Hn. apply typed_set_chan; [done|]. pose proof (ty_chans _ Hn _ _ Ec) as Hc.
  unfold chan_typed in *. cbn. rewrite app_assoc. apply Forall_app. split; [done|]. repeat constructor. by exists m.
Qed.

Lemma typed_arrived a n : node_typed n -> node_typed (set_arrived a n).
Proof. by intros [Ht He Ha Hc Hk]. Qed.

Section typed.
Context `{Blake2b256Laws}.

Lemma typed_writer p n n' : channel_step p n n' -> node_typed n -> node_typed n'.
Proof.
  unfold channel_step, writer_recv, writer_write, take_bytes. intros E Hn.
  destruct (n_chans n !! p) as [c|] eqn:Ec; cbn in E; [|by destruct E as [?|[?|[? ?]]]].
  pose proof (ty_chans _ Hn _ _ Ec) as Hc. unfold chan_typed in Hc. destruct E as [E|[E|[k E]]].
  - destruct (ch_queue c) as [|f q] eqn:Eq, (ch_inflight c), (ch_open c); try done. simplify_eq.
    by apply typed_set_chan.
  - destruct (ch_inflight c) as [f|], (ch_open c); try done. apply Forall_app in Hc as [_ Hc].
    destruct (write_ends _ _); [|done].
    destruct (write_frame _ _ _) as [[] w]; simplify_eq; apply typed_set_chan; try done. constructor.
  - destruct (ch_inflight c) as [f|] eqn:Ei, (ch_open c); try done. simplify_eq. by apply typed_set_chan.
Qed.

Lemma typed_read p n n' : node_typed n -> read_message p n = Some n' -> node_typed n'.
Proof.
  unfold read_message. intros Hn E. open_task E t Ht Hph.
  pose proof (ty_tasks _ Hn _ _ Ht) as Hp. rewrite Hph in Hp. destruct Hp as [-> Hb]. destruct (waiting _ _ _); [done|].
  pose proof (sent_messages_read _ reader (magic_length (network (t_hs t))) Hb) as Hr.
  destruct (read_frame _ reader) as [[f|e] r]; [|simplify_eq; by apply typed_set_phase].
  destruct Hr as (Hf & Hb' & _). destruct (from_frame f) as [m|e] eqn:Em; simplify_eq;
    apply typed_arrived, typed_set_phase; try done.
  split_and!; try done. by eapply from_frame_wire_ok.
Qed.

Lemma typed_handshake now urandom p n n' : node_typed n -> handshake now urandom p n = Some n' -> node_typed n'.
Proof.
  unfold handshake. intros Hn E. open_task E t Ht Hph. pose proof (ty_tasks _ Hn _ _ Ht) as Hp. rewrite Hph in Hp.
  case_decide; [done|]. destruct (match t_direction t with Inbound => _ | Outbound => _ end) as [conn|e] eqn:Er;
    [|simplify_eq; by apply typed_set_phase].
  destruct (bool_decide _ && _); simplify_eq; [by apply typed_set_phase|]. apply typed_arrived, typed_set_phase; try done. cbn.
  destruct (t_direction t).
  - destruct (outbound now urandom stream (t_hs t)) as [x w] eqn:Eo. cbn in Er. subst x.
    eapply handshake_typed; [done|by left].
  - destruct (inbound now urandom stream (t_hs t)) as [x w] eqn:Eo. cbn in Er. subst x.
    eapply handshake_typed; [done|by right].
Qed.

Lemma typed_loop_recv order now n n' : node_typed n -> loop_recv order now n = Some n' -> node_typed n'.
Proof.
  unfold loop_recv. intros [Ht He Ha Hc Hk] E. destruct (n_loop n); try done.
  destruct (n_events n) as [|e es]; [done|]. apply Forall_cons in He as [He Hes].
  destruct (Router.handle_event now e (n_router n)) as [acts r] eqn:Er. simplify_eq.
  split; try done; cbn; [by eapply handle_event_wire_ok|].
  pose proof (keys_handle_event now e (n_router n) He Hk) as Hk'. by rewrite Er in Hk'.
Qed.

Lemma typed_spawn d mode hs st n : fresh_stream st -> node_typed n -> node_typed (spawn_peer d mode hs st n).
Proof.
  intros Hst [Ht He Ha Hc Hk]. split; try done. cbn. intros q tq [[<- <-]|[_ Hq]]%lookup_insert_Some; [done|eauto].
Qed.

End typed.

(** A step that keeps the tasks, the events, the channels and the router. *)
Lemma typed_same n n' : node_typed n -> n_tasks n' = n_tasks n -> n_events n' = n_events n ->
  Forall (fun a => wire_ok (action_message a)) (todo_of (n_loop n')) -> n_chans n' = n_chans n ->
  keys_typed (n_router n') -> node_typed n'.
Proof. intros [Ht He Ha Hc Hk] E1 E2 Ha' E3 Hk'. split; rewrite ?E1, ?E2, ?E3; done. Qed.

(** Opens a step of the task of a peer whose phase is typed. *)
Ltac typed_task Hn E := let t := fresh "t" in let Ht := fresh "Ht" in let Hph := fresh "Hph" in let Hp := fresh "Hp" in
  open_task E t Ht Hph; pose proof (ty_tasks _ Hn _ _ Ht) as Hp; rewrite Hph in Hp.

Lemma wire_get_peers : wire_ok GetPeers.
Proof. by_decide. Qed.

Section typed_run.
Context `{Blake2b256Laws}.

Lemma typed_loop_send n n' : node_typed n -> loop_send n = Some n' -> node_typed n'.
Proof.
  unfold loop_send. intros Hn. pose proof (ty_todo _ Hn) as Ha. destruct (n_loop n) as [| |[|[q m] acts]]; try done.
  - intros [= <-]. apply (typed_same n); try done; apply Hn.
  - apply Forall_cons in Ha as [Hm Ha]. destruct (send_frame q (to_frame m) n) as [n1|] eqn:Es; cbn; [|done].
    intros [= <-]. assert (Hn1 : node_typed n1) by (by eapply typed_send_frame).
    apply (typed_same n1); try done; apply Hn1.
Qed.

Lemma typed_keep_send n n' : node_typed n -> keep_send n = Some n' -> node_typed n'.
Proof.
  unfold keep_send. intros Hn. destruct (n_keep n) as [| |[|q pids]]; try done.
  - intros [= <-]. apply (typed_same n); try done; apply Hn.
  - destruct (send_frame q (to_frame GetPeers) n) as [n1|] eqn:Es; cbn; [|done]. intros [= <-].
    assert (Hn1 : node_typed n1) by (eapply typed_send_frame; [exact Es|apply wire_get_peers|done]).
    apply (typed_same n1); try done; apply Hn1.
Qed.

Lemma typed_events p n n' : node_typed n ->
  send_connected p n = Some n' \/ forward_message p n = Some n' \/ send_disconnected p n = Some n' -> node_typed n'.
Proof.
  unfold send_connected, forward_message, send_disconnected. intros Hn [E|[E|E]]; typed_task Hn E.
  - destruct (send_event _ n) as [n1|] eqn:Es; cbn in E; simplify_eq.
    apply typed_set_phase; [|done]. by eapply typed_send_event.
  - destruct (send_event _ n) as [n1|] eqn:Es; cbn in E; simplify_eq. destruct Hp as (Hmg & Hb & Hw).
    apply typed_set_phase; [|done]. by eapply typed_send_event.
  - destruct (send_event _ n) as [n1|] eqn:Es; cbn in E; simplify_eq.
    apply typed_set_phase; [|done]. by eapply typed_send_event.
Qed.

Lemma typed_run_peer p n n' : node_typed n ->
  register p n = Some n' \/ insert_sender p n = Some n' \/ remove_sender p n = Some n' \/ abort_writer p n = Some n' ->
  node_typed n'.
Proof.
  unfold register, insert_sender, remove_sender, abort_writer. intros Hn [E|[E|[E|E]]]; typed_task Hn E.
  - simplify_eq. apply typed_set_phase; [|done]. apply (typed_same n); try done; apply Hn.
  - destruct (senders_free n); [|done]. unfold split in E. simplify_eq. destruct Hp as [_ Hm Hb].
    apply typed_set_phase; [|done]. assert (Hn1 : node_typed (set_chans (<[p := mkChan [] None true (writer conn)
      (conn_magic conn) 0]> (n_chans n)) n)) by (apply typed_set_chan; [done|constructor]).
    apply (typed_same (set_chans (<[p := mkChan [] None true (writer conn) (conn_magic conn) 0]> (n_chans n)) n));
      try done; apply Hn1.
  - destruct (senders_free n); [|done]. simplify_eq. apply typed_set_phase; [|done].
    apply (typed_same n); try done; apply Hn.
  - simplify_eq. apply typed_set_phase; [|done]. destruct Hn as [Ht' He Ha Hc Hk]. split; try done. cbn.
    intros q c [_ Hq]%lookup_delete_Some. eauto.
Qed.

Lemma typed_exec cfg l n n' : node_typed n -> label_typed l -> exec cfg l n = Some n' -> node_typed n'.
Proof.
  intros Hn Hl. destruct l; cbn [exec]; intros E;
    try (eapply typed_events; [exact Hn|]; eauto; fail); try (eapply typed_run_peer; [exact Hn|]; eauto; fail);
    try (eapply typed_writer; [|exact Hn]; unfold channel_step; eauto; fail).
  - destruct (_ !! l) as [li|]; cbn in E; [|done]. simplify_eq. unfold accept. case_match; [done|by apply typed_spawn].
  - unfold manager_top in E. destruct (n_manager n); simplify_eq. apply (typed_same n); try done; apply Hn.
  - unfold manager_scan in E. destruct (n_manager n) as [|[|]|]; simplify_eq; apply (typed_same n); try done; apply Hn.
  - unfold manager_connected in E. destruct (n_manager n) as [| |addr seeds b]; try done. destruct res as [st|]; simplify_eq.
    + pose proof (typed_spawn Outbound Full (nc_outbound cfg) st n Hl Hn) as Hs.
      apply (typed_same (spawn_peer Outbound Full (nc_outbound cfg) st n)); try done; apply Hs.
    + apply (typed_same n); try done; apply Hn.
  - by eapply typed_handshake.
  - by eapply typed_read.
  - by eapply typed_loop_recv.
  - unfold loop_lock in E. pose proof (ty_todo _ Hn) as Ha. destruct (n_loop n) as [|acts|]; try done.
    destruct (senders_free n); simplify_eq. apply (typed_same n); try done; apply Hn.
  - by eapply typed_loop_send.
  - unfold keep_tick in E. destruct (n_keep n); simplify_eq. apply (typed_same n); try done; apply Hn.
  - unfold keep_lock in E. destruct (n_keep n); try done. destruct (senders_free n); simplify_eq.
    apply (typed_same n); try done; apply Hn.
  - by eapply typed_keep_send.
  - simplify_eq. by apply typed_arrived.
Qed.

Lemma typed_new : node_typed node_new.
Proof.
  split; [|apply Forall_nil; exact I..| |apply keys_new]; intros p x Hx; cbn in Hx; by rewrite lookup_empty in Hx.
Qed.

Lemma run_typed cfg ls n : node_run cfg ls n -> Forall label_typed ls -> node_typed n.
Proof.
  induction 1 as [|ls l n n' Hr IH Hl E]; intros Ht; [apply typed_new|].
  apply Forall_app in Ht as [Hls Hlt]. rewrite Forall_singleton in Hlt.
  eapply typed_exec; [by apply IH|exact Hlt|exact E].
Qed.

End typed_run.

(** ** Properties *)

(** C11: under every interleaving, if the sockets deliver bytes, every value in
    the node has the type the code gives it: what is ahead of every reader is
    bytes; each message on its way to the router, and each message the router has decided to send, fits in a frame;
    each frame queued for a peer or being written is at most 256 KiB of bytes
    and is one the peer's own [read_frame] and [from_frame] accept; and every
    key of the router's tables is a modifier identifier of 32 bytes. *)
Theorem node_well_typed `{Blake2b256Laws} cfg ls n : node_run cfg ls n -> Forall label_typed ls ->
  (forall p t r, n_tasks n !! p = Some t -> reader_of t = Some r -> bytes_ok (stream r)) /\
  (forall p m, Message p m ∈ n_events n -> wire_ok m) /\
  Forall (fun a => wire_ok (action_message a)) (todo_of (n_loop n)) /\
  (forall p c f, n_chans n !! p = Some c -> f ∈ option_list (ch_inflight c) ++ ch_queue c ->
     frame_ok f /\ exists m, message_ok m /\ from_frame f = Ok m /\ to_frame m = f) /\
  keys_typed (n_router n).
Proof.
  intros Hr Hl. destruct (run_typed cfg ls n Hr Hl) as [Ht He Ha Hc Hk]. split_and!; try done.
  - intros p t r Hp Hr'. eapply reader_typed; [by eapply Ht|done].
  - intros p m Hin. rewrite Forall_forall in He. by apply He in Hin.
  - intros p c f Hp Hin. specialize (Hc p c Hp). unfold chan_typed in Hc. rewrite Forall_forall in Hc.
    destruct (Hc f Hin) as (m & [Hm Hf] & ->). split; [done|]. exists m. split_and!; [done|by apply from_to_frame|done].
Qed.

#[global] Instance fresh_stream_dec st : Decision (fresh_stream st).
Proof. unfold fresh_stream. apply _. Defined.
#[global] Instance label_typed_dec l : Decision (label_typed l).
Proof. destruct l as [| | |[]| | | | | | | | | | | | | | | | | | |]; cbn; apply _. Defined.

Lemma node_well_typed_witness :
  let n := run_from_new (asking_run 2 ++ one_more_question) in
  frame_ok (mkFrame 2 []) /\ exists m, message_ok m /\ from_frame (mkFrame 2 []) = Ok m /\ to_frame m = mkFrame 2 [].
Proof.
  intros n.
  destruct (@node_well_typed toy_digest toy_digest_laws small_config (asking_run 2 ++ one_more_question) n)
    as (_ & _ & _ & Hc & _).
  - apply run_new_exec; [apply asking_lawful|vm_compute; reflexivity].
  - by_decide.
  - eapply (Hc (mkPeerId 1)); [vm_compute; reflexivity|]. by_decide.
Defined.
