(* ===== verification/NodeSim.v ===== *)
(** * The node implements the relay

    A simulation: each step of the node is one step of the relay or none. What
    is left of a peer's session is what is queued about it and what its task
    will still send, which the bytes ahead of its reader determine; what a peer
    was sent is what its writer has written, holds and has queued. *)
From S2P Require Import Prelude Io Types Vlq Frame Handshake Messages Peer PeerTable InvTable Tracker Latency Router Wire Connection Config Node NodeInv NodeSpec Relay NodeTypes.

#[local] Opaque build parse measure_size encode decode from_frame to_frame.

(** ** The abstract state of a node *)

(** [register_peer] has been called. *)
Definition joined (t : Task) : bool :=
  match t_phase t with
  | PHandshake _ | PActive _ => false
  | PDone => bool_decide (is_Some (t_spec t))
  | _ => true
  end.

(** The sender has been put in the map. *)
Definition opened (t : Task) : bool :=
  match t_phase t with
  | PHandshake _ | PActive _ | PRegistered _ | PConnected _ => false
  | PDone => bool_decide (is_Some (t_spec t))
  | _ => true
  end.

Definition ping_of (k : KeepState) : list PeerId :=
  match k with KIdle => [] | KPeers pids | KSending pids => pids end.

Definition about (p : PeerId) (es : list ProtocolEvent) : list ProtocolEvent :=
  filter (fun e => event_peer e = p) es.

Section pending.
Context `{Blake2b256}.

(** The rest of a session, from the bytes ahead. *)
Definition rest_of (p : PeerId) (magic : list Z) (r : BufReader) : list ProtocolEvent :=
  (Message p <$> sent_messages magic (stream r)) ++ [PeerDisconnected p CLOSED].

(** The events the task of [p] will still send. *)
Definition future (p : PeerId) (t : Task) : list ProtocolEvent :=
  match t_phase t with
  | PHandshake _ | PActive _ | PDone => []
  | PRegistered c => PeerConnected p (peer_spec c) (t_direction t) :: rest_of p (conn_magic c) (reader c)
  | PConnected c => rest_of p (conn_magic c) (reader c)
  | PReading r mg => rest_of p mg r
  | PParsed r mg m => Message p m :: rest_of p mg r
  | PLost | PRemoved | PAborted => [PeerDisconnected p CLOSED]
  end.

Definition pending_of (n : Node) (p : PeerId) : option (list ProtocolEvent) :=
  match n_tasks n !! p with
  | Some t => if joined t then Some (about p (n_events n) ++ future p t) else None
  | None => None
  end.

(** Frames sent to [p] go into its channel. *)
Definition accepting (n : Node) (p : PeerId) : Prop :=
  p ∈ n_senders n /\ exists c, n_chans n !! p = Some c /\ ch_open c = true.

Definition opened_hs (n : Node) (p : PeerId) : option HandshakeConfig :=
  match n_tasks n !! p with Some t => if opened t then Some (t_hs t) else None | None => None end.

(** The channel of a peer carries the messages it was given: those written,
    after the proxy's handshake, the one being written, and those queued; once
    a write has failed, what was written is a part of them. *)
Definition carries (hs : HandshakeConfig) (c : Chan) (ms : list ProtocolMessage) : Prop :=
  ch_magic c = magic (network hs) /\ exists now urandom,
    if ch_open c then exists written,
      to_frame <$> ms = written ++ option_list (ch_inflight c) ++ ch_queue c /\
      wr_sent (ch_writer c) = build now urandom hs ++ concat (encode (ch_magic c) <$> written)
    else wr_sent (ch_writer c) `prefix_of`
           build now urandom hs ++ concat (encode (ch_magic c) <$> (to_frame <$> ms)).

Definition carried (oc : option Chan) (oh : option HandshakeConfig) (out : option (list ProtocolMessage)) : Prop :=
  match oc with
  | Some c => exists hs ms, oh = Some hs /\ out = Some ms /\ carries hs c ms
  | None => True
  end /\ (oh = None -> out = None).

Record refines (n : Node) (s : Relay) : Prop := {
  rf_router : rl_router s = n_router n;
  rf_pending : forall p, rl_pending s !! p = pending_of n p;
  rf_todo : rl_todo s = todo_of (n_loop n);
  rf_ping : rl_ping s = ping_of (n_keep n);
  rf_open : forall p, p ∈ rl_open s <-> accepting n p;
  rf_out : forall p, carried (n_chans n !! p) (opened_hs n p) (rl_out s !! p)
}.

(** ** Steps the relay does not see *)

Lemma sim_keep n n' s : refines n s -> n_router n' = n_router n ->
  (forall q, pending_of n' q = pending_of n q) -> todo_of (n_loop n') = todo_of (n_loop n) ->
  ping_of (n_keep n') = ping_of (n_keep n) -> n_senders n' = n_senders n -> n_chans n' = n_chans n ->
  (forall q, opened_hs n' q = opened_hs n q) -> refines n' s.
Proof.
  intros [Hr Hp Ht Hk Ho Hc] E1 E2 E3 E4 E5 E6 E7. split.
  - by rewrite E1.
  - intros p. by rewrite E2.
  - by rewrite E3.
  - by rewrite E4.
  - intros p. rewrite Ho. unfold accepting. by rewrite E5, E6.
  - intros p. by rewrite E6, E7.
Qed.

(** The other peers, when only the task of [p] changes, and the events about it. *)
Lemma pending_other n n' q : n_tasks n' !! q = n_tasks n !! q -> about q (n_events n') = about q (n_events n) ->
  pending_of n' q = pending_of n q.
Proof. intros E1 E2. unfold pending_of. by rewrite E1, E2. Qed.

Lemma opened_other n n' q : n_tasks n' !! q = n_tasks n !! q -> opened_hs n' q = opened_hs n q.
Proof. intros E. unfold opened_hs. by rewrite E. Qed.

(** A step of the task of [p] that neither joins nor opens. *)
Lemma sim_task p t t' n n' s : refines n s -> n_tasks n !! p = Some t ->
  n_tasks n' = <[p := t']> (n_tasks n) -> n_router n' = n_router n ->
  (forall q, q <> p -> about q (n_events n') = about q (n_events n)) ->
  joined t' = joined t -> (joined t = true -> about p (n_events n') ++ future p t' = about p (n_events n) ++ future p t) ->
  n_loop n' = n_loop n -> n_keep n' = n_keep n -> n_senders n' = n_senders n -> n_chans n' = n_chans n ->
  opened t' = opened t -> t_hs t' = t_hs t -> refines n' s.
Proof.
  intros Hs Ht E1 E2 E3 E4 E5 E6 E7 E8 E9 E10 E11. apply (sim_keep n); try done; try congruence.
  - intros q. destruct (decide (q = p)) as [->|Hq].
    + unfold pending_of. rewrite E1, lookup_insert_eq, Ht, E4. destruct (joined t); [|done]. by rewrite E5.
    + apply pending_other; [by rewrite E1, lookup_insert_ne|by apply E3].
  - intros q. unfold opened_hs. rewrite E1. destruct (decide (q = p)) as [->|Hq].
    + by rewrite lookup_insert_eq, Ht, E10, E11.
    + by rewrite lookup_insert_ne.
Qed.

Lemma about_snoc p es e : about p (es ++ [e]) = about p es ++ (if decide (event_peer e = p) then [e] else []).
Proof. unfold about. by rewrite filter_app. Qed.

(** The task of [p] sends the next event of its session. *)
Lemma sim_send_event p t t' e n n1 s : refines n s -> n_tasks n !! p = Some t -> event_peer e = p ->
  send_event e n = Some n1 -> joined t = true -> joined t' = true -> opened t' = opened t -> t_hs t' = t_hs t ->
  future p t = e :: future p t' -> refines (set_tasks (<[p := t']> (n_tasks n1)) n1) s.
Proof.
  intros Hs Ht He Es Hj Hj' Ho Hh Hf. apply log_send_event in Es as [-> _].
  apply (sim_task p t t' n); try done; cbn [n_events set_tasks set_events].
  - intros q Hq. rewrite about_snoc, decide_False by congruence. by rewrite app_nil_r.
  - congruence.
  - intros _. by rewrite about_snoc, decide_True, Hf, <- app_assoc.
Qed.

End pending.

(** No specification before the handshake. *)
Definition unshaken (n : Node) : Prop := forall p t st,
  n_tasks n !! p = Some t -> t_phase t = PHandshake st -> t_spec t = None.

Lemma unshaken_exec `{Blake2b256} cfg l n n' : exec cfg l n = Some n' -> unshaken n -> unshaken n'.
Proof.
  intros E Hn. destruct l; revert E; open_exec; intros q tq st'; cbn;
    try (intros [[<- <-]|[_ Hq]]%lookup_insert_Some); cbn; try done; by eapply Hn.
Qed.

(** At most one step of the relay. *)
Definition simulated `{Blake2b256} (s : Relay) (n' : Node) : Prop :=
  exists s', (s' = s \/ relay_step s s') /\ refines n' s'.

Lemma sim_stutter `{Blake2b256} s n' : refines n' s -> simulated s n'.
Proof. intros Hs. exists s. auto. Qed.

Section task_steps.
Context `{Blake2b256Laws}.

Lemma sim_handshake now urandom p n n' s : unshaken n -> refines n s ->
  handshake now urandom p n = Some n' -> refines n' s.
Proof.
  unfold handshake. intros Hu Hs E. open_task E t Ht Hph. pose proof (Hu _ _ _ Ht Hph) as Hsp. case_decide; [done|].
  set (res := match t_direction t with Inbound => _ | Outbound => _ end) in E. clearbody res.
  assert (Hno : joined t = false /\ opened t = false) by (unfold joined, opened; by rewrite Hph).
  destruct Hno as [Hj Ho].
  destruct res as [conn|e]; [destruct (bool_decide _ && _)|]; simplify_eq;
    (eapply (sim_task p t); [done|done|done|done|done| | |done|done|done|done| |done]);
    unfold joined, opened in *; cbn; rewrite ?Hj, ?Ho, ?Hsp; done.
Qed.

Lemma sim_send_connected p n n' s : refines n s -> send_connected p n = Some n' -> refines n' s.
Proof.
  unfold send_connected. intros Hs E. open_task E t Ht Hph.
  destruct (send_event _ n) as [n1|] eqn:Es; cbn in E; simplify_eq. unfold set_phase.
  eapply (sim_send_event p t); [done|done| |exact Es|..]; unfold joined, opened, future; cbn; by rewrite ?Hph.
Qed.

Lemma sim_forward p n n' s : refines n s -> forward_message p n = Some n' -> refines n' s.
Proof.
  unfold forward_message. intros Hs E. open_task E t Ht Hph.
  destruct (send_event _ n) as [n1|] eqn:Es; cbn in E; simplify_eq. unfold set_phase.
  eapply (sim_send_event p t); [done|done| |exact Es|..]; unfold joined, opened, future; cbn; by rewrite ?Hph.
Qed.

Lemma sim_send_disconnected p n n' s : node_ok n -> refines n s -> send_disconnected p n = Some n' -> refines n' s.
Proof.
  unfold send_disconnected. intros Hok Hs E. open_task E t Ht Hph. peer_view Hok p Ht Hph Hp.
  destruct Hp as (sp & Hsp & _).
  destruct (send_event _ n) as [n1|] eqn:Es; cbn in E; simplify_eq. unfold set_phase.
  eapply (sim_send_event p t); [done|done| |exact Es|..]; unfold joined, opened, future; cbn; by rewrite ?Hph, ?Hsp.
Qed.

Lemma sim_read p n n' s : node_typed n -> refines n s -> read_message p n = Some n' -> refines n' s.
Proof.
  unfold read_message. intros Hn Hs E. typed_task Hn E. destruct Hp as [-> Hb].
  pose proof (sent_messages_read _ reader (magic_length (network (t_hs t))) Hb) as Hr. destruct (waiting _ _ _); [done|].
  destruct (read_frame _ reader) as [[f|e] r]; [destruct Hr as (_ & _ & Hr); destruct (from_frame f)|]; simplify_eq;
    (eapply (sim_task p t); [done|done|done|done|done| | |done|done|done|done| |done]);
    unfold joined, opened, future; cbn [t_phase t_spec]; rewrite ?Hph; try done;
    intros _; f_equal; unfold rest_of; by rewrite Hr.
Qed.

End task_steps.

(** ** Steps of the relay *)

Section relay_steps.
Context `{Blake2b256Laws}.

Lemma no_events_yet n p : peer_ok p (view_of n p) -> peer_log n p = [] -> about p (n_events n) = [].
Proof. intros _ Hl. rewrite log_handled in Hl. by apply app_eq_nil in Hl as [_ ?]. Qed.

Lemma sim_register p n n' s : node_ok n -> node_typed n -> refines n s -> register p n = Some n' -> simulated s n'.
Proof.
  unfold register. intros Hok Hn Hs E. typed_task Hn E. rename Hp into Hty. peer_view Hok p Ht Hph Hp.
  destruct Hp as (Hv & _ & _). view_eqs Ht Hv H1' H2 H3 H4 H5. simplify_eq.
  assert (Hev : about p (n_events n) = []) by (apply no_events_yet; [apply Hok|done]).
  assert (Hnone : rl_pending s !! p = None) by (rewrite (rf_pending _ _ Hs); unfold pending_of, joined; by rewrite Ht, Hph).
  destruct s as [r pend todo ping open out]. cbn in Hnone.
  eexists. split; [right; by apply (relay_join p (t_direction t) (t_mode t) (peer_spec conn) (network (t_hs t)) (stream (reader conn)) _ _ _ _ _ _ Hnone (ct_bytes _ _ Hty))|].
  destruct Hs as [Hr Hp' Htd Hk Ho Hc]. cbn in Hr, Htd, Hk. split; try done; cbn.
  - by rewrite Hr.
  - intros q. destruct (decide (q = p)) as [->|Hq].
    + rewrite lookup_insert_eq. unfold pending_of. cbn. rewrite lookup_insert_eq. cbn. unfold about in Hev. rewrite Hev.
      unfold future. cbn [t_phase]. by rewrite (ct_magic _ _ Hty).
    + rewrite lookup_insert_ne by done. rewrite Hp'. symmetry. apply pending_other; [|done]. cbn. by rewrite lookup_insert_ne.
  - intros q. specialize (Hc q). cbn in Hc. destruct (decide (q = p)) as [->|Hq].
    + unfold opened_hs in *. cbn. rewrite lookup_insert_eq. rewrite Ht in Hc. unfold opened in *. rewrite Hph in Hc. done.
    + rewrite (opened_other n); [done|]. cbn. by rewrite lookup_insert_ne.
Qed.

Lemma sim_insert_sender p n n' s : node_ok n -> node_typed n -> refines n s -> insert_sender p n = Some n' -> simulated s n'.
Proof.
  unfold insert_sender. intros Hok Hn Hs E. typed_task Hn E. destruct (senders_free n); [|done].
  unfold split in E. simplify_eq.
  assert (Hnone : rl_out s !! p = None).
  { apply (rf_out _ _ Hs p). unfold opened_hs, opened. by rewrite Ht, Hph. }
  assert (Hsome : is_Some (rl_pending s !! p)).
  { rewrite (rf_pending _ _ Hs). unfold pending_of, joined. rewrite Ht, Hph. by eexists. }
  destruct s as [r pend todo ping open out]. cbn in Hnone, Hsome.
  eexists. split; [right; by apply (relay_open p)|].
  destruct Hs as [Hr Hp' Htd Hk Ho Hc]. cbn in Hr, Htd, Hk. split; try done; cbn.
  - intros q. rewrite Hp'. destruct (decide (q = p)) as [->|Hq].
    + unfold pending_of. cbn. rewrite lookup_insert_eq, Ht. unfold joined, future. cbn. by rewrite Hph.
    + symmetry. apply pending_other; [|done]. cbn. by rewrite lookup_insert_ne.
  - intros q. rewrite elem_of_union, elem_of_singleton. unfold accepting. cbn. specialize (Ho q). cbn in Ho. rewrite Ho.
    destruct (decide (q = p)) as [->|Hq].
    + rewrite lookup_insert_eq. split; [|tauto]. intros _. split; [apply elem_of_union_l, elem_of_singleton_2, eq_refl|by eexists].
    + rewrite lookup_insert_ne by done. unfold accepting. rewrite elem_of_union, elem_of_singleton. tauto.
  - intros q. specialize (Hc q). cbn in Hc. destruct (decide (q = p)) as [->|Hq].
    + rewrite !lookup_insert_eq. unfold opened_hs. cbn. rewrite lookup_insert_eq. cbn. destruct Hp as [[now [urandom Hw]] Hm _].
      split; [|done]. exists (t_hs t), []. split_and!; try done. split; [done|]. exists now, urandom. cbn.
      exists []. split; [done|]. by rewrite Hw, app_nil_r.
    + rewrite !lookup_insert_ne by done. rewrite (opened_other n); [done|]. cbn. by rewrite lookup_insert_ne.
Qed.

(** The relay closes a peer if it was open. *)
Lemma sim_close p n n' s : refines n s -> n_router n' = n_router n ->
  (forall q, pending_of n' q = pending_of n q) -> n_loop n' = n_loop n -> n_keep n' = n_keep n ->
  (forall q, q <> p -> accepting n' q <-> accepting n q) -> ~ accepting n' p ->
  (forall q out, carried (n_chans n !! q) (opened_hs n q) out -> carried (n_chans n' !! q) (opened_hs n' q) out) ->
  simulated s n'.
Proof.
  intros [Hr Hp Ht Hk Ho Hc] E1 E2 E3 E4 E5 E6 E7. destruct s as [r pend todo ping open out]. cbn in *.
  destruct (decide (p ∈ open)) as [Hin|Hin]; (eexists; split; [(right; by apply (relay_close p)) || by left|]);
    (split; cbn; [by rewrite E1|intros q; by rewrite E2|by rewrite E3|by rewrite E4|intros q|intros q; by apply E7]).
  - rewrite elem_of_difference, elem_of_singleton, Ho. destruct (decide (q = p)) as [->|Hq]; [tauto|].
    rewrite E5 by done. tauto.
  - destruct (decide (q = p)) as [->|Hq]; [tauto|]. by rewrite Ho, E5.
Qed.

Lemma sim_remove_sender p n n' s : refines n s -> remove_sender p n = Some n' -> simulated s n'.
Proof.
  unfold remove_sender. intros Hs E. open_task E t Ht Hph. destruct (senders_free n); [|done]. simplify_eq.
  eapply (sim_close p n); try done.
  - intros q. destruct (decide (q = p)) as [->|Hq].
    + unfold pending_of. cbn. rewrite lookup_insert_eq, Ht. unfold joined, future. cbn. by rewrite Hph.
    + apply pending_other; [|done]. cbn. by rewrite lookup_insert_ne.
  - intros q Hq. unfold accepting. cbn. rewrite elem_of_difference, elem_of_singleton. tauto.
  - unfold accepting. cbn. rewrite elem_of_difference, elem_of_singleton. tauto.
  - intros q out Hc. cbn. destruct (decide (q = p)) as [->|Hq].
    + unfold opened_hs in *. cbn. rewrite lookup_insert_eq. rewrite Ht in Hc. unfold opened in *. by rewrite Hph in Hc.
    + rewrite (opened_other n); [done|]. cbn. by rewrite lookup_insert_ne.
Qed.

Lemma sim_abort_writer p n n' s : node_ok n -> refines n s -> abort_writer p n = Some n' -> simulated s n'.
Proof.
  unfold abort_writer. intros Hok Hs E. open_task E t Ht Hph. simplify_eq.
  eapply (sim_close p n); try done.
  - intros q. destruct (decide (q = p)) as [->|Hq].
    + unfold pending_of. cbn. rewrite lookup_insert_eq, Ht. unfold joined, future. cbn. by rewrite Hph.
    + apply pending_other; [|done]. cbn. by rewrite lookup_insert_ne.
  - intros q Hq. unfold accepting. cbn. by rewrite lookup_delete_ne.
  - intros [_ (c & Hc & _)]. cbn in Hc. by rewrite lookup_delete_eq in Hc.
  - intros q out Hc. cbn. destruct (decide (q = p)) as [->|Hq].
    + rewrite lookup_delete_eq. split; [done|]. destruct Hc as [_ Hc]. unfold opened_hs in *. cbn. rewrite lookup_insert_eq.
      rewrite Ht in Hc. unfold opened in *. by rewrite Hph in Hc.
    + rewrite lookup_delete_ne by done. rewrite (opened_other n); [done|]. cbn. by rewrite lookup_insert_ne.
Qed.

End relay_steps.

Section channels.
Context `{Blake2b256Laws}.

(** The channel of [p] changes and carries the same messages. *)
Lemma sim_chan p c c' n s : refines n s -> n_chans n !! p = Some c -> ch_open c' = ch_open c ->
  (forall hs ms, carries hs c ms -> carries hs c' ms) -> refines (set_chans (<[p := c']> (n_chans n)) n) s.
Proof.
  intros [Hr Hp Ht Hk Ho Hc] Ec Eo Hcar. split; try done; cbn.
  - intros q. rewrite Ho. unfold accepting. cbn. destruct (decide (q = p)) as [->|Hq].
    + rewrite lookup_insert_eq, Ec. split; intros [Hin (x & [= <-] & Hx)]; (split; [done|]); eexists; split; try done; congruence.
    + by rewrite lookup_insert_ne.
  - intros q. specialize (Hc q). destruct (decide (q = p)) as [->|Hq].
    + rewrite lookup_insert_eq. rewrite Ec in Hc. destruct Hc as [(hs & ms & Hh & Hm & Hca) Hn].
      split; [|done]. exists hs, ms. auto.
    + by rewrite lookup_insert_ne.
Qed.

Lemma sim_writer_recv p n n' s : refines n s -> writer_recv p n = Some n' -> refines n' s.
Proof.
  unfold writer_recv. intros Hs E. destruct (n_chans n !! p) as [c|] eqn:Ec; cbn in E; [|done].
  destruct (ch_queue c) as [|f q] eqn:Eq, (ch_inflight c) eqn:Ei, (ch_open c) eqn:Eo; try done. simplify_eq.
  eapply sim_chan; [done|done|done|]. intros hs ms [Hm (now & urandom & Hw)]. split; [done|]. exists now, urandom.
  by rewrite Eo, Ei, Eq in Hw.
Qed.

Lemma concat_snoc {A} (ls : list (list A)) l : concat (ls ++ [l]) = concat ls ++ l.
Proof. rewrite concat_app. cbn. by rewrite app_nil_r. Qed.

Lemma sim_writer_write p n n' s : refines n s -> writer_write p n = Some n' -> simulated s n'.
Proof.
  unfold writer_write. intros Hs E. destruct (n_chans n !! p) as [c|] eqn:Ec; cbn in E; [|done].
  destruct (ch_inflight c) as [f|] eqn:Ei, (ch_open c) eqn:Eo; try done. destruct (write_ends _ _); [|done].
  unfold write_frame, write_all in E. case_decide as Hd; cbn in E; simplify_eq.
  - apply sim_stutter. eapply sim_chan; [done|done|done|].
    intros hs ms [Hm (now & urandom & Hw)]. split; [done|]. exists now, urandom. rewrite Eo, Ei in Hw. cbn.
    destruct Hw as (written & Hms & Hw). exists (written ++ [f]). split; [by rewrite Hms, <- app_assoc|].
    rewrite Hw, fmap_app. cbn [fmap list_fmap]. by rewrite concat_snoc, app_assoc.
  - eapply (sim_close p n); try done.
    + intros q Hq. unfold accepting. cbn. by rewrite lookup_insert_ne.
    + intros [_ (c' & Hc & Ho)]. cbn in Hc. rewrite lookup_insert_eq in Hc. by simplify_eq.
    + intros q out Hc. cbn. destruct (decide (q = p)) as [->|Hq]; [|by rewrite lookup_insert_ne].
      rewrite lookup_insert_eq. rewrite Ec in Hc. destruct Hc as [(hs & ms & Hh & Hm & Hmg & now & urandom & Hw) Hn].
      split; [|done]. exists hs, ms. split_and!; [done|done|]. split; [done|]. exists now, urandom. rewrite Eo, Ei in Hw. cbn.
      destruct Hw as (written & Hms & Hw). rewrite Hw, Hms, !fmap_app, !concat_app, <- app_assoc.
      apply prefix_app, prefix_app. cbn. rewrite <- app_assoc. apply prefix_app_r, prefix_take.
Qed.

(** Bytes on the wire are not yet a message given. *)
Lemma sim_take_bytes p k n n' s : refines n s -> take_bytes p k n = Some n' -> refines n' s.
Proof.
  unfold take_bytes. intros Hs E. destruct (n_chans n !! p) as [c|] eqn:Ec; cbn in E; [|done].
  destruct (ch_inflight c) eqn:Ei, (ch_open c) eqn:Eo; try done. simplify_eq.
  eapply sim_chan; [done|done|done|]. intros hs ms [Hm (now & urandom & Hw)]. split; [done|]. exists now, urandom.
  by rewrite Eo, Ei in Hw.
Qed.

(** Putting a frame in a peer's channel delivers its message. *)
Lemma sim_send_frame q m n n' s : refines n s -> send_frame q (to_frame m) n = Some n' -> refines n' (deliver q m s).
Proof.
  intros Hs E. assert (Hskip : ~ accepting n q -> refines n (deliver q m s)).
  { intros Hn. destruct Hs as [Hr Hp Ht Hk Ho Hc]. split; try done. cbn. by rewrite decide_False by (by rewrite Ho). }
  unfold send_frame in E. case_decide as Hin.
  2: { simplify_eq. apply Hskip. by intros [? _]. }
  destruct (n_chans n !! q) as [c|] eqn:Ec.
  2: { simplify_eq. apply Hskip. intros [_ (c & Hc & _)]. congruence. }
  destruct (ch_open c) eqn:Eo.
  2: { simplify_eq. apply Hskip. intros [_ (c' & Hc & Ho)]. congruence. }
  case_decide; [|done]. simplify_eq. destruct Hs as [Hr Hp Ht Hk Ho Hc].
  assert (Hopen : q ∈ rl_open s) by (apply Ho; split; [done|by exists c]).
  split; try done; cbn.
  - intros p. rewrite Ho. unfold accepting. cbn. destruct (decide (p = q)) as [->|Hq].
    + rewrite lookup_insert_eq, Ec. naive_solver.
    + by rewrite lookup_insert_ne.
  - intros p. specialize (Hc p). rewrite decide_True by done. destruct (decide (p = q)) as [->|Hq].
    + rewrite lookup_insert_eq, lookup_alter_eq. rewrite Ec in Hc.
      destruct Hc as [(hs & ms & Hh & Hm & Hmg & now & urandom & Hw) Hn].
      split; [|intros Ho'; change (opened_hs n q = None) in Ho'; congruence].
      exists hs, (ms ++ [m]). rewrite Hm. split_and!; [done|done|]. split; [done|]. exists now, urandom. rewrite Eo in Hw. cbn.
      destruct Hw as (written & Hms & Hw). exists written. split; [|done]. by rewrite fmap_app, Hms, <- !app_assoc.
    + by rewrite lookup_insert_ne, lookup_alter_ne.
Qed.

(** The loop and the keepalive task move on. *)
Lemma refines_loop l n r pend todo ping open out : refines n (mkRelay r pend todo ping open out) ->
  refines (set_loop l n) (mkRelay r pend (todo_of l) ping open out).
Proof. by intros [Hr Hp Ht Hk Ho Hc]. Qed.

Lemma refines_keep k n r pend todo ping open out : refines n (mkRelay r pend todo ping open out) ->
  refines (set_keep k n) (mkRelay r pend todo (ping_of k) open out).
Proof. by intros [Hr Hp Ht Hk Ho Hc]. Qed.

Lemma sim_loop_send n n' s : refines n s -> loop_send n = Some n' -> simulated s n'.
Proof.
  unfold loop_send. intros Hs E. pose proof (rf_todo _ _ Hs) as Htd.
  destruct s as [r pend todo ping open out]. cbn in Htd. destruct (n_loop n) as [| |[|[q m] acts]] eqn:El; try done.
  - simplify_eq. apply sim_stutter. by apply (refines_loop LIdle) in Hs.
  - destruct (send_frame q (to_frame m) n) as [n1|] eqn:Es; cbn in E; simplify_eq. cbn in Hs.
    eexists. split; [right; apply relay_deliver|]. unfold deliver. cbn. eapply (refines_loop (LSending acts)).
    exact (sim_send_frame q m n n1 _ Hs Es).
Qed.

Lemma sim_keep_send n n' s : refines n s -> keep_send n = Some n' -> simulated s n'.
Proof.
  unfold keep_send. intros Hs E. pose proof (rf_ping _ _ Hs) as Hpg.
  destruct s as [r pend todo ping open out]. cbn in Hpg. destruct (n_keep n) as [| |[|q pids]] eqn:El; try done.
  - simplify_eq. apply sim_stutter. by apply (refines_keep KIdle) in Hs.
  - destruct (send_frame q (to_frame GetPeers) n) as [n1|] eqn:Es; cbn in E; simplify_eq. cbn in Hs.
    eexists. split; [right; apply relay_ping|]. unfold deliver. cbn. eapply (refines_keep (KSending pids)).
    exact (sim_send_frame q GetPeers n n1 _ Hs Es).
Qed.

Lemma sim_keep_tick order n n' s : HashIterLaws PeerId PeerEntry -> refines n s -> keep_tick order n = Some n' -> simulated s n'.
Proof.
  unfold keep_tick. intros Hl Hs E. pose proof (rf_ping _ _ Hs) as Hpg. pose proof (rf_router _ _ Hs) as Hrt.
  destruct s as [r pend todo ping open out]. cbn in Hpg, Hrt. destruct (n_keep n) eqn:El; try done. simplify_eq. cbn in Hs.
  eexists. split; [right; by apply (relay_tick order)|]. by apply (refines_keep (KPeers (Router.outbound_peers (n_router n)))) in Hs.
Qed.

End channels.

(** ** The event loop and new peers *)

Section simulation.
Context `{Blake2b256Laws}.

Lemma joined_of_events n p : node_ok n -> about p (n_events n) <> [] ->
  exists t, n_tasks n !! p = Some t /\ joined t = true.
Proof.
  intros Hok Hne. assert (Hl : v_log (view_of n p) <> []).
  { cbn. rewrite log_handled. intros [_ Hnil]%app_eq_nil. done. }
  pose proof (ok_peers _ Hok p) as Hp. unfold peer_ok in Hp. unfold joined.
  change (v_task (view_of n p)) with (n_tasks n !! p) in Hp. destruct (n_tasks n !! p) as [t|] eqn:Ht;
    [|by rewrite Hp in Hl]. exists t. split; [done|].
  destruct (t_phase t); try done; repeat match goal with
    | Hx : _ /\ _ |- _ => destruct Hx | Hx : exists _, _ |- _ => destruct Hx | Hx : _ \/ _ |- _ => destruct Hx
    | Hx : view_of n p = _ |- _ => rewrite Hx in Hl; cbn in Hl end; try done.
  by apply bool_decide_eq_true_2.
Qed.

Lemma sim_loop_recv order now n n' s : HashIterLaws PeerId PeerEntry -> node_ok n -> refines n s ->
  loop_recv order now n = Some n' -> simulated s n'.
Proof.
  unfold loop_recv. intros Hl Hok Hs E. destruct (n_loop n) eqn:El; try done.
  destruct (n_events n) as [|e es] eqn:Ee; [done|].
  destruct (Router.handle_event now e (n_router n)) as [acts r'] eqn:Er. simplify_eq.
  set (p := event_peer e).
  destruct (joined_of_events n p Hok) as (t & Ht & Hj).
  { rewrite Ee. unfold about. by rewrite filter_cons_True. }
  destruct Hs as [Hr Hp Htd Hk Ho Hc]. destruct s as [r pend todo ping open out]. cbn in Hr, Htd. rewrite El in Htd. subst r todo.
  assert (Hpend : pend !! p = Some (e :: about p es ++ future p t)).
  { specialize (Hp p). cbn in Hp. rewrite Hp. unfold pending_of. rewrite Ht, Hj, Ee. unfold about.
    by rewrite filter_cons_True. }
  eexists. split; [right; by eapply (relay_handle order)|]. split; try done; cbn.
  intros q. destruct (decide (q = p)) as [->|Hq].
  - rewrite lookup_insert_eq. unfold pending_of. cbn. by rewrite Ht, Hj.
  - rewrite lookup_insert_ne by done. specialize (Hp q). cbn in Hp. rewrite Hp. symmetry. apply pending_other; [done|].
    cbn. rewrite Ee. unfold about. by rewrite filter_cons_False.
Qed.

Lemma sim_spawn d mode hs st n s : node_ok n -> refines n s -> refines (spawn_peer d mode hs st n) s.
Proof.
  intros Hok Hs. unfold spawn_peer. set (p := mkPeerId (n_counter n)).
  assert (Hnew : n_tasks n !! p = None).
  { destruct (n_tasks n !! p) as [t|] eqn:E; [|done]. apply (ok_fresh _ Hok) in E. cbn in E. lia. }
  apply (sim_keep n); try done; intros q.
  - unfold pending_of. cbn. destruct (decide (q = p)) as [->|Hq].
    + by rewrite lookup_insert_eq, Hnew.
    + by rewrite lookup_insert_ne.
  - unfold opened_hs. cbn. destruct (decide (q = p)) as [->|Hq].
    + by rewrite lookup_insert_eq, Hnew.
    + by rewrite lookup_insert_ne.
Qed.

Lemma sim_exec cfg l n n' s : node_ok n -> node_typed n -> unshaken n -> refines n s -> lawful l ->
  exec cfg l n = Some n' -> simulated s n'.
Proof.
  intros Hok Hty Hu Hs Hl. destruct l; cbn [exec]; intros E.
  - destruct (_ !! l) as [li|]; cbn in E; [|done]. simplify_eq. unfold accept. apply sim_stutter.
    case_match; [done|by apply sim_spawn].
  - unfold manager_top in E. destruct (n_manager n); simplify_eq. apply sim_stutter. by apply (sim_keep n).
  - unfold manager_scan in E. destruct (n_manager n) as [|[|]|]; simplify_eq; apply sim_stutter; by apply (sim_keep n).
  - unfold manager_connected in E. destruct (n_manager n) as [| |addr seeds b]; try done.
    destruct res as [st|]; simplify_eq; apply sim_stutter.
    + apply (sim_keep (spawn_peer Outbound Full (nc_outbound cfg) st n)); try done. by apply sim_spawn.
    + by apply (sim_keep n).
  - apply sim_stutter. by eapply sim_handshake.
  - by eapply sim_register.
  - apply sim_stutter. by eapply sim_send_connected.
  - by eapply sim_insert_sender.
  - apply sim_stutter. by eapply sim_read.
  - apply sim_stutter. by eapply sim_forward.
  - by eapply sim_remove_sender.
  - by eapply sim_abort_writer.
  - apply sim_stutter. by eapply sim_send_disconnected.
  - apply sim_stutter. by eapply sim_writer_recv.
  - by eapply sim_writer_write.
  - by eapply sim_loop_recv.
  - unfold loop_lock in E. destruct (n_loop n) eqn:El; try done. destruct (senders_free n); simplify_eq.
    apply sim_stutter. apply (sim_keep n); try done. by rewrite El.
  - by eapply sim_loop_send.
  - by eapply sim_keep_tick.
  - unfold keep_lock in E. destruct (n_keep n) eqn:El; try done. destruct (senders_free n); simplify_eq.
    apply sim_stutter. apply (sim_keep n); try done. by rewrite El.
  - by eapply sim_keep_send.
  - simplify_eq. apply sim_stutter. by apply (sim_keep n).
  - apply sim_stutter. by eapply sim_take_bytes.
Qed.

Lemma refines_new : refines node_new relay_new.
Proof.
  split; try done; intros p. unfold accepting. cbn. set_solver.
Qed.

End simulation.
