(* ===== verification/NodeRelay.v ===== *)
(** * What the node guarantees to its peers

    From the bytes a peer sends to the events the router handles, from the
    actions of the router to the bytes a peer receives, and the two together:
    the node refines the relay of [Relay]. *)
From S2P Require Import Prelude Io Types Vlq Frame Handshake Messages Peer PeerTable InvTable Tracker Latency Router Wire Connection Config Node NodeInv NodeSpec Relay NodeTypes NodeSim.

#[local] Opaque build parse measure_size encode decode from_frame to_frame.

(** ** The socket a peer came from *)

(** A listener accepted the stream, or the manager connected it. *)
Definition offered (ls : list Label) (st : TcpStream) : Prop :=
  (exists i, DoAccept i st ∈ ls) \/ DoManagerConnected (Some st) ∈ ls.

Lemma offered_app ls ls' st : offered ls st -> offered (ls ++ ls') st.
Proof. unfold offered. setoid_rewrite elem_of_app. naive_solver. Qed.

Section source.
Context `{Blake2b256Laws}.

(** The events the task will still send if its handshake is done. *)
Definition plan (p : PeerId) (t : Task) : list ProtocolEvent :=
  match t_phase t with
  | PActive c => PeerConnected p (peer_spec c) (t_direction t) :: rest_of p (conn_magic c) (reader c)
  | _ => future p t
  end.

(** What a reader has taken from some bytes, and what it has ahead: frames. *)
Definition took_frames (magic : list Z) (bytes ahead : list Z) : Prop :=
  exists fs, Forall frame_ok fs /\ bytes = concat (encode magic <$> fs) ++ ahead.

Lemma took_none magic bytes : took_frames magic bytes bytes.
Proof. by exists []. Qed.

Lemma took_more magic bytes ahead ahead' : took_frames magic bytes ahead -> took_frames magic ahead ahead' ->
  took_frames magic bytes ahead'.
Proof.
  intros (fs & Hfs & ->) (fs' & Hfs' & ->). exists (fs ++ fs'). split; [by apply Forall_app|].
  by rewrite fmap_app, concat_app, app_assoc.
Qed.

(** The events sent about [p], and those it will still send, are the session of
    the bytes of its socket, of which its reader has taken frames. *)
Definition from_socket (st : TcpStream) (p : PeerId) (t : Task) (sent : list ProtocolEvent) (spec : PeerSpec) : Prop :=
  exists hs rest, delivered (tcp_chunks st) = hs ++ rest /\ parse hs = Ok spec /\
    validate_peer spec (network (t_hs t)) = inr tt /\
    sent ++ plan p t = script p spec (t_direction t) (sent_messages (magic (network (t_hs t))) rest) /\
    forall r, reader_of t = Some r -> took_frames (magic (network (t_hs t))) rest (stream r).

Definition task_source (st : TcpStream) (p : PeerId) (t : Task) (sent : list ProtocolEvent) : Prop :=
  match t_phase t with
  | PHandshake st' => st' = st
  | _ => forall spec, t_spec t = Some spec -> from_socket st p t sent spec
  end.

Definition sourced (ls : list Label) (n : Node) : Prop := forall p t, n_tasks n !! p = Some t ->
  exists st, offered ls st /\ task_source st p t (peer_log n p).

(** A step of the task after its handshake that keeps the whole session. *)
Lemma task_source_keep st p t t' sent sent' : (forall st, t_phase t <> PHandshake st) ->
  t_hs t' = t_hs t -> t_direction t' = t_direction t -> t_spec t' = t_spec t ->
  (forall st, t_phase t' <> PHandshake st) ->
  (is_Some (t_spec t) -> sent' ++ plan p t' = sent ++ plan p t) ->
  (forall r', reader_of t' = Some r' -> exists r, reader_of t = Some r /\
     took_frames (magic (network (t_hs t))) (stream r) (stream r')) ->
  task_source st p t sent -> task_source st p t' sent'.
Proof.
  intros Hph Eh Ed Es Hph' Hpl Hrd Hs. assert (Hs' : forall spec, t_spec t = Some spec -> from_socket st p t sent spec).
  { unfold task_source in Hs. by destruct (t_phase t) eqn:E; [destruct (Hph _ eq_refl)|..]. }
  assert (Hs'' : forall spec, t_spec t' = Some spec -> from_socket st p t' sent' spec).
  { intros spec Hspec. rewrite Es in Hspec. destruct (Hs' spec Hspec) as (hb & rest & H1 & H2 & H3 & H4 & H5).
    exists hb, rest. rewrite Eh, Ed, Hpl by (by eexists). split_and!; try done.
    intros r' Hr'. destruct (Hrd r' Hr') as (r & Hr & Hf). eapply took_more; [by apply H5|done]. }
  unfold task_source. by destruct (t_phase t') eqn:E; [destruct (Hph' _ eq_refl)|..].
Qed.

(** A step that changes no task and sends no event. *)
Lemma sourced_same ls l n n' : sourced ls n -> n_tasks n' = n_tasks n ->
  (forall q, peer_log n' q = peer_log n q) -> sourced (ls ++ [l]) n'.
Proof.
  intros Hs Ht Hl p t Hp. rewrite Ht in Hp. destruct (Hs p t Hp) as (st & Ho & Hst).
  exists st. rewrite Hl. split; [by apply offered_app|done].
Qed.

(** A step of the task of [p]. *)
Lemma sourced_task p t t' ls l n n' : sourced ls n -> n_tasks n !! p = Some t -> n_tasks n' = <[p := t']> (n_tasks n) ->
  (forall q, q <> p -> peer_log n' q = peer_log n q) ->
  (forall st, task_source st p t (peer_log n p) -> task_source st p t' (peer_log n' p)) -> sourced (ls ++ [l]) n'.
Proof.
  intros Hs Ht Et Hl Hp q tq. rewrite Et. intros [[<- <-]|[Hq Hlook]]%lookup_insert_Some.
  - destruct (Hs _ _ Ht) as (st & Ho & Hst). exists st. split; [by apply offered_app|auto].
  - destruct (Hs _ _ Hlook) as (st & Ho & Hst). exists st. rewrite Hl by done. split; [by apply offered_app|done].
Qed.

(** The task of [p] sends the next event. *)
Lemma sourced_send p t t' e ls l n n1 : sourced ls n -> n_tasks n !! p = Some t -> event_peer e = p ->
  send_event e n = Some n1 ->
  (forall st, task_source st p t (peer_log n p) -> task_source st p t' (peer_log n p ++ [e])) ->
  sourced (ls ++ [l]) (set_tasks (<[p := t']> (n_tasks n1)) n1).
Proof.
  intros Hs Ht He Es Hp. apply log_send_event in Es as [-> Hl]. cbn [n_tasks set_events].
  apply (sourced_task p t t' ls l n); try done.
  - intros q Hq. change (peer_log (set_events (n_events n ++ [e]) n) q = peer_log n q).
    rewrite peer_log_snoc, decide_False by congruence. by rewrite app_nil_r.
  - intros st Hst. change (task_source st p t' (peer_log (set_events (n_events n ++ [e]) n) p)).
    rewrite peer_log_snoc, decide_True by done. by apply Hp.
Qed.

Lemma sourced_spawn d mode hs st ls l n : sourced ls n -> node_ok n -> offered (ls ++ [l]) st ->
  sourced (ls ++ [l]) (spawn_peer d mode hs st n).
Proof.
  intros Hs Hok Ho p t. cbn. intros [[<- <-]|[_ Hp]]%lookup_insert_Some.
  - by exists st.
  - destruct (Hs p t Hp) as (st' & Ho' & Hst). exists st'. split; [by apply offered_app|done].
Qed.

Lemma handshake_source now urandom st hs conn w :
  outbound now urandom st hs = (Ok conn, w) \/ inbound now urandom st hs = (Ok conn, w) ->
  exists hb, delivered (tcp_chunks st) = hb ++ stream (reader conn) /\ parse hb = Ok (peer_spec conn) /\
    validate_peer (peer_spec conn) (network hs) = inr tt /\ conn_magic conn = magic (network hs).
Proof.
  intros Hc. assert (Hi := match Hc with or_introl Hx => outbound_inv _ _ _ _ _ _ Hx
                                      | or_intror Hx => inbound_inv _ _ _ _ _ _ Hx end).
  destruct Hi as (Hr & Hv & Hm & _ & _). destruct (read_handshake_inv _ _ _ Hr) as (hb & Hst & Hp).
  exists hb. split_and!; try done. specialize (Hp []). rewrite app_nil_r in Hp. apply Hp.
Qed.

Lemma sourced_handshake now urandom p ls l n n' : sourced ls n -> node_ok n -> unshaken n ->
  handshake now urandom p n = Some n' -> sourced (ls ++ [l]) n'.
Proof.
  unfold handshake. intros Hs Hok Hu E. open_task E t Ht Hph. pose proof (Hu _ _ _ Ht Hph) as Hsp.
  case_decide; [done|]. assert (Hlog : peer_log n p = []).
  { peer_view Hok p Ht Hph Hp. destruct Hp as [Hv _]. by apply (f_equal v_log) in Hv. }
  assert (Hsrc : forall conn, match t_direction t with
      | Inbound => (inbound now urandom stream (t_hs t)).1 | Outbound => (outbound now urandom stream (t_hs t)).1 end = Ok conn ->
      exists hb, delivered (tcp_chunks stream) = hb ++ Io.stream (reader conn) /\ parse hb = Ok (peer_spec conn) /\
        validate_peer (peer_spec conn) (network (t_hs t)) = inr tt /\ conn_magic conn = magic (network (t_hs t))).
  { intros conn Hc. destruct (t_direction t).
    - destruct (outbound now urandom stream (t_hs t)) as [x w] eqn:Eo. cbn in Hc. subst x.
      eapply handshake_source. by left.
    - destruct (inbound now urandom stream (t_hs t)) as [x w] eqn:Eo. cbn in Hc. subst x.
      eapply handshake_source. by right. }
  destruct (match t_direction t with Inbound => _ | Outbound => _ end) as [conn|e]; [|clear Hsrc].
  2: { simplify_eq. eapply (sourced_task p t); try done. intros st Hst. unfold task_source. cbn. by rewrite Hsp. }
  destruct (Hsrc conn eq_refl) as (hb & Hd & Hp & Hv & Hm). clear Hsrc.
  destruct (bool_decide _ && _); simplify_eq; (eapply (sourced_task p t); [done|done|done|done|]); intros st Hst.
  - unfold task_source. cbn. by rewrite Hsp.
  - unfold task_source in *. rewrite Hph in Hst. subst st. cbn [t_phase t_spec]. intros spec [= <-].
    exists hb, (Io.stream (reader conn)). split_and!; try done; [|intros r [= <-]; apply took_none].
    change (peer_log n p ++ (PeerConnected p (peer_spec conn) (t_direction t) :: rest_of p (conn_magic conn) (reader conn))
      = script p (peer_spec conn) (t_direction t) (sent_messages (magic (network (t_hs t))) (Io.stream (reader conn)))).
    rewrite Hlog, Hm. done.
Qed.

(** Opens a step of the task of [p] and keeps its session; the reader is not
    used, or not there any more. *)
Ltac keep_session Hph := intros st; apply task_source_keep; cbn; rewrite ?Hph; try done.

Ltac same_reader Hph := let r := fresh "r" in let Hr := fresh "Hr" in
  unfold reader_of; cbn; rewrite ?Hph; intros r Hr; (discriminate Hr || (injection Hr as <-; eexists; split; [done|apply took_none])).

Lemma sourced_run_peer p ls l n n' : sourced ls n ->
  register p n = Some n' \/ insert_sender p n = Some n' \/ remove_sender p n = Some n' \/ abort_writer p n = Some n' ->
  sourced (ls ++ [l]) n'.
Proof.
  unfold register, insert_sender, remove_sender, abort_writer. intros Hs [E|[E|[E|E]]]; open_task E t Ht Hph;
    try (destruct (senders_free n); [|done]); unfold split in E; simplify_eq;
    (eapply (sourced_task p t); try done); keep_session Hph; try (same_reader Hph);
    unfold plan, future; cbn; by rewrite Hph.
Qed.

Lemma sourced_events p ls l n n' : sourced ls n ->
  send_connected p n = Some n' \/ forward_message p n = Some n' \/ send_disconnected p n = Some n' ->
  sourced (ls ++ [l]) n'.
Proof.
  unfold send_connected, forward_message, send_disconnected. intros Hs [E|[E|E]]; open_task E t Ht Hph;
    destruct (send_event _ n) as [n1|] eqn:Es; cbn [mbind option_bind] in E; simplify_eq; unfold set_phase;
    (eapply (sourced_send p t); [done|done| |exact Es|]; [done|]); keep_session Hph; try (same_reader Hph);
    intros _; unfold plan, future; cbn; rewrite Hph, <- app_assoc; done.
Qed.

Lemma sourced_read p ls l n n' : sourced ls n -> node_typed n -> read_message p n = Some n' -> sourced (ls ++ [l]) n'.
Proof.
  unfold read_message. intros Hs Hn E. typed_task Hn E. destruct Hp as [-> Hb]. destruct (waiting _ _ _); [done|].
  pose proof (sent_messages_read _ reader (magic_length (network (t_hs t))) Hb) as Hr.
  assert (Hf : forall f r, read_frame (magic (network (t_hs t))) reader = (Ok f, r) ->
    took_frames (magic (network (t_hs t))) (Io.stream reader) (Io.stream r)).
  { intros f r Ef. assert (Hb' : bytes_ok (view reader)) by exact Hb. destruct (read_frame_inv _ reader r f Hb' Ef) as (_ & Hok & Hv). exists [f]. split; [by constructor|].
    change (Io.stream reader) with (view reader). rewrite Hv. cbn. by rewrite app_nil_r. }
  destruct (read_frame _ reader) as [[f|e] r]; [destruct Hr as (_ & _ & Hr); destruct (from_frame f)|]; simplify_eq;
    (eapply (sourced_task p t); [done|done|done|done|]); keep_session Hph;
    try (unfold reader_of; cbn; rewrite ?Hph; intros r' [= <-]; eexists; split; [done|by eapply Hf]);
    intros _; f_equal; unfold plan, future; cbn [t_phase]; rewrite Hph; unfold rest_of; by rewrite Hr.
Qed.

Lemma sourced_exec cfg l ls n n' : sourced ls n -> node_ok n -> node_typed n -> unshaken n ->
  exec cfg l n = Some n' -> sourced (ls ++ [l]) n'.
Proof.
  intros Hs Hok Hty Hu. destruct l; cbn [exec]; intros E;
    try (eapply sourced_events; [exact Hs|]; eauto; fail); try (eapply sourced_run_peer; [exact Hs|]; eauto; fail).
  - destruct (_ !! l) as [li|]; cbn in E; [|done]. simplify_eq. unfold accept. case_match; [by apply (sourced_same ls _ n)|].
    apply sourced_spawn; [done|done|]. left. exists l. apply elem_of_app. right. left.
  - unfold manager_top in E. destruct (n_manager n); simplify_eq. by apply (sourced_same ls _ n).
  - unfold manager_scan in E. destruct (n_manager n) as [|[|]|]; simplify_eq; by apply (sourced_same ls _ n).
  - unfold manager_connected in E. destruct (n_manager n) as [| |addr seeds b]; try done.
    destruct res as [st|]; simplify_eq; [|by apply (sourced_same ls _ n)].
    refine (sourced_spawn Outbound Full (nc_outbound cfg) st ls _ n Hs Hok _). right. apply elem_of_app. right. left.
  - by eapply sourced_handshake.
  - by eapply sourced_read.
  - apply writer_recv_chans in E as [-> _]. by apply (sourced_same ls _ n).
  - apply writer_write_chans in E as [-> _]. by apply (sourced_same ls _ n).
  - unfold loop_recv in E. destruct (n_loop n); try done. destruct (n_events n) as [|e es] eqn:Ee; [done|].
    destruct (Router.handle_event now e (n_router n)). simplify_eq. apply (sourced_same ls _ n); try done.
    intros q. unfold peer_log. cbn. by rewrite Ee, <- app_assoc.
  - unfold loop_lock in E. destruct (n_loop n); try done. destruct (senders_free n); simplify_eq. by apply (sourced_same ls _ n).
  - unfold loop_send in E. destruct (n_loop n) as [| |[|[q m] acts]]; try done; [simplify_eq; by apply (sourced_same ls _ n)|].
    destruct (send_frame q (to_frame m) n) as [n1|] eqn:Es; cbn in E; simplify_eq.
    apply send_frame_eq in Es as [c ->]. by apply (sourced_same ls _ n).
  - unfold keep_tick in E. destruct (n_keep n); simplify_eq. by apply (sourced_same ls _ n).
  - unfold keep_lock in E. destruct (n_keep n); try done. destruct (senders_free n); simplify_eq. by apply (sourced_same ls _ n).
  - unfold keep_send in E. destruct (n_keep n) as [| |[|q pids]]; try done; [simplify_eq; by apply (sourced_same ls _ n)|].
    destruct (send_frame q (to_frame GetPeers) n) as [n1|] eqn:Es; cbn in E; simplify_eq.
    apply send_frame_eq in Es as [c ->]. by apply (sourced_same ls _ n).
  - simplify_eq. by apply (sourced_same ls _ n).
  - apply take_bytes_chans in E as [-> _]. by apply (sourced_same ls _ n).
Qed.

End source.

(** ** Runs *)

Section runs.
Context `{Blake2b256Laws} (cfg : NodeConfig).

Record run_ready (ls : list Label) (n : Node) : Prop := {
  rr_ok : node_ok n;
  rr_typed : node_typed n;
  rr_unshaken : unshaken n;
  rr_sourced : sourced ls n
}.

Lemma run_unshaken ls n : node_run cfg ls n -> unshaken n.
Proof.
  induction 1 as [|ls l n n' Hr IH Hl E]; [|by eapply unshaken_exec].
  intros p t st Hp. cbn in Hp. by rewrite lookup_empty in Hp.
Qed.

Lemma run_ready_of ls n : node_run cfg ls n -> Forall label_typed ls -> Z.of_nat (length ls) < 2 ^ 64 - 1 -> run_ready ls n.
Proof.
  intros Hr Ht Hlen. split; [by eapply run_ok|by eapply run_typed|by eapply run_unshaken|].
  revert Ht Hlen. induction Hr as [|ls l n n' Hr IH Hl E]; intros Ht Hlen.
  { intros p t Hp. cbn in Hp. by rewrite lookup_empty in Hp. }
  rewrite length_app in Hlen. cbn in Hlen. apply Forall_app in Ht as [Ht _].
  eapply sourced_exec; [by apply IH; [|lia]|eapply run_ok; [done|lia]|by eapply run_typed|by eapply run_unshaken|done].
Qed.

Lemma run_simulated ls n : node_run cfg ls n -> Forall label_typed ls -> Z.of_nat (length ls) < 2 ^ 64 - 1 ->
  exists s, rtc relay_step relay_new s /\ refines n s.
Proof.
  induction 1 as [|ls l n n' Hr IH Hl E]; intros Ht Hlen; [exists relay_new; split; [done|apply refines_new]|].
  rewrite length_app in Hlen. cbn in Hlen. apply Forall_app in Ht as [Ht _].
  destruct IH as (s & Hrun & Hs); [done|lia|].
  destruct (run_ready_of ls n Hr Ht ltac:(lia)) as [Hok Hty Hu _].
  destruct (sim_exec cfg l n n' s Hok Hty Hu Hs Hl E) as (s' & Hstep & Hs'). exists s'. split; [|done].
  destruct Hstep as [->|Hstep]; [done|]. by eapply rtc_r.
Qed.

End runs.

(** ** The session of a peer is that of its bytes *)

Lemma session_of_bytes `{Blake2b256Laws} cfg ls n p : node_run cfg ls n -> Forall label_typed ls ->
  Z.of_nat (length ls) < 2 ^ 64 - 1 -> peer_log n p <> [] ->
  exists t st spec hs rest, n_tasks n !! p = Some t /\ offered ls st /\
    delivered (tcp_chunks st) = hs ++ rest /\ parse hs = Ok spec /\ validate_peer spec (network (t_hs t)) = inr tt /\
    let session := script p spec (t_direction t) (sent_messages (magic (network (t_hs t))) rest) in
    peer_log n p `prefix_of` session /\ (t_phase t = PDone -> peer_log n p = session) /\
    peer_log n p ++ plan p t = session /\
    forall r, reader_of t = Some r -> took_frames (magic (network (t_hs t))) rest (stream r).
Proof.
  intros Hr Ht Hlen Hne. destruct (run_ready_of cfg ls n Hr Ht Hlen) as [Hok _ _ Hsrc].
  pose proof (ok_peers _ Hok p) as Hp.
  assert (Ht' : exists t s, n_tasks n !! p = Some t /\ t_spec t = Some s /\ forall st, t_phase t <> PHandshake st).
  { unfold peer_ok in Hp. change (v_task (view_of n p)) with (n_tasks n !! p) in Hp.
    change (peer_log n p) with (v_log (view_of n p)) in Hne.
    destruct (n_tasks n !! p) as [t|]; [|by rewrite Hp in Hne].
    destruct (t_phase t) eqn:Hph; repeat match goal with
      | Hx : _ /\ _ |- _ => destruct Hx | Hx : exists _, _ |- _ => destruct Hx | Hx : _ \/ _ |- _ => destruct Hx end;
      try (by match goal with Hx : view_of n p = _ |- _ => rewrite Hx in Hne end); exists t; eexists; by rewrite Hph. }
  destruct Ht' as (t & s & Htask & Hspec & Hph). destruct (Hsrc p t Htask) as (st & Ho & Hst).
  assert (Hfs : from_socket st p t (peer_log n p) s).
  { unfold task_source in Hst. destruct (t_phase t) eqn:E; [by destruct (Hph stream)|by apply Hst..]. }
  destruct Hfs as (hs & rest & Hd & Hparse & Hv & Hsess & Hrd). exists t, st, s, hs, rest. cbv zeta. split_and!; try done.
  - rewrite <- Hsess. by apply prefix_app_r.
  - intros Hdone. rewrite <- Hsess. unfold plan, future. rewrite Hdone. by rewrite app_nil_r.
Qed.

(** The bytes a peer's socket has taken: of the writes that have ended, and of the
    frame being written. *)
Definition on_wire `{Blake2b256} (c : Chan) : list Z :=
  wr_sent (ch_writer c) ++
  (if ch_open c then concat ((fun f => take (ch_taken c) (encode (ch_magic c) f)) <$> option_list (ch_inflight c)) else []).

(** ** Properties *)

(** C1: the node implements the relay: every state it reaches, under any
    interleaving of its tasks and any cutting of the bytes by the network, stands
    for a state the relay reaches, and whatever step the node takes from there
    is one step of the relay or none. So the router handles the peers' sessions
    as if one event at a time arrived, each session in order and each event
    once, with the actions of an event delivered before the next is handled;
    what is left of a session is determined by the bytes its peer sends, and
    what a peer was given is what its writer has written, holds and has queued. *)
Theorem node_refines_relay `{Blake2b256Laws} cfg ls n : node_run cfg ls n -> Forall label_typed ls ->
  Z.of_nat (length ls) < 2 ^ 64 - 1 ->
  exists s, rtc relay_step relay_new s /\ refines n s /\
    forall l n', lawful l -> exec cfg l n = Some n' ->
      exists s', (s' = s \/ relay_step s s') /\ refines n' s'.
Proof.
  intros Hr Ht Hlen. destruct (run_simulated cfg ls n Hr Ht Hlen) as (s & Hrun & Hs). exists s. split_and!; [done|done|].
  destruct (run_ready_of cfg ls n Hr Ht Hlen) as [Hok Hty Hu _]. intros l n' Hl E. by eapply sim_exec.
Qed.


(** C3: what a peer receives is what it was given: while its writer is alive,
    the bytes written to its socket are the proxy's handshake and the frames of
    the first of the messages the relay gave it, in order, and the others are
    the frame being written and those queued; the peer, decoding the bytes after
    the handshake, finds exactly those messages. Whether a write is under way or
    has failed, the bytes on the wire, those of the frame being written included,
    are a beginning of the handshake and the frames. *)
Theorem node_output_faithful `{Blake2b256Laws} cfg ls n p c : node_run cfg ls n -> Forall label_typed ls ->
  Z.of_nat (length ls) < 2 ^ 64 - 1 -> n_chans n !! p = Some c ->
  exists s ms t now urandom, rtc relay_step relay_new s /\ refines n s /\ rl_out s !! p = Some ms /\
    n_tasks n !! p = Some t /\
    let mg := magic (network (t_hs t)) in
    wr_sent (ch_writer c) `prefix_of` build now urandom (t_hs t) ++ concat (encode mg <$> (to_frame <$> ms)) /\
    on_wire c `prefix_of` build now urandom (t_hs t) ++ concat (encode mg <$> (to_frame <$> ms)) /\
    (ch_open c = true -> exists done todo bytes, ms = done ++ todo /\
       wr_sent (ch_writer c) = build now urandom (t_hs t) ++ bytes /\ sent_messages mg bytes = done /\
       option_list (ch_inflight c) ++ ch_queue c = to_frame <$> todo).
Proof.
  intros Hr Ht Hlen Hc. destruct (run_simulated cfg ls n Hr Ht Hlen) as (s & Hrun & Hs).
  pose proof (rf_out _ _ Hs p) as [Hcar _]. rewrite Hc in Hcar. destruct Hcar as (hs & ms & Hh & Hms & Hmg & now & urandom & Hw).
  assert (Htask : exists t, n_tasks n !! p = Some t /\ hs = t_hs t).
  { unfold opened_hs in Hh. destruct (n_tasks n !! p) as [t|]; [|done]. destruct (opened t); [|done]. simplify_eq. eauto. }
  destruct Htask as (t & Htask & ->).
  pose proof (rt_out _ (relay_run_typed _ _ Hrun relay_new_typed) p ms Hms) as Hwire.
  exists s, ms, t, now, urandom. cbv zeta. split_and!; try done; rewrite Hmg in Hw.
  - destruct (ch_open c); [|done]. destruct Hw as (written & -> & ->). rewrite !fmap_app, !concat_app.
    by apply prefix_app, prefix_app_r.
  - unfold on_wire. rewrite Hmg. destruct (ch_open c); [|by rewrite app_nil_r]. destruct Hw as (written & -> & ->).
    rewrite !fmap_app, !concat_app, <- app_assoc. apply prefix_app, prefix_app.
    destruct (ch_inflight c) as [f|]; cbn; [|apply prefix_nil].
    rewrite !app_nil_r. apply prefix_app_r, prefix_take.
  - intros Ho. rewrite Ho in Hw. destruct Hw as (written & Hfr & Hw).
    apply fmap_app_inv in Hfr as (done & todo & Hd & Htd & Heq).
    exists done, todo, (concat (encode (magic (network (t_hs t))) <$> written)). split_and!; try done.
    rewrite Hd. rewrite <- (app_nil_r (concat _)), sent_messages_encode; [by rewrite app_nil_r|apply magic_length|].
    rewrite Heq in Hwire. by apply Forall_app in Hwire as [? _].
Qed.

(** ** The properties at work: a peer asks three times, and one answer is written *)

Definition asked : list Label :=
  asking_run 2 ++ [DoWriterRecv (mkPeerId 1); DoTaken (mkPeerId 1) 13; DoWriterWrite (mkPeerId 1)] ++ one_more_question.

Lemma asked_lawful : Forall lawful asked.
Proof.
  pose proof (asking_lawful 2) as Hl. apply Forall_app in Hl as [H1 H2].
  apply Forall_app. split; [exact H1|]. apply Forall_app. split; [|exact H2].
  repeat (apply Forall_cons; split); done.
Qed.

Lemma node_refines_relay_witness :
  exists s, rtc (relay_step (H := toy_digest)) relay_new s /\ rl_todo s = [Send (mkPeerId 1) (Peers [])] /\
    rl_pending s !! mkPeerId 1 = Some [PeerDisconnected (mkPeerId 1) CLOSED].
Proof.
  destruct (@node_refines_relay toy_digest toy_digest_laws small_config asked (run_from_new asked)) as (s & Hr & Hs & _).
  - apply run_new_exec; [exact asked_lawful|vm_compute; reflexivity].
  - by_decide.
  - vm_compute. reflexivity.
  - exists s. split; [exact Hr|]. split.
    + rewrite (rf_todo _ _ Hs). vm_compute. reflexivity.
    + rewrite (rf_pending _ _ Hs). vm_compute. reflexivity.
Defined.


Lemma node_output_faithful_witness :
  exists c, n_chans (run_from_new asked) !! mkPeerId 1 = Some c /\
    exists ms t now urandom done todo bytes, n_tasks (run_from_new asked) !! mkPeerId 1 = Some t /\ ms = done ++ todo /\
      wr_sent (ch_writer c) = build now urandom (t_hs t) ++ bytes /\
      sent_messages (H := toy_digest) (magic (network (t_hs t))) bytes = done /\
      option_list (ch_inflight c) ++ ch_queue c = to_frame <$> todo.
Proof.
  destruct (n_chans (run_from_new asked) !! mkPeerId 1) as [c|] eqn:Hc; [|vm_compute in Hc; discriminate Hc].
  exists c. split; [reflexivity|].
  destruct (@node_output_faithful toy_digest toy_digest_laws small_config asked (run_from_new asked) (mkPeerId 1) c)
    as (s & ms & t & now & urandom & _ & _ & _ & Ht & _ & _ & Ho).
  - apply run_new_exec; [exact asked_lawful|vm_compute; reflexivity].
  - by_decide.
  - vm_compute. reflexivity.
  - exact Hc.
  - destruct Ho as (done & todo & bytes & H1 & H2 & H3 & H4); [vm_compute in Hc; injection Hc as <-; reflexivity|].
    exists ms, t, now, urandom, done, todo, bytes. exact (conj Ht (conj H1 (conj H2 (conj H3 H4)))).
Defined.

(** ** A frame the peer's reader refuses *)

(** A peer that sends a frame of another network and then a GetPeers. *)
Definition sloppy_peer : TcpStream :=
  mkTcpStream [build 7 zeros8 other_config ++ @encode toy_digest (magic Mainnet) (to_frame GetPeers) ++
               @encode toy_digest (magic Testnet) (to_frame GetPeers)]
    (mkWriter [] 200) false.

Definition sloppy_run : list Label :=
  joining sloppy_peer ++ [DoRead (mkPeerId 1); DoRemoveSender (mkPeerId 1); DoAbortWriter (mkPeerId 1); DoSendDisconnected (mkPeerId 1)].

(** One bad frame ends a session: the well-formed frame that follows it has
    arrived and is never read. The design document would have the bad frame
    dropped, and the peer disconnected after a threshold of them. *)
Theorem node_bad_frame_ends_session :
  node_run (H := toy_digest) small_config sloppy_run (run_from_new sloppy_run) /\
  (exists t, n_tasks (run_from_new sloppy_run) !! mkPeerId 1 = Some t /\ t_phase t = PDone) /\
  peer_log (run_from_new sloppy_run) (mkPeerId 1) =
    [PeerConnected (mkPeerId 1) (config_spec zeros8 other_config) Inbound; PeerDisconnected (mkPeerId 1) CLOSED].
Proof.
  split_and!.
  - apply run_new_exec; [|vm_compute; reflexivity]. unfold sloppy_run. rewrite Forall_app. split; [apply joining_lawful|by repeat constructor].
  - eexists. split; vm_compute; reflexivity.
  - vm_compute. reflexivity.
Qed.
