(* ===== verification/NodeProgress.v ===== *)
(** * What the node can be waiting for

    The steps the tasks can take, given what has arrived at the sockets and what
    the sockets have taken; and the states in which there is none: only sockets
    keep the node from going on. *)
From S2P Require Import Prelude Io Types Vlq Frame Handshake Messages Peer PeerTable InvTable Tracker Latency Router Wire Connection Config Node NodeInv NodeSpec Relay NodeTypes NodeSim NodeRelay.

#[local] Opaque build parse measure_size encode decode from_frame to_frame.

(** The steps the node takes by itself: no new connection, no timer, and nothing
    that happens at a socket. *)
Definition internal (l : Label) : Prop :=
  match l with
  | DoAccept _ _ | DoManagerTop | DoManagerScan | DoManagerConnected _ | DoKeepTick _ | DoArrive _ | DoTaken _ _ => False
  | _ => True
  end.

Definition can_step `{Blake2b256} (cfg : NodeConfig) (n : Node) : Prop :=
  exists l n', internal l /\ lawful l /\ exec cfg l n = Some n'.

Section waits.
Context `{Blake2b256}.

(** Somebody who holds the lock of the senders has a frame to send to [q]. *)
Definition sending_to (n : Node) (q : PeerId) : Prop :=
  (exists m acts, n_loop n = LSending (Send q m :: acts)) \/ (exists pids, n_keep n = KSending (q :: pids)).

(** The channel of [q] is full and its writer waits for the socket. *)
Definition choked (n : Node) (q : PeerId) : Prop :=
  exists c f, q ∈ n_senders n /\ n_chans n !! q = Some c /\ ch_open c = true /\
    (FRAME_CAPACITY <= length (ch_queue c))%nat /\ ch_inflight c = Some f /\ write_ends c f = false.

(** A task that has ended, or waits for its socket. *)
Definition idle_task (n : Node) (p : PeerId) (t : Task) : Prop :=
  match t_phase t with
  | PDone => True
  | PHandshake _ => arrived p n = 0%nat
  | PReading r mg => waiting (arrived p n) mg r = true
  | _ => False
  end.

(** A writer that has ended, has nothing to write, or waits for its socket. *)
Definition idle_chan (c : Chan) : Prop := ch_open c = true ->
  match ch_inflight c with None => ch_queue c = [] | Some f => write_ends c f = false end.

Record at_rest (n : Node) : Prop := {
  rest_events : n_events n = [];
  rest_loop : n_loop n = LIdle;
  rest_keep : n_keep n = KIdle;
  rest_tasks : forall p t, n_tasks n !! p = Some t -> idle_task n p t;
  rest_chans : forall p c, n_chans n !! p = Some c -> idle_chan c
}.

Definition held_up (n : Node) : Prop := exists q, sending_to n q /\ choked n q.

End waits.

Section progress.
Context `{Blake2b256} (cfg : NodeConfig).

Lemma step_intro l n : internal l -> lawful l -> is_Some (exec cfg l n) -> can_step cfg n.
Proof. intros Hi Hl [n' E]. by exists l, n'. Qed.

Lemma chan_can_step n q c : n_chans n !! q = Some c -> idle_chan c \/ can_step cfg n.
Proof.
  intros Ec. destruct (ch_open c) eqn:Eo; [|left; unfold idle_chan; by rewrite Eo].
  destruct (ch_inflight c) as [g|] eqn:Ei.
  - destruct (write_ends c g) eqn:Ew; [right|left; intros _; by rewrite Ei].
    apply (step_intro (DoWriterWrite q)); try done. cbn. unfold writer_write. rewrite Ec. cbn. rewrite Ei, Eo, Ew.
    destruct (write_frame _ _ _) as [[] w]; by eexists.
  - destruct (ch_queue c) as [|f fs] eqn:Eq; [left; intros _; by rewrite Ei|right].
    apply (step_intro (DoWriterRecv q)); try done. cbn. unfold writer_recv. rewrite Ec. cbn. rewrite Ei, Eo, Eq. by eexists.
Qed.

(** A frame can be sent, or the writer of the full channel can go on, or its
    socket takes nothing. *)
Lemma send_or_choked q f n : is_Some (send_frame q f n) \/ can_step cfg n \/ choked n q.
Proof.
  unfold send_frame. case_decide; [|left; by eexists]. destruct (n_chans n !! q) as [c|] eqn:Ec; [|left; by eexists].
  destruct (ch_open c) eqn:Eo; [|left; by eexists]. case_decide as Hcap; [left; by eexists|]. right.
  destruct (chan_can_step n q c Ec) as [Hi|]; [right|by left]. specialize (Hi Eo).
  destruct (ch_inflight c) as [g|] eqn:Ei; [|rewrite Hi in Hcap; unfold FRAME_CAPACITY in Hcap; cbn in Hcap; lia].
  exists c, g. split_and!; try done. lia.
Qed.

(** Whoever holds the senders' lock can go on, or is held up by a socket. *)
Lemma locked_can_step n : senders_free n = false -> can_step cfg n \/ held_up n.
Proof.
  unfold senders_free. destruct (n_loop n) as [|acts|acts] eqn:El; [destruct (n_keep n) as [| |pids] eqn:Ek; try done..|].
  1-2: intros _; destruct pids as [|q pids];
    [left; apply (step_intro DoKeepSend); try done; cbn; unfold keep_send; rewrite Ek; by eexists|];
    destruct (send_or_choked q (to_frame GetPeers) n) as [[n1 E]|[|Hc]]; [left|by left|right; exists q; split; [right; by eexists|done]];
    apply (step_intro DoKeepSend); try done; cbn; unfold keep_send; rewrite Ek, E; by eexists.
  intros _. destruct acts as [|[q m] acts].
  - left. apply (step_intro DoSend); try done. cbn. unfold loop_send. rewrite El. by eexists.
  - destruct (send_or_choked q (to_frame m) n) as [[n1 E]|[|Hc]]; [left|by left|right; exists q; split; [left; by do 2 eexists|done]].
    apply (step_intro DoSend); try done. cbn. unfold loop_send. rewrite El, E. by eexists.
Qed.

Lemma loop_can_step n : n_loop n <> LIdle \/ n_keep n <> KIdle \/ n_events n <> [] -> can_step cfg n \/ held_up n.
Proof.
  destruct (senders_free n) eqn:Ef; [|intros _; by apply locked_can_step]. intros Hw. left. revert Hw.
  destruct (n_loop n) as [|acts|acts] eqn:El.
  - destruct (n_keep n) as [|pids|pids] eqn:Ek.
    + intros [|[|He]]; try done. destruct (n_events n) as [|e es] eqn:Ee; [done|].
      apply (step_intro (DoRecv list_order (fun _ => 0))); try done; [apply list_order_laws|]. cbn. unfold loop_recv.
      rewrite El, Ee. destruct (Router.handle_event _ _ _). by eexists.
    + intros _. apply (step_intro DoKeepLock); try done. cbn. unfold keep_lock. rewrite Ek, Ef. by eexists.
    + unfold senders_free in Ef. by rewrite El, Ek in Ef.
  - intros _. apply (step_intro DoLock); try done. cbn. unfold loop_lock. rewrite El, Ef. by eexists.
  - unfold senders_free in Ef. by rewrite El in Ef.
Qed.

Lemma read_ready p n t r mg : n_tasks n !! p = Some t -> t_phase t = PReading r mg ->
  waiting (arrived p n) mg r = false -> can_step cfg n.
Proof.
  intros Ht E Ew. apply (step_intro (DoRead p)); try done. cbn. unfold read_message. rewrite Ht. cbn. rewrite E, Ew.
  destruct (read_frame _ _) as [[f|e] r']; [destruct (from_frame f)|]; by eexists.
Qed.

Lemma handshake_ready p n t st : n_tasks n !! p = Some t -> t_phase t = PHandshake st ->
  arrived p n <> 0%nat -> can_step cfg n.
Proof.
  intros Ht E Ea. apply (step_intro (DoHandshake 0 [] p)); try done. cbn. unfold handshake. rewrite Ht. cbn. rewrite E.
  rewrite decide_False by done. destruct (match t_direction t with Inbound => _ | Outbound => _ end); [destruct (_ && _)|]; by eexists.
Qed.

Lemma task_can_step n p t : n_events n = [] -> senders_free n = true ->
  n_tasks n !! p = Some t -> idle_task n p t \/ can_step cfg n.
Proof.
  intros He Hf Ht. unfold idle_task.
  assert (Hsend : forall e, is_Some (send_event e n))
    by (intros e; unfold send_event; rewrite He, decide_True by (cbn; unfold EVENT_CAPACITY; lia); by eexists).
  destruct (t_phase t) eqn:E; try (by left).
  - destruct (decide (arrived p n = 0%nat)); [by left|right]. by eapply handshake_ready.
  - right. apply (step_intro (DoRegister p)); try done. cbn. unfold register. rewrite Ht. cbn. rewrite E. by eexists.
  - right. apply (step_intro (DoSendConnected p)); try done. cbn. unfold send_connected. rewrite Ht. cbn. rewrite E.
    destruct (Hsend (PeerConnected p (peer_spec conn) (t_direction t))) as [n1 ->]. by eexists.
  - right. apply (step_intro (DoInsertSender p)); try done. cbn. unfold insert_sender. rewrite Ht. cbn. rewrite E, Hf. by eexists.
  - destruct (waiting (arrived p n) magic reader) eqn:Ew; [by left|right]. by eapply read_ready.
  - right. apply (step_intro (DoForward p)); try done. cbn. unfold forward_message. rewrite Ht. cbn. rewrite E.
    destruct (Hsend (Message p msg)) as [n1 ->]. by eexists.
  - right. apply (step_intro (DoRemoveSender p)); try done. cbn. unfold remove_sender. rewrite Ht. cbn. rewrite E, Hf. by eexists.
  - right. apply (step_intro (DoAbortWriter p)); try done. cbn. unfold abort_writer. rewrite Ht. cbn. rewrite E. by eexists.
  - right. apply (step_intro (DoSendDisconnected p)); try done. cbn. unfold send_disconnected. rewrite Ht. cbn. rewrite E.
    destruct (Hsend (PeerDisconnected p CLOSED)) as [n1 ->]. by eexists.
Qed.

#[global] Instance idle_task_dec n p t : Decision (idle_task n p t).
Proof. unfold idle_task. destruct (t_phase t); apply _. Defined.

#[global] Instance idle_chan_dec c : Decision (idle_chan c).
Proof. unfold idle_chan. destruct (ch_inflight c); apply _. Defined.

(** Some task can go on, or a socket holds up the holder of the lock, or the
    node is at rest. *)
Lemma step_or_wait n : can_step cfg n \/ held_up n \/ at_rest n.
Proof.
  assert (Hw : n_loop n <> LIdle \/ n_keep n <> KIdle \/ n_events n <> [] -> can_step cfg n \/ held_up n \/ at_rest n)
    by (intros Hx; destruct (loop_can_step n Hx); tauto).
  destruct (n_loop n) eqn:Hl; [|apply Hw; by left..].
  destruct (n_keep n) eqn:Hk; [|apply Hw; by right; left..].
  destruct (n_events n) eqn:He; [|apply Hw; by right; right]. clear Hw.
  assert (Hf : senders_free n = true) by (unfold senders_free; by rewrite Hl, Hk).
  destruct (decide (map_Forall (idle_task n) (n_tasks n))) as [Ht|Ht].
  2: { apply map_not_Forall in Ht as (p & t & Ht & Hne); [|apply _]. destruct (task_can_step n p t He Hf Ht); tauto. }
  destruct (decide (map_Forall (fun _ => idle_chan) (n_chans n))) as [Hc|Hc].
  2: { apply map_not_Forall in Hc as (p & c & Hc & Hne); [|apply _]. destruct (chan_can_step n p c Hc); tauto. }
  right; right. by split.
Qed.

(** At rest there is no step left. *)
Lemma rest_cannot_step n : at_rest n -> ~ can_step cfg n.
Proof.
  intros [He Hl Hk Ht Hc] (l & n' & Hi & _ & E). unfold idle_task in Ht. unfold idle_chan in Hc.
  destruct l; try done; cbn [exec] in E;
    unfold handshake, register, send_connected, insert_sender, read_message, forward_message, remove_sender,
      abort_writer, send_disconnected, writer_recv, writer_write, loop_recv, loop_lock, loop_send, keep_lock, keep_send in E;
    rewrite ?Hl, ?Hk, ?He in E; try done;
    [destruct (n_tasks n !! p) as [t|] eqn:Etask; cbn in E; [specialize (Ht p t Etask)|done]..| |];
    try (destruct (t_phase t); try done; rewrite ?Ht in E; done).
  - destruct (n_chans n !! p) as [c|] eqn:Ec; cbn in E; [|done]. specialize (Hc p c Ec).
    destruct (ch_queue c), (ch_inflight c), (ch_open c); try done. by specialize (Hc eq_refl).
  - destruct (n_chans n !! p) as [c|] eqn:Ec; cbn in E; [|done]. specialize (Hc p c Ec).
    destruct (ch_inflight c), (ch_open c); try done. by rewrite (Hc eq_refl) in E.
Qed.

(** What a socket can do about it. *)
Lemma choked_goes_on n q : choked n q -> exists k n1, exec cfg (DoTaken q k) n = Some n1 /\ can_step cfg n1.
Proof.
  intros (c & f & Hs & Hc & Ho & Hcap & Hi & Hw). exists (length (encode (ch_magic c) f)). cbn [exec]. unfold take_bytes.
  rewrite Hc. cbn. rewrite Hi, Ho. eexists. split; [done|]. apply (step_intro (DoWriterWrite q)); try done.
  cbn. unfold writer_write. cbn. rewrite lookup_insert_eq. cbn. unfold write_ends. cbn.
  rewrite bool_decide_true by (left; lia). destruct (write_frame _ _ _) as [[] w]; by eexists.
Qed.

Lemma arrivals p k : forall n, exists n1, exec_all cfg (replicate k (DoArrive p)) n = Some n1 /\
  n_tasks n1 = n_tasks n /\ arrived p n1 = (k + arrived p n)%nat.
Proof.
  induction k as [|k IH]; intros n; [by exists n|]. destruct (IH (arrive p n)) as (n1 & E & Ht & Ha).
  exists n1. cbn. split_and!; [exact E|by rewrite Ht|]. rewrite Ha. unfold arrived at 1. cbn. rewrite lookup_insert_eq. cbn. lia.
Qed.

Lemma waiting_ends k mg r : (length (br_chunks r) < k)%nat -> waiting k mg r = false.
Proof. intros Hk. unfold waiting, hung_up. by rewrite bool_decide_true. Qed.

Lemma idle_goes_on n p t : n_tasks n !! p = Some t -> t_phase t <> PDone -> idle_task n p t ->
  exists k n1, exec_all cfg (replicate k (DoArrive p)) n = Some n1 /\ can_step cfg n1.
Proof.
  intros Ht Hne Hi. unfold idle_task in Hi. destruct (t_phase t) eqn:Hph; try done.
  - destruct (arrivals p 1 n) as (n1 & E & Et & Ea). exists 1%nat, n1. split; [done|].
    eapply handshake_ready; [by rewrite Et|exact Hph|]. rewrite Ea. lia.
  - destruct (arrivals p (S (length (br_chunks reader))) n) as (n1 & E & Et & Ea). eexists _, n1. split; [done|].
    eapply read_ready; [by rewrite Et|exact Hph|]. apply waiting_ends. rewrite Ea. lia.
Qed.

End progress.

(** A node stalled by a peer is held up by it. *)
Lemma stalled_held_up `{Blake2b256} p n : stalled p n -> held_up n.
Proof.
  intros (msg & acts & c & f & Hl & Hs & Hc & Ho & Hq & Hi & Hw). exists p. split; [left; by do 2 eexists|].
  exists c, f. by split_and!.
Qed.

(** ** Properties *)

(** C10: only sockets can keep the node from going on. In every state, some task
    can take a step, or the task that holds the senders' lock has a frame for a
    peer whose channel is full and whose writer waits for its socket, or the node
    is at rest: no event is queued, no action or keepalive is pending, each peer's
    task has ended or waits for bytes that have not arrived, and each writer has
    nothing to write or waits for its socket. At rest there is no step to take;
    and a wait ends when its socket goes on: once the socket takes the frame, or
    enough has arrived, a task can take a step. A full channel or a held lock
    alone never blocks the node. *)
Theorem node_no_deadlock `{Blake2b256} cfg n :
  (can_step cfg n \/ held_up n \/ at_rest n) /\ (at_rest n -> ~ can_step cfg n) /\
  (forall q, choked n q -> exists k n1, exec cfg (DoTaken q k) n = Some n1 /\ can_step cfg n1) /\
  (forall p t, n_tasks n !! p = Some t -> t_phase t <> PDone -> idle_task n p t ->
     exists k n1, exec_all cfg (replicate k (DoArrive p)) n = Some n1 /\ can_step cfg n1).
Proof.
  split_and!; [apply step_or_wait|apply rest_cannot_step|apply choked_goes_on|apply idle_goes_on].
Qed.
