(* ===== verification/NodeDrain.v ===== *)
(** * The node finishes its work

    A measure of the work the tasks have left: the bytes ahead of the readers,
    the events queued, the actions and keepalives to be sent and the frames to be
    written. Every step the node takes by itself makes it smaller, so while no
    connection comes in, no timer fires and nothing happens at the sockets, the
    node stops after a bounded number of steps: held up by a socket that takes
    nothing, or at rest, with everything that has arrived handled. *)
From S2P Require Import Prelude Io Types Vlq Frame Handshake Messages Peer PeerTable InvTable Tracker Latency Router Wire Connection Config Node NodeInv NodeSpec Relay NodeTypes NodeSim NodeRelay NodeProgress.

#[local] Opaque build parse measure_size encode decode from_frame to_frame.

Open Scope nat_scope.

(** ** Sums over maps *)

Definition msum {K V} `{Countable K} (f : V -> nat) (m : gmap K V) : nat :=
  sum_list_with f (map_to_list m).*2.

Section msum.
Context {K V : Type} `{Countable K} (f : V -> nat).

Lemma msum_empty : msum f (∅ : gmap K V) = 0.
Proof. unfold msum. by rewrite map_to_list_empty. Qed.

Lemma msum_insert_None (m : gmap K V) k v : m !! k = None -> msum f (<[k := v]> m) = f v + msum f m.
Proof. intros Hk. unfold msum. by rewrite (map_to_list_insert _ _ _ Hk). Qed.

Lemma msum_delete (m : gmap K V) k v : m !! k = Some v -> msum f m = f v + msum f (delete k m).
Proof.
  intros Hk. rewrite <- (insert_delete_id m k v) at 1 by done. apply msum_insert_None, lookup_delete_eq.
Qed.

Lemma msum_insert (m : gmap K V) k v : msum f (<[k := v]> m) = f v + msum f (delete k m).
Proof. rewrite <- insert_delete_eq. apply msum_insert_None, lookup_delete_eq. Qed.

Lemma msum_replace (m : gmap K V) k v v' : m !! k = Some v -> msum f (<[k := v']> m) + f v = msum f m + f v'.
Proof. intros Hk. rewrite msum_insert, (msum_delete m k v Hk). lia. Qed.

Lemma msum_delete_le (m : gmap K V) k : msum f (delete k m) <= msum f m.
Proof.
  destruct (m !! k) as [v|] eqn:E; [rewrite (msum_delete m k v E); lia|]. by rewrite delete_id.
Qed.

Lemma msum_insert_le (m : gmap K V) k v : msum f (<[k := v]> m) <= f v + msum f m.
Proof. rewrite msum_insert. pose proof (msum_delete_le m k). lia. Qed.

End msum.

(** ** The work left *)

(** How many identifiers or modifiers a message carries. *)
Definition width (m : ProtocolMessage) : nat :=
  match m with
  | Inv _ ids | ModifierRequest _ ids => length ids
  | ModifierResponse _ ms => length ms
  | _ => 0
  end.

Section work.
Context (k : nat).    (* the number of peers *)

Definition event_work (e : ProtocolEvent) : nat :=
  match e with Message _ m => 6 + 3 * (k + width m) | _ => 4 end.

(** Enough for every event the bytes ahead can give rise to. *)
Definition bytes_work (n : nat) : nat := (10 + 3 * k) * n.

Definition task_work (t : Task) : nat :=
  match t_phase t with
  | PHandshake st => 30 + bytes_work (length (delivered (tcp_chunks st)))
  | PActive c => 20 + bytes_work (length (stream (reader c)))
  | PRegistered c => 19 + bytes_work (length (stream (reader c)))
  | PConnected c => 14 + bytes_work (length (stream (reader c)))
  | PReading r _ => 13 + bytes_work (length (stream r))
  | PParsed r _ m => 14 + bytes_work (length (stream r)) + event_work (Message (mkPeerId 0) m)
  | PLost => 12
  | PRemoved => 11
  | PAborted => 10
  | PDone => 0
  end.

Definition chan_work (c : Chan) : nat := 2 * length (ch_queue c) + length (option_list (ch_inflight c)).

Definition loop_work (l : LoopState) : nat :=
  match l with LIdle => 0 | LActions acts => 2 + 3 * length acts | LSending acts => 1 + 3 * length acts end.

Definition keep_work (s : KeepState) : nat :=
  match s with KIdle => 0 | KPeers pids => 2 + 3 * length pids | KSending pids => 1 + 3 * length pids end.

Definition work (n : Node) : nat :=
  msum task_work (n_tasks n) + msum chan_work (n_chans n) + sum_list_with event_work (n_events n) +
  loop_work (n_loop n) + keep_work (n_keep n).

End work.

(** ** What an event and a frame cost *)

Lemma concat_length_ge (ls : list (list Z)) : Forall (fun l => l <> []) ls -> length ls <= length (concat ls).
Proof.
  induction 1 as [|l ls Hl Hls IH]; [done|]. cbn. rewrite length_app. destruct l; [done|]. cbn. lia.
Qed.

(** A message carries no more items than its body has bytes. *)
Lemma width_le m : message_ok m -> width m <= length (body (to_frame m)).
Proof.
  #[local] Transparent to_frame.
  destruct m as [|b|t ids|t ids|t ms|b|c b]; cbn [width to_frame body message_ok]; try lia.
  1-2: intros [_ Hids]; rewrite encode_inv_body_eq, !length_app; pose proof (concat_length_ge ids) as Hc;
    (assert (length ids <= length (concat ids)); [apply Hc|lia]);
    eapply Forall_impl; [exact Hids|]; intros id Hid ->; done.
  intros [_ Hms]. rewrite encode_modifier_response_body_eq, !length_app.
  pose proof (concat_length_ge (modifier_bytes <$> ms)) as Hc. rewrite length_fmap in Hc.
  assert (length ms <= length (concat (modifier_bytes <$> ms))); [apply Hc|lia].
  apply Forall_fmap. eapply Forall_impl; [exact Hms|]. intros [id data] [Hid _] E. unfold modifier_bytes in E. cbn in *.
  apply app_eq_nil in E as [-> _]. done.
  #[local] Opaque to_frame.
Qed.

(** A frame read takes its bytes from the stream. *)
Lemma read_frame_length `{Blake2b256Laws} net (r r' : BufReader) f : bytes_ok (stream r) ->
  read_frame (magic net) r = (Ok f, r') ->
  length (stream r) = HEADER_SIZE + length (body f) + length (stream r').
Proof.
  intros Hb E. change (bytes_ok (view r)) in Hb. destruct (read_frame_inv (magic net) r r' f Hb E) as (_ & _ & Hv).
  change (stream r) with (view r). change (stream r') with (view r').
  rewrite Hv, length_app, encode_length by apply magic_length. done.
Qed.

Lemma omap_length_le {A B} (f : A -> option B) l : length (omap f l) <= length l.
Proof. induction l as [|a l IH]; [done|]. cbn. destruct (f a); cbn; lia. Qed.

Lemma response_count t ms : forall now r, length (Router.route_response_items now t ms r).1 <= length ms.
Proof.
  induction ms as [|[id data] ms IH]; intros now r; [done|]. rewrite response_loop_cons.
  specialize (IH (fun n => now (S n)) (answered (now 0) id r)).
  destruct (Router.route_response_items _ _ _ _) as [acts r']. cbn in *. destruct (RequestTracker.lookup _ _); cbn; lia.
Qed.

Lemma forward_count `{!HashIter PeerId PeerEntry} `{!HashIterLaws PeerId PeerEntry} p d msg r :
  length (Router.forward_to_opposite p d msg r) <= size (Router.peers r).
Proof.
  unfold Router.forward_to_opposite. rewrite length_fmap. etrans; [apply length_filter|].
  by rewrite (Permutation_length (hash_iter_perm _)), length_map_to_list.
Qed.

(** The router answers an event with at most as many actions as it has peers,
    or the message has items, or one. *)
Lemma actions_bound `{!HashIter PeerId PeerEntry} `{!HashIterLaws PeerId PeerEntry} now e r acts r' :
  Router.handle_event now e r = (acts, r') ->
  3 * length acts + 3 <= event_work (size (Router.peers r)) e.
Proof.
  destruct e as [p s d|p reason|p m]; cbn [Router.handle_event event_work]; [intros [= <- <-]; cbn; lia..|].
  unfold Router.route_message. destruct (_ !! p) as [[d md]|]; [|intros [= <- <-]; cbn; lia].
  destruct m as [|b|t ids|t ids|t ms|b|c b]; cbn [width].
  - intros [= <- <-]. cbn. lia.
  - intros [= <- <-]. cbn. lia.
  - intros [= <- <-]. match goal with |- context [Router.forward_to_opposite p d ?m ?r'] =>
      pose proof (forward_count p d m r') as Hc end. cbn [Router.peers] in Hc. lia.
  - intros (-> & _)%request_loop. pose proof (omap_length_le (fun id => (fun q => Send q (ModifierRequest t [id])) <$>
      announcer p (Router.inv_table r) id) ids). lia.
  - intros E. pose proof (response_count t ms now r) as Hc. rewrite E in Hc. cbn in Hc. lia.
  - destruct md; [|intros [= <- <-]; cbn; lia].
    destruct d; [destruct (SyncTracker.inbound_for _ _)|destruct (Router.find_free_outbound r)]; intros [= <- <-]; cbn; lia.
  - intros [= <- <-]. pose proof (forward_count p d (Unknown c b) r). lia.
Qed.

(** ** Every step does some of the work *)

(** The parts of the work in a state given by its changes. *)
Ltac open_work := unfold work, set_phase; cbn [set_router set_senders set_chans set_events set_tasks set_loop set_keep set_handled
  n_tasks n_chans n_events n_loop n_keep].

(** A step of the task of [p] that leaves less of its own work. *)
Lemma work_task k p t t' n : n_tasks n !! p = Some t ->
  work k (set_tasks (<[p := t']> (n_tasks n)) n) + task_work k t = work k n + task_work k t'.
Proof. intros Ht. open_work. pose proof (msum_replace (task_work k) _ p t t' Ht). lia. Qed.

Lemma work_event k e n n' : send_event e n = Some n' -> n_tasks n' = n_tasks n /\ work k n' = work k n + event_work k e.
Proof.
  intros [-> _]%send_event_eq. split; [done|]. open_work.
  rewrite sum_list_with_app. cbn [sum_list_with]. lia.
Qed.

Lemma work_set_chan k p c c' n : n_chans n !! p = Some c ->
  work k (set_chans (<[p := c']> (n_chans n)) n) + chan_work c = work k n + chan_work c'.
Proof. intros Hc. open_work. pose proof (msum_replace chan_work _ p c c' Hc). lia. Qed.

Lemma work_send_frame k p f n n' : send_frame p f n = Some n' -> n_loop n' = n_loop n /\ n_keep n' = n_keep n /\
  work k n' <= work k n + 2.
Proof.
  unfold send_frame. case_decide; [|intros [= <-]; split_and!; (done || lia)].
  destruct (n_chans n !! p) as [c|] eqn:Ec; [|intros [= <-]; split_and!; (done || lia)].
  destruct (ch_open c) eqn:Eo; [|intros [= <-]; split_and!; (done || lia)].
  case_decide; [|done]. intros [= <-]. split_and!; try done.
  pose proof (work_set_chan k p c (mkChan (ch_queue c ++ [f]) (ch_inflight c) true (ch_writer c) (ch_magic c) (ch_taken c)) n Ec) as Hw.
  unfold chan_work in Hw. cbn [ch_queue ch_inflight] in Hw. rewrite length_app in Hw. cbn in Hw. lia.
Qed.

Lemma work_took k p before after n : work k (took p before after n) = work k n.
Proof. done. Qed.

Lemma work_loop k l n : work k (set_loop l n) + loop_work (n_loop n) = work k n + loop_work l.
Proof. open_work. lia. Qed.

Lemma work_keep k s n : work k (set_keep s n) + keep_work (n_keep n) = work k n + keep_work s.
Proof. open_work. lia. Qed.

Lemma event_work_mono k k' e : k <= k' -> event_work k e <= event_work k' e.
Proof. destruct e; cbn; lia. Qed.

Section steps.
Context `{Blake2b256Laws} (k : nat).

Lemma drain_handshake now urandom p n n' : handshake now urandom p n = Some n' -> work k n' < work k n.
Proof.
  unfold handshake. intros E. open_task E t Ht Hph. case_decide; [done|].
  assert (Hsrc : forall conn, match t_direction t with
      | Inbound => (inbound now urandom stream (t_hs t)).1 | Outbound => (outbound now urandom stream (t_hs t)).1 end = Ok conn ->
      length (Io.stream (reader conn)) <= length (delivered (tcp_chunks stream))).
  { intros conn Hc. assert (Hd : exists hb, delivered (tcp_chunks stream) = hb ++ Io.stream (reader conn)).
    { destruct (t_direction t).
      - destruct (outbound now urandom stream (t_hs t)) as [x w] eqn:Eo. cbn in Hc. subst x.
        destruct (handshake_source now urandom stream (t_hs t) conn w) as (hb & Hd & _); [by left|by exists hb].
      - destruct (inbound now urandom stream (t_hs t)) as [x w] eqn:Eo. cbn in Hc. subst x.
        destruct (handshake_source now urandom stream (t_hs t) conn w) as (hb & Hd & _); [by right|by exists hb]. }
    destruct Hd as [hb ->]. rewrite length_app. lia. }
  destruct (match t_direction t with Inbound => _ | Outbound => _ end) as [conn|e];
    [specialize (Hsrc conn eq_refl); destruct (bool_decide _ && _)|]; simplify_eq; rewrite ?work_took; unfold set_phase;
    match goal with |- work k (set_tasks (<[p := ?t']> _) n) < _ => pose proof (work_task k p t t' n Ht) as Hw end;
    unfold task_work, bytes_work in Hw; rewrite Hph in Hw; cbn [t_phase] in Hw; nia.
Qed.

(** The steps of [run_peer] that send no event. *)
Lemma drain_run_peer p n n' :
  register p n = Some n' \/ insert_sender p n = Some n' \/ remove_sender p n = Some n' \/ abort_writer p n = Some n' ->
  work k n' < work k n.
Proof.
  unfold register, insert_sender, remove_sender, abort_writer. intros [E|[E|[E|E]]]; open_task E t Ht Hph;
    try (destruct (senders_free n); [|done]); unfold split in E; simplify_eq; open_work;
    match goal with |- context [msum _ (<[p := ?t']> _)] => pose proof (msum_replace (task_work k) _ p t t' Ht) as Hw end;
    unfold task_work at 2 4 in Hw; rewrite Hph in Hw; cbn [t_phase] in Hw; try lia.
  - match goal with |- context [msum chan_work (<[p := ?c]> ?m)] => pose proof (msum_insert_le chan_work m p c) as Hc end.
    unfold chan_work at 2 in Hc. cbn in Hc. lia.
  - pose proof (msum_delete_le chan_work (n_chans n) p). lia.
Qed.

(** The steps that send an event: the task gives up more than the event costs. *)
Lemma drain_events p n n' :
  send_connected p n = Some n' \/ forward_message p n = Some n' \/ send_disconnected p n = Some n' -> work k n' < work k n.
Proof.
  unfold send_connected, forward_message, send_disconnected. intros [E|[E|E]]; open_task E t Ht Hph;
    destruct (send_event _ n) as [n1|] eqn:Es; cbn [mbind option_bind] in E; simplify_eq;
    apply (work_event k) in Es as [Et Ew]; rewrite <- Et in Ht; unfold set_phase;
    match goal with |- work k (set_tasks (<[p := ?t']> _) n1) < _ => pose proof (work_task k p t t' n1 Ht) as Hw end;
    unfold task_work in Hw; rewrite Hph in Hw; cbn [t_phase] in Hw; cbn [event_work] in *; lia.
Qed.

Lemma drain_read p n n' : node_typed n -> read_message p n = Some n' -> work k n' < work k n.
Proof.
  unfold read_message. intros Hn E. typed_task Hn E. destruct Hp as [-> Hb]. destruct (waiting _ _ _); [done|].
  pose proof (read_frame_length (network (t_hs t)) reader) as Hr.
  destruct (read_frame _ reader) as [[f|e] r]; [specialize (Hr r f Hb eq_refl); destruct (from_frame f) as [m|] eqn:Ef|];
    simplify_eq; rewrite ?work_took; unfold set_phase;
    match goal with |- work k (set_tasks (<[p := ?t']> _) n) < _ => pose proof (work_task k p t t' n Ht) as Hw end;
    unfold task_work in Hw; rewrite Hph in Hw; cbn [t_phase event_work] in Hw; unfold bytes_work in Hw.
  - destruct (from_frame_shape f m Ef) as (Hm & _ & Hlen). pose proof (width_le m Hm). unfold HEADER_SIZE in Hr. nia.
  - unfold HEADER_SIZE in Hr. nia.
  - nia.
Qed.

Lemma drain_writer p n n' : writer_recv p n = Some n' \/ writer_write p n = Some n' -> work k n' < work k n.
Proof.
  unfold writer_recv, writer_write. intros [E|E]; destruct (n_chans n !! p) as [c|] eqn:Ec; cbn [mbind option_bind] in E; try done.
  - destruct (ch_queue c) as [|f q] eqn:Eq; [done|]. destruct (ch_inflight c) eqn:Ei; [done|]. destruct (ch_open c); [|done].
    simplify_eq. pose proof (work_set_chan k p c (mkChan q (Some f) true (ch_writer c) (ch_magic c) 0) n Ec) as Hw.
    unfold chan_work in Hw. rewrite Eq, Ei in Hw. cbn in Hw. lia.
  - destruct (ch_inflight c) eqn:Ei; [|done]. destruct (ch_open c); [|done]. destruct (write_ends _ _); [|done].
    destruct (write_frame _ _ _) as [[] w]; simplify_eq;
      match goal with |- work k (set_chans (<[p := ?c']> _) n) < _ => pose proof (work_set_chan k p c c' n Ec) as Hw end;
      unfold chan_work in Hw; rewrite Ei in Hw; cbn in Hw; lia.
Qed.

Lemma drain_recv order now n n' : HashIterLaws PeerId PeerEntry -> size (Router.peers (n_router n)) <= k ->
  loop_recv order now n = Some n' -> work k n' < work k n.
Proof.
  intros Hlaws Hk. unfold loop_recv. destruct (n_loop n) eqn:El; try done. destruct (n_events n) as [|e es] eqn:Ee; [done|].
  destruct (Router.handle_event now e (n_router n)) as [acts r] eqn:E. intros [= <-]. open_work. rewrite El, Ee.
  cbn [sum_list_with loop_work]. pose proof (actions_bound now e _ _ _ E). pose proof (event_work_mono _ k e Hk). lia.
Qed.

Lemma drain_loops n n' : loop_lock n = Some n' \/ loop_send n = Some n' \/ keep_lock n = Some n' \/ keep_send n = Some n' ->
  work k n' < work k n.
Proof.
  unfold loop_lock, loop_send, keep_lock, keep_send. intros [E|[E|[E|E]]].
  - destruct (n_loop n) as [|acts|] eqn:El; try done. destruct (senders_free n); simplify_eq.
    pose proof (work_loop k (LSending acts) n) as Hw. rewrite El in Hw. cbn [loop_work] in Hw. lia.
  - destruct (n_loop n) as [| |[|[q m] acts]] eqn:El; try done.
    + simplify_eq. pose proof (work_loop k LIdle n) as Hw. rewrite El in Hw. cbn [loop_work] in Hw. lia.
    + destruct (send_frame q (to_frame m) n) as [n1|] eqn:Es; cbn in E; simplify_eq.
      apply (work_send_frame k) in Es as (El1 & _ & Hle). pose proof (work_loop k (LSending acts) n1) as Hw.
      rewrite El1, El in Hw. cbn [loop_work length] in Hw. lia.
  - destruct (n_keep n) as [|pids|] eqn:Ek; try done. destruct (senders_free n); simplify_eq.
    pose proof (work_keep k (KSending pids) n) as Hw. rewrite Ek in Hw. cbn [keep_work] in Hw. lia.
  - destruct (n_keep n) as [| |[|q pids]] eqn:Ek; try done.
    + simplify_eq. pose proof (work_keep k KIdle n) as Hw. rewrite Ek in Hw. cbn [keep_work] in Hw. lia.
    + destruct (send_frame q (to_frame GetPeers) n) as [n1|] eqn:Es; cbn in E; simplify_eq.
      apply (work_send_frame k) in Es as (_ & Ek1 & Hle). pose proof (work_keep k (KSending pids) n1) as Hw.
      rewrite Ek1, Ek in Hw. cbn [keep_work length] in Hw. lia.
Qed.

(** Only a peer with a task is registered. *)
Lemma registered_le n : node_ok n -> size (Router.peers (n_router n)) <= size (n_tasks n).
Proof.
  intros Hok. rewrite <- !size_dom. apply subseteq_size. intros p Hp. apply elem_of_dom in Hp as [e He]. apply elem_of_dom.
  pose proof (ok_peers _ Hok p) as Hv. unfold peer_ok in Hv. change (v_task (view_of n p)) with (n_tasks n !! p) in Hv.
  destruct (n_tasks n !! p) as [t|]; [by eexists|]. apply (f_equal v_entry) in Hv. cbn in Hv. congruence.
Qed.

Lemma drain_exec cfg l n n' : node_ok n -> node_typed n -> size (n_tasks n) <= k -> internal l -> lawful l ->
  exec cfg l n = Some n' -> work k n' < work k n.
Proof.
  intros Hok Hty Hk Hi Hl E. pose proof (registered_le n Hok). destruct l; try done; cbn [exec lawful] in *;
    try (by eapply drain_events; eauto); try (by eapply drain_run_peer; eauto); try (by eapply drain_loops; eauto);
    try (by eapply drain_writer; eauto).
  - by eapply drain_handshake.
  - by eapply drain_read.
  - eapply drain_recv; [done|lia|done].
Qed.

End steps.

(** ** Runs of the node by itself *)

Lemma internal_tasks `{Blake2b256} cfg l n n' : internal l -> exec cfg l n = Some n' ->
  size (n_tasks n') = size (n_tasks n) /\ n_counter n' = n_counter n.
Proof.
  intros Hi. destruct l; try done; open_exec; cbn; split; try done;
    by rewrite map_size_insert_Some by (by eexists).
Qed.

Section drain.
Context `{Blake2b256Laws} (cfg : NodeConfig).

(** A run of the node by itself. *)
Definition by_itself (ls : list Label) (n n' : Node) : Prop :=
  Forall internal ls /\ Forall lawful ls /\ exec_all cfg ls n = Some n'.

(** What the measure needs, and a run by itself keeps. *)
Definition drainable (k : nat) (n : Node) : Prop :=
  node_ok n /\ node_typed n /\ (n_counter n < 2 ^ 64 - 1)%Z /\ size (n_tasks n) <= k.

Lemma drainable_exec k l n n' : drainable k n -> internal l -> exec cfg l n = Some n' -> drainable k n'.
Proof.
  intros (Hok & Hty & Hc & Hk) Hi E. destruct (internal_tasks cfg l n n' Hi E) as [Es Ec].
  split_and!; [by eapply ok_exec| |by rewrite Ec|by rewrite Es]. eapply typed_exec; [done| |done]. by destruct l.
Qed.

Lemma by_itself_bound k ls : forall n n', drainable k n -> by_itself ls n n' -> length ls + work k n' <= work k n.
Proof.
  induction ls as [|l ls IH]; intros n n' Hd (Hi & Hl & E); cbn in E; [simplify_eq; cbn; lia|].
  apply Forall_cons in Hi as [Hi His]. apply Forall_cons in Hl as [Hl Hls].
  destruct (exec cfg l n) as [n1|] eqn:E1; cbn in E; [|done].
  destruct Hd as (Hok & Hty & Hc & Hk).
  pose proof (drain_exec k cfg l n n1 Hok Hty Hk Hi Hl E1).
  pose proof (IH n1 n' (drainable_exec k l n n1 (conj Hok (conj Hty (conj Hc Hk))) Hi E1) (conj His (conj Hls E))).
  cbn. lia.
Qed.

Lemma comes_to_rest k : forall w n, work k n <= w -> drainable k n ->
  exists ls n', by_itself ls n n' /\ (held_up n' \/ at_rest n').
Proof.
  induction w as [|w IH]; intros n Hw Hd; pose proof Hd as (Hok & Hty & Hc & Hk);
    destruct (step_or_wait cfg n) as [(l & n1 & Hi & Hl & E)|Hs];
    try (exists [], n; split; [repeat constructor|exact Hs]);
    pose proof (drain_exec k cfg l n n1 Hok Hty Hk Hi Hl E); [lia|].
  destruct (IH n1) as (ls & n' & (His & Hls & Er) & Hs); [lia|by eapply drainable_exec|].
  exists (l :: ls), n'. split; [|done]. split_and!; [by constructor..|]. cbn. by rewrite E.
Qed.

End drain.

(** ** What has arrived *)

(** What has arrived at a reader that is not at the end of its socket. *)
Lemma stream_available k r : hung_up k (br_chunks r) = false ->
  stream r = stream (available k r) ++ delivered (drop k (br_chunks r)).
Proof.
  unfold hung_up, stream, available. cbn. intros [Hk He]%orb_false_iff. apply bool_decide_eq_false in Hk.
  rewrite <- app_assoc. f_equal. revert k Hk He. induction (br_chunks r) as [|c cs IH]; intros k Hk He; [by rewrite drop_nil, take_nil|].
  destruct k as [|k]; [done|]. cbn in *. apply orb_false_iff in He as [Hc He]. apply bool_decide_eq_false in Hc.
  destruct c as [|x c]; [done|]. rewrite (IH k) by (lia || done). by rewrite <- app_assoc.
Qed.

Lemma read_waits `{Blake2b256Laws} mg (r : BufReader) f tail : length mg = 4 -> frame_ok f ->
  (read_frame mg r).1 = Err UnexpectedEof -> stream r <> encode mg f ++ tail.
Proof.
  intros Hm Hf E Hs. assert (Hv : view r = encode mg f ++ tail) by exact Hs.
  destruct (reads_frame mg f Hm Hf r tail Hv) as (r1 & E1 & _). by rewrite E1 in E.
Qed.

Section arrived.
Context `{Blake2b256Laws}.

(** What the router has handled of a peer, from the bytes of its socket: of a peer
    whose task waits for more, the messages of all the frames that have arrived
    whole; of one whose task has ended, at least the messages of the well-formed
    frames its bytes begin with. *)
Definition handled_arrived (p : PeerId) (t : Task) (n : Node) (rest : list Z) (spec : PeerSpec) : Prop :=
  let mg := magic (network (t_hs t)) in
  let told fs := PeerConnected p spec (t_direction t) :: (Message p <$> omap message_of fs) in
  let handled := filter (fun e => event_peer e = p) (n_handled n) in
  match t_phase t with
  | PReading r _ =>
      exists fs later, Forall frame_ok fs /\ handled = told fs /\
        rest = concat (encode mg <$> fs) ++ stream (available (arrived p n) r) ++ later /\
        forall f tail, frame_ok f -> stream (available (arrived p n) r) <> encode mg f ++ tail
  | _ => forall fs tail, Forall frame_ok fs -> rest = concat (encode mg <$> fs) ++ tail -> told fs `prefix_of` handled
  end.

Lemma rest_handled cfg ls n p t : node_run cfg ls n -> Forall label_typed ls -> (Z.of_nat (length ls) < 2 ^ 64 - 1)%Z ->
  at_rest n -> n_tasks n !! p = Some t -> peer_log n p <> [] ->
  exists st spec hs rest, offered ls st /\ delivered (tcp_chunks st) = hs ++ rest /\ parse hs = Ok spec /\
    handled_arrived p t n rest spec.
Proof.
  intros Hr Ht Hlen Hrest Htask Hne. pose proof (run_typed cfg ls n Hr Ht) as Hty.
  destruct (session_of_bytes cfg ls n p Hr Ht Hlen Hne) as
    (t' & st & spec & hs & rest & Htask' & Ho & Hd & Hps & _ & _ & Hfin & Hplan & Hrd).
  assert (t' = t) as -> by congruence. exists st, spec, hs, rest. split_and!; try done.
  assert (Hh : filter (fun e => event_peer e = p) (n_handled n) = peer_log n p)
    by (rewrite log_handled, (rest_events _ Hrest); by rewrite app_nil_r).
  pose proof (rest_tasks _ Hrest p t Htask) as Hi. pose proof (ty_tasks _ Hty p t Htask) as Hpt.
  unfold handled_arrived. unfold idle_task in Hi. destruct (t_phase t) as [| | | |r mg| | | | |] eqn:Hph; try done; rewrite Hh.
  - intros fs tail Hfs ->. by destruct (run_ready_of cfg ls n Hr Ht Hlen) as [Hok _ _ _];
      pose proof (ok_peers _ Hok p) as Hp; unfold peer_ok in Hp; rewrite (view_task _ _ _ Htask), Hph in Hp;
      destruct Hp as [Hv _]; apply (f_equal v_log) in Hv.
  - destruct Hpt as [-> Hb]. destruct (Hrd r) as (fs & Hfs & Hbytes); [unfold reader_of; by rewrite Hph|].
    unfold waiting in Hi. apply andb_true_iff in Hi as [Hhu Hw]. apply negb_true_iff in Hhu.
    exists fs, (delivered (drop (arrived p n) (br_chunks r))). split_and!; try done.
    + unfold plan, future in Hplan. rewrite Hph in Hplan. unfold script, rest_of in Hplan. rewrite Hbytes in Hplan.
      rewrite sent_messages_frames in Hplan by (apply magic_length || done).
      rewrite fmap_app, <- app_assoc, app_comm_cons in Hplan. by apply app_inv_tail in Hplan.
    + by rewrite Hbytes, (stream_available _ r Hhu).
    + intros f tail Hf. apply (read_waits _ (available (arrived p n) r)); [apply magic_length|done|].
      destruct (read_frame _ _) as [[|[]] r1]; done.
  - intros fs tail Hfs ->. rewrite (Hfin eq_refl). unfold script.
    rewrite sent_messages_frames by (apply magic_length || done). rewrite fmap_app, <- app_assoc, app_comm_cons.
    by apply prefix_app_r.
Qed.

End arrived.

(** ** Properties *)


(** ** The property at work: a peer asks twice and stays connected, silent *)

Definition accepted : list Label := [DoAccept 0 (asking_peer 2); DoArrive (mkPeerId 1)].

Definition by_themselves : list Label :=
  connect_steps (mkPeerId 1) ++ handle_steps 1 ++ questions 2 ++ [DoWriterRecv (mkPeerId 1)].

Definition silent : Node := run_from_new (accepted ++ by_themselves).

Lemma by_themselves_lawful : Forall lawful by_themselves.
Proof.
  unfold by_themselves. rewrite !Forall_app. split_and!; [by repeat constructor| |apply questions_lawful|by repeat constructor].
  repeat (apply Forall_cons; split); try done. apply list_order_laws.
Qed.

(** Its task waits for bytes, its writer for the socket. *)
Lemma silent_at_rest : at_rest (H := toy_digest) silent.
Proof.
  assert (Ht : map_Forall (idle_task (H := toy_digest) silent) (n_tasks silent)) by by_decide.
  assert (Hc : map_Forall (fun _ => idle_chan (H := toy_digest)) (n_chans silent)) by by_decide.
  split; [vm_compute; reflexivity..|exact Ht|exact Hc].
Qed.

