(* ===== verification/Startup.v ===== *)
(** * [src/main.rs]: start-up

    What [main] does before it spawns tasks: the path of the configuration, the
    configuration itself, the version, and the listeners, each of which may end
    the program with an error. The command line, the file system, the TOML
    decoder and the binding of an address are parameters. *)
From S2P Require Import Prelude Io Types Vlq Frame Handshake Messages Peer PeerTable InvTable Tracker Latency Router Connection Config Node.

(** "ergo-proxy.toml". *)
Definition DEFAULT_PATH : list Z := [101; 114; 103; 111; 45; 112; 114; 111; 120; 121; 46; 116; 111; 109; 108].

(** [std::env::args().nth(1)]. *)
Definition config_path (args : list (list Z)) : list Z := default DEFAULT_PATH (args !! 1%nat).

Inductive start_error := ConfigError (e : config_error) | BindError (addr : SocketAddr).

Section start.
Context (read_to_string : list Z -> option (list Z)) (toml_from_str : list Z -> option Config)
  (bind : SocketAddr -> bool).

(** [TcpListener::bind(addr).await?], for a listener that is configured. *)
Definition bind_listener (listener : option ListenerConfig) : option start_error :=
  match listener with
  | Some cfg => if bind (listener_address cfg) then None else Some (BindError (listener_address cfg))
  | None => None
  end.

Definition start (args : list (list Z)) : start_error + NodeConfig :=
  match load read_to_string toml_from_str (config_path args) with
  | inl e => inl (ConfigError e)
  | inr config =>
      match version_bytes config with
      | inl e => inl (ConfigError e)
      | inr (ver_major, ver_minor, ver_patch) =>
          let version := mkVersion ver_major ver_minor ver_patch in
          match bind_listener (ipv6 (listen config)) with
          | Some e => inl e
          | None =>
              match bind_listener (ipv4 (listen config)) with
              | Some e => inl e
              | None => inr (node_config config version)
              end
          end
      end
  end.

End start.

(** ** Lemmas *)

(** The handshakes a node configuration makes the proxy send. *)
Definition handshakes (cfg : NodeConfig) : list HandshakeConfig := (l_hs <$> nc_listeners cfg) ++ [nc_outbound cfg].

Definition names_ok (identity : IdentityConfig) : Prop :=
  utf8_valid (id_agent_name identity) = true /\ (length (id_agent_name identity) <= 255)%nat /\
  utf8_valid (id_peer_name identity) = true /\ (length (id_peer_name identity) <= 255)%nat.

Definition listeners_of (config : Config) : list ListenerConfig :=
  option_list (ipv6 (listen config)) ++ option_list (ipv4 (listen config)).

Lemma start_inv fs toml bind args cfg : start fs toml bind args = inr cfg <->
  exists config a b c, load fs toml (config_path args) = inr config /\ version_bytes config = inr (a, b, c) /\
    Forall (fun l => bind (listener_address l) = true) (listeners_of config) /\
    cfg = node_config config (mkVersion a b c).
Proof.
  unfold start, bind_listener, listeners_of. destruct (load fs toml (config_path args)) as [e|config];
    [split; [done|by intros (? & ? & ? & ? & ? & _)]|].
  destruct (version_bytes config) as [e|[[a b] c]] eqn:Ev;
    [split; [done|intros (? & ? & ? & ? & [= <-] & Hx & _); congruence]|].
  split.
  - intros E. exists config, a, b, c. split_and!; [done|done|..];
      destruct (ipv6 (listen config)) as [l6|], (ipv4 (listen config)) as [l4|]; cbn;
      repeat (case_match; try done); simplify_eq; auto using Forall_cons_2, Forall_nil_2.
  - intros (config' & a' & b' & c' & [= <-] & Ev' & Hb & ->). rewrite Ev in Ev'. injection Ev' as <- <- <-.
    destruct (ipv6 (listen config)) as [l6|], (ipv4 (listen config)) as [l4|]; cbn in Hb;
      repeat (apply Forall_cons in Hb as [-> Hb]); done.
Qed.

Lemma handshakes_of config v hs : hs ∈ handshakes (node_config config v) ->
  exists mode, hs = make_handshake_config (identity config) v (proxy_network (proxy config)) mode.
Proof.
  unfold handshakes, node_config. cbn [nc_listeners nc_outbound].
  destruct (ipv6 (listen config)), (ipv4 (listen config)); cbn; rewrite ?elem_of_cons, elem_of_nil; naive_solver.
Qed.

Lemma version_bytes_ok config a b c : version_bytes config = inr (a, b, c) -> version_ok (mkVersion a b c).
Proof.
  rewrite version_bytes_iff. intros (p0 & p1 & p2 & _ & H0 & H1 & H2).
  assert (Hb : forall s n, u8_numeral s n -> u8 n).
  { intros s n (ds & _ & _ & Hd & -> & Hle). pose proof (digits_grow ds 0 ltac:(lia) Hd).
    unfold digits_value in *. solve_width. }
  split_and!; cbn; eauto.
Qed.

(** ** Properties *)

(** C36: what a proxy that has started can offer: it started exactly when its
    configuration passed the checks of [load], has a version and all its
    listeners could be bound; it then serves one listener per configured
    address, with the mode and the limit configured for it. Every handshake it
    sends is made for the network and the version configured. When the two names
    are at most 255 bytes of UTF-8, a receiver parses it back to the name
    configured, and one on the same network then accepts it exactly when the
    version is at least 4.0.100; start-up checks neither the names nor the
    version, and nothing is said here of longer names. *)
Theorem startup_offers fs toml bind args cfg : start fs toml bind args = inr cfg ->
  exists config a b c, load fs toml (config_path args) = inr config /\ version_bytes config = inr (a, b, c) /\
    Forall (fun l => bind (listener_address l) = true) (listeners_of config) /\ nc_listeners cfg <> [] /\
    (fun l => (l_mode l, l_max_inbound l)) <$> nc_listeners cfg
      = (fun l => (listener_mode l, max_inbound l)) <$> listeners_of config /\
    nc_seeds cfg <> [] /\ nc_min_peers cfg <= max_peers (outbound_cfg config) /\
    forall hs, hs ∈ handshakes cfg ->
      network hs = proxy_network (proxy config) /\ cfg_version hs = mkVersion a b c /\
      (config_ok hs <-> names_ok (identity config)) /\
      forall now urandom rest, names_ok (identity config) ->
        exists spec, parse (build now urandom hs ++ rest) = Ok spec /\ name spec = id_peer_name (identity config) /\
          (validate_peer spec (network hs) = inr tt <-> 4 * 65536 + 100 <= a * 65536 + b * 256 + c).
Proof.
  intros (config & a & b & c & Hl & Hv & Hb & ->)%start_inv. exists config, a, b, c.
  pose proof (version_bytes_ok _ _ _ _ Hv) as Hver.
  assert (Hload : is_Some (ipv4 (listen config)) \/ is_Some (ipv6 (listen config))) by
    (revert Hl; unfold load; repeat (case_match; try done); intros; simplify_eq; eauto).
  assert (Hseed : seed_peers (outbound_cfg config) <> [] /\ min_peers (outbound_cfg config) <= max_peers (outbound_cfg config)).
  { revert Hl. unfold load. destruct (fs _) as [content|]; [|done]. destruct (toml content) as [config'|]; [|done].
    rewrite load_checks. repeat case_decide; intros; by simplify_eq. }
  split_and!; [done|done|done| | |by apply Hseed|by apply Hseed|].
  - unfold node_config. cbn. destruct (ipv6 (listen config)), (ipv4 (listen config)); try done. destruct Hload as [[]|[]]; done.
  - unfold node_config, listeners_of. cbn. by destruct (ipv6 (listen config)), (ipv4 (listen config)).
  - intros hs (mode & ->)%handshakes_of. split_and!; [done|done|unfold config_ok, names_ok; cbn; tauto|].
    intros now urandom rest (H1 & H2 & H3 & H4).
    set (hs := make_handshake_config (identity config) (mkVersion a b c) (proxy_network (proxy config)) mode).
    assert (Hok : config_ok hs) by (unfold config_ok; cbn; tauto).
    exists (config_spec urandom hs). destruct (strict_parse_measure _ _ rest (reads_strict now urandom hs Hok)) as [Hp _].
    split_and!; [done|done|]. rewrite config_validate, version_min_iff by done. cbn. tauto.
Qed.

Definition sample_start : start_error + NodeConfig :=
  start (fun _ => Some []) (fun _ => Some sample_config) (fun _ => true) [].

Lemma startup_offers_witness :
  sample_start = inr (node_config sample_config (mkVersion 6 0 3)) /\
  exists config, nc_listeners (node_config sample_config (mkVersion 6 0 3)) <> [] /\
    forall hs, hs ∈ handshakes (node_config sample_config (mkVersion 6 0 3)) ->
      network hs = proxy_network (proxy config).
Proof.
  assert (E : sample_start = inr (node_config sample_config (mkVersion 6 0 3))) by (vm_compute; reflexivity).
  split; [exact E|].
  destruct (startup_offers (fun _ => Some []) (fun _ => Some sample_config) (fun _ => true) []
    (node_config sample_config (mkVersion 6 0 3)) E) as (config & a & b & c & _ & _ & _ & Hl & _ & _ & _ & Hh).
  exists config. split; [exact Hl|]. intros hs Hin. exact (proj1 (Hh hs Hin)).
Defined.

(** A proxy configured with version 4.0.99 starts, and no node of its network,
    another such proxy included, accepts its handshake. *)
Theorem startup_accepts_old_version :
  let old := mkConfig (proxy sample_config) (listen sample_config) (outbound_cfg sample_config)
    (mkIdentityConfig [101] [112] [52; 46; 48; 46; 57; 57]) in
  exists cfg, start (fun _ => Some []) (fun _ => Some old) (fun _ => true) [] = inr cfg /\
    forall hs urandom, hs ∈ handshakes cfg -> validate_peer (config_spec urandom hs) (network hs) <> inr tt.
Proof.
  intros old. exists (node_config old (mkVersion 4 0 99)). split; [vm_compute; reflexivity|].
  intros hs urandom (mode & ->)%handshakes_of Hv. apply config_validate in Hv as [Hv _]. done.
Qed.
